(* ===== verification/_CoqProject ===== *)
-Q . S2P
Prelude.v
Traces.v
Common.v
Types.v
IdGen.v
IdGenMgr.v
Arena.v
Mutation.v
KVStoreBase.v
RocksDB.v
Conflict.v
Serializable.v
DetectorLock.v
Serde.v
Tables.v
Proto.v
Service.v
System.v
Namespace.v
Visibility.v
Restart.v
Fuse.v
Listing.v
Proxy.v
Handles.v
EndToEnd.v
Progress.v
Atomic.v
Linearize.v
Main.v
Startup.v
