(* ===== verification/Prelude.v ===== *)
(** * Rocketfs: a verification of the namenode and of its FUSE client

    Rocketfs keeps the metadata of a file system in a key-value store.  A FUSE client
    (src/client/fuse) turns each system call into one gRPC request to the namenode
    (src/namenode); the namenode opens a transaction, checks permissions, reads and
    writes rows through its tables, and commits.  This development translates that
    path, from the FUSE callback down to the write batch handed to RocksDB, and proves
    what it guarantees.  Paths below are those of the repository, under src/.

    ** Layers and files

    Each file requires those above it only.

    - [Prelude]: this header; the state-and-exception monad [M], machine integers
      ([u64], [u32], [i64]), byte strings and their order, big-endian numbers.
    - [Traces]: runs of a step relation with the events they show, and simulations.
    - [Common]: common/logger.h ([CHECK] throws), common/time_util.h, common/status.h.
      A [Status] is a record; its constructor is [StatusH.Status_make], which may throw.
    - [Types]: the row types of namenode/table/*_base.h and inode_id.h, the column
      families, [CheckPermission].
    - [IdGen]: namenode/common/id_gen.h and .cc.  [IDGen] is the generator, with
      the packed ID as its one field that moves; [Next] and [Update] change it;
      [UpdatePass] is a pass of the loop of [IDGenMgr]; [id_step] gives the load and
      the store of [Update] as separate steps, and [manager_turn] is one or the other, as
      the manager's thread comes to it.
    - [IdGenMgr]: the manager's thread and [IDGenMgr::Stop], and [NameNodeCtx::Start] as
      far as the manager goes: [ThreadLoop], [Stop], [NameNodeCtx_StartMgr].
    - [Arena]: namenode/common/req_scoped_alloc.h, the buffer of a request in
      service/handler_ctx.cc and the allocator adaptor of table/kv/serde.cc:
      [HandlerCtx_resource], [ReqScopedAlloc_allocate], [FBAllocator_allocate] over the
      standard library's monotonic buffer resource.
    - [Mutation]: namenode/common/mutation.h.
    - [KVStoreBase]: namenode/table/kv/kv_store_base.h.  [TxnBase] and [KVStoreBase] are
      the two abstract classes; [TxnSpec]/[TxnLaws] and [KVStoreSpec]/[KVStoreLaws] are
      what the clients rely on.  A store holds a [kvmap] (column family and key to value).
    - [RocksDB], [Conflict]: namenode/table/kv/rocksdb_kv_store.h and .cc.  [RocksDBTxn],
      [RocksDBConflictDetector] and [RocksDBKVStore] are the three classes, with every
      method; [Conflict] proves what they guarantee and gives the instances of
      [TxnLaws] and [KVStoreLaws].
    - [Serializable]: the store with the history of its commits, and what each
      transaction of it has read ([hs_step]).
    - [DetectorLock]: the mutex of the detector, with [IsConflictFree] and [PurgeTo] as
      the coroutines they are: [LockedDetector], [IsConflictFree_async],
      [PurgeTo_async].
    - [Serde]: namenode/table/kv/serde.h and .cc, with proto/inode.fbs and dent.fbs: one
      module per serialiser, and [Serde_Write], the template of their writes.
    - [Tables]: kv_dir_table.h and .cc, kv_dent_view.h and .cc.  [FS] is the abstract
      namespace; [DirTableLaws] and [DEntViewLaws] state the tables in its terms.
    - [Proto]: proto/client_namenode.proto.
    - [Service]: namenode_ctx, handler_ctx and service/operation.  [NameNodeCtx] is the
      context of the process; each [XxxOp_Run] is a handler over [Handler], the context
      with the transaction of the request; [with_handler] opens one per request,
      [XxxOp] is the handler's class and [serve] dispatches.  The handlers are proved against the classes of
      [KVStoreBase] and [Tables], not against RocksDB.
    - [System]: the loop of client_namenode_service_main.cc as the step relation
      [srv_step]: a request served, or a load or a store of the ID manager's thread
      ([tick]).  [Srv] is the context with what that thread has loaded.
    - [Namespace]: the same loop as a function of a list of events ([run_events]), and the
      abstract machine it is compared with ([ns_run]): a namespace, a generator with what
      has been loaded of it, and nothing of rows, transactions and stores.
    - [Visibility]: what a run shows of the directories it created.
    - [Restart]: one run of the namenode after another on the same database
      ([restarts], [life_step]), with the IDs the earlier ones have used.
    - [Fuse]: client/fuse/operation: the request each operation sends and the reply
      it makes, [Finish] included; [FuseAsyncOp] is what a class derived from
      [FuseAsyncOpBase] gives to it; [World] puts the client in front of the namenode.
    - [Listing]: a directory opened and read to its end through both programs.
    - [Proxy]: client/fuse/fuse_ops_proxy.h and .cc and the callbacks of
      fuse_lowlevel_ops.cc.  [Proxy] is what the thread of the session, gRPC and the
      completion thread share; [px_does] has the steps of each.
    - [Handles]: the caches of open directories as memory, and the [fuse_file_info] a
      handle is written through: [Kernel] is the proxy beside what the kernel holds open,
      [k_step] a step under the kernel's promises.
    - [EndToEnd]: the client of [Proxy] in front of the namenode of [Service]:
      [whole_step] interleaves the two programs, their threads and gRPC between them.
    - [Progress]: what the two programs can still do from a state they have reached.
    - [Atomic]: the specification of both programs together, one file system that serves
      each request at one instant ([at_step]), and what its histories guarantee.  The
      IDs of that file system are the generator's, loads and stores included.
    - [Linearize]: the two programs are that object ([whole_does], [whole_sim]).
    - [Main]: the two [main] functions, fuse_main.cc with common/defer.h ([fuse_main],
      [DEFER]) and the end of client_namenode_service_main.cc ([service_main]).
    - [Startup]: the constructors with the pointers they check ([HandlerCtx_new],
      [NameNodeCtx_new]), the handler registered for an RPC ([RegisterRpcHandler]) and the
      namenode from the first line of [main] ([service_process]).

    Calls go down this list.  Responses come back as values; an error status is a
    value too, while a failed [CHECK] is [Throw], which keeps the state reached when
    it was thrown.  A null or empty optional dereference is [Undef].

    ** What the theorems show

    - The namespace stays a tree, as long as IDs are not used twice (see the order of
      [Update]'s stores below): [System.namespace_is_tree] follows from the
      refinement of the handlers ([Service.mkdirs_refines],
      [Service.read_requests_refine]), which follows from that of the tables
      ([Tables.dir_write_refines_update], [Tables.table_reads_refine_namespace],
      [Tables.list_contract]), which rests on the key encoding
      ([Serde.dent_keys_ordered], [Serde.fixed_width_roundtrip]), on the writes of a row
      ([Serde.serde_write_updates_row]) and on the ID generator
      ([IdGen.ids_strictly_increasing]).  Below the namespace, every stored row is of
      the type of its column family, in any order ([System.stored_rows_well_typed]).
    - The namenode is its abstract machine: [Namespace.namenode_equiv_namespace], for any
      sequence of requests and of loads and stores of the manager's thread;
      [Visibility.created_directory_found] follows for runs with no late store: what
      [Mkdirs] made, [Lookup] and [GetInode] find.
    - Restarts: [Restart.namespace_is_tree_across_restarts] says when a restart is safe;
      [Restart.restart_reuses_ids] and [IdGenMgr.restart_timestamp_wraps] show what
      happens otherwise.
    - Transactions: a commit is all or nothing and a transaction reads the snapshot it
      started from ([Conflict.commit_applies_write_set],
      [Conflict.reads_see_start_snapshot]); the verdict of the detector is exactly
      backward validation on the keys of the transactions it holds
      ([Conflict.conflict_free_iff], [Conflict.purge_refuses_older]), not on ranges
      ([Serializable.phantom_rows_admitted]); yet the store
      never tells the detector of a commit, so that no conflict is ever reported and
      updates are lost ([Conflict.store_never_reports_conflict],
      [Conflict.concurrent_commits_both_succeed]).  What is left is a history of
      snapshots, serial where no transaction read what another wrote meanwhile
      ([Serializable.committed_history_snapshots]).  For the same reason the mutex of the
      detector never makes a commit wait ([DetectorLock.commits_never_wait]), although
      a failed check would leave it locked ([DetectorLock.mutex_leaked_by_failed_check]).
    - Permissions: [Types.check_permission_classes] gives [CheckPermission] bit by bit;
      [Service.list_dir_read_bit], [Service.created_dir_locked] and
      [Serde.stored_rows_lose_fields] show what the handlers make of it, with rows that
      are stored without their ACL.
    - Identifiers: overflow, the first ID, the unit of the timestamp, the constructor
      and the race of the two threads ([IdGen.next_moves_timestamp] and the theorems
      that follow it; [IdGen.update_race_duplicates] says how many calls of [Next]
      between the load and the store make an ID come twice); how a generator is used up and why the manager's thread cannot
      be stopped ([IdGenMgr.ids_run_out], [IdGenMgr.stop_never_returns],
      [Main.service_main_never_exits]).
    - The client: [Listing.directory_listing_delivered] says that the listing of a
      directory is what the namespace has, in order and within the buffers of the kernel,
      [Listing.mkdir_then_listed] that it has what [mkdir] made;
      [Listing.empty_directory_listing_fails] and [Listing.rewinddir_throws] give the
      cases where it fails; [Fuse.fuse_mkdir_replies], [Fuse.fuse_lookup_replies],
      and [Fuse.missing_directory_errno] give the
      reply to the kernel in each case of the end-to-end path.  Over the threads of the
      client, [Proxy.every_request_answered_at_most_once] and
      [Proxy.completion_replies_or_leaks] say which requests are answered and which
      operations are never freed, [Proxy.destroy_drains] that [Destroy] can end,
      [Handles.open_handles_live] that the caches of directories live exactly as long as
      their handles, and when the client uses a [fuse_file_info] that is gone;
      [Progress.pending_requests_can_be_answered] that whatever waits can be answered;
      [EndToEnd.every_entry_shown_exists], that the client shows the kernel no entry that
      is not in the namespace;
      [Main.client_releases_in_reverse] follows the resources of [main].
    - Both programs as one object: [Linearize.system_linearizable] says that all the kernel
      sees of the client, gRPC and the namenode, over any interleaving of their threads,
      could be seen of one file system that serves requests at one instant, with a thread
      that loads and stores its IDs; [Linearize.read_after_mkdir]
      carries over what a history of that object guarantees, namely that a directory that
      has been replied to is found by every later request.
    - The objects of the namenode: [Startup.operation_guards_context] and
      [Startup.constructors_pass] say which null checks guard anything.
    - Rows, statuses and memory: [Mutation.mutation_refines_optional_row],
      [Common.status_constructor_total], [Arena.request_blocks_disjoint].

    ** The two orders the identifiers need

    [IDGen::Update] loads the IDs and stores them later, on the manager's thread, and
    calls of [Next] may come in between: [tick], [ns_tick], [at_tick] and [wh_tick] are one
    of the two, everywhere above [IdGen].  A request calls [Next] once at most and shares
    nothing else with that thread, so that a step of it in the middle of a request is
    one before or after the request.  Nothing in the code keeps these orders:

    - a store is [late] when [Next] has passed the timestamp it stores since the load;
      it takes IDs back, and directories made afterwards share inodes with others;
    - before its first store the generator is at zero, below the root's ID, or, after a
      restart, below those in use.

    What rests on unique IDs says so in its statement: [in_order] and [floor] in [System],
    [Restart] and [Visibility], [whole_step_in_time] in [EndToEnd], [in_time] in [Linearize].
    The others ([Namespace.namenode_equiv_namespace], [System.stored_rows_well_typed],
    [Linearize.system_linearizable], [Progress.pending_requests_can_be_answered]) hold in
    any order.

    Runs end at the first exception, which nothing in the source catches, and at the first
    undefined behaviour.

    ** Parameters

    Libraries the source calls are type classes with their documented behaviour
    as laws: [Fmt] (fmt::format on a value), [Build] (what std::source_location reports),
    [RocksDB] with [RocksDBLaws] (snapshots, atomic batches, ordered iterators; each
    call may return an error status), [BigEndian] (absl's loads and stores),
    [FlatBuffers] (the code flatc generates: reading what was packed gives the fields
    back), [Flags] (the command-line flags), [LibFuse] (the size and the bytes of a
    directory entry, and [file_info_kept]) and [BufferGrowth] (how a monotonic buffer resource grows, which the
    standard leaves open).  Closed instances ([MemDB], the [demo_] definitions) satisfy the
    laws, and the witnesses of the theorems run on them.

    [FuseOpenDirOp] keeps the [fuse_file_info] of its callback and writes and replies
    through it after the callback has returned.  libfuse does not document that it keeps
    that memory, so [file_info_kept] may be true or false: where it is false a successful
    [opendir] is undefined behaviour ([use_file_info]), which [Handles.open_handles_live]
    shows to be the only one of its kind.  The theorems about listings, and the [opendir]s
    of [Progress.pending_requests_can_be_answered], ask for a libfuse that keeps it.

    ** Recursion and fuel

    - [GetRange_loop] recurses on the number of values that still fit the limit, which
      the code's loop tests before each one.
    - [Populate_loop] has the number of cached entries as its fuel: each turn of the
      code's loop moves past one entry or stops.
    - [operator_eq_opt_Dir] takes fuel because the code does not return:
      [Tables.optional_dir_equality_diverges] shows that no fuel is enough.
    - [ThreadLoop] counts passes of a loop that has no exit; what is proved of it holds
      for any number of them.
    - [run_events] and [ns_run] recurse on the list of events, [draws] on the number of
      calls; [px_step] and [whole_step] are relations, one step per turn of a thread.
    - [run_allocs] recurses on the list of allocations, [world_reads] and [run_reads] on
      the list of buffers the kernel reads with.
    - [runs] counts the steps of an interleaving; [kv_quiet] says for how many transactions
      the store works, and the theorems over runs ask for no more than one per step, or
      one per RPC under way.
    - [reaches_root] counts the steps to the root; the ID of a directory bounds them, as
      IDs increase from parent to child.

    ** Not modelled

    - gRPC beyond its completion queue; the server's event loop beyond the fact that
      requests are served one after the other on one thread, where they do not wait:
      the store below answers without suspending ([DetectorLock.commits_never_wait]).
    - The building of the gRPC server and how agrpc and unifex run the handlers on it:
      calls of third-party code in main and [RunGrpcCtxForSender].  Whether the server
      could be built is not looked at by the code.
    - Logging, the system clock (its readings are arguments); the RocksDB path flag,
      which no code reads.
    - Pointers, outside [Startup] and [Arena]: those that a constructor checks against
      null are values.  [Startup] has the checks of the namenode; the stub and the queue of
      an operation of the client come from members of the proxy.
    - Bytes: the memory of [Arena] is addresses and sizes, and values elsewhere are not
      tied to it.
    - Two threads of the client in the middle of their callbacks: a callback and a turn
      of the completion thread are each one step of [px_step], as they share the
      cached pages of open directories only, which the kernel reads one at a time.

    The refinement of the handlers asks for non-empty names and for a healthy store
    where it says so; with a store that fails, it says what is left unchanged.

    ** Order of the work

    The transaction store and its detector came first, as everything rests on them,
    then the rows and their keys, the tables, the handlers, the namenode as a whole
    and the client; then the namenode as an abstract machine, its restarts and threads,
    the client's threads, and both programs together; then the histories of
    the store, listings through both programs, and the memory of requests and of open
    directories; and last the two programs as one linearisable object, their progress,
    and how the namenode's objects are put together.  What the list above leaves out is
    third-party code, logging, and a flag that is not read. *)

From Stdlib Require Import ZArith Lia Ascii String.
From stdpp Require Import prelude strings gmap sorting.

#[local] Open Scope Z_scope.

(** ** Notations *)

Declare Scope rocketfs_scope.
Delimit Scope rocketfs_scope with rfs.

(** ** Outcomes of C++ code and the state monad

    [CHECK] (common/logger.h) throws [std::logic_error]; a null dereference is
    undefined behaviour.  Everything else returns a value.  A computation over
    a state [S] keeps the state it had reached when it threw. *)

Inductive outcome (A : Type) : Type :=
| Ret (a : A)
| Throw (what : string)
| Undef.
Arguments Ret {A} a.
Arguments Throw {A} what.
Arguments Undef {A}.

Definition M (S A : Type) : Type := S → outcome A * S.

Definition ret {S A} (a : A) : M S A := λ s, (Ret a, s).
Definition throw {S A} (what : string) : M S A := λ s, (Throw what, s).
Definition undef {S A} : M S A := λ s, (Undef, s).
Definition bind {S A B} (m : M S A) (k : A → M S B) : M S B :=
  λ s, match m s with
       | (Ret a, s') => k a s'
       | (Throw w, s') => (Throw w, s')
       | (Undef, s') => (Undef, s')
       end.
Definition gets {S A} (f : S → A) : M S A := λ s, (Ret (f s), s).
Definition modify {S} (f : S → S) : M S unit := λ s, (Ret tt, f s).
Definition of_outcome {S A} (o : outcome A) : M S A := λ s, (o, s).

(** Run a computation over a component [T] of a larger state [S]. *)
Definition zoom {S T A} (get : S → T) (set : T → S → S) (m : M T A) : M S A :=
  λ s, let '(o, t) := m (get s) in (o, set t s).

Notation "'let!' x ':=' c1 'in' c2" := (bind c1 (λ x, c2))
  (at level 10, x binder, c1 at level 200, c2 at level 200) : rocketfs_scope.
Notation "'do!' c1 'in' c2" := (bind c1 (λ _, c2))
  (at level 10, c1 at level 200, c2 at level 200) : rocketfs_scope.
#[global] Open Scope rocketfs_scope.

(** [std::variant<std::monostate, std::optional<A>>]. *)
Inductive variant_mo (A : Type) : Type :=
| monostate
| optional (o : option A).
Arguments monostate {A}.
Arguments optional {A} o.

(** ** Machine-width integers *)

Definition u8 (z : Z) : Z := z mod 2 ^ 8.
Definition u32 (z : Z) : Z := z mod 2 ^ 32.
Definition u64 (z : Z) : Z := z mod 2 ^ 64.
Definition i32 (z : Z) : Z := (z + 2 ^ 31) mod 2 ^ 32 - 2 ^ 31.
Definition i64 (z : Z) : Z := (z + 2 ^ 63) mod 2 ^ 64 - 2 ^ 63.

Definition is_u8 (z : Z) : Prop := 0 ≤ z < 2 ^ 8.
Definition is_u32 (z : Z) : Prop := 0 ≤ z < 2 ^ 32.
Definition is_u64 (z : Z) : Prop := 0 ≤ z < 2 ^ 64.
Definition is_i64 (z : Z) : Prop := - 2 ^ 63 ≤ z < 2 ^ 63.

#[global] Arguments u8 : simpl never.
#[global] Arguments u32 : simpl never.
#[global] Arguments u64 : simpl never.
#[global] Arguments i32 : simpl never.
#[global] Arguments i64 : simpl never.
#[global] Arguments Z.pow : simpl never.

(** ** Byte strings: big-endian numbers

    [std::string] and [std::string_view] hold bytes; they are Rocq strings,
    whose [String.compare] is the bytewise order of [operator<] and of
    RocksDB's default comparator. *)

Definition ascii_of_Z (z : Z) : ascii := ascii_of_N (Z.to_N (z mod 256)).
Definition Z_of_ascii (c : ascii) : Z := Z.of_N (N_of_ascii c).

(** The [n] low bytes of [v], most significant first, and back. *)
Fixpoint encode_be (n : nat) (v : Z) : string :=
  match n with
  | O => EmptyString
  | S n => String (ascii_of_Z (Z.shiftr v (8 * Z.of_nat n))) (encode_be n v)
  end.
Fixpoint decode_be (s : string) : Z :=
  match s with
  | EmptyString => 0
  | String c s => Z.lor (Z.shiftl (Z_of_ascii c) (8 * Z.of_nat (String.length s))) (decode_be s)
  end.

Definition str_ltb (a b : string) : bool :=
  match String.compare a b with Lt => true | _ => false end.
Definition str_leb (a b : string) : bool :=
  match String.compare a b with Gt => false | _ => true end.
Definition str_le (a b : string) : Prop := str_leb a b = true.
#[global] Instance str_le_dec : RelDecision str_le.
Proof. intros a b. unfold str_le. apply _. Defined.

Lemma u64_small (z : Z) : is_u64 z → u64 z = z.
Proof. unfold u64, is_u64. intros. apply Z.mod_small. lia. Qed.

Lemma u64_is_u64 (z : Z) : is_u64 (u64 z).
Proof. unfold u64, is_u64. apply Z.mod_pos_bound. lia. Qed.

Lemma u32_small (z : Z) : is_u32 z → u32 z = z.
Proof. unfold u32, is_u32. intros. apply Z.mod_small. lia. Qed.

Lemma u32_is_u32 (z : Z) : is_u32 (u32 z).
Proof. unfold u32, is_u32. apply Z.mod_pos_bound. lia. Qed.

Lemma i64_small (z : Z) : is_i64 z → i64 z = z.
Proof. unfold i64, is_i64. intros. rewrite Z.mod_small; lia. Qed.

Lemma i64_u64 (z : Z) : is_i64 z → i64 (u64 z) = z.
Proof.
  unfold i64, u64, is_i64. intros.
  rewrite Z.add_mod_idemp_l by lia. rewrite Z.mod_small; lia.
Qed.

Lemma u64_i64 (z : Z) : is_u64 z → u64 (i64 z) = z.
Proof.
  unfold i64, u64, is_u64. intros.
  rewrite Zminus_mod, Z.mod_mod, <- Zminus_mod by lia.
  rewrite Z.mod_small; lia.
Qed.

Lemma lor_shiftl_add (a b n : Z) :
  0 ≤ n → 0 ≤ b < 2 ^ n → Z.lor (Z.shiftl a n) b = a * 2 ^ n + b.
Proof.
  intros Hn Hb. rewrite <- Z.add_nocarry_lor; [by rewrite Z.shiftl_mul_pow2|].
  apply Z.bits_inj'. intros i Hi.
  rewrite Z.land_spec, Z.bits_0. destruct (decide (i < n)).
  - by rewrite Z.shiftl_spec_low.
  - rewrite <- (Z.mod_small b (2 ^ n)) by lia.
    by rewrite Z.mod_pow2_bits_high, andb_false_r by lia.
Qed.

(** *** Bytes *)

Lemma Z_of_ascii_range (c : ascii) : 0 ≤ Z_of_ascii c < 256.
Proof.
  unfold Z_of_ascii. pose proof (N_ascii_bounded c). lia.
Qed.

Lemma Z_of_ascii_of_Z (z : Z) : Z_of_ascii (ascii_of_Z z) = z mod 256.
Proof.
  unfold Z_of_ascii, ascii_of_Z. pose proof (Z.mod_pos_bound z 256 ltac:(lia)).
  rewrite N_ascii_embedding by lia. lia.
Qed.

Lemma ascii_of_Z_of_ascii (c : ascii) : ascii_of_Z (Z_of_ascii c) = c.
Proof.
  unfold ascii_of_Z. rewrite Z.mod_small by apply Z_of_ascii_range.
  unfold Z_of_ascii. rewrite N2Z.id. apply ascii_N_embedding.
Qed.

Lemma ascii_compare_Z (a b : ascii) : Ascii.compare a b = (Z_of_ascii a ?= Z_of_ascii b).
Proof. unfold Z_of_ascii, Ascii.compare. by rewrite N2Z.inj_compare. Qed.

(** *** The bytewise order *)

Lemma str_compare_refl (a : string) : String.compare a a = Eq.
Proof.
  induction a as [|c a IH]; simpl; [done|]. by rewrite ascii_compare_Z, Z.compare_refl.
Qed.

Lemma str_compare_eq (a b : string) : String.compare a b = Eq ↔ a = b.
Proof. split; [apply String.compare_eq_iff | intros ->; apply str_compare_refl]. Qed.

Lemma str_compare_trans_lt (a b c : string) :
  String.compare a b = Lt → String.compare b c = Lt → String.compare a c = Lt.
Proof.
  revert b c. induction a as [|x a IH]; intros [|y b] [|z c]; simpl; try done.
  rewrite !ascii_compare_Z.
  destruct (Z.compare_spec (Z_of_ascii x) (Z_of_ascii y));
    destruct (Z.compare_spec (Z_of_ascii y) (Z_of_ascii z)); try done;
    destruct (Z.compare_spec (Z_of_ascii x) (Z_of_ascii z)); try done; try lia.
  eauto.
Qed.

Lemma str_ltb_iff (a b : string) : str_ltb a b = true ↔ String.compare a b = Lt.
Proof. unfold str_ltb. by destruct (String.compare a b). Qed.

Lemma str_leb_iff (a b : string) : str_leb a b = true ↔ str_ltb b a = false.
Proof.
  unfold str_leb, str_ltb. rewrite (String.compare_antisym b a).
  by destruct (String.compare a b).
Qed.

Lemma str_ltb_irrefl (a : string) : str_ltb a a = false.
Proof. unfold str_ltb. by rewrite str_compare_refl. Qed.

Lemma str_leb_cases (a b : string) : str_leb a b = true ↔ str_ltb a b = true ∨ a = b.
Proof.
  unfold str_leb, str_ltb. rewrite <- str_compare_eq.
  destruct (String.compare a b); intuition congruence.
Qed.

Lemma str_ltb_trans (a b c : string) :
  str_ltb a b = true → str_ltb b c = true → str_ltb a c = true.
Proof. rewrite !str_ltb_iff. apply str_compare_trans_lt. Qed.

Lemma str_leb_ltb_trans (a b c : string) :
  str_leb a b = true → str_ltb b c = true → str_ltb a c = true.
Proof. rewrite str_leb_cases. intros [?| ->]; eauto using str_ltb_trans. Qed.

#[global] Instance str_le_trans : Transitive str_le.
Proof.
  intros a b c. unfold str_le. rewrite !str_leb_cases.
  intros [?| ->] [?| ->]; eauto using str_ltb_trans.
Qed.

#[global] Instance str_le_total : Total str_le.
Proof.
  intros a b. unfold str_le, str_leb. rewrite (String.compare_antisym b a).
  destruct (String.compare a b); simpl; auto.
Qed.

#[global] Instance str_le_antisymm : AntiSymm (=) str_le.
Proof.
  intros a b. unfold str_le, str_leb. rewrite (String.compare_antisym b a).
  destruct (String.compare a b) eqn:E; simpl; try done.
  intros _ _. by apply str_compare_eq.
Qed.

Lemma str_compare_app (p a b : string) :
  String.compare (p +:+ a) (p +:+ b) = String.compare a b.
Proof.
  induction p as [|c p IH]; simpl; [done|].
  by rewrite ascii_compare_Z, Z.compare_refl.
Qed.

Lemma str_compare_app_ne (p q a b : string) :
  String.length p = String.length q → String.compare p q ≠ Eq →
  String.compare (p +:+ a) (q +:+ b) = String.compare p q.
Proof.
  revert q. induction p as [|c p IH]; intros [|d q]; simpl; try done.
  intros [=]. destruct (Ascii.compare c d); auto.
Qed.

Lemma str_app_length (a b : string) :
  String.length (a +:+ b) = (String.length a + String.length b)%nat.
Proof. induction a as [|c a IH]; simpl; [done|]. by rewrite IH. Qed.

Lemma str_app_inj_length (a b c d : string) :
  String.length a = String.length c → a +:+ b = c +:+ d → a = c ∧ b = d.
Proof.
  revert c. induction a as [|x a IH]; intros [|y c]; simpl; try done.
  intros [= Hl] [= -> Ht]. by destruct (IH c Hl Ht) as [-> ->].
Qed.

(** *** Big-endian encodings *)

Lemma encode_be_length (n : nat) (v : Z) : String.length (encode_be n v) = n.
Proof. induction n; simpl; congruence. Qed.

Lemma pow256 (n : nat) : 2 ^ (8 * Z.of_nat n) = 256 ^ Z.of_nat n.
Proof. rewrite Z.pow_mul_r by lia. done. Qed.

Lemma encode_be_S (n : nat) (v : Z) :
  encode_be (S n) v = String (ascii_of_Z (v / 256 ^ Z.of_nat n)) (encode_be n v).
Proof. cbn [encode_be]. by rewrite Z.shiftr_div_pow2, pow256 by lia. Qed.

Lemma decode_be_cons (c : ascii) (s : string) :
  decode_be s < 256 ^ Z.of_nat (String.length s) → 0 ≤ decode_be s →
  decode_be (String c s) = Z_of_ascii c * 256 ^ Z.of_nat (String.length s) + decode_be s.
Proof. intros. cbn [decode_be]. rewrite lor_shiftl_add; rewrite ?pow256; lia. Qed.

Lemma decode_be_range (s : string) : 0 ≤ decode_be s < 256 ^ Z.of_nat (String.length s).
Proof.
  induction s as [|c s IH]; [simpl; lia|].
  rewrite decode_be_cons by lia. cbn [String.length].
  rewrite Nat2Z.inj_succ, Z.pow_succ_r by lia.
  pose proof (Z_of_ascii_range c). nia.
Qed.

Lemma decode_encode_be (n : nat) (v : Z) : decode_be (encode_be n v) = v mod 256 ^ Z.of_nat n.
Proof.
  induction n as [|n IH]; [by rewrite Z.mod_1_r|].
  rewrite encode_be_S, decode_be_cons by (rewrite ?encode_be_length; apply decode_be_range || (rewrite IH; apply Z.mod_pos_bound; lia)).
  rewrite IH, encode_be_length, Z_of_ascii_of_Z, Nat2Z.inj_succ, Z.pow_succ_r by lia.
  rewrite (Z.mul_comm 256), Z.rem_mul_r by lia. lia.
Qed.

Lemma ascii_of_Z_mod (z : Z) : ascii_of_Z (z mod 256) = ascii_of_Z z.
Proof. unfold ascii_of_Z. by rewrite Z.mod_mod by lia. Qed.

Lemma ascii_of_Z_cong (x y : Z) : x mod 256 = y mod 256 → ascii_of_Z x = ascii_of_Z y.
Proof. unfold ascii_of_Z. by intros ->. Qed.

Lemma encode_be_mod (n m : nat) (v : Z) :
  (n ≤ m)%nat → encode_be n (v mod 256 ^ Z.of_nat m) = encode_be n v.
Proof.
  induction n as [|n IH]; intros; [done|].
  rewrite !encode_be_S, IH by lia. f_equal. apply ascii_of_Z_cong.
  replace (Z.of_nat m) with (Z.of_nat n + (1 + Z.of_nat (m - n - 1))) by lia.
  rewrite !Z.pow_add_r by lia.
  set (p := 256 ^ Z.of_nat n). set (q := 256 ^ Z.of_nat (m - n - 1)).
  assert (0 < p ∧ 0 < q) by (unfold p, q; lia).
  rewrite Z.rem_mul_r, (Z.mul_comm p), Z.div_add, Z.div_small, Z.add_0_l
    by first [lia | apply Z.mod_pos_bound; lia].
  change (256 ^ 1) with 256. rewrite Z.rem_mul_r, (Z.mul_comm 256), Z.mod_add by lia.
  by rewrite Z.mod_mod by lia.
Qed.

Lemma encode_decode_be (s : string) : encode_be (String.length s) (decode_be s) = s.
Proof.
  induction s as [|c s IH]; [done|].
  pose proof (decode_be_range s). pose proof (Z_of_ascii_range c).
  cbn [String.length]. rewrite encode_be_S, decode_be_cons by lia.
  rewrite Z.div_add_l, Z.div_small, Z.add_0_r, ascii_of_Z_of_ascii by lia. f_equal.
  rewrite <- (encode_be_mod _ (String.length s)) by lia.
  by rewrite Z.add_comm, Z.mod_add, Z.mod_small by lia.
Qed.

(** The encoding of numbers that fit is strictly monotone. *)
Lemma encode_be_compare (n : nat) (a b : Z) :
  0 ≤ a < 256 ^ Z.of_nat n → 0 ≤ b < 256 ^ Z.of_nat n →
  String.compare (encode_be n a) (encode_be n b) = (a ?= b).
Proof.
  revert a b. induction n as [|n IH]; intros a b Ha Hb.
  { simpl in *. by replace b with a by lia; rewrite Z.compare_refl. }
  rewrite Nat2Z.inj_succ, Z.pow_succ_r in Ha, Hb by lia.
  rewrite !encode_be_S. cbn [String.compare].
  set (p := 256 ^ Z.of_nat n) in *. assert (0 < p) by (unfold p; lia).
  rewrite <- (encode_be_mod n n a), <- (encode_be_mod n n b) by lia. fold p.
  rewrite IH by (apply Z.mod_pos_bound; lia).
  rewrite ascii_compare_Z, !Z_of_ascii_of_Z.
  assert (0 ≤ a / p < 256) by (split; [apply Z.div_pos; lia | apply Z.div_lt_upper_bound; lia]).
  assert (0 ≤ b / p < 256) by (split; [apply Z.div_pos; lia | apply Z.div_lt_upper_bound; lia]).
  rewrite !Z.mod_small by lia.
  pose proof (Z.div_mod a p ltac:(lia)). pose proof (Z.div_mod b p ltac:(lia)).
  pose proof (Z.mod_pos_bound a p ltac:(lia)). pose proof (Z.mod_pos_bound b p ltac:(lia)).
  destruct (Z.compare_spec (a / p) (b / p)); symmetry.
  - destruct (Z.compare_spec (a mod p) (b mod p));
      [apply Z.compare_eq_iff | apply Z.compare_lt_iff | apply Z.compare_gt_iff]; nia.
  - apply Z.compare_lt_iff. nia.
  - apply Z.compare_gt_iff. nia.
Qed.

(** ** Reasoning about [M] *)

Lemma bind_Ret {S A B} (m : M S A) (k : A → M S B) s a s' :
  m s = (Ret a, s') → bind m k s = k a s'.
Proof. unfold bind. by intros ->. Qed.

Lemma bind_Ret_inv {S A B} (m : M S A) (k : A → M S B) s b s'' :
  bind m k s = (Ret b, s'') → ∃ a s', m s = (Ret a, s') ∧ k a s' = (Ret b, s'').
Proof. unfold bind. destruct (m s) as [[a|w|] s']; naive_solver. Qed.

Lemma bind_assoc {S A B C} (m : M S A) (k : A → M S B) (k' : B → M S C) s :
  bind (bind m k) k' s = bind m (λ a, bind (k a) k') s.
Proof. unfold bind. by destruct (m s) as [[a|w|] s']. Qed.

(** Split a successful run of a [bind] into the runs of its parts. *)
Ltac bind_inv H :=
  let a := fresh "a" in let s := fresh "s" in let H1 := fresh H in
  apply bind_Ret_inv in H as (a & s & H1 & H).

(** A closed decidable goal, by evaluation. *)
Ltac decide_closed := apply (bool_decide_eq_true_1 _); vm_compute; reflexivity.
