(* ===== verification/Traces.v ===== *)
(** Runs of step relations that show events, and simulation between two of them.

    [runs step n s h s'] is a run of [n] steps from [s] to [s'] whose events, in order,
    are the history [h]; a step may show several events or none.  [runs_simulated] lifts
    a simulation of single steps to histories: what one relation shows the other shows
    too. *)

From stdpp Require Import prelude.

Section runs.
Context {S E : Type} (step : S → list E → S → Prop).

Inductive runs : nat → S → list E → S → Prop :=
| runs_nil s : runs 0 s [] s
| runs_cons n s e s1 h s2 : step s e s1 → runs n s1 h s2 → runs (1 + n) s (e ++ h) s2.

Lemma runs_app n m s h s1 h' s2 :
  runs n s h s1 → runs m s1 h' s2 → runs (n + m) s (h ++ h') s2.
Proof.
  induction 1 as [|n s e s0 h s1 Hs _ IH]; [done|]. intros Hr. rewrite <- app_assoc.
  exact (runs_cons _ _ _ _ _ _ Hs (IH Hr)).
Qed.

Lemma runs_one s e s1 : step s e s1 → runs 1 s e s1.
Proof. intros Hs. rewrite <- (app_nil_r e). by apply (runs_cons 0 s e s1 [] s1); [|constructor]. Qed.

(** Rule induction, with what the history says so far. *)
Lemma runs_invariant (P : list E → S → Prop) :
  (∀ h s e s', step s e s' → P h s → P (h ++ e) s') →
  ∀ n s h s', runs n s h s' → ∀ h0, P h0 s → P (h0 ++ h) s'.
Proof.
  intros Hstep n s h s'. induction 1 as [s|n s e s1 h s2 Hs _ IH]; intros h0 Hp.
  - by rewrite app_nil_r.
  - rewrite app_assoc. by eapply IH, Hstep.
Qed.
End runs.

Section simulation.
Context {S A E : Type} (step : S → list E → S → Prop) (astep : A → list E → A → Prop)
  (R : nat → S → A → Prop).

(** [R n] relates states with [n] steps to come. *)
Definition simulates : Prop :=
  ∀ n s e s' a, step s e s' → R (1 + n) s a → ∃ m a', runs astep m a e a' ∧ R n s' a'.

Lemma runs_simulated n k s h s' a :
  simulates → runs step n s h s' → R (n + k) s a → ∃ m a', runs astep m a h a' ∧ R k s' a'.
Proof.
  intros Hsim Hr. revert a. induction Hr as [s|n s e s1 h s2 Hs _ IH]; intros a Ha.
  - exists 0, a. split; [constructor|done].
  - destruct (Hsim _ _ _ _ _ Hs Ha) as (m & a1 & Hr1 & Ha1).
    destruct (IH a1 Ha1) as (m' & a2 & Hr2 & Ha2). exists (m + m'), a2.
    split; [by eapply runs_app|done].
Qed.
End simulation.
