(* ===== verification/Common.v ===== *)
(** Common services: the [CHECK] macros of src/common/logger.h, the time
    constants of src/common/time_util.h and [Status] (src/common/status.h).

    The fmt library is a parameter ([Fmt]): a format string with [{}] holes is
    the concatenation of its literal parts and of the formatted arguments.  The
    file and line [std::source_location::current()] reports for a call are
    compiler output, a parameter as well ([Build]), keyed by the source file
    and the line on which the call starts. *)

From Stdlib Require Import ZArith Lia Ascii String.
From stdpp Require Import prelude strings gmap sorting pretty.
From S2P Require Import Prelude.

#[local] Open Scope Z_scope.

(** ** logger.h *)

Module Logger.

(** [Check]: logging aside, a failed check throws [std::logic_error]. *)
Definition Check {S} (condition : bool) (str : string) : M S unit :=
  if condition then ret tt else throw ("Check failed: " +:+ str +:+ ".")%string.

End Logger.
Export Logger.

(** ** time_util.h *)

Module TimeUtil.

Definition kSecToMs : Z := 1000.
Definition kMsToUs : Z := 1000.
Definition kUsToNs : Z := 1000.
Definition kSecToNs : Z := kSecToMs * kMsToUs * kUsToNs.

End TimeUtil.
Export TimeUtil.

(** ** status.h *)

Class Fmt := {
  fmt_int : Z → string;      (* "{}" of an integer *)
  fmt_04o : Z → string;      (* "{:04o}" *)
}.

Record source_location := { file_name : string; line : Z }.

Class Build := { location_at : string → Z → source_location }.

Module StatusH.

Inductive StatusCode :=
| kSystemError
| kInvalidArgumentError
| kPermissionError
| kAlreadyExistsError
| kNotFoundError
| kNotDirError
| kParentNotFoundError
| kParentNotDirError
| kConflictError.

#[global] Instance StatusCode_eq_dec : EqDecision StatusCode.
Proof. solve_decision. Defined.

(** [static_cast<int>(status_code)]. *)
Definition StatusCode_to_int (c : StatusCode) : Z :=
  match c with
  | kSystemError => 1
  | kInvalidArgumentError => 2
  | kPermissionError => 3
  | kAlreadyExistsError => 4
  | kNotFoundError => 5
  | kNotDirError => 6
  | kParentNotFoundError => 7
  | kParentNotDirError => 8
  | kConflictError => 1002
  end.

Record Status := { status_code_ : StatusCode; msg_ : string }.

(** [std::string::back], where there is a last character. *)
Fixpoint str_back (s : string) : option ascii :=
  match s with
  | EmptyString => None
  | String c EmptyString => Some c
  | String _ s => str_back s
  end.
Definition str_empty (s : string) : bool :=
  match s with EmptyString => true | _ => false end.
Definition back_is_dot (s : string) : bool :=
  match str_back s with Some c => Ascii.eqb c "." | None => false end.

Definition GetMsg (st : Status) : string := msg_ st.

Section status.
Context `{Fmt}.

(** The private constructor: the composed message and its two checks. *)
Definition Status_msg (status_code : StatusCode) (msg : string)
    (internal_error : option Status) (location : source_location) : string :=
  ("Error " +:+ fmt_int (StatusCode_to_int status_code) +:+ " at location "
   +:+ file_name location +:+ ":" +:+ fmt_int (line location)
   +:+ (if str_empty msg then "." else ": " +:+ msg)
   +:+ match internal_error with
       | None => ""
       | Some e => " Caused by: " +:+ GetMsg e
       end)%string.

Definition Status_make {S} (status_code : StatusCode) (msg : string)
    (internal_error : option Status) (location : source_location) : M S Status :=
  let m := Status_msg status_code msg internal_error location in
  do! Check (str_empty msg || back_is_dot msg) "msg.empty() || msg.back() == '.'" in
  do! Check (back_is_dot m) "(msg_.back()) == ('.')" in
  ret {| status_code_ := status_code; msg_ := m |}.

Definition SystemError {S} (location : source_location) (msg : string)
    (internal_error : option Status) : M S Status :=
  Status_make kSystemError msg internal_error location.
Definition InvalidArgumentError {S} (location : source_location) (msg : string)
    (internal_error : option Status) : M S Status :=
  Status_make kInvalidArgumentError msg internal_error location.
Definition PermissionError {S} (location : source_location) (msg : string)
    (internal_error : option Status) : M S Status :=
  Status_make kPermissionError msg internal_error location.
Definition AlreadyExistsError {S} (location : source_location) (msg : string)
    (internal_error : option Status) : M S Status :=
  Status_make kAlreadyExistsError msg internal_error location.
Definition NotFoundError {S} (location : source_location) (msg : string)
    (internal_error : option Status) : M S Status :=
  Status_make kNotFoundError msg internal_error location.
Definition NotDirError {S} (location : source_location) (msg : string)
    (internal_error : option Status) : M S Status :=
  Status_make kNotDirError msg internal_error location.
Definition ParentNotFoundError {S} (location : source_location) (msg : string)
    (internal_error : option Status) : M S Status :=
  Status_make kParentNotFoundError msg internal_error location.
Definition ParentNotDirError {S} (location : source_location) (msg : string)
    (internal_error : option Status) : M S Status :=
  Status_make kParentNotDirError msg internal_error location.
Definition ConflictError {S} (location : source_location) (msg : string)
    (internal_error : option Status) : M S Status :=
  Status_make kConflictError msg internal_error location.

End status.

(** A protobuf response with the two error fields. *)
Class ErrorResp (Resp : Type) := {
  resp_default : Resp;
  set_error_code : Z → Resp → Resp;
  set_error_msg : string → Resp → Resp;
}.

Definition MakeError {Resp} `{ErrorResp Resp} (st : Status) : Resp :=
  set_error_msg (msg_ st)
    (set_error_code (StatusCode_to_int (status_code_ st)) resp_default).

(** [std::expected<T, Status>]. *)
Inductive expected (A : Type) : Type :=
| Val (a : A)
| Unexp (e : Status).
#[global] Arguments Val {A} a.
#[global] Arguments Unexp {A} e.

(** Every [Status] in use ends with a full stop. *)
Definition status_wf (st : Status) : Prop := back_is_dot (msg_ st) = true.
Definition msg_wf (msg : string) : Prop := msg = ""%string ∨ back_is_dot msg = true.

End StatusH.
Export StatusH.


(** Concrete parameters, used to evaluate closed examples only. *)
Definition demo_fmt : Fmt := {| fmt_int := λ z, pretty z; fmt_04o := λ z, pretty z |}.
Definition demo_build : Build :=
  {| location_at := λ f l, {| file_name := f; line := l |} |}.

(** ** Lemmas *)

Section status_lemmas.
Context `{Fmt}.

Lemma str_back_app (a b : string) : b ≠ ""%string → str_back (a +:+ b) = str_back b.
Proof.
  intros Hb. induction a as [|x a IH]; [done|].
  rewrite <- IH. cbn. by destruct a, b.
Qed.

Lemma string_app_nil_r (a : string) : (a +:+ "")%string = a.
Proof. induction a as [|x a IH]; [done|]. exact (f_equal (String x) IH). Qed.

Lemma string_app_assoc (a b c : string) : ((a +:+ b) +:+ c)%string = (a +:+ (b +:+ c))%string.
Proof. induction a as [|x a IH]; [done|]. exact (f_equal (String x) IH). Qed.

Lemma back_is_dot_app (a b : string) : b ≠ ""%string → back_is_dot (a +:+ b) = back_is_dot b.
Proof. intros. unfold back_is_dot. by rewrite str_back_app. Qed.

Lemma str_app_ne_r (a b : string) : b ≠ ""%string → (a +:+ b)%string ≠ ""%string.
Proof. by destruct a. Qed.

Lemma back_is_dot_ne (a : string) : back_is_dot a = true → a ≠ ""%string.
Proof. by intros ? ->. Qed.

(** The composed message ends with a full stop when its parts do. *)
Lemma Status_msg_dot code msg internal loc :
  msg_wf msg → (∀ e, internal = Some e → status_wf e) →
  back_is_dot (Status_msg code msg internal loc) = true.
Proof.
  intros Hm Hi. unfold Status_msg.
  set (tail := match internal with None => ""%string | Some e => _ end).
  assert (Ht : tail = ""%string ∨ back_is_dot tail = true).
  { unfold tail. destruct internal as [e|]; [right | by left].
    unfold GetMsg. pose proof (Hi e eq_refl) as He.
    rewrite back_is_dot_app; auto using back_is_dot_ne. }
  set (body := (if str_empty msg then _ else _)).
  assert (Hb : back_is_dot body = true).
  { unfold body. destruct Hm as [-> | Hm]; [done|].
    destruct msg as [|c msg]; [done|]. cbn [str_empty]. by rewrite back_is_dot_app. }
  assert (Hbt : back_is_dot (body +:+ tail) = true).
  { destruct Ht as [-> | Ht]; [by rewrite string_app_nil_r|].
    rewrite back_is_dot_app; auto using back_is_dot_ne. }
  generalize dependent (body +:+ tail)%string. clear. intros bt Hbt.
  rewrite !back_is_dot_app; eauto 10 using back_is_dot_ne, str_app_ne_r.
Qed.

(** The constructor, from well-formed parts: no check fires. *)
Lemma Status_make_ok {S} code msg internal loc (s : S) :
  msg_wf msg → (∀ e, internal = Some e → status_wf e) →
  Status_make code msg internal loc s
  = (Ret {| status_code_ := code; msg_ := Status_msg code msg internal loc |}, s).
Proof.
  intros Hm Hi. unfold Status_make. rewrite (Status_msg_dot code msg internal loc Hm Hi).
  destruct Hm as [-> | ->]; [done|]. by rewrite orb_true_r.
Qed.

Lemma Status_make_cases {S} code msg internal loc (s : S) :
  (∀ e, internal = Some e → status_wf e) →
  (msg_wf msg ∧
   ∃ st, Status_make code msg internal loc s = (Ret st, s) ∧
         status_code_ st = code ∧ status_wf st) ∨
  (¬ msg_wf msg ∧
   Status_make code msg internal loc s =
     (Throw "Check failed: msg.empty() || msg.back() == '.'.", s)).
Proof.
  intros Hi. destruct (str_empty msg || back_is_dot msg) eqn:E.
  - left. assert (msg_wf msg) as Hm.
    { apply orb_true_iff in E as [E|E]; [left; by destruct msg | by right]. }
    split; [done|]. eexists. rewrite Status_make_ok by done.
    split; [done|]. split; [done|]. by apply Status_msg_dot.
  - right. apply orb_false_iff in E as [E1 E2]. split.
    + by intros [-> | Hm]; [|congruence].
    + unfold Status_make. by rewrite E1, E2.
Qed.

(** What a status built from well-formed parts looks like. *)
Lemma Status_make_wf {S} code msg internal loc (s : S) :
  msg_wf msg → (∀ e, internal = Some e → status_wf e) →
  ∃ st, Status_make code msg internal loc s = (Ret st, s) ∧
        status_code_ st = code ∧ status_wf st.
Proof.
  intros Hm Hi. by destruct (Status_make_cases code msg internal loc s Hi) as [[_ ?]|[]].
Qed.

(** The same, followed by what is done with the status. *)
Lemma Status_make_bind {S A} code msg internal loc (k : Status → M S A) (s : S) :
  msg_wf msg → (∀ e, internal = Some e → status_wf e) →
  ∃ st, bind (Status_make code msg internal loc) k s = k st s ∧
        status_code_ st = code ∧ status_wf st.
Proof.
  intros Hm Hi. destruct (Status_make_wf code msg internal loc s Hm Hi) as (st & E & Hst).
  exists st. split; [|done]. by apply bind_Ret.
Qed.
End status_lemmas.

(** Literal messages with formatted holes are well formed. *)
Ltac solve_msg_wf :=
  solve [ left; reflexivity
        | right; rewrite ?back_is_dot_app
            by (repeat first [discriminate | apply str_app_ne_r]); reflexivity ].

(** Codes are distinct, and never the "no error" code 0. *)
Lemma StatusCode_to_int_inj c c' : StatusCode_to_int c = StatusCode_to_int c' → c = c'.
Proof. by destruct c, c'. Qed.

Lemma StatusCode_to_int_pos c : 0 < StatusCode_to_int c.
Proof. by destruct c. Qed.

(** ** Properties *)

(** [Status]'s constructor either returns a status whose
    message ends with a full stop, or throws on its first check, and it throws
    exactly for a non-empty message without a final full stop; the second check
    never fires, because the internal error's message ends with one too. *)
Theorem status_constructor_total `{Fmt} {S} (code : StatusCode) (msg : string)
    (internal : option Status) (loc : source_location) (s : S)
    (Hi : ∀ e, internal = Some e → status_wf e) :
  (msg_wf msg ∧
   ∃ st, Status_make code msg internal loc s = (Ret st, s) ∧
         status_code_ st = code ∧ status_wf st) ∨
  (¬ msg_wf msg ∧
   Status_make code msg internal loc s =
     (Throw "Check failed: msg.empty() || msg.back() == '.'.", s)).
Proof.
  by apply Status_make_cases.
Qed.

Lemma status_constructor_total_witness :
  (∀ e : Status, None = Some e → status_wf e) ∧
  ¬ msg_wf "oops" ∧
  @Status_make demo_fmt unit kSystemError "oops" None {| file_name := "a.cc"; line := 1 |} tt =
    (Throw "Check failed: msg.empty() || msg.back() == '.'.", tt).
Proof.
  split; [done|].
  destruct (@status_constructor_total demo_fmt unit kSystemError "oops" None
              {| file_name := "a.cc"; line := 1 |} tt ltac:(done)) as [[H _]|H]; [|exact H].
  exfalso. destruct H as [H|H]; vm_compute in H; discriminate H.
Defined.
