(* ===== verification/Types.v ===== *)
(** The rows of the metadata tables: src/namenode/table/inode_id.h,
    dir_table_base.h (with [CheckPermission]), file_table_base.h,
    hard_link_table_base.h and kv/column_family.h.  The mode constants of
    <sys/stat.h> are those of Linux. *)

From Stdlib Require Import ZArith Lia Ascii String.
From stdpp Require Import prelude strings gmap sorting.
From S2P Require Import Prelude Common.

#[local] Open Scope Z_scope.

(** ** <sys/stat.h> *)

Definition S_IFDIR : Z := 16384.   (* 0040000 *)
Definition S_IFREG : Z := 32768.   (* 0100000 *)
Definition S_ISGID : Z := 1024.    (* 02000 *)
Definition S_IRUSR : Z := 256.     (* 0400 *)
Definition S_IWOTH : Z := 2.       (* 0002 *)
Definition ALLPERMS : Z := 4095.   (* 07777 *)

(** ** inode_id.h *)

Record InodeID := { val : Z }.

Definition InodeID_eqb (lhs rhs : InodeID) : bool := val lhs =? val rhs.
Definition InodeID_neqb (lhs rhs : InodeID) : bool := negb (InodeID_eqb lhs rhs).

Definition kInvalidInodeID : InodeID := {| val := 2 ^ 64 - 1 |}.
Definition kRootInodeID : InodeID := {| val := 1 |}.

#[global] Instance InodeID_eq_dec : EqDecision InodeID.
Proof. solve_decision. Defined.

(** ** dir_table_base.h *)

Record Acl := { uid : Z; gid : Z; perm : Z }.

Definition Acl_eqb (lhs rhs : Acl) : bool :=
  (uid lhs =? uid rhs) && (gid lhs =? gid rhs) && (perm lhs =? perm rhs).

Record User := { user_uid : Z; user_gid : Z }.

#[global] Instance Acl_eq_dec : EqDecision Acl.
Proof. solve_decision. Defined.

Record Dir := {
  dir_parent_id : InodeID;
  dir_name : string;
  dir_id : InodeID;
  dir_acl : Acl;
  dir_ctime_in_ns : Z;
  dir_mtime_in_ns : Z;
  dir_atime_in_ns : Z;
}.

#[global] Instance Dir_eq_dec : EqDecision Dir.
Proof. solve_decision. Defined.

(** ** file_table_base.h, hard_link_table_base.h *)

Record File := {
  file_id : InodeID;
  file_acl : Acl;
  file_ctime_in_ns : Z;
  file_mtime_in_ns : Z;
  file_atime_in_ns : Z;
}.

Record HardLink := {
  hl_parent_id : InodeID;
  hl_name : string;
  hl_id : InodeID;
}.

(** ** column_family.h *)

Record CFIndex := { index : Z }.

Definition CFIndex_eqb (lhs rhs : CFIndex) : bool := index lhs =? index rhs.
Definition CFIndex_neqb (lhs rhs : CFIndex) : bool := negb (CFIndex_eqb lhs rhs).

Definition kInvalidCFIndex : CFIndex := {| index := -1 |}.
Definition kDefaultCFIndex : CFIndex := {| index := 0 |}.
Definition kInodeCFIndex : CFIndex := {| index := 1 |}.
Definition kMTimeCFIndex : CFIndex := {| index := 2 |}.
Definition kATimeCFIndex : CFIndex := {| index := 3 |}.
Definition kDEntCFIndex : CFIndex := {| index := 4 |}.

Section check_permission.
Context `{Fmt, Build}.

(** The permission bits the user's class needs. *)
Definition perm_needed (acl : Acl) (user : User) (perm : Z) : Z :=
  if user_uid user =? 0 then 0
  else if user_uid user =? uid acl then u64 (Z.shiftl perm 6)
  else if user_gid user =? gid acl then u64 (Z.shiftl perm 3)
  else perm.

Definition CheckPermission {S} (acl : Acl) (user : User) (perm : Z) : M S (expected unit) :=
  let needed := perm_needed acl user perm in
  if negb (Z.land (Types.perm acl) needed =? needed) then
    let! status := PermissionError
      (location_at "src/namenode/table/dir_table_base.h" 74)
      ("User {uid: " +:+ fmt_int (user_uid user) +:+ ", gid: " +:+ fmt_int (user_gid user)
       +:+ "} does not have permission for " +:+ fmt_int perm +:+ " in ACL {uid: "
       +:+ fmt_int (uid acl) +:+ ", gid: " +:+ fmt_int (gid acl) +:+ ", perm: "
       +:+ fmt_04o (Types.perm acl) +:+ "}.")%string None in
    ret (Unexp status)
  else ret (Val tt).

End check_permission.

(** ** Lemmas *)

Definition granted (acl : Acl) (user : User) (p : Z) : bool :=
  Z.land (perm acl) (perm_needed acl user p) =? perm_needed acl user p.

Lemma CheckPermission_eval `{Fmt, Build} {S} acl user p (s : S) :
  ∃ st, status_code_ st = kPermissionError ∧ status_wf st ∧
    CheckPermission acl user p s = (Ret (if granted acl user p then Val tt else Unexp st), s).
Proof.
  unfold CheckPermission, granted.
  eexists {| status_code_ := kPermissionError; msg_ := Status_msg _ _ None _ |}.
  split; [done|]. split; cycle 1.
  - destruct (_ =? _); [done|]. cbn [negb]. unfold PermissionError, bind.
    rewrite Status_make_ok by first [solve_msg_wf | done]. reflexivity.
  - apply Status_msg_dot; [solve_msg_wf | done].
Qed.

Lemma land_subset (a b : Z) :
  Z.land a b = b ↔ ∀ i, 0 ≤ i → Z.testbit b i = true → Z.testbit a i = true.
Proof.
  split.
  - intros E i Hi Hb. rewrite <- E, Z.land_spec in Hb. by apply andb_true_iff in Hb as [].
  - intros Hs. apply Z.bits_inj'. intros i Hi. rewrite Z.land_spec.
    destruct (Z.testbit b i) eqn:Hb; [by rewrite Hs | apply andb_false_r].
Qed.

(** The bits of an [rwx] request moved to a class at bit [k]. *)
Lemma class_bits_granted (m p k : Z) :
  0 ≤ p < 8 → 0 ≤ k ≤ 6 →
  (Z.land m (u64 (Z.shiftl p k)) =? u64 (Z.shiftl p k)) = true ↔
  ∀ i, 0 ≤ i < 3 → Z.testbit p i = true → Z.testbit m (i + k) = true.
Proof.
  intros Hp Hk. rewrite Z.eqb_eq, u64_small, land_subset; cycle 1.
  { unfold is_u64. rewrite Z.shiftl_mul_pow2 by lia.
    assert (2 ^ k ≤ 2 ^ 6) by (apply Z.pow_le_mono_r; lia). nia. }
  split; intros Hs i Hi Hb.
  - apply Hs; [lia|]. rewrite Z.shiftl_spec by lia. by replace (i + k - k) with i by lia.
  - rewrite Z.shiftl_spec in Hb by lia.
    assert (0 ≤ i - k < 3).
    { split; apply Z.nlt_ge || apply Z.nle_gt; intros Hc.
      - by rewrite Z.testbit_neg_r in Hb by lia.
      - rewrite <- (Z.mod_small p (2 ^ 3)) in Hb by lia.
        by rewrite Z.mod_pow2_bits_high in Hb by lia. }
    replace i with (i - k + k) by lia. by apply Hs.
Qed.

(** The lowest bit of the user's class within the mode. *)
Definition class_shift (acl : Acl) (user : User) : Z :=
  if user_uid user =? uid acl then 6 else if user_gid user =? gid acl then 3 else 0.

(** ** Properties *)

(** C31: for an [rwx] request [p], [CheckPermission] grants
    access exactly when the user is root or every requested bit is set in the
    bits of the user's class (owner, group or others); otherwise it returns a
    [kPermissionError]. *)
Theorem check_permission_classes `{Fmt, Build} {S} (acl : Acl) (user : User) (p : Z) (s : S)
    (Hp : 0 ≤ p < 8) :
  ∃ r, CheckPermission acl user p s = (Ret r, s) ∧
    (r = Val tt ↔
       user_uid user = 0 ∨
       ∀ i, 0 ≤ i < 3 → Z.testbit p i = true →
            Z.testbit (perm acl) (i + class_shift acl user) = true) ∧
    (∀ e, r = Unexp e → status_code_ e = kPermissionError).
Proof.
  destruct (CheckPermission_eval acl user p s) as (st & Hc & _ & ->).
  eexists. split; [done|]. split; cycle 1.
  { intros e. destruct (granted _ _ _); [done | by intros [= <-]]. }
  transitivity (granted acl user p = true).
  { by destruct (granted _ _ _). }
  unfold granted, perm_needed, class_shift.
  destruct (Z.eqb_spec (user_uid user) 0) as [E|E].
  { rewrite Z.land_0_r. split; auto. }
  destruct (Z.eqb_spec (user_uid user) (uid acl)); [|destruct (Z.eqb_spec (user_gid user) (gid acl))].
  - rewrite class_bits_granted by lia. intuition.
  - rewrite class_bits_granted by lia. intuition.
  - pose proof (class_bits_granted (perm acl) p 0 Hp ltac:(lia)) as Hb.
    rewrite Z.shiftl_0_r, u64_small in Hb by (unfold is_u64; lia). rewrite Hb. intuition.
Qed.

Lemma check_permission_classes_witness :
  0 ≤ 2 < 8 ∧
  ∃ r, @CheckPermission demo_fmt demo_build unit {| uid := 7; gid := 8; perm := 493 |}
         {| user_uid := 7; user_gid := 9 |} 2 tt = (Ret r, tt) ∧ r = Val tt.
Proof.
  split; [lia|].
  destruct (@check_permission_classes demo_fmt demo_build unit
    {| uid := 7; gid := 8; perm := 493 |} {| user_uid := 7; user_gid := 9 |} 2 tt ltac:(lia))
    as (r & E & Hr & _).
  exists r. split; [exact E|]. apply Hr. right. intros i Hi Ht.
  assert (i = 0 ∨ i = 1 ∨ i = 2) as [-> | [-> | ->]] by lia; vm_compute in Ht |- *; done.
Defined.
