(* ===== verification/IdGen.v ===== *)
(** Inode IDs: src/namenode/common/id_gen.h and id_gen.cc.

    [ID] is a struct of bit-fields read from and written to a [uint64_t] by
    [reinterpret_cast]; GCC and Clang on little-endian Linux allocate bit-fields
    from the least significant bit, so [timestamp_seconds] is bits 0-31,
    [node_id] bits 32-35, [clock_sequence] bits 36-39 and [auto_increment_id]
    bits 40-63 (the struct fills 8 bytes, as its [static_assert] demands).
    [Next] and [Update] are modelled as whole calls and, for the race between
    the request thread and the manager's thread, as atomic steps. *)

From Stdlib Require Import ZArith Lia Ascii String.
From stdpp Require Import prelude strings gmap sorting relations.
From S2P Require Import Prelude Common Types.

#[local] Open Scope Z_scope.

Definition kEpochTimestampSeconds : Z := 1742256000.
Definition kTimestampBits : Z := 32.
Definition kNodeIDBits : Z := 4.
Definition kClockSequenceBits : Z := 4.
Definition kAutoIncrementIDBits : Z := 24.
Definition kMaxAutoIncrementID : Z := 10000000.

Record ID := {
  timestamp_seconds : Z;
  node_id : Z;
  clock_sequence : Z;
  auto_increment_id : Z;
}.

(** [*reinterpret_cast<ID*>(&raw_id)] and [*reinterpret_cast<uint64_t*>(&id)]. *)
Definition ID_of_raw (raw : Z) : ID := {|
  timestamp_seconds := Z.land raw (Z.ones kTimestampBits);
  node_id := Z.land (Z.shiftr raw kTimestampBits) (Z.ones kNodeIDBits);
  clock_sequence :=
    Z.land (Z.shiftr raw (kTimestampBits + kNodeIDBits)) (Z.ones kClockSequenceBits);
  auto_increment_id :=
    Z.land (Z.shiftr raw (kTimestampBits + kNodeIDBits + kClockSequenceBits))
      (Z.ones kAutoIncrementIDBits);
|}.
Definition raw_of_ID (id : ID) : Z :=
  Z.lor (Z.shiftl (auto_increment_id id) (kTimestampBits + kNodeIDBits + kClockSequenceBits))
    (Z.lor (Z.shiftl (clock_sequence id) (kTimestampBits + kNodeIDBits))
       (Z.lor (Z.shiftl (node_id id) kTimestampBits) (timestamp_seconds id))).

#[global] Arguments ID_of_raw : simpl never.
#[global] Arguments raw_of_ID : simpl never.

(** ** IDGen *)

Record IDGen := {
  node_id_ : Z;
  clock_sequence_ : Z;
  id_ : Z;                    (* std::atomic<uint64_t> *)
}.
Definition set_id_ (raw : Z) (g : IDGen) : IDGen :=
  {| node_id_ := node_id_ g; clock_sequence_ := clock_sequence_ g; id_ := raw |}.

(** The three checks both operations make on the fields they read. *)
Definition CheckFields (id : ID) : M IDGen unit :=
  let! g := gets (λ g, g) in
  do! Check (node_id id =? node_id_ g) "(id.node_id) == (node_id_)" in
  do! Check (clock_sequence id =? clock_sequence_ g)
        "(id.clock_sequence) == (clock_sequence_)" in
  Check (auto_increment_id id <? kMaxAutoIncrementID)
    "(id.auto_increment_id) < (kMaxAutoIncrementID)".

(** [Next]: the increment happens before the checks, and stays when they throw. *)
Definition Next : M IDGen InodeID :=
  let! old := gets id_ in
  do! modify (set_id_ (u64 (old + 1))) in
  let raw_id := u64 (old + 1) in
  let id := ID_of_raw raw_id in
  do! CheckFields id in
  ret {| val := raw_id |}.

(** [Update]: what follows the load of [id_], whose value is [raw_id]. *)
Definition UpdateLoaded (ts raw_id : Z) : M IDGen unit :=
  let id := ID_of_raw raw_id in
  do! CheckFields id in
  if timestamp_seconds id >=? ts then ret tt
  else
    modify (set_id_ (raw_of_ID {|
      timestamp_seconds := ts;
      node_id := node_id id;
      clock_sequence := clock_sequence id;
      auto_increment_id := 0;
    |})).
Definition Update (ts : Z) : M IDGen unit :=
  let! raw_id := gets id_ in
  UpdateLoaded ts raw_id.

(** The constructor: [id_] is value-initialised, then updated. *)
Definition IDGen_make (ts node clk : Z) : outcome unit * IDGen :=
  Update (u32 ts) {| node_id_ := u8 node; clock_sequence_ := u8 clk; id_ := 0 |}.

(** ** IDGenMgr *)

(** The argument of [id_generator->Update] in the thread's loop, for one reading
    of [NowNs]: integer division, the check, the epoch, and the narrowing of the
    [int64_t] to the parameter's [uint32_t]. *)
Definition CurrentTimestamp {S} (now_ns : Z) : M S Z :=
  let current := Z.quot now_ns (kMsToUs * kUsToNs) in
  do! Check (current >? kEpochTimestampSeconds)
        "(current_timestamp_seconds) > (kEpochTimestampSeconds)" in
  ret (u32 (i64 (current - kEpochTimestampSeconds))).

(** One pass of the loop over [id_generators_]; [nows] are the readings of
    [NowNs], one per generator.  An exception ends the pass (and the thread). *)
Fixpoint UpdatePass (nows : list Z) (gens : list IDGen) : outcome unit * list IDGen :=
  match nows, gens with
  | now :: nows, g :: gens =>
      match (let! ts := CurrentTimestamp now in Update ts) g with
      | (Ret tt, g) => let '(o, gens) := UpdatePass nows gens in (o, g :: gens)
      | (o, g) => (o, g :: gens)
      end
  | _, _ => (Ret tt, gens)
  end.

Record IDGenMgr := {
  thread_ : bool;                  (* whether thread_ is non-null *)
  id_generators_ : list IDGen;
}.

(** [AddIDGenerator]: the [reinterpret_cast] keeps the object. *)
Definition AddIDGenerator (g : IDGen) : M IDGenMgr unit :=
  modify (λ m, {| thread_ := thread_ m; id_generators_ := id_generators_ m ++ [g] |}).

(** [Start]: the thread it creates runs [UpdatePass] every second, for ever. *)
Definition Start : M IDGenMgr unit :=
  let! t := gets thread_ in
  do! Check (negb t) "(thread_) == nullptr" in
  modify (λ m, {| thread_ := true; id_generators_ := id_generators_ m |}).

(** ** Atomic steps

    [Next]'s [fetch_add] is atomic; [Update] is an atomic load followed by an
    atomic store, between which the request thread may call [Next]. *)

Inductive id_event :=
| EvNext            (* the request thread calls Next *)
| EvLoad (ts : Z)   (* the manager's thread starts Update(ts): the load *)
| EvStore.          (* the manager's thread finishes it: the store *)

Record IDGenMT := {
  mt_gen : IDGen;
  mt_pending : option (Z * Z);    (* Update's [timestamp_seconds] and loaded [raw_id] *)
  mt_out : list Z;                (* the IDs returned so far, latest first *)
}.

Inductive id_step : id_event → IDGenMT → IDGenMT → Prop :=
| step_next g g' p out r :
    Next g = (Ret r, g') →
    id_step EvNext {| mt_gen := g; mt_pending := p; mt_out := out |}
                   {| mt_gen := g'; mt_pending := p; mt_out := val r :: out |}
| step_load g ts out :
    id_step (EvLoad ts) {| mt_gen := g; mt_pending := None; mt_out := out |}
                        {| mt_gen := g; mt_pending := Some (ts, id_ g); mt_out := out |}
| step_store g g' ts raw out :
    UpdateLoaded ts raw g = (Ret tt, g') →
    id_step EvStore {| mt_gen := g; mt_pending := Some (ts, raw); mt_out := out |}
                    {| mt_gen := g'; mt_pending := None; mt_out := out |}.

Inductive id_steps : list id_event → IDGenMT → IDGenMT → Prop :=
| id_steps_nil s : id_steps [] s s
| id_steps_cons e es s s' s'' :
    id_step e s s' → id_steps es s' s'' → id_steps (e :: es) s s''.

(** A run of the request thread and the manager's thread with no preemption
    inside [Update]: the IDs [Next] returns, in order. *)
Inductive id_call := CallNext | CallUpdate (ts : Z).
Fixpoint run_calls (cs : list id_call) : M IDGen (list Z) :=
  match cs with
  | [] => ret []
  | CallNext :: cs =>
      let! r := Next in
      let! rs := run_calls cs in
      ret (val r :: rs)
  | CallUpdate ts :: cs =>
      do! Update ts in
      run_calls cs
  end.

(** What the manager's thread does next to a generator, as steps of their own: it reads
    the clock and loads [id_], or it makes the store of the [Update] it is in, whose
    timestamp and loaded [raw_id] it keeps in between. *)
Definition manager_turn (now_ns : Z) (loaded : option (Z * Z)) : M IDGen (option (Z * Z)) :=
  match loaded with
  | None =>
      let! ts := CurrentTimestamp now_ns in
      let! raw_id := gets id_ in
      ret (Some (ts, raw_id))
  | Some (ts, raw_id) =>
      do! UpdateLoaded ts raw_id in
      ret None
  end.

(** The store to come takes the ID back: calls of [Next] have brought the timestamp
    above the one it stores. *)
Definition late (loaded : option (Z * Z)) (g : IDGen) : bool :=
  match loaded with
  | Some (ts, raw_id) =>
      (timestamp_seconds (ID_of_raw raw_id) <? ts) && (ts <? timestamp_seconds (ID_of_raw (id_ g)))
  | None => false
  end.

(** ** Well-formed generators *)

(** The generator's node and clock-sequence bits. *)
Definition id_base (g : IDGen) : Z := clock_sequence_ g * 2 ^ 36 + node_id_ g * 2 ^ 32.

(** The states a constructed generator reaches: the high half of [id_] holds
    the generator's own node and clock sequence and a zero counter. *)
Definition idgen_wf (g : IDGen) : Prop :=
  0 ≤ node_id_ g < 2 ^ 4 ∧ 0 ≤ clock_sequence_ g < 2 ^ 4 ∧
  id_base g ≤ id_ g < id_base g + 2 ^ 32.
Definition id_wf (id : ID) : Prop :=
  0 ≤ timestamp_seconds id < 2 ^ 32 ∧ 0 ≤ node_id id < 2 ^ 4 ∧
  0 ≤ clock_sequence id < 2 ^ 4 ∧ 0 ≤ auto_increment_id id < 2 ^ 24.

(** What the manager's thread has loaded: nothing, or an ID not beyond the present one. *)
Definition loaded_ok (g : IDGen) (loaded : option (Z * Z)) : Prop :=
  match loaded with
  | Some (ts, raw_id) => is_u32 ts ∧ id_base g ≤ raw_id ≤ id_ g
  | None => True
  end.

(** The next [k] IDs of a generator that is left alone. *)
Definition drawn (k : nat) (g : IDGen) : list Z := (λ i, id_ g + Z.of_nat i) <$> seq 1 k.

(** ** Lemmas *)

Lemma fields_div_mod raw :
  ID_of_raw raw = {|
    timestamp_seconds := raw mod 2 ^ 32;
    node_id := raw / 2 ^ 32 mod 2 ^ 4;
    clock_sequence := raw / 2 ^ 36 mod 2 ^ 4;
    auto_increment_id := raw / 2 ^ 40 mod 2 ^ 24 |}.
Proof.
  unfold ID_of_raw, kTimestampBits, kNodeIDBits, kClockSequenceBits, kAutoIncrementIDBits.
  rewrite !Z.land_ones, !Z.shiftr_div_pow2 by lia. done.
Qed.

Lemma raw_of_ID_sum id :
  id_wf id →
  raw_of_ID id = auto_increment_id id * 2 ^ 40 + (clock_sequence id * 2 ^ 36 +
    (node_id id * 2 ^ 32 + timestamp_seconds id)).
Proof.
  intros (?&?&?&?).
  unfold raw_of_ID, kTimestampBits, kNodeIDBits, kClockSequenceBits.
  rewrite (lor_shiftl_add (node_id id)) by lia.
  rewrite (lor_shiftl_add (clock_sequence id)) by lia.
  by rewrite (lor_shiftl_add (auto_increment_id id)) by lia.
Qed.

Lemma ID_of_raw_wf raw : id_wf (ID_of_raw raw).
Proof. rewrite fields_div_mod. unfold id_wf. simpl. repeat split; apply Z.mod_pos_bound; lia. Qed.

Lemma raw_of_ID_of_raw raw : is_u64 raw → raw_of_ID (ID_of_raw raw) = raw.
Proof.
  intros Hr. unfold is_u64 in Hr. rewrite raw_of_ID_sum by apply ID_of_raw_wf.
  rewrite fields_div_mod. cbn [timestamp_seconds node_id clock_sequence auto_increment_id].
  change (2 ^ 40) with (2 ^ 36 * 2 ^ 4) at 1. rewrite <- (Z.div_div _ (2 ^ 36)) by lia.
  change (2 ^ 36) with (2 ^ 32 * 2 ^ 4) at 1 3. rewrite <- !(Z.div_div _ (2 ^ 32)) by lia.
  Z.to_euclidean_division_equations. lia.
Qed.

Lemma ID_of_raw_of_ID id : id_wf id → ID_of_raw (raw_of_ID id) = id.
Proof.
  intros Hid. rewrite raw_of_ID_sum, fields_div_mod by done.
  destruct Hid as (?&?&?&?), id as [ts nd ck au]. simpl in *.
  f_equal; Z.to_euclidean_division_equations; lia.
Qed.

Lemma fields_of_base g ts :
  0 ≤ node_id_ g < 2 ^ 4 → 0 ≤ clock_sequence_ g < 2 ^ 4 → 0 ≤ ts < 2 ^ 32 →
  ID_of_raw (id_base g + ts) = {|
    timestamp_seconds := ts; node_id := node_id_ g;
    clock_sequence := clock_sequence_ g; auto_increment_id := 0 |}.
Proof.
  intros. rewrite <- (ID_of_raw_of_ID {|
    timestamp_seconds := ts; node_id := node_id_ g;
    clock_sequence := clock_sequence_ g; auto_increment_id := 0 |}); [|unfold id_wf; simpl; lia].
  rewrite raw_of_ID_sum by (unfold id_wf; simpl; lia).
  f_equal. unfold id_base. simpl. lia.
Qed.

Lemma CheckFields_own g raw g0 :
  idgen_wf g → id_base g ≤ raw < id_base g + 2 ^ 32 →
  node_id_ g0 = node_id_ g → clock_sequence_ g0 = clock_sequence_ g →
  CheckFields (ID_of_raw raw) g0 = (Ret tt, g0).
Proof.
  intros (?&?&_) ? En Ec. replace raw with (id_base g + (raw - id_base g)) by lia.
  rewrite fields_of_base by lia. unfold CheckFields, bind, gets, Check. simpl.
  by rewrite En, Ec, !Z.eqb_refl.
Qed.

Lemma Next_in_range g :
  idgen_wf g → id_ g + 1 < id_base g + 2 ^ 32 →
  Next g = (Ret {| val := id_ g + 1 |}, set_id_ (id_ g + 1) g).
Proof.
  intros Hg Hlt. assert (u64 (id_ g + 1) = id_ g + 1) as E.
  { apply u64_small. destruct Hg as (?&?&?). unfold is_u64, id_base in *. lia. }
  unfold Next, bind at 1 2, gets, modify. simpl. rewrite E.
  erewrite bind_Ret; [reflexivity|]. destruct Hg as (?&?&?).
  apply (CheckFields_own g); unfold idgen_wf; simpl; auto; lia.
Qed.

Lemma CheckFields_wrong_node id g :
  node_id id ≠ node_id_ g →
  CheckFields id g = (Throw "Check failed: (id.node_id) == (node_id_).", g).
Proof.
  intros Hne%Z.eqb_neq. unfold CheckFields, bind, gets, Check. by rewrite Hne.
Qed.

(** The counter carried into [node_id]. *)
Lemma Next_out_of_range g :
  idgen_wf g → id_ g + 1 = id_base g + 2 ^ 32 →
  Next g = (Throw "Check failed: (id.node_id) == (node_id_).", set_id_ (id_ g + 1) g).
Proof.
  intros (?&?&?) Hlt. assert (u64 (id_ g + 1) = id_ g + 1) as E.
  { apply u64_small. unfold is_u64, id_base in *. lia. }
  unfold Next, bind at 1 2, gets, modify. cbn beta iota. rewrite E.
  unfold bind. rewrite CheckFields_wrong_node; [done|].
  rewrite Hlt, fields_div_mod. unfold id_base. cbn [node_id set_id_ node_id_].
  Z.to_euclidean_division_equations. lia.
Qed.

Lemma idgen_wf_set_id g raw :
  idgen_wf g → id_base g ≤ raw < id_base g + 2 ^ 32 → idgen_wf (set_id_ raw g).
Proof. unfold idgen_wf, id_base. simpl. lia. Qed.

Lemma Next_Ret g r g' :
  idgen_wf g → Next g = (Ret r, g') →
  val r = id_ g + 1 ∧ g' = set_id_ (val r) g ∧ idgen_wf g'.
Proof.
  intros Hg HN. destruct (decide (id_ g + 1 < id_base g + 2 ^ 32)).
  - rewrite Next_in_range in HN by done. injection HN as <- <-. simpl.
    split_and!; [done..|]. apply idgen_wf_set_id; [done|]. destruct Hg as (?&?&?). lia.
  - rewrite Next_out_of_range in HN; [done|done|]. destruct Hg as (?&?&?). lia.
Qed.

Lemma Next_u64 g r g' : idgen_wf g → Next g = (Ret r, g') → is_u64 (val r).
Proof.
  intros Hg HN. destruct (Next_Ret g r g' Hg HN) as (_ & -> & (?&?&?)).
  unfold is_u64, id_base in *. cbn [id_ node_id_ clock_sequence_ set_id_] in *. lia.
Qed.

Lemma Next_not_Undef g g' : idgen_wf g → Next g ≠ (Undef, g').
Proof.
  intros Hg. destruct (decide (id_ g + 1 < id_base g + 2 ^ 32)).
  - by rewrite Next_in_range.
  - rewrite Next_out_of_range; [done..|]. destruct Hg as (?&?&?). lia.
Qed.

Lemma UpdateLoaded_eval g raw ts :
  idgen_wf g → id_base g ≤ raw < id_base g + 2 ^ 32 → 0 ≤ ts < 2 ^ 32 →
  UpdateLoaded ts raw g =
    (Ret tt, if raw - id_base g >=? ts then g else set_id_ (id_base g + ts) g).
Proof.
  intros Hg Hr Hts. unfold UpdateLoaded.
  erewrite bind_Ret by (by apply (CheckFields_own g)).
  destruct Hg as (?&?&?).
  pose proof (fields_of_base g (raw - id_base g)) as Hf.
  replace (id_base g + (raw - id_base g)) with raw in Hf by lia.
  rewrite Hf by lia. cbn [timestamp_seconds node_id clock_sequence].
  destruct (_ >=? _); [done|]. unfold modify. do 2 f_equal.
  rewrite raw_of_ID_sum by (unfold id_wf; simpl; lia). unfold id_base. simpl. lia.
Qed.

Lemma Update_eval g ts :
  idgen_wf g → 0 ≤ ts < 2 ^ 32 →
  Update ts g = (Ret tt, set_id_ (Z.max (id_ g) (id_base g + ts)) g).
Proof.
  intros Hg Hts. unfold Update, bind, gets.
  rewrite UpdateLoaded_eval by (done || apply Hg). do 2 f_equal.
  destruct (Z.geb_spec (id_ g - id_base g) ts).
  - rewrite Z.max_l by lia. by destruct g.
  - by rewrite Z.max_r by lia.
Qed.

(** The effect of one update from a clock reading. *)
Definition updated (now_ns : Z) (g : IDGen) : IDGen :=
  set_id_ (Z.max (id_ g) (id_base g + u32 (now_ns / 10 ^ 6 - kEpochTimestampSeconds))) g.
Definition reading_ok (now_ns : Z) : Prop :=
  now_ns < 2 ^ 63 ∧ kEpochTimestampSeconds < now_ns / 10 ^ 6.

Lemma CurrentTimestamp_ok {S} now_ns (s : S) :
  reading_ok now_ns →
  CurrentTimestamp now_ns s = (Ret (u32 (now_ns / 10 ^ 6 - kEpochTimestampSeconds)), s).
Proof.
  intros [Hmax He]. assert (0 ≤ now_ns).
  { unfold kEpochTimestampSeconds in He. Z.to_euclidean_division_equations. lia. }
  unfold CurrentTimestamp, bind, Check.
  replace (Z.quot now_ns (kMsToUs * kUsToNs)) with (now_ns / 10 ^ 6)
    by (symmetry; apply Z.quot_div_nonneg; [lia | reflexivity]).
  destruct (Z.gtb_spec (now_ns / 10 ^ 6) kEpochTimestampSeconds); [|lia].
  assert (now_ns / 10 ^ 6 < 2 ^ 62) by (apply Z.div_lt_upper_bound; lia).
  unfold ret. rewrite i64_small; [done|].
  unfold is_i64, kEpochTimestampSeconds in *. lia.
Qed.

Lemma CurrentTimestamp_cases {S} now_ns (s : S) :
  (∃ ts, CurrentTimestamp now_ns s = (Ret ts, s) ∧ is_u32 ts) ∨
  (∃ w, CurrentTimestamp now_ns s = (Throw w, s)).
Proof.
  unfold CurrentTimestamp, bind, Check. destruct (_ >? _); [left|right]; eexists; [|done].
  split; [done|]. apply u32_is_u32.
Qed.

(** One reading and its update. *)
Lemma update_now now_ns g :
  idgen_wf g →
  (∃ g', (let! ts := CurrentTimestamp now_ns in Update ts) g = (Ret tt, g') ∧
     idgen_wf g' ∧ id_ g ≤ id_ g') ∨
  (∃ w, (let! ts := CurrentTimestamp now_ns in Update ts) g = (Throw w, g)).
Proof.
  intros Hg. unfold bind.
  destruct (CurrentTimestamp_cases now_ns g) as [(ts & -> & Hts)|(w & ->)]; [left | right; eauto].
  rewrite Update_eval by done. eexists. split; [done|]. cbn [id_ set_id_]. split; [|lia].
  apply idgen_wf_set_id; [done|]. destruct Hg as (?&?&?). unfold is_u32 in Hts. lia.
Qed.

(** *** The manager's thread in steps *)

Lemma timestamp_of_base g raw :
  idgen_wf g → id_base g ≤ raw < id_base g + 2 ^ 32 →
  timestamp_seconds (ID_of_raw raw) = raw - id_base g.
Proof.
  intros (?&?&_) ?. replace raw with (id_base g + (raw - id_base g)) at 1 by lia.
  by rewrite fields_of_base by lia.
Qed.

Lemma timestamp_of_wf g : idgen_wf g → timestamp_seconds (ID_of_raw (id_ g)) = id_ g - id_base g.
Proof. intros Hg. apply timestamp_of_base; [done|apply Hg]. Qed.

(** A load, or a store; the store moves the ID back only when it is late. *)
Lemma manager_turn_ok now_ns l g l' g' :
  idgen_wf g → loaded_ok g l → manager_turn now_ns l g = (Ret l', g') →
  idgen_wf g' ∧ loaded_ok g' l' ∧ (late l g = false → id_ g ≤ id_ g').
Proof.
  intros Hg Hl. destruct l as [[ts raw]|]; cbn [manager_turn loaded_ok] in *; unfold bind, gets.
  - destruct Hl as [Hts Hraw]. pose proof Hg as (?&?&?). unfold is_u32 in Hts.
    rewrite UpdateLoaded_eval by (done || lia). intros [= <- <-]. cbn [late].
    rewrite (timestamp_of_base g raw), (timestamp_of_wf g) by (done || lia).
    destruct (Z.geb_spec (raw - id_base g) ts); [done|].
    split; [apply idgen_wf_set_id; [done|lia]|]. split; [done|]. cbn [id_ set_id_]. lia.
  - destruct (CurrentTimestamp_cases now_ns g) as [(ts & -> & Hts)|(w & ->)]; [|done].
    intros [= <- <-]. pose proof Hg as (?&?&?). split; [done|]. split; [|done]. split; [done|lia].
Qed.

Lemma manager_turn_throws now_ns l g o g' :
  idgen_wf g → loaded_ok g l → manager_turn now_ns l g = (o, g') →
  (∃ l', o = Ret l') ∨ (∃ w, o = Throw w).
Proof.
  intros Hg Hl. destruct l as [[ts raw]|]; cbn [manager_turn loaded_ok] in *; unfold bind, gets.
  - destruct Hl as [Hts Hraw]. pose proof Hg as (?&?&?). unfold is_u32 in Hts.
    rewrite UpdateLoaded_eval by (done || lia). intros [= <- _]. left. by eexists.
  - destruct (CurrentTimestamp_cases now_ns g) as [(ts & -> & _)|(w & ->)]; intros [= <- _];
      [left|right]; by eexists.
Qed.

(** A load and its store with nothing in between are a pass of the loop. *)
Lemma manager_turns now_ns now_ns' g l g1 :
  manager_turn now_ns None g = (Ret l, g1) →
  (do! manager_turn now_ns' l in ret tt) g1 = (let! ts := CurrentTimestamp now_ns in Update ts) g.
Proof.
  cbn [manager_turn]. unfold Update, bind, gets.
  destruct (CurrentTimestamp now_ns g) as [[ts|w|] g0]; [|done..]. intros [= <- <-].
  cbn [manager_turn]. unfold bind. by destruct (UpdateLoaded ts (id_ g0) g0) as [[[]|w|] g2].
Qed.

(** [Next] in between leaves what was loaded behind. *)
Lemma loaded_ok_Next g r g' l :
  idgen_wf g → Next g = (Ret r, g') → loaded_ok g l → loaded_ok g' l.
Proof.
  intros Hg HN. destruct (Next_Ret _ _ _ Hg HN) as (Hv & -> & _).
  destruct l as [[ts raw]|]; [|done]. intros [Hts ?]. split; [done|].
  unfold id_base in *. cbn [id_ set_id_ node_id_ clock_sequence_]. lia.
Qed.

(** *** Runs of atomic steps *)

Lemma id_step_det e s s1 s2 : id_step e s s1 → id_step e s s2 → s1 = s2.
Proof. destruct 1; inversion 1; subst; congruence. Qed.

Lemma id_steps_det es s s1 s2 : id_steps es s s1 → id_steps es s s2 → s1 = s2.
Proof.
  intros H1. revert s2. induction H1 as [|e es s s' s'' He _ IH]; intros s2 H2; inversion H2; subst; [done|].
  apply IH. by erewrite (id_step_det e s s').
Qed.

Lemma id_steps_app es es' s s1 s2 : id_steps es s s1 → id_steps es' s1 s2 → id_steps (es ++ es') s s2.
Proof. induction 1; [done|]. intros. eapply id_steps_cons; eauto. Qed.

Lemma elem_of_drawn k g x : x ∈ drawn k g ↔ id_ g < x ≤ id_ g + Z.of_nat k.
Proof.
  unfold drawn. rewrite list_elem_of_fmap. setoid_rewrite elem_of_seq. split.
  - intros (i & -> & ?). lia.
  - intros ?. exists (Z.to_nat (x - id_ g)). lia.
Qed.

Lemma drawn_S k g : drawn (S k) g = drawn k g ++ [id_ g + Z.of_nat (S k)].
Proof. unfold drawn. rewrite seq_S, fmap_app. done. Qed.

Lemma drawn_steps k g p out :
  idgen_wf g → id_ g + Z.of_nat k < id_base g + 2 ^ 32 →
  id_steps (replicate k EvNext) {| mt_gen := g; mt_pending := p; mt_out := out |}
    {| mt_gen := set_id_ (id_ g + Z.of_nat k) g; mt_pending := p;
       mt_out := reverse (drawn k g) ++ out |}.
Proof.
  intros Hg. induction k as [|k IH]; intros Hk.
  - rewrite Z.add_0_r. destruct g. apply id_steps_nil.
  - rewrite replicate_S_end. eapply id_steps_app; [apply IH; lia|].
    set (g1 := set_id_ (id_ g + Z.of_nat k) g).
    assert (idgen_wf g1) as Hg1 by (destruct Hg as (?&?&?); apply idgen_wf_set_id; [done|lia]).
    pose proof (Next_in_range g1 Hg1) as HN. change (id_base g1) with (id_base g) in HN.
    change (id_ g1) with (id_ g + Z.of_nat k) in HN.
    replace (id_ g + Z.of_nat k + 1) with (id_ g + Z.of_nat (S k)) in HN by lia.
    eapply id_steps_cons; [apply step_next, HN; lia|].
    rewrite drawn_S, reverse_snoc. apply id_steps_nil.
Qed.

Definition call_ok (c : id_call) : Prop :=
  match c with CallNext => True | CallUpdate ts => 0 ≤ ts < 2 ^ 32 end.

Lemma run_calls_increasing cs g ids g' :
  idgen_wf g → Forall call_ok cs → run_calls cs g = (Ret ids, g') →
  StronglySorted Z.lt (id_ g :: ids) ∧ idgen_wf g'.
Proof.
  intros Hg Hcs. revert g ids g' Hg.
  induction Hcs as [|[|ts] cs Hc Hcs IH]; intros g ids g' Hg Hrun; cbn [run_calls] in Hrun.
  - injection Hrun as <- <-. auto using SSorted_nil, SSorted_cons.
  - bind_inv Hrun. bind_inv Hrun. injection Hrun as <- ->.
    destruct (Next_Ret _ _ _ Hg Hrun0) as (E & -> & Hg').
    destruct (IH _ _ _ Hg' Hrun1) as [Hs ?]. split; [|done].
    constructor; [exact Hs|]. constructor; [lia|].
    apply StronglySorted_inv in Hs as [_ Hs]. cbn [id_ set_id_] in Hs.
    eapply Forall_impl; [exact Hs|]. simpl. intros. lia.
  - bind_inv Hrun. rewrite Update_eval in Hrun0 by done. injection Hrun0 as <- <-.
    destruct (λ H, IH _ _ _ H Hrun) as [Hs ?].
    { apply idgen_wf_set_id; [done|]. cbn in Hc. destruct Hg as (?&?&?). lia. }
    split; [|done]. apply StronglySorted_inv in Hs as [Hs Hf]. constructor; [done|].
    eapply Forall_impl; [exact Hf|]. cbn [id_ set_id_]. intros. lia.
Qed.

Lemma IDGen_make_eval ts node clk :
  0 ≤ node < 2 ^ 8 → 0 ≤ clk < 2 ^ 8 →
  IDGen_make ts node clk =
    (if (node =? 0) then
       if (clk =? 0) then (Ret tt, {| node_id_ := 0; clock_sequence_ := 0; id_ := u32 ts |})
       else (Throw "Check failed: (id.clock_sequence) == (clock_sequence_).",
             {| node_id_ := node; clock_sequence_ := clk; id_ := 0 |})
     else (Throw "Check failed: (id.node_id) == (node_id_).",
           {| node_id_ := node; clock_sequence_ := clk; id_ := 0 |})).
Proof.
  intros Hn Hc. unfold IDGen_make.
  replace (u8 node) with node by (unfold u8; rewrite Z.mod_small; lia).
  replace (u8 clk) with clk by (unfold u8; rewrite Z.mod_small; lia).
  destruct (Z.eqb_spec node 0) as [->|Hn0].
  - destruct (Z.eqb_spec clk 0) as [->|Hc0].
    + pose proof (u32_is_u32 ts) as Hts. unfold is_u32 in Hts.
      rewrite Update_eval by (unfold idgen_wf, id_base; simpl; lia).
      unfold set_id_, id_base. cbn [id_ node_id_ clock_sequence_].
      by rewrite Z.max_r by lia.
    + unfold Update, UpdateLoaded, CheckFields, bind, gets, Check. simpl.
      destruct clk; done.
  - unfold Update, UpdateLoaded, bind at 1, gets. cbn beta iota.
    unfold bind. rewrite CheckFields_wrong_node; [done|].
    change (0 ≠ node). lia.
Qed.

(** ** Properties *)

(** C22: the IDs a constructed generator hands out, over any
    sequence of complete [Next] and [Update] calls, are strictly increasing and
    above its initial timestamp; hence pairwise distinct. *)
Theorem ids_strictly_increasing (ts node clk : Z) (g g' : IDGen) (cs : list id_call)
    (ids : list Z)
    (Hnode : 0 ≤ node < 2 ^ 8) (Hclk : 0 ≤ clk < 2 ^ 8)
    (Hmake : IDGen_make ts node clk = (Ret tt, g))
    (Hcs : Forall call_ok cs)
    (Hrun : run_calls cs g = (Ret ids, g')) :
  StronglySorted Z.lt (u32 ts :: ids) ∧ NoDup ids.
Proof.
  rewrite IDGen_make_eval in Hmake by done.
  destruct (node =? 0), (clk =? 0); try discriminate Hmake. injection Hmake as <-.
  pose proof (u32_is_u32 ts) as Hts. unfold is_u32 in Hts.
  apply run_calls_increasing in Hrun as [Hs _]; [|unfold idgen_wf, id_base; simpl; lia|done].
  split; [done|]. apply StronglySorted_inv in Hs as [Hs _].
  clear -Hs. induction Hs as [|x l Hs IH Hf]; constructor; [|done].
  intros Hin. rewrite Forall_forall in Hf. apply Hf in Hin. lia.
Qed.

Lemma ids_strictly_increasing_witness :
  ∃ ids g', run_calls [CallNext; CallUpdate 7; CallNext; CallNext; CallUpdate 5; CallNext]
              {| node_id_ := 0; clock_sequence_ := 0; id_ := 3 |} = (Ret ids, g') ∧
            ids = [4; 8; 9; 10] ∧ NoDup ids.
Proof.
  do 2 eexists. split; [vm_compute; reflexivity|]. split; [reflexivity|].
  refine (proj2 (ids_strictly_increasing 3 0 0
    {| node_id_ := 0; clock_sequence_ := 0; id_ := 3 |} _
    [CallNext; CallUpdate 7; CallNext; CallNext; CallUpdate 5; CallNext] _ _ _ _ _ _));
    [lia | lia | vm_compute; reflexivity | | vm_compute; reflexivity].
  repeat constructor; lia.
Defined.

(** The counter that [Next] increments is the timestamp
    field: below the last second the ID's timestamp is one more than before and
    its [auto_increment_id] stays 0; at the last one the carry changes the node
    ID, so [Next] throws (and keeps the increment). *)
Theorem next_moves_timestamp (g : IDGen) (Hg : idgen_wf g) :
  let ts := timestamp_seconds (ID_of_raw (id_ g)) in
  (ts < 2 ^ 32 - 1 →
   ∃ r, Next g = (Ret r, set_id_ (val r) g) ∧
        ID_of_raw (val r) = {| timestamp_seconds := ts + 1; node_id := node_id_ g;
          clock_sequence := clock_sequence_ g; auto_increment_id := 0 |}) ∧
  (ts = 2 ^ 32 - 1 →
   Next g = (Throw "Check failed: (id.node_id) == (node_id_).", set_id_ (id_ g + 1) g)).
Proof.
  destruct Hg as (Hn & Hc & Hid).
  assert (timestamp_seconds (ID_of_raw (id_ g)) = id_ g - id_base g) as ->.
  { replace (id_ g) with (id_base g + (id_ g - id_base g)) at 1 by lia.
    by rewrite fields_of_base by lia. }
  split; intros Hts.
  - exists {| val := id_ g + 1 |}. rewrite Next_in_range by (unfold idgen_wf; lia).
    split; [done|]. cbn [val].
    replace (id_ g + 1) with (id_base g + (id_ g - id_base g + 1)) by lia.
    by rewrite fields_of_base by lia.
  - apply Next_out_of_range; [unfold idgen_wf|]; lia.
Qed.

Lemma next_moves_timestamp_witness :
  let g := {| node_id_ := 0; clock_sequence_ := 0; id_ := 2 ^ 32 - 1 |} in
  idgen_wf g ∧
  Next g = (Throw "Check failed: (id.node_id) == (node_id_).", set_id_ (2 ^ 32) g).
Proof.
  intros g. assert (Hg : idgen_wf g) by (unfold idgen_wf, id_base; simpl; lia).
  split; [exact Hg|]. apply (proj2 (next_moves_timestamp g Hg)). vm_compute. reflexivity.
Defined.

(** The constructor checks the fields of the
    zero [id_] before it ever stores the node, so it succeeds exactly for node 0
    and clock sequence 0. *)
Theorem constructor_accepts_node_zero_only (ts node clk : Z)
    (Hnode : 0 ≤ node < 2 ^ 8) (Hclk : 0 ≤ clk < 2 ^ 8) :
  (∃ g, IDGen_make ts node clk = (Ret tt, g)) ↔ node = 0 ∧ clk = 0.
Proof.
  rewrite IDGen_make_eval by done.
  destruct (Z.eqb_spec node 0), (Z.eqb_spec clk 0);
    (split; [intros [g Hg]; by try discriminate Hg | intros [? ?]; try done; eauto]).
Qed.

Lemma constructor_accepts_node_zero_only_witness :
  ¬ ∃ g, IDGen_make 5 1 0 = (Ret tt, g).
Proof.
  intros H. apply (constructor_accepts_node_zero_only 5 1 0) in H; [|lia..].
  destruct H as [H _]. discriminate H.
Defined.

(** The first ID of the generator [NameNodeCtx::Start] creates,
    taken before the manager's thread has updated it, is the root's inode ID. *)
Theorem first_id_is_root :
  ∃ g g', IDGen_make 0 0 0 = (Ret tt, g) ∧ Next g = (Ret kRootInodeID, g').
Proof.
  exists {| node_id_ := 0; clock_sequence_ := 0; id_ := 0 |},
         {| node_id_ := 0; clock_sequence_ := 0; id_ := 1 |}.
  split; vm_compute; reflexivity.
Qed.

(** C37: [k] calls of [Next] fall between the load and the store
    of an [Update] that raises the timestamp from [ts0] to [ts].  The first [Next] after
    the store returns an ID that one of them has returned already exactly when [k] is
    above the rise [ts - ts0]; otherwise the store loses nothing. *)
Theorem update_race_duplicates (g : IDGen) (ts : Z) (k : nat)
    (Hg : idgen_wf g) (Hts : 0 ≤ ts < 2 ^ 32 - 1)
    (Hraise : timestamp_seconds (ID_of_raw (id_ g)) < ts)
    (Hroom : timestamp_seconds (ID_of_raw (id_ g)) + Z.of_nat k < 2 ^ 32) :
  let run := id_steps (EvLoad ts :: replicate k EvNext ++ [EvStore; EvNext])
               {| mt_gen := g; mt_pending := None; mt_out := [] |} in
  ∃ s r, run s ∧ (∀ s', run s' → s' = s) ∧ mt_out s = r :: reverse (drawn k g) ∧
    (r ∈ drawn k g ↔ ts - timestamp_seconds (ID_of_raw (id_ g)) < Z.of_nat k).
Proof.
  intros run. pose proof (timestamp_of_wf g Hg) as Ets. rewrite Ets in *. pose proof Hg as (?&?&?).
  assert (id_base g ≤ id_ g < id_base g + 2 ^ 32) as Hid by lia.
  set (g1 := set_id_ (id_ g + Z.of_nat k) g).
  assert (idgen_wf g1) as Hg1 by (apply idgen_wf_set_id; [done|lia]).
  set (g2 := set_id_ (id_base g + ts) g1).
  assert (idgen_wf g2) as Hg2 by (apply idgen_wf_set_id; [done|unfold g1, id_base in *; cbn in *; lia]).
  pose proof (UpdateLoaded_eval g1 (id_ g) ts Hg1 Hid ltac:(lia)) as Estore.
  change (id_base g1) with (id_base g) in Estore.
  destruct (Z.geb_spec (id_ g - id_base g) ts); [lia|]. fold g2 in Estore.
  pose proof (Next_in_range g2 Hg2) as Enext. change (id_base g2) with (id_base g) in Enext.
  change (id_ g2) with (id_base g + ts) in Enext.
  assert (∃ s, run s ∧ mt_out s = id_base g + ts + 1 :: reverse (drawn k g)) as (s & Hs & Hout).
  { eexists. split.
    - eapply id_steps_cons; [apply step_load|]. eapply id_steps_app; [apply drawn_steps; [done|lia]|].
      eapply id_steps_cons; [apply step_store, Estore|].
      eapply id_steps_cons; [apply step_next, Enext; lia|]. rewrite app_nil_r. apply id_steps_nil.
    - reflexivity. }
  exists s, (id_base g + ts + 1). split; [exact Hs|]. split; [intros s' Hs'; by eapply id_steps_det|].
  split; [exact Hout|]. rewrite elem_of_drawn. lia.
Qed.

(** From 9 to 10: two calls in between, and 11 is returned twice. *)
Lemma update_race_duplicates_witness :
  ∃ s, id_steps [EvLoad 10; EvNext; EvNext; EvStore; EvNext]
      {| mt_gen := {| node_id_ := 0; clock_sequence_ := 0; id_ := 9 |}; mt_pending := None;
         mt_out := [] |} s ∧
    ∃ r, mt_out s = [r; 11; 10] ∧ r ∈ [10; 11].
Proof.
  destruct (update_race_duplicates {| node_id_ := 0; clock_sequence_ := 0; id_ := 9 |} 10 2)
    as (s & r & Hs & _ & Hout & Hr).
  - unfold idgen_wf, id_base. cbn. lia.
  - lia.
  - reflexivity.
  - reflexivity.
  - exists s. split; [exact Hs|]. exists r. split; [exact Hout|]. apply Hr. reflexivity.
Defined.

(** The thread's timestamp is the clock's reading in
    milliseconds less an epoch in seconds, truncated to 32 bits: it advances by
    1000 each second, and the reading is rejected only until January 1970. *)
Theorem timestamp_counts_milliseconds {S} (now_ns : Z) (s : S)
    (Hnow : 0 ≤ now_ns < 2 ^ 63 - 10 ^ 9) :
  (now_ns / 10 ^ 6 ≤ kEpochTimestampSeconds →
   ∃ w, CurrentTimestamp now_ns s = (Throw w, s)) ∧
  (kEpochTimestampSeconds < now_ns / 10 ^ 6 →
   ∃ ts, CurrentTimestamp now_ns s = (Ret ts, s) ∧
         ts = u32 (now_ns / 10 ^ 6 - kEpochTimestampSeconds) ∧
         CurrentTimestamp (now_ns + 10 ^ 9) s = (Ret (u32 (ts + 1000)), s)).
Proof.
  split; intros He.
  - unfold CurrentTimestamp, bind, Check.
    replace (Z.quot now_ns (kMsToUs * kUsToNs)) with (now_ns / 10 ^ 6)
      by (symmetry; apply Z.quot_div_nonneg; [lia | reflexivity]).
    destruct (Z.gtb_spec (now_ns / 10 ^ 6) kEpochTimestampSeconds); [lia|].
    by eexists.
  - assert ((now_ns + 10 ^ 9) / 10 ^ 6 = now_ns / 10 ^ 6 + 1000) as E.
    { replace (now_ns + 10 ^ 9) with (now_ns + 1000 * 10 ^ 6) by lia. by apply Z.div_add. }
    rewrite !CurrentTimestamp_ok by (unfold reading_ok; rewrite ?E; lia).
    eexists. split; [done|]. split; [done|]. rewrite E. unfold u32.
    rewrite Z.add_mod_idemp_l by lia. do 3 f_equal. lia.
Qed.

Lemma timestamp_counts_milliseconds_witness :
  let now := 1742256001 * 10 ^ 9 in
  0 ≤ now < 2 ^ 63 - 10 ^ 9 ∧ kEpochTimestampSeconds < now / 10 ^ 6 ∧
  ∃ ts, CurrentTimestamp now tt = (Ret ts, tt) ∧ ts = 1051990120.
Proof.
  intros now. split; [vm_compute; split; congruence|]. split; [reflexivity|].
  destruct (proj2 (timestamp_counts_milliseconds now tt
    ltac:(vm_compute; split; congruence)) ltac:(reflexivity)) as (ts & E & Hts & _).
  exists ts. split; [exact E|]. rewrite Hts. vm_compute. reflexivity.
Defined.

(** One pass of the manager's thread, on valid clock
    readings, raises every generator to its reading's timestamp, never lowers
    one, and throws nothing. *)
Theorem update_pass_raises_all (nows : list Z) (gens : list IDGen)
    (Hg : Forall idgen_wf gens) (Hn : Forall reading_ok nows)
    (Hlen : length nows = length gens) :
  UpdatePass nows gens = (Ret tt, zip_with updated nows gens) ∧
  Forall2 (λ g g', id_ g ≤ id_ g' ∧ idgen_wf g') gens (zip_with updated nows gens).
Proof.
  revert nows Hn Hlen. induction Hg as [|g gens Hg _ IH]; intros [|now nows] Hn Hlen; try done.
  apply Forall_cons in Hn as [Hnow Hn]. injection Hlen as Hlen.
  destruct (IH nows Hn Hlen) as [E HF].
  pose proof (u32_is_u32 (now / 10 ^ 6 - kEpochTimestampSeconds)) as Hts. unfold is_u32 in Hts.
  split.
  - cbn [UpdatePass zip_with]. erewrite bind_Ret by (by apply CurrentTimestamp_ok).
    rewrite Update_eval by done. cbn iota beta zeta.
    by rewrite E.
  - cbn [zip_with]. constructor; [|done]. split.
    + unfold updated. cbn [id_ set_id_]. lia.
    + apply idgen_wf_set_id; [done|]. destruct Hg as (?&?&?). lia.
Qed.

Lemma update_pass_raises_all_witness :
  UpdatePass [1742256001 * 10 ^ 9] [{| node_id_ := 0; clock_sequence_ := 0; id_ := 5 |}]
  = (Ret tt, [{| node_id_ := 0; clock_sequence_ := 0; id_ := 1051990120 |}]).
Proof.
  etransitivity.
  - refine (proj1 (update_pass_raises_all [1742256001 * 10 ^ 9]
      [{| node_id_ := 0; clock_sequence_ := 0; id_ := 5 |}] _ _ eq_refl)).
    + repeat constructor; vm_compute; congruence.
    + repeat constructor; vm_compute; congruence.
  - vm_compute. reflexivity.
Defined.
