(* ===== verification/IdGenMgr.v ===== *)
(** The life of an ID generator and of the thread that keeps it up to date:
    src/namenode/common/id_gen.cc ([IDGenMgr::Start] and [Stop]) and the calls
    src/namenode/namenode_ctx.cc makes ([Start], [Stop]).

    The function the manager's thread runs is [ThreadLoop]; fuel counts its passes, and
    the readings of the clock are a sequence of lists, one reading per generator and
    pass.  [Stop] joins the thread: it goes on only when that function returned.  An
    exception that leaves the function ends the process ([std::terminate]). *)

From Stdlib Require Import ZArith Lia Ascii String.
From stdpp Require Import prelude strings gmap list_numbers.
From S2P Require Import Prelude Common Types IdGen.

#[local] Open Scope Z_scope.

(** ** IDGenMgr *)

(** [while (true)]: [None] is a thread that still runs. *)
Fixpoint ThreadLoop (fuel : nat) (readings : nat → list Z) (i : nat) (gens : list IDGen) :
    option (outcome unit) * list IDGen :=
  match fuel with
  | O => (None, gens)
  | S fuel =>
      match UpdatePass (readings i) gens with
      | (Ret tt, gens) => ThreadLoop fuel readings (S i) gens
      | (o, gens) => (Some o, gens)
      end
  end.

Inductive stop_result :=
| Stopped                          (* [Stop] returned *)
| StopThrew (what : string)        (* its check failed *)
| Joining                          (* it waits in [join] *)
| Terminated.                      (* the thread ended the process *)

Definition Stop (fuel : nat) (readings : nat → list Z) (i : nat) (m : IDGenMgr) :
    stop_result * IDGenMgr :=
  if negb (thread_ m) then (StopThrew "Check failed: thread_ != nullptr.", m)
  else
    match ThreadLoop fuel readings i (id_generators_ m) with
    | (None, gens) => (Joining, {| thread_ := true; id_generators_ := gens |})
    | (Some (Ret tt), _) => (Stopped, {| thread_ := false; id_generators_ := [] |})
    | (Some _, gens) => (Terminated, {| thread_ := true; id_generators_ := gens |})
    end.

(** ** NameNodeCtx *)

(** [Start]: a generator, registered, and the thread. *)
Definition NameNodeCtx_StartMgr : M IDGenMgr unit :=
  let! g := of_outcome (match IDGen_make 0 0 0 with
                        | (Ret tt, g) => Ret g
                        | (Throw w, _) => Throw w
                        | (Undef, _) => Undef
                        end) in
  do! AddIDGenerator g in
  Start.

(** ** Drawing IDs one after the other, whatever each call does *)

Fixpoint draws (k : nat) (g : IDGen) : list (outcome InodeID) * IDGen :=
  match k with
  | O => ([], g)
  | S k =>
      let '(o, g) := Next g in
      let '(os, g) := draws k g in
      (o :: os, g)
  end.

Definition node_check_failed : string := "Check failed: (id.node_id) == (node_id_).".

(** How many more IDs a generator has before its timestamp field is full. *)
Definition ids_left (g : IDGen) : Z := id_base g + 2 ^ 32 - 1 - id_ g.

(** ** Lemmas *)

(** A generator that may have overflown into its node field, once. *)
Definition idgen_past (g : IDGen) : Prop :=
  0 ≤ node_id_ g < 2 ^ 4 ∧ 0 ≤ clock_sequence_ g < 2 ^ 4 ∧
  id_base g ≤ id_ g < id_base g + 2 ^ 33.

Lemma wrong_node g raw :
  idgen_past g → id_base g + 2 ^ 32 ≤ raw < id_base g + 2 ^ 33 →
  node_id (ID_of_raw raw) ≠ node_id_ g.
Proof.
  intros (?&?&?) Hr. rewrite fields_div_mod. unfold id_base in *. cbn [node_id].
  Z.to_euclidean_division_equations. lia.
Qed.

Lemma Next_past g :
  idgen_past g → id_ g + 1 < id_base g + 2 ^ 33 →
  Next g = (if 0 <? ids_left g then Ret {| val := id_ g + 1 |} else Throw node_check_failed,
            set_id_ (id_ g + 1) g).
Proof.
  intros Hp Hlt. pose proof Hp as (Hn & Hc & Hid). unfold ids_left.
  destruct (Z.ltb_spec 0 (id_base g + 2 ^ 32 - 1 - id_ g)).
  - apply Next_in_range; [split_and!; lia | lia].
  - assert (u64 (id_ g + 1) = id_ g + 1) as E.
    { apply u64_small. unfold is_u64, id_base in *. lia. }
    unfold Next, bind at 1 2, gets, modify. cbn beta iota. rewrite E.
    unfold bind. rewrite CheckFields_wrong_node; [done|].
    apply (wrong_node g); [exact Hp | lia].
Qed.

(** An overflown generator ends the manager's thread at its next pass. *)
Lemma UpdatePass_past now_ns g :
  idgen_past g → id_base g + 2 ^ 32 ≤ id_ g →
  ∃ w, UpdatePass [now_ns] [g] = (Throw w, [g]).
Proof.
  intros Hp Hid. cbn [UpdatePass]. unfold bind.
  destruct (CurrentTimestamp_cases now_ns g) as [(ts & -> & _)|(w & ->)]; [|by eexists].
  unfold Update, UpdateLoaded, bind, gets.
  rewrite CheckFields_wrong_node; [by eexists|]. apply wrong_node; [done|]. destruct Hp as (?&?&?). lia.
Qed.

Lemma ThreadLoop_not_Ret fuel readings i gens :
  (ThreadLoop fuel readings i gens).1 ≠ Some (Ret tt).
Proof.
  revert i gens. induction fuel as [|fuel IH]; intros i gens; cbn [ThreadLoop]; [done|].
  by destruct (UpdatePass (readings i) gens) as [[[]|w|] gens'].
Qed.

Lemma ThreadLoop_runs fuel readings i gens :
  Forall idgen_wf gens → (∀ j, Forall reading_ok (readings j) ∧ length (readings j) = length gens) →
  ∃ gens', ThreadLoop fuel readings i gens = (None, gens') ∧
    Forall2 (λ g g', id_ g ≤ id_ g') gens gens'.
Proof.
  intros Hg Hr. revert i gens Hg Hr. induction fuel as [|fuel IH]; intros i gens Hg Hr.
  - exists gens. split; [done|]. by apply Forall_Forall2_diag, Forall_true.
  - cbn [ThreadLoop]. destruct (Hr i) as [Hi Hl].
    destruct (update_pass_raises_all (readings i) gens Hg Hi Hl) as [-> Hle].
    destruct (IH (S i) (zip_with updated (readings i) gens)) as (gens' & -> & Hle').
    + clear -Hle. induction Hle as [|g g' gs gs' [_ ?]]; constructor; done.
    + intros j. by rewrite length_zip_with, Hl, Nat.min_id.
    + exists gens'. split; [done|]. clear -Hle Hle'. revert gens' Hle'.
      induction Hle as [|g g' gs gs' [? _] _ IH]; intros l Hl; inversion Hl; subst; constructor;
        [lia | by apply IH].
Qed.

(** ** Properties *)

(** C38: [IDGenMgr::Stop] never returns.  Without a thread its
    check throws.  With one it waits in [join] for a loop that has no exit: as long as
    the clock is past the epoch and the generators are sound it waits for ever, for any
    number of passes, while every ID generator only rises; otherwise the thread's
    exception ends the process. *)
Theorem stop_never_returns (readings : nat → list Z) (i : nat) (m : IDGenMgr) :
  (∀ fuel, (Stop fuel readings i m).1 ≠ Stopped) ∧
  (thread_ m = false → ∀ fuel, (Stop fuel readings i m).1
                               = StopThrew "Check failed: thread_ != nullptr.") ∧
  (thread_ m = true → Forall idgen_wf (id_generators_ m) →
   (∀ j, Forall reading_ok (readings j) ∧ length (readings j) = length (id_generators_ m)) →
   ∀ fuel, ∃ gens, Stop fuel readings i m = (Joining, {| thread_ := true; id_generators_ := gens |}) ∧
     Forall2 (λ g g', id_ g ≤ id_ g') (id_generators_ m) gens).
Proof.
  unfold Stop. split_and!.
  - intros fuel. destruct (negb (thread_ m)); [done|].
    pose proof (ThreadLoop_not_Ret fuel readings i (id_generators_ m)) as Hl.
    by destruct (ThreadLoop _ _ _ _) as [[[[]|w|]|] gens].
  - by intros -> fuel.
  - intros -> Hg Hr fuel. cbn [negb].
    destruct (ThreadLoop_runs fuel readings i _ Hg Hr) as (gens & -> & Hle). by exists gens.
Qed.

Definition demo_mgr : IDGenMgr :=
  {| thread_ := true;
     id_generators_ := [{| node_id_ := 0; clock_sequence_ := 0; id_ := 0 |}] |}.

Lemma stop_never_returns_witness :
  NameNodeCtx_StartMgr {| thread_ := false; id_generators_ := [] |} = (Ret tt, demo_mgr) ∧
  ∀ fuel, (Stop fuel (λ _, [1742256001 * 10 ^ 9]) 0 demo_mgr).1 = Joining.
Proof.
  split; [reflexivity|]. intros fuel.
  destruct (proj2 (proj2 (stop_never_returns (λ _, [1742256001 * 10 ^ 9]) 0 demo_mgr)) eq_refl)
    with (fuel := fuel) as (gens & E & _).
  - repeat constructor; vm_compute; congruence.
  - intros j. split; [|reflexivity]. repeat constructor; vm_compute; congruence.
  - rewrite E. reflexivity.
Defined.

(** C39: a generator returns consecutive IDs until its timestamp field is
    full, and nothing else: of the next [k] calls, the first [ids_left] return, one
    after the other, and all later ones throw; once one has thrown, the next pass of
    the manager's thread throws as well and ends the process. *)
Theorem ids_run_out (g : IDGen) (k : nat) (now_ns : Z)
    (Hg : idgen_wf g) (Hk : Z.of_nat k < ids_left g + 2 ^ 32) :
  draws k g =
    ((λ i, if i <? ids_left g then Ret {| val := id_ g + 1 + i |} else Throw node_check_failed)
       <$> seqZ 0 (Z.of_nat k),
     set_id_ (id_ g + Z.of_nat k) g) ∧
  (ids_left g < Z.of_nat k →
   ∃ w, UpdatePass [now_ns] [(draws k g).2] = (Throw w, [(draws k g).2])).
Proof.
  assert (∀ k g, idgen_past g → Z.of_nat k < ids_left g + 2 ^ 32 + 1 →
    draws k g =
    ((λ i, if i <? ids_left g then Ret {| val := id_ g + 1 + i |} else Throw node_check_failed)
       <$> seqZ 0 (Z.of_nat k), set_id_ (id_ g + Z.of_nat k) g)) as Hd.
  { clear. intros k. induction k as [|k IH]; intros g Hg Hk.
    - cbn. rewrite Z.add_0_r. by destruct g.
    - pose proof Hg as (?&?&?). unfold ids_left in Hk. cbn [draws].
      rewrite Next_past by (done || lia). rewrite IH; cycle 1.
      { unfold idgen_past, id_base in *. cbn [id_ set_id_ node_id_ clock_sequence_]. lia. }
      { unfold ids_left, id_base in *. cbn [id_ set_id_ node_id_ clock_sequence_]. lia. }
      rewrite (seqZ_cons 0 (Z.of_nat (S k))) by lia. cbn [fmap list_fmap]. f_equal; [f_equal|].
      + rewrite Z.add_0_r. done.
      + replace (Z.pred (Z.of_nat (S k))) with (Z.of_nat k) by lia.
        change (Z.succ 0) with (1 + 0). rewrite <- (fmap_add_seqZ 1), <- list_fmap_compose.
        apply list_fmap_ext. intros _ i _. unfold ids_left, compose. cbn [id_ set_id_].
        change (id_base (set_id_ (id_ g + 1) g)) with (id_base g).
        replace (i <? id_base g + 2 ^ 32 - 1 - (id_ g + 1))
          with (1 + i <? id_base g + 2 ^ 32 - 1 - id_ g).
        * case_match; [|done]. do 2 f_equal. lia.
        * apply eq_true_iff_eq. rewrite !Z.ltb_lt. lia.
      + unfold set_id_. cbn [id_ node_id_ clock_sequence_]. f_equal. lia. }
  assert (idgen_past g) as Hp by (destruct Hg as (?&?&?); unfold idgen_past; lia).
  rewrite (Hd k g Hp) by lia. split; [done|]. intros Hlt. cbn [snd].
  destruct Hg as (?&?&?). unfold ids_left in *.
  apply UpdatePass_past; unfold idgen_past, id_base in *; cbn [id_ set_id_ node_id_ clock_sequence_]; lia.
Qed.

(** Two IDs left. *)
Lemma ids_run_out_witness :
  let g := {| node_id_ := 0; clock_sequence_ := 0; id_ := 2 ^ 32 - 3 |} in
  (draws 4 g).1 = [Ret {| val := 2 ^ 32 - 2 |}; Ret {| val := 2 ^ 32 - 1 |};
                   Throw node_check_failed; Throw node_check_failed] ∧
  ∃ w, UpdatePass [1742256001 * 10 ^ 9] [(draws 4 g).2] = (Throw w, [(draws 4 g).2]).
Proof.
  intros g. destruct (ids_run_out g 4 (1742256001 * 10 ^ 9)) as [E Hw].
  - unfold idgen_wf, id_base. cbn. lia.
  - vm_compute. reflexivity.
  - split; [rewrite E; vm_compute; reflexivity|]. apply Hw. vm_compute. reflexivity.
Defined.

(** The generator of a namenode that has just started. *)
Definition fresh_gen : IDGen := {| node_id_ := 0; clock_sequence_ := 0; id_ := 0 |}.

Lemma fresh_tick now_ns :
  reading_ok now_ns →
  UpdatePass [now_ns] [fresh_gen] =
    (Ret tt, [set_id_ (u32 (now_ns / 10 ^ 6 - kEpochTimestampSeconds)) fresh_gen]).
Proof.
  intros Hr. destruct (update_pass_raises_all [now_ns] [fresh_gen]) as [E _]; [|by constructor|done|].
  - constructor; [|done]. unfold idgen_wf, id_base. cbn. lia.
  - rewrite E. cbn [zip_with]. unfold updated. cbn [id_ fresh_gen].
    pose proof (u32_is_u32 (now_ns / 10 ^ 6 - kEpochTimestampSeconds)) as Hu. unfold is_u32 in Hu.
    change (id_base fresh_gen) with 0. by rewrite Z.add_0_l, Z.max_r by lia.
Qed.

(** The timestamp of a restarted namenode falls behind
    although the clock went on: [2^32] milliseconds (less than 50 days) after a first
    tick, less [delta], the first tick of a new process sets the generator [delta]
    below where the old one stood, so that IDs in use are handed out again. *)
Theorem restart_timestamp_wraps (now_ns delta : Z)
    (Hnow : reading_ok now_ns) (Hlater : reading_ok (now_ns + (2 ^ 32 - delta) * 10 ^ 6))
    (Hdelta : 0 ≤ delta ≤ u32 (now_ns / 10 ^ 6 - kEpochTimestampSeconds)) :
  let ts := u32 (now_ns / 10 ^ 6 - kEpochTimestampSeconds) in
  UpdatePass [now_ns] [fresh_gen] = (Ret tt, [set_id_ ts fresh_gen]) ∧
  UpdatePass [now_ns + (2 ^ 32 - delta) * 10 ^ 6] [fresh_gen]
    = (Ret tt, [set_id_ (ts - delta) fresh_gen]) ∧
  now_ns < now_ns + (2 ^ 32 - delta) * 10 ^ 6.
Proof.
  intros ts. rewrite !fresh_tick by done. split; [done|].
  pose proof (u32_is_u32 (now_ns / 10 ^ 6 - kEpochTimestampSeconds)) as Hu.
  fold ts in Hu, Hdelta. unfold is_u32 in Hu. split; [|lia].
  rewrite Z.div_add by lia. do 4 f_equal. unfold ts, u32 in *.
  Z.to_euclidean_division_equations. lia.
Qed.

Lemma restart_timestamp_wraps_witness :
  UpdatePass [1742256001 * 10 ^ 9 + (2 ^ 32 - 1000) * 10 ^ 6] [fresh_gen]
  = (Ret tt, [set_id_ 1051989120 fresh_gen]).
Proof.
  refine (proj1 (proj2 (restart_timestamp_wraps (1742256001 * 10 ^ 9) 1000 _ _ _)));
    vm_compute; split; congruence.
Defined.
