(* ===== verification/Arena.v ===== *)
(** The memory of a request: src/namenode/common/req_scoped_alloc.h, the buffer
    src/namenode/service/handler_ctx.cc sets up, and the adaptors [FBAllocator] and
    [DetachedBuffer] of src/namenode/table/kv/serde.h and .cc.

    [ReqScopedAlloc] is a polymorphic allocator over a monotonic buffer resource of the
    standard library, which is modelled by its specification: memory comes from the
    current buffer while it has room, then from blocks of the upstream resource of
    growing size; deallocation does nothing; the destructor of the resource gives all
    upstream blocks back.  Addresses are integers.  The address upstream returns is an
    argument, and the growth of the buffers, which the standard leaves to the
    implementation, a parameter. *)

From Stdlib Require Import ZArith Lia.
From stdpp Require Import prelude.
From S2P Require Import Prelude.

#[local] Open Scope Z_scope.

(** ** Blocks of memory *)

Record block := { b_addr : Z; b_size : Z }.

Definition apart (a b : block) : Prop :=
  b_addr a + b_size a ≤ b_addr b ∨ b_addr b + b_size b ≤ b_addr a.
Definition inside (a b : block) : Prop :=
  b_addr b ≤ b_addr a ∧ b_addr a + b_size a ≤ b_addr b + b_size b.
#[global] Instance apart_sym : Symmetric apart.
Proof. unfold Symmetric, apart. tauto. Qed.
#[global] Instance apart_dec a b : Decision (apart a b).
Proof. unfold apart. apply _. Defined.

(** The least multiple of [n] that is not below [p]. *)
Definition align_up (n p : Z) : Z := (p + (n - 1)) / n * n.

(** ** std::pmr::monotonic_buffer_resource *)

Class BufferGrowth := { grow : Z → Z; grow_pos : ∀ n, 0 < n → 0 < grow n }.

Record monotonic_buffer_resource := {
  current_buffer : Z;                (* the first byte not given out *)
  unused : Z;                        (* bytes left in the current buffer *)
  next_buffer_size : Z;
  upstream_blocks : list block;      (* latest first *)
}.

Section arena.
Context `{BufferGrowth}.

(** Over a buffer of the caller's. *)
Definition resource_make (buffer : block) : monotonic_buffer_resource :=
  {| current_buffer := b_addr buffer; unused := b_size buffer;
     next_buffer_size := grow (Z.max 1 (b_size buffer)); upstream_blocks := [] |}.

Definition fits (bytes alignment : Z) (r : monotonic_buffer_resource) : bool :=
  align_up alignment (current_buffer r) - current_buffer r + bytes <=? unused r.
(** The block asked of the upstream resource, were it to be at [p]. *)
Definition upstream_request (p bytes : Z) (r : monotonic_buffer_resource) : block :=
  {| b_addr := p; b_size := Z.max bytes (next_buffer_size r) |}.

Definition resource_allocate (p bytes alignment : Z) (r : monotonic_buffer_resource) :
    Z * monotonic_buffer_resource :=
  if fits bytes alignment r then
    let a := align_up alignment (current_buffer r) in
    (a, {| current_buffer := a + bytes; unused := unused r - (a - current_buffer r + bytes);
           next_buffer_size := next_buffer_size r; upstream_blocks := upstream_blocks r |})
  else
    let b := upstream_request p bytes r in
    (p, {| current_buffer := p + bytes; unused := b_size b - bytes;
           next_buffer_size := grow (next_buffer_size r);
           upstream_blocks := b :: upstream_blocks r |}).
Definition resource_deallocate (p bytes : Z) (r : monotonic_buffer_resource) :
    monotonic_buffer_resource := r.
(** What the destructor gives back upstream. *)
Definition resource_release (r : monotonic_buffer_resource) : list block := upstream_blocks r.

(** ** The allocator of a request and its adaptors *)

(** [polymorphic_allocator<std::byte>]: [n] objects of size and alignment 1. *)
Definition ReqScopedAlloc_allocate (p n : Z) : monotonic_buffer_resource → Z * monotonic_buffer_resource :=
  resource_allocate p (n * 1) 1.
Definition ReqScopedAlloc_deallocate (a n : Z) : monotonic_buffer_resource → monotonic_buffer_resource :=
  resource_deallocate a (n * 1).

(** The allocator rebound to [uint8_t]. *)
Definition FBAllocator_allocate (p size : Z) : monotonic_buffer_resource → Z * monotonic_buffer_resource :=
  ReqScopedAlloc_allocate p size.
Definition FBAllocator_deallocate (a size : Z) : monotonic_buffer_resource → monotonic_buffer_resource :=
  ReqScopedAlloc_deallocate a size.

(** The members of [HandlerCtx]: [new std::byte[prealloc]] is at [holder]. *)
Definition HandlerCtx_resource (holder prealloc : Z) : monotonic_buffer_resource :=
  resource_make {| b_addr := holder; b_size := prealloc |}.

(** ** The memory a request uses *)

Inductive alloc_op :=
| AllocFor (p bytes alignment : Z)         (* a pmr string or vector *)
| FBAlloc (p size : Z)
| FBDealloc (a size : Z)
| Dealloc (a bytes : Z).

(** What is asked of the resource. *)
Definition op_request (op : alloc_op) : option (Z * Z * Z) :=
  match op with
  | AllocFor p bytes alignment => Some (p, bytes, alignment)
  | FBAlloc p size => Some (p, size * 1, 1)
  | _ => None
  end.

Definition run_alloc_op (op : alloc_op) (r : monotonic_buffer_resource) :
    option block * monotonic_buffer_resource :=
  match op with
  | AllocFor p bytes alignment =>
      let '(a, r) := resource_allocate p bytes alignment r in
      (Some {| b_addr := a; b_size := bytes |}, r)
  | FBAlloc p size =>
      let '(a, r) := FBAllocator_allocate p size r in
      (Some {| b_addr := a; b_size := size |}, r)
  | FBDealloc a size => (None, FBAllocator_deallocate a size r)
  | Dealloc a bytes => (None, resource_deallocate a bytes r)
  end.

(** The blocks handed out, the latest first. *)
Fixpoint run_allocs (ops : list alloc_op) (given : list block) (r : monotonic_buffer_resource) :
    list block * monotonic_buffer_resource :=
  match ops with
  | [] => (given, r)
  | op :: ops =>
      let '(b, r) := run_alloc_op op r in
      run_allocs ops (match b with Some b => b :: given | None => given end) r
  end.

(** Upstream returns memory that is not in use, aligned as asked. *)
Fixpoint upstream_ok (buffer : block) (ops : list alloc_op) (r : monotonic_buffer_resource) : Prop :=
  match ops with
  | [] => True
  | op :: ops =>
      match op_request op with
      | Some (p, bytes, alignment) =>
          0 ≤ bytes ∧ 0 < alignment ∧
          (fits bytes alignment r = false →
             (alignment | p) ∧
             Forall (apart (upstream_request p bytes r)) (buffer :: upstream_blocks r))
      | None => True
      end ∧ upstream_ok buffer ops (run_alloc_op op r).2
  end.

(** ** Lemmas *)

Lemma align_up_spec n p : 0 < n → p ≤ align_up n p < p + n ∧ (n | align_up n p).
Proof.
  intros Hn. unfold align_up. split; [|apply Z.divide_factor_r].
  pose proof (Z.div_mod (p + (n - 1)) n ltac:(lia)) as Hd.
  pose proof (Z.mod_pos_bound (p + (n - 1)) n Hn). nia.
Qed.

(** The blocks handed out are apart, in owned memory and below the unused part. *)
Record arena_inv (buffer : block) (given : list block) (r : monotonic_buffer_resource) : Prop := {
  ai_unused : 0 ≤ unused r;
  ai_next : 0 < next_buffer_size r;
  ai_given : ∀ i j a b, i ≠ j → given !! i = Some a → given !! j = Some b → apart a b;
  ai_sizes : Forall (λ a, 0 ≤ b_size a) given;
  ai_owned : Forall (λ a, ∃ b, b ∈ buffer :: upstream_blocks r ∧ inside a b) given;
  ai_current : ∃ b, b ∈ buffer :: upstream_blocks r ∧
    inside {| b_addr := current_buffer r; b_size := unused r |} b;
  ai_free : Forall (apart {| b_addr := current_buffer r; b_size := unused r |}) given;
  ai_upstream : ∀ i j a b, i ≠ j → upstream_blocks r !! i = Some a →
    upstream_blocks r !! j = Some b → apart a b;
  ai_buffer : Forall (apart buffer) (upstream_blocks r);
  ai_positive : Forall (λ b, 0 < b_size b) (upstream_blocks r);
}.

Lemma apart_inside a b c : apart a b → inside c b → 0 ≤ b_size c → apart a c.
Proof. unfold apart, inside. lia. Qed.

(** Pairwise relations on a list, one element more. *)
Lemma pairwise_cons {A} (R : relation A) `{!Symmetric R} (x : A) (l : list A) :
  Forall (R x) l → (∀ i j a b, i ≠ j → l !! i = Some a → l !! j = Some b → R a b) →
  ∀ i j a b, i ≠ j → (x :: l) !! i = Some a → (x :: l) !! j = Some b → R a b.
Proof.
  intros Hx Hl [|i] [|j] a b Hij; cbn; [done|..].
  - intros [= <-] Hb. by eapply Forall_lookup_1.
  - intros Ha [= <-]. symmetry. by eapply Forall_lookup_1.
  - intros Ha Hb. apply (Hl i j); [lia|done..].
Qed.

(** Memory taken from the current buffer. *)
Lemma arena_inv_take buffer given r off bytes :
  arena_inv buffer given r → 0 ≤ off → 0 ≤ bytes → off + bytes ≤ unused r →
  arena_inv buffer ({| b_addr := current_buffer r + off; b_size := bytes |} :: given)
    {| current_buffer := current_buffer r + off + bytes; unused := unused r - (off + bytes);
       next_buffer_size := next_buffer_size r; upstream_blocks := upstream_blocks r |}.
Proof.
  intros [Hu Hn Hg Hsz Ho Hc Hf Hup Hb Hpos] Hoff Hby Hfit.
  set (cur := {| b_addr := current_buffer r; b_size := unused r |}) in *.
  set (new := {| b_addr := current_buffer r + off; b_size := bytes |}).
  set (cur' := {| b_addr := current_buffer r + off + bytes; b_size := unused r - (off + bytes) |}).
  assert (inside new cur ∧ inside cur' cur) as [Hnew Hcur'] by (unfold inside; cbn; lia).
  assert (∀ b, inside cur b → inside new b ∧ inside cur' b) as Htrans by (unfold inside; cbn in *; lia).
  destruct Hc as (b & Hbin & Hcb). destruct (Htrans b Hcb) as [Hnb Hcb'].
  assert (∀ x, inside x cur → 0 ≤ b_size x → Forall (apart x) given) as Hall.
  { intros x Hx Hx0. eapply Forall_impl; [exact Hf|]. intros y Hy. symmetry in Hy |- *.
    by eapply apart_inside. }
  split; cbn [unused next_buffer_size upstream_blocks current_buffer]; try done; [lia|..].
  - apply pairwise_cons; [apply _|by apply Hall|done].
  - by constructor.
  - constructor; [by exists b|done].
  - by exists b.
  - constructor; [unfold apart; cbn; lia|]. apply Hall; [done|]. cbn. lia.
Qed.

(** The current buffer replaced by a block of upstream. *)
Lemma arena_inv_refill buffer given r p bytes :
  arena_inv buffer given r → 0 ≤ b_size buffer → 0 ≤ bytes →
  Forall (apart (upstream_request p bytes r)) (buffer :: upstream_blocks r) →
  let b := upstream_request p bytes r in
  arena_inv buffer given
    {| current_buffer := p; unused := b_size b; next_buffer_size := grow (next_buffer_size r);
       upstream_blocks := b :: upstream_blocks r |}.
Proof.
  intros [Hu Hn Hg Hsz Ho Hc Hf Hup Hb Hpos] Hbuf Hby Hfresh b.
  pose proof Hfresh as [Hfb Hfu]%Forall_cons.
  assert (Forall (apart b) given) as Hbg.
  { apply Forall_forall. intros x Hx. rewrite Forall_forall in Ho, Hfresh, Hsz.
    destruct (Ho x Hx) as (o & Hoin & Hin). eapply apart_inside; [by apply Hfresh|done|by apply Hsz]. }
  split; cbn [unused next_buffer_size upstream_blocks current_buffer]; try done.
  - cbn. lia.
  - by apply grow_pos.
  - eapply Forall_impl; [exact Ho|]. intros x (o & Hoin & Hin). exists o. set_solver.
  - exists b. split; [set_solver|]. unfold inside. cbn. lia.
  - apply (pairwise_cons apart b); [exact Hfu|exact Hup].
  - constructor; [by symmetry|done].
  - constructor; [cbn; lia|done].
Qed.

Lemma resource_allocate_inv buffer given r p bytes alignment :
  arena_inv buffer given r → 0 ≤ b_size buffer → 0 ≤ bytes → 0 < alignment →
  (fits bytes alignment r = false →
     (alignment | p) ∧ Forall (apart (upstream_request p bytes r)) (buffer :: upstream_blocks r)) →
  let '(a, r') := resource_allocate p bytes alignment r in
  arena_inv buffer ({| b_addr := a; b_size := bytes |} :: given) r' ∧ (alignment | a).
Proof.
  intros Hinv Hbuf Hby Hal Hup. unfold resource_allocate.
  destruct (align_up_spec alignment (current_buffer r) Hal) as [Hle Hdiv].
  destruct (fits bytes alignment r) eqn:Ef.
  - split; [|done]. apply Z.leb_le in Ef.
    pose proof (arena_inv_take buffer given r
      (align_up alignment (current_buffer r) - current_buffer r) bytes Hinv) as Htake.
    rewrite Zplus_minus in Htake. apply Htake; lia.
  - destruct (Hup eq_refl) as [Hp Hfresh]. split; [|done].
    pose proof (arena_inv_refill buffer given r p bytes Hinv Hbuf Hby Hfresh) as Href.
    pose proof (arena_inv_take buffer given _ 0 bytes Href) as Htake.
    cbn [current_buffer unused next_buffer_size upstream_blocks] in Htake.
    rewrite Z.add_0_r, Z.add_0_l in Htake. apply Htake; cbn; lia.
Qed.

Lemma run_allocs_inv buffer ops given r :
  arena_inv buffer given r → 0 ≤ b_size buffer → upstream_ok buffer ops r →
  arena_inv buffer (run_allocs ops given r).1 (run_allocs ops given r).2.
Proof.
  intros Hinv Hbuf. revert given r Hinv. induction ops as [|op ops IH]; intros given r Hinv; [done|].
  cbn [upstream_ok run_allocs]. intros [Hop Hops].
  destruct op as [p bytes al|p size|a size|a bytes]; cbn [op_request run_alloc_op] in *.
  - destruct Hop as (Hby & Hal & Hup).
    pose proof (resource_allocate_inv buffer given r p bytes al Hinv Hbuf Hby Hal Hup) as Hstep.
    destruct (resource_allocate p bytes al r) as [a r']. apply IH; [apply Hstep|done].
  - unfold FBAllocator_allocate, ReqScopedAlloc_allocate in *.
    destruct Hop as (Hby & Hal & Hup).
    pose proof (resource_allocate_inv buffer given r p (size * 1) 1 Hinv Hbuf Hby Hal Hup) as Hstep.
    destruct (resource_allocate p (size * 1) 1 r) as [a r']. rewrite Z.mul_1_r in Hstep.
    apply IH; [apply Hstep|done].
  - by apply IH.
  - by apply IH.
Qed.

Lemma arena_inv_make buffer : 0 ≤ b_size buffer → arena_inv buffer [] (resource_make buffer).
Proof.
  intros Hb. split; cbn; try done; [apply grow_pos; lia|..].
  exists buffer. split; [set_solver|]. unfold inside. cbn. lia.
Qed.

(** ** Properties *)

(** C40: whatever a request allocates and frees through
    its allocator and the allocator of the FlatBuffers builders, the blocks it was
    given are pairwise disjoint and lie in the buffer of the request or in a block
    of the upstream resource; the release gives each upstream block back once, and
    the buffer never. *)
Theorem request_blocks_disjoint (holder prealloc : Z) (ops : list alloc_op)
    (Hpre : 0 < prealloc)
    (Hup : upstream_ok {| b_addr := holder; b_size := prealloc |} ops
             (HandlerCtx_resource holder prealloc)) :
  let '(given, r) := run_allocs ops [] (HandlerCtx_resource holder prealloc) in
  (∀ i j a b, i ≠ j → given !! i = Some a → given !! j = Some b → apart a b) ∧
  Forall (λ a, ∃ b, b ∈ {| b_addr := holder; b_size := prealloc |} :: resource_release r ∧
                    inside a b) given ∧
  NoDup (resource_release r) ∧
  ∀ b, b ∈ resource_release r → apart {| b_addr := holder; b_size := prealloc |} b.
Proof.
  pose proof (run_allocs_inv _ ops [] _ (arena_inv_make {| b_addr := holder; b_size := prealloc |}
    ltac:(cbn; lia)) ltac:(cbn; lia) Hup) as Hinv.
  change (resource_make _) with (HandlerCtx_resource holder prealloc) in Hinv.
  destruct (run_allocs ops [] (HandlerCtx_resource holder prealloc)) as [given r].
  destruct Hinv as [_ _ Hg _ Ho _ _ Hu Hb Hpos]. split; [done|]. split; [done|]. split.
  - apply NoDup_alt. intros i j b Hi Hj. destruct (decide (i = j)) as [|Hne]; [done|].
    pose proof (Hu i j b b Hne Hi Hj) as Hbb.
    pose proof (Forall_lookup_1 _ _ _ _ Hpos Hi). unfold apart in Hbb. cbn in *. lia.
  - by apply Forall_forall.
Qed.
End arena.

(** ** Witness: a key of three bytes, a row, and a listing that outgrows the buffer *)

Section demo.
Definition demo_growth : BufferGrowth.
Proof. refine {| grow n := n + n / 2 |}. intros n Hn. pose proof (Z.div_pos n 2). lia. Defined.
#[local] Existing Instance demo_growth.

Definition demo_allocs : list alloc_op :=
  [AllocFor 0 3 1; FBAlloc 0 32; FBDealloc 4099 32; AllocFor 8192 80 8; AllocFor 0 16 8].

Lemma request_blocks_disjoint_witness :
  (run_allocs demo_allocs [] (HandlerCtx_resource 4096 64)).1
  = [{| b_addr := 8272; b_size := 16 |}; {| b_addr := 8192; b_size := 80 |};
     {| b_addr := 4099; b_size := 32 |}; {| b_addr := 4096; b_size := 3 |}] ∧
  NoDup (resource_release (run_allocs demo_allocs [] (HandlerCtx_resource 4096 64)).2).
Proof.
  pose proof (request_blocks_disjoint 4096 64 demo_allocs ltac:(lia)) as Hok.
  split; [vm_compute; reflexivity|].
  destruct (run_allocs demo_allocs [] (HandlerCtx_resource 4096 64)) as [given r].
  apply Hok. cbn [upstream_ok demo_allocs op_request run_alloc_op].
  repeat match goal with |- _ ∧ _ => split end; try done; try (intros Hf; vm_compute in Hf; discriminate Hf).
  intros _. split; [by exists 1024|]. decide_closed.
Defined.
End demo.
