(* ===== verification/Mutation.v ===== *)
(** A row being modified: src/namenode/common/mutation.h.  [Mutation<T, R>] holds
    the original row and a [std::variant<std::monostate, std::optional<R>>]; it
    is a Section over [T], [R], the conversion [R(t)] and the default [R()]. *)

From Stdlib Require Import ZArith Lia Ascii String.
From stdpp Require Import prelude strings gmap sorting.
From S2P Require Import Prelude Common.

#[local] Open Scope Z_scope.

Record Mutation (T R : Type) := {
  original_ : option T;
  modified_ : variant_mo R;
}.
Arguments original_ {T R} _.
Arguments modified_ {T R} _.

Section mutation.
Context {T R : Type} (R_of : T → R) (R_default : R).

(** The constructor: [and_then] yields an [optional<R>], so the variant holds its
    second alternative even for an absent original. *)
Definition Mutation_make (original : option T) : Mutation T R :=
  {| original_ := original; modified_ := optional (R_of <$> original) |}.

Definition operator_bool (m : Mutation T R) : bool :=
  match modified_ m with
  | monostate => match original_ m with Some _ => true | None => false end
  | optional o => match o with Some _ => true | None => false end
  end.

Definition set_modified (o : variant_mo R) (m : Mutation T R) : Mutation T R :=
  {| original_ := original_ m; modified_ := o |}.

Definition Create : M (Mutation T R) unit :=
  let! b := gets operator_bool in
  do! Check (negb b) "!*this" in
  modify (set_modified (optional (Some R_default))).

Definition Delete : M (Mutation T R) unit :=
  let! b := gets operator_bool in
  do! Check b "*this" in
  modify (set_modified (optional None)).

(** [operator->] and [operator*]: [std::get<1>] throws on the first alternative,
    and [&*] of an empty optional is undefined. *)
Definition operator_arrow : M (Mutation T R) R :=
  let! b := gets operator_bool in
  do! Check b "*this" in
  let! v := gets modified_ in
  match v with
  | monostate => throw "std::bad_variant_access"
  | optional (Some r) => ret r
  | optional None => undef
  end.

(** A write through the pointer that [operator->] returns. *)
Definition assign (f : R → R) : M (Mutation T R) unit :=
  let! r := operator_arrow in
  modify (set_modified (optional (Some (f r)))).

Definition GetOriginal : M (Mutation T R) (option T) := gets original_.
Definition GetModified : M (Mutation T R) (variant_mo R) := gets modified_.

(** ** The contract: a mutable optional row *)

Inductive mut_op := OpCreate | OpDelete | OpAssign (f : R → R).

Definition run_op (op : mut_op) : M (Mutation T R) unit :=
  match op with
  | OpCreate => Create
  | OpDelete => Delete
  | OpAssign f => assign f
  end.

Definition spec_op (op : mut_op) : M (option R) unit := λ o,
  match op, o with
  | OpCreate, None => (Ret tt, Some R_default)
  | OpCreate, Some _ => (Throw "Check failed: !*this.", o)
  | OpDelete, Some _ => (Ret tt, None)
  | OpAssign f, Some r => (Ret tt, Some (f r))
  | _, None => (Throw "Check failed: *this.", o)
  end.

(** Calls in sequence, going on after an exception the caller caught. *)
Fixpoint run_ops {S} (run : mut_op → M S unit) (ops : list mut_op) (s : S) :
    list (outcome unit) * S :=
  match ops with
  | [] => ([], s)
  | op :: ops =>
      let '(o, s) := run op s in
      let '(os, s) := run_ops run ops s in (o :: os, s)
  end.

(** ** Lemmas *)

Definition mut_rel (original : option T) (m : Mutation T R) (o : option R) : Prop :=
  original_ m = original ∧ modified_ m = optional o.

Lemma run_op_sim original op m o :
  mut_rel original m o →
  ∃ m', run_op op m = (fst (spec_op op o), m') ∧
        mut_rel original m' (snd (spec_op op o)).
Proof.
  destruct m as [orig md]. intros [<- Hm]. simpl in Hm. subst md.
  destruct op, o as [r|]; eexists; (split; [reflexivity | split; reflexivity]).
Qed.

Lemma run_ops_sim original ops m o :
  mut_rel original m o →
  ∃ m', run_ops run_op ops m = (fst (run_ops spec_op ops o), m') ∧
        mut_rel original m' (snd (run_ops spec_op ops o)).
Proof.
  revert m o. induction ops as [|op ops IH]; intros m o Hm; simpl; [by exists m|].
  destruct (run_op_sim original op m o Hm) as (m' & -> & Hm').
  destruct (spec_op op o) as [r o']. simpl in *.
  destruct (IH m' o' Hm') as (m'' & -> & Hm'').
  by destruct (run_ops spec_op ops o'); exists m''.
Qed.

(** ** Properties *)

(** A [Mutation] built from a row behaves, over any
    sequence of calls, as one mutable optional row initialised from it: the same
    calls throw, with the same message, none is undefined or a bad variant
    access, [operator bool] tells whether the row is present, and the original
    is never changed. *)
Theorem mutation_refines_optional_row (original : option T) (ops : list mut_op) :
  let '(os, m) := run_ops run_op ops (Mutation_make original) in
  let '(os', o) := run_ops spec_op ops (R_of <$> original) in
  os = os' ∧ original_ m = original ∧ modified_ m = optional o ∧
  operator_bool m = bool_decide (is_Some o).
Proof.
  destruct (run_ops_sim original ops (Mutation_make original) (R_of <$> original))
    as (m & -> & Ho & Hm); [done|].
  destruct (run_ops spec_op ops _) as [os o]. simpl in *.
  split_and!; [done..|]. unfold operator_bool. rewrite Hm.
  symmetry. destruct o; [apply bool_decide_eq_true | apply bool_decide_eq_false].
  - by eexists.
  - by intros [? ?].
Qed.

End mutation.
