(* ===== verification/KVStoreBase.v ===== *)
(** The interface of the key-value store: src/namenode/table/kv/kv_store_base.h.
    [TxnBase] and [KVStoreBase] are the abstract classes; [TxnSpec] and
    [TxnLaws] state what a transaction promises to the tables above it, over the
    key-value pairs of its snapshot and of its pending writes. *)

From Stdlib Require Import ZArith Lia Ascii String.
From stdpp Require Import prelude strings gmap sorting.
From S2P Require Import Prelude Common Types.

#[local] Open Scope Z_scope.

(** ** The abstract classes *)

Class TxnBase (T : Type) := {
  Get : CFIndex → string → bool → M T (expected (option string));
  AddReadConflictKey : CFIndex → string → variant_mo string → M T unit;
  GetRange : CFIndex → string → string → nat → bool → M T (expected (list string));
  AddReadConflictKeyRange : CFIndex → string → string → M T unit;
  Put : CFIndex → string → string → M T unit;
  Del : CFIndex → string → M T unit;
}.

Class KVStoreBase (K T : Type) := {
  StartTxn : M K T;
  CommitTxn : T → M K (expected unit);
}.

(** ** The contents of a store: one ordered map per column family *)

Abbreviation kvmap := (gmap (Z * string) string).
Abbreviation writes := (gmap (Z * string) (option string)).

Definition key_le {A} (x y : string * A) : Prop := str_le x.1 y.1.
#[global] Instance key_le_dec {A} : RelDecision (@key_le A).
Proof. intros x y. unfold key_le. apply _. Defined.

(** The entries of column family [cf], in key order.  The same functions serve
    other maps keyed by a number and a string. *)
Definition cf_pairs {A} (m : gmap (Z * string) A) (cf : Z) : list (string * A) :=
  omap (λ '((c, k), v), if c =? cf then Some (k, v) else None) (map_to_list m).
Definition cf_entries {A} (m : gmap (Z * string) A) (cf : Z) : list (string * A) :=
  merge_sort key_le (cf_pairs m cf).

Definition in_range {A} (lo hi : string) (kv : string * A) : Prop :=
  str_le lo kv.1 ∧ str_ltb kv.1 hi = true.
#[global] Instance in_range_dec {A} lo hi (kv : string * A) : Decision (in_range lo hi kv).
Proof. unfold in_range. apply _. Defined.

(** The values of the keys in [[lo, hi)], in key order, at most [limit] of them. *)
Definition range_values {A} (m : gmap (Z * string) A) (cf : Z) (lo hi : string)
    (limit : nat) : list A :=
  take limit (snd <$> filter (in_range lo hi) (cf_entries m cf)).

(** The contents after a set of writes is applied. *)
Definition apply_writes (w : writes) (m : kvmap) : kvmap :=
  merge (λ o v, match o with
                | Some (Some x) => Some x
                | Some None => None
                | None => v
                end) w m.

Definition valid_cf (cf : CFIndex) : Prop := 0 ≤ index cf < 5.

(** ** The contract of a transaction *)

Class TxnSpec (T : Type) := {
  txn_snapshot : T → kvmap;     (* what the transaction reads *)
  txn_writes : T → writes;      (* what it would write *)
  txn_healthy : T → Prop;       (* its reads meet no I/O error *)
  txn_id : T → Z;               (* which of the store's transactions it is *)
  txn_wf : T → Prop;            (* it was opened by a store *)
}.

(** [t'] is [t] with the pending writes [w]. *)
Definition txn_writing {T} `{TxnSpec T} (t : T) (w : writes) (t' : T) : Prop :=
  txn_snapshot t' = txn_snapshot t ∧ txn_writes t' = w ∧
  (txn_healthy t ↔ txn_healthy t') ∧ txn_id t' = txn_id t ∧ txn_wf t'.
Definition txn_frame {T} `{TxnSpec T} (t t' : T) : Prop := txn_writing t (txn_writes t) t'.

(** A read yields [v], or, when the transaction is not healthy, an error value or
    an exception. *)
Definition read_result {A} (healthy : Prop) (v : A) (o : outcome (expected A)) : Prop :=
  o = Ret (Val v) ∨
  ¬ healthy ∧ ((∃ e, o = Ret (Unexp e) ∧ status_wf e) ∨ (∃ w, o = Throw w)).

(** [m] is a read of [v]: it leaves the snapshot and the pending writes alone. *)
Definition reads {T A} `{TxnSpec T} (m : M T (expected A)) (t : T) (v : A) : Prop :=
  ∃ o t', m t = (o, t') ∧ txn_frame t t' ∧ read_result (txn_healthy t) v o.

Class TxnLaws (T : Type) `{TxnBase T, TxnSpec T} : Prop := {
  Get_law cf k ex (t : T) :
    valid_cf cf → txn_wf t → reads (Get cf k ex) t (txn_snapshot t !! (index cf, k));
  GetRange_law cf lo hi limit ex (t : T) :
    valid_cf cf → txn_wf t →
    reads (GetRange cf lo hi limit ex) t (range_values (txn_snapshot t) (index cf) lo hi limit);
  Put_law cf k v (t : T) :
    valid_cf cf → txn_wf t →
    ∃ t', Put cf k v t = (Ret tt, t') ∧
          txn_writing t (<[(index cf, k) := Some v]> (txn_writes t)) t';
  Del_law cf k (t : T) :
    valid_cf cf → txn_wf t →
    ∃ t', Del cf k t = (Ret tt, t') ∧
          txn_writing t (<[(index cf, k) := None]> (txn_writes t)) t';
}.

(** ** The contract of a store *)

Class KVStoreSpec (K : Type) := {
  kv_contents : K → kvmap;
  kv_ok : K → Prop;             (* the store's own invariant *)
  kv_healthy : K → Prop;        (* a transaction started now meets no I/O error *)
  kv_quiet : nat → K → Prop;    (* so many transactions, one at a time, will succeed *)
}.

(** A transaction sees the contents it was started on; a commit applies its
    writes as a whole or not at all, and does apply them when it succeeds. *)
Class KVStoreLaws (K T : Type) `{KVStoreBase K T, KVStoreSpec K, TxnSpec T} : Prop := {
  StartTxn_law (k : K) :
    kv_ok k →
    ∃ (t : T) k', StartTxn k = (Ret t, k') ∧ kv_ok k' ∧ kv_contents k' = kv_contents k ∧
      txn_wf t ∧ txn_snapshot t = kv_contents k ∧ txn_writes t = ∅ ∧
      (kv_healthy k → txn_healthy t);
  CommitTxn_law (t : T) (k : K) :
    kv_ok k → txn_wf t →
    ∃ o k', CommitTxn t k = (o, k') ∧ kv_ok k' ∧
      (kv_contents k' = apply_writes (txn_writes t) (kv_contents k) ∨
       kv_contents k' = kv_contents k ∧ o ≠ Ret (Val tt));
  kv_quiet_law n (k : K) :
    kv_quiet (S n) k →
    kv_ok k ∧ kv_healthy k ∧ kv_quiet n k ∧
    ∃ (t : T) k1, StartTxn k = (Ret t, k1) ∧ kv_quiet n k1 ∧
      ∀ t', txn_wf t' → txn_id t' = txn_id t →
        ∃ k2, CommitTxn t' k1 = (Ret (Val tt), k2) ∧ kv_quiet n k2;
}.

(** ** Lemmas *)

Lemma lookup_apply_writes (w : writes) (m : kvmap) k :
  apply_writes w m !! k = match w !! k with Some o => o | None => m !! k end.
Proof.
  unfold apply_writes. rewrite lookup_merge.
  by destruct (w !! k) as [[?|]|], (m !! k).
Qed.

Lemma apply_writes_empty (m : kvmap) : apply_writes ∅ m = m.
Proof. apply map_eq. intros k. by rewrite lookup_apply_writes, lookup_empty. Qed.

Lemma apply_writes_insert_Some (w : writes) (m : kvmap) k v :
  apply_writes (<[k := Some v]> w) m = <[k := v]> (apply_writes w m).
Proof.
  apply map_eq. intros k'. rewrite lookup_apply_writes.
  destruct (decide (k = k')) as [->|]; simplify_map_eq; [done|].
  by rewrite lookup_apply_writes.
Qed.

Lemma apply_writes_insert_None (w : writes) (m : kvmap) k :
  apply_writes (<[k := None]> w) m = delete k (apply_writes w m).
Proof.
  apply map_eq. intros k'. rewrite lookup_apply_writes.
  destruct (decide (k = k')) as [->|]; simplify_map_eq; [done|].
  by rewrite lookup_apply_writes.
Qed.

#[global] Instance key_le_trans {A} : Transitive (@key_le A).
Proof. intros x y z. apply str_le_trans. Qed.
#[global] Instance key_le_total {A} : Total (@key_le A).
Proof. intros x y. apply str_le_total. Qed.

Lemma elem_of_cf_pairs {A} (m : gmap (Z * string) A) cf k v : (k, v) ∈ cf_pairs m cf ↔ m !! (cf, k) = Some v.
Proof.
  unfold cf_pairs. rewrite list_elem_of_omap. split.
  - intros ([[c k'] v'] & Hin & E). apply elem_of_map_to_list in Hin.
    destruct (Z.eqb_spec c cf); naive_solver.
  - intros Hm. exists ((cf, k), v). rewrite elem_of_map_to_list, Z.eqb_refl. done.
Qed.

Lemma elem_of_cf_entries {A} (m : gmap (Z * string) A) cf k v : (k, v) ∈ cf_entries m cf ↔ m !! (cf, k) = Some v.
Proof.
  unfold cf_entries. rewrite merge_sort_Permutation. apply elem_of_cf_pairs.
Qed.

Lemma cf_entries_sorted {A} (m : gmap (Z * string) A) cf : StronglySorted key_le (cf_entries m cf).
Proof. apply StronglySorted_merge_sort; apply _. Qed.

Lemma cf_entries_NoDup {A} (m : gmap (Z * string) A) cf : NoDup (fst <$> cf_entries m cf).
Proof.
  unfold cf_entries. rewrite merge_sort_Permutation. unfold cf_pairs.
  pose proof (NoDup_fst_map_to_list m) as Hnd.
  induction (map_to_list m) as [|[[c k] v] l IH]; [constructor|].
  cbn in Hnd |- *. apply NoDup_cons in Hnd as [Hni Hnd].
  destruct (Z.eqb_spec c cf) as [->|]; [|by apply IH]. cbn.
  constructor; [|by apply IH].
  rewrite list_elem_of_fmap. intros ([k' v'] & -> & Hin).
  apply list_elem_of_omap in Hin as ([[c' k''] v''] & Hin & E).
  destruct (Z.eqb_spec c' cf); [|done]. simplify_eq. apply Hni.
  apply list_elem_of_fmap. by exists ((cf, k'), v').
Qed.

(** A healthy read. *)
Lemma Get_healthy `{TxnLaws T} cf k ex (t : T) :
  valid_cf cf → txn_wf t → txn_healthy t →
  ∃ t', Get cf k ex t = (Ret (Val (txn_snapshot t !! (index cf, k))), t') ∧ txn_frame t t'.
Proof.
  intros Hcf Hwf Hh. destruct (Get_law cf k ex t Hcf Hwf) as (o & t' & E & Hf & Hr).
  destruct Hr as [-> | [? _]]; [eauto | done].
Qed.

Lemma txn_writing_trans `{TxnSpec T} (t t' t'' : T) w w' :
  txn_writing t w t' → txn_writing t' w' t'' → txn_writing t w' t''.
Proof. unfold txn_writing. intros (->&?&?&->&?) (->&?&?&->&?). tauto. Qed.

Lemma txn_frame_trans `{TxnSpec T} (t t' t'' : T) :
  txn_frame t t' → txn_frame t' t'' → txn_frame t t''.
Proof.
  unfold txn_frame. intros H1 H2. pose proof (txn_writing_trans _ _ _ _ _ H1 H2) as H3.
  destruct H1 as (_&E&_). by rewrite E in H3.
Qed.

Lemma txn_frame_refl `{TxnSpec T} (t : T) : txn_wf t → txn_frame t t.
Proof. unfold txn_frame, txn_writing. tauto. Qed.

(** Reads compose: an error is wrapped, an exception passes through. *)
Lemma reads_bind {A B} `{TxnSpec T} (m : M T (expected A))
    (k : expected A → M T (expected B)) (t : T) (v : A) (w : B) :
  reads m t v →
  (∀ e t1, status_wf e → ∃ st, k (Unexp e) t1 = (Ret (Unexp st), t1) ∧ status_wf st) →
  (∀ t1, txn_frame t t1 → reads (k (Val v)) t1 w) →
  reads (bind m k) t w.
Proof.
  intros (o & t1 & E & Hf & Hr) Herr Hval. unfold reads, bind. rewrite E.
  assert (txn_healthy t ↔ txn_healthy t1) as Hh by apply Hf.
  destruct Hr as [-> | [Hn [(e & -> & He)|(s & ->)]]].
  - destruct (Hval t1 Hf) as (o & t2 & -> & Hf2 & Hr). exists o, t2.
    split; [done|]. split; [by eapply txn_frame_trans|]. unfold read_result in *. by rewrite Hh.
  - destruct (Herr e t1 He) as (st & -> & Hst). do 2 eexists. split; [done|].
    split; [done|]. right. eauto.
  - do 2 eexists. split; [done|]. split; [done|]. right. eauto.
Qed.

Lemma reads_Ret {A} `{TxnSpec T} (m : M T (expected A)) (t : T) (v : A) :
  txn_wf t → m t = (Ret (Val v), t) → reads m t v.
Proof. intros Hwf E. exists (Ret (Val v)), t. split; [done|]. split; [by apply txn_frame_refl|]. by left. Qed.

(** A pure first step. *)
Lemma reads_bind_Ret {A B} `{TxnSpec T} (m : M T A) (k : A → M T (expected B)) (t : T)
    (a : A) (w : B) :
  m t = (Ret a, t) → reads (k a) t w → reads (bind m k) t w.
Proof. unfold reads, bind. by intros ->. Qed.

(** Filters compose. *)
Lemma list_filter_and {A} (P Q : A → Prop) `{∀ x, Decision (P x), ∀ x, Decision (Q x)} (l : list A) :
  filter Q (filter P l) = filter (λ x, P x ∧ Q x) l.
Proof.
  induction l as [|x l IH]; [done|]. rewrite !filter_cons.
  repeat case_decide; rewrite ?filter_cons; repeat case_decide; try tauto; congruence.
Qed.

Lemma list_filter_none {A} (P : A → Prop) `{∀ x, Decision (P x)} (l : list A) :
  Forall (λ x, ¬ P x) l → filter P l = [].
Proof. induction 1 as [|x l Hx _ IH]; [done|]. rewrite filter_cons_False by exact Hx. exact IH. Qed.

Lemma StronglySorted_filter {A} (R : relation A) (P : A → Prop) `{∀ x, Decision (P x)}
    (l : list A) :
  StronglySorted R l → StronglySorted R (filter P l).
Proof.
  induction 1 as [|x l Hs IH Hf]; [constructor|]. rewrite filter_cons.
  case_decide; [|done]. constructor; [done|].
  rewrite Forall_forall in Hf |- *. intros y Hy%list_elem_of_filter. by apply Hf, Hy.
Qed.

(** Two listings in strict key order with the same entries are the same. *)
Definition key_lt {A} (x y : string * A) : Prop := str_ltb x.1 y.1 = true.

Lemma StronglySorted_key_lt {A} (l : list (string * A)) :
  StronglySorted key_le l → NoDup l.*1 → StronglySorted key_lt l.
Proof.
  induction 1 as [|x l Hs IH Hf]; cbn; intros Hnd; [constructor|].
  apply NoDup_cons in Hnd as [Hni Hnd]. constructor; [by apply IH|].
  rewrite Forall_forall in Hf |- *. intros y Hy. pose proof (Hf y Hy) as Hle.
  apply str_leb_cases in Hle as [Hlt|E]; [exact Hlt|]. exfalso. apply Hni.
  rewrite E. apply list_elem_of_fmap. eauto.
Qed.

Lemma StronglySorted_key_lt_eq {A} (l l' : list (string * A)) :
  StronglySorted key_lt l → StronglySorted key_lt l' → (∀ x, x ∈ l ↔ x ∈ l') → l = l'.
Proof.
  intros Hs. revert l'. induction Hs as [|x l Hs IH Hf]; intros l' Hs' Hel.
  - destruct l' as [|y l']; [done|].
    pose proof (proj2 (Hel y) (list_elem_of_here _ _)) as Hy. by apply not_elem_of_nil in Hy.
  - destruct Hs' as [|y l' Hs' Hf'].
    { pose proof (proj1 (Hel x) (list_elem_of_here _ _)) as Hx. by apply not_elem_of_nil in Hx. }
    rewrite Forall_forall in Hf, Hf'.
    assert (x = y) as <-.
    { pose proof (proj1 (Hel x) (list_elem_of_here _ _)) as Hx.
      pose proof (proj2 (Hel y) (list_elem_of_here _ _)) as Hy.
      apply elem_of_cons in Hx as [|Hx], Hy as [|Hy]; [done..|].
      pose proof (str_ltb_trans _ _ _ (Hf y Hy) (Hf' x Hx)) as Hc.
      by rewrite str_ltb_irrefl in Hc. }
    f_equal. apply IH; [done|]. intros z.
    assert (∀ k (l : list (string * A)), (∀ y, y ∈ l → key_lt k y) → k ∉ l) as Hni.
    { intros k l0 Hl0 Hk. pose proof (Hl0 k Hk) as Hc. unfold key_lt in Hc.
      by rewrite str_ltb_irrefl in Hc. }
    specialize (Hel z). rewrite !elem_of_cons in Hel.
    pose proof (Hni x l Hf). pose proof (Hni x l' Hf').
    split; intros Hz; [destruct (proj1 Hel (or_intror Hz)) as [Ez|] |
                       destruct (proj2 Hel (or_intror Hz)) as [Ez|]]; by subst.
Qed.
