(* ===== verification/RocksDB.v ===== *)
(** The RocksDB-backed store: src/namenode/table/kv/rocksdb_kv_store.h and .cc.

    RocksDB itself is a parameter: [RocksDB] names the calls the code makes and
    [RocksDBLaws] states their documented behaviour over the key-value pairs of
    the database ([db_contents]) and of a snapshot ([snap_contents]).  A
    transaction, the conflict detector and the store are records; each method is
    a computation over the record it changes.  The [async_mutex] is not
    modelled: each method of the detector runs as a whole. *)

From Stdlib Require Import ZArith Lia Ascii String.
From stdpp Require Import prelude strings gmap sorting.
From S2P Require Import Prelude Common Types KVStoreBase.

#[local] Open Scope Z_scope.

(** ** RocksDB *)

Inductive batch_op :=
| BatchPut (cf : Z) (k v : string)
| BatchDelete (cf : Z) (k : string).

Class RocksDB := {
  rs_status : Type;
  rs_ok : rs_status → bool;
  rs_IsNotFound : rs_status → bool;
  rs_ToString : rs_status → string;
  DB : Type;
  Snapshot : Type;
  Iterator : Type;
  (* path and column families: status, the handles' names, the database *)
  db_Open : string → list string → rs_status * list string * DB;
  db_GetSnapshot : DB → option Snapshot;
  (* reads with [ReadOptions::snapshot] set *)
  db_Get : Snapshot → Z → string → rs_status * string;
  db_NewIterator : Snapshot → Z → Iterator;
  it_Seek : Iterator → string → Iterator;
  it_Valid : Iterator → bool;
  it_Next : Iterator → Iterator;
  it_key : Iterator → string;
  it_value : Iterator → string;
  it_status : Iterator → rs_status;
  db_Write : DB → list batch_op → rs_status * DB;
}.

Definition apply_batch_op (m : kvmap) (op : batch_op) : kvmap :=
  match op with
  | BatchPut cf k v => <[(cf, k) := v]> m
  | BatchDelete cf k => delete (cf, k) m
  end.

(** What RocksDB's operations mean, for the laws. *)
Class RocksDBSpec `{RocksDB} := {
  db_contents : DB → kvmap;
  snap_contents : Snapshot → kvmap;
  snap_healthy : Snapshot → Prop;
  it_rest : Iterator → list (string * string);   (* entries still to come *)
  it_healthy : Iterator → Prop;
}.

Class RocksDBLaws `{RocksDBSpec} : Prop := {
  db_GetSnapshot_law db :
    ∃ s, db_GetSnapshot db = Some s ∧ snap_contents s = db_contents db;
  db_Get_ok s cf k st v :
    db_Get s cf k = (st, v) → rs_ok st = true → snap_contents s !! (cf, k) = Some v;
  db_Get_not_found s cf k st v :
    db_Get s cf k = (st, v) → rs_ok st = false → rs_IsNotFound st = true →
    snap_contents s !! (cf, k) = None;
  db_Get_healthy s cf k :
    snap_healthy s →
    rs_ok (db_Get s cf k).1 = true ∨ rs_IsNotFound (db_Get s cf k).1 = true;
  it_Seek_law s cf k :
    it_rest (it_Seek (db_NewIterator s cf) k)
    = filter (λ kv, str_le k kv.1) (cf_entries (snap_contents s) cf);
  it_Seek_healthy s cf k : snap_healthy s → it_healthy (it_Seek (db_NewIterator s cf) k);
  it_Valid_true it :
    it_Valid it = true →
    rs_ok (it_status it) = true ∧ it_rest it = (it_key it, it_value it) :: it_rest (it_Next it);
  it_Valid_false it :
    it_Valid it = false → rs_ok (it_status it) = true → it_rest it = [];
  it_Next_healthy it : it_healthy it → it_healthy (it_Next it);
  it_status_healthy it : it_healthy it → rs_ok (it_status it) = true;
  db_Write_ok db batch st db' :
    db_Write db batch = (st, db') → rs_ok st = true →
    db_contents db' = foldl apply_batch_op (db_contents db) batch;
  db_Write_atomic db batch st db' :
    db_Write db batch = (st, db') → rs_ok st = false →
    db_contents db' = db_contents db ∨
    db_contents db' = foldl apply_batch_op (db_contents db) batch;
}.

(** ** RocksDBTxn *)

Definition kDefaultCFName : string := "default".
Definition kInodeCFName : string := "Inode".
Definition kMTimeCFName : string := "DirectoryMTime".
Definition kATimeCFName : string := "ATime".
Definition kDEntCFName : string := "DEnt".

Section rocksdb.
Context `{RocksDB, Fmt, Build}.

Record RocksDBTxn := {
  cf_handles_ : list string;
  snapshot_ : Snapshot;
  start_version_ : Z;
  commit_version_ : Z;
  read_set_ : gmap (Z * string) (variant_mo string);
  write_set_ : gmap (Z * string) (option string);
}.

Definition set_read_set (f : gmap (Z * string) (variant_mo string) →
    gmap (Z * string) (variant_mo string)) (t : RocksDBTxn) : RocksDBTxn :=
  {| cf_handles_ := cf_handles_ t; snapshot_ := snapshot_ t;
     start_version_ := start_version_ t; commit_version_ := commit_version_ t;
     read_set_ := f (read_set_ t); write_set_ := write_set_ t |}.
Definition set_write_set (f : gmap (Z * string) (option string) →
    gmap (Z * string) (option string)) (t : RocksDBTxn) : RocksDBTxn :=
  {| cf_handles_ := cf_handles_ t; snapshot_ := snapshot_ t;
     start_version_ := start_version_ t; commit_version_ := commit_version_ t;
     read_set_ := read_set_ t; write_set_ := f (write_set_ t) |}.
Definition set_commit_version (v : Z) (t : RocksDBTxn) : RocksDBTxn :=
  {| cf_handles_ := cf_handles_ t; snapshot_ := snapshot_ t;
     start_version_ := start_version_ t; commit_version_ := v;
     read_set_ := read_set_ t; write_set_ := write_set_ t |}.

(** The constructor. *)
Definition RocksDBTxn_make (db : DB) (cf_handles : list string) (start_version : Z) :
    outcome RocksDBTxn :=
  match db_GetSnapshot db with
  | None => Throw "Check failed: CHECK_NOTNULL(db_)->GetSnapshot() != nullptr."
  | Some s => Ret {| cf_handles_ := cf_handles; snapshot_ := s;
                     start_version_ := start_version; commit_version_ := -1;
                     read_set_ := ∅; write_set_ := ∅ |}
  end.

(** [CHECK_GE(cf_index.index, 0); CHECK_LT(cf_index.index, cf_handles_.size())]. *)
Definition CheckCF (cf : CFIndex) : M RocksDBTxn unit :=
  let! t := gets (λ t, t) in
  do! Check (index cf >=? 0) "(cf_index.index) >= (0)" in
  Check (index cf <? Z.of_nat (length (cf_handles_ t)))
    "(cf_index.index) < (cf_handles_.size())".

(** The stored value is always the variant's second alternative. *)
Definition Txn_AddReadConflictKey (cf : CFIndex) (key : string) (value : variant_mo string) :
    M RocksDBTxn unit :=
  do! CheckCF cf in
  modify (set_read_set <[(index cf, key) :=
    optional (match value with monostate => None | optional v => v end)]>).

Definition Txn_Get (cf : CFIndex) (key : string) (exclude_from_read_conflict : bool) :
    M RocksDBTxn (expected (option string)) :=
  do! Check (CFIndex_neqb cf kInvalidCFIndex) "(cf_index) != (kInvalidCFIndex)" in
  do! CheckCF cf in
  let! t := gets (λ t, t) in
  let '(status, slice) := db_Get (snapshot_ t) (index cf) key in
  if rs_ok status then
    do! (if negb exclude_from_read_conflict
         then Txn_AddReadConflictKey cf key (optional (Some slice)) else ret tt) in
    ret (Val (Some slice))
  else if rs_IsNotFound status then
    do! (if negb exclude_from_read_conflict
         then Txn_AddReadConflictKey cf key monostate else ret tt) in
    ret (Val None)
  else
    let! e := SystemError (location_at "src/namenode/table/kv/rocksdb_kv_store.cc" 83)
                (rs_ToString status) None in
    ret (Unexp e).

(** The loop of [GetRange]; [room] is [limit - values.size()]. *)
Fixpoint GetRange_loop (it : Iterator) (end_key : string) (room : nat) :
    list string * Iterator :=
  match room with
  | O => ([], it)
  | S room =>
      if it_Valid it && str_ltb (it_key it) end_key then
        let '(values, it') := GetRange_loop (it_Next it) end_key room in
        (it_value it :: values, it')
      else ([], it)
  end.

(** Does nothing: ranges are not tracked. *)
Definition Txn_AddReadConflictKeyRange (cf : CFIndex) (start_key end_key : string) :
    M RocksDBTxn unit := ret tt.

Definition Txn_GetRange (cf : CFIndex) (start_key end_key : string) (limit : nat)
    (exclude_from_read_conflict : bool) : M RocksDBTxn (expected (list string)) :=
  do! Check (CFIndex_neqb cf kInvalidCFIndex) "(cf_index) != (kInvalidCFIndex)" in
  do! CheckCF cf in
  let! t := gets (λ t, t) in
  let iter := it_Seek (db_NewIterator (snapshot_ t) (index cf)) start_key in
  let '(values, iter) := GetRange_loop iter end_key limit in
  if negb (rs_ok (it_status iter)) then
    let! e := SystemError (location_at "src/namenode/table/kv/rocksdb_kv_store.cc" 120)
                (rs_ToString (it_status iter)) None in
    ret (Unexp e)
  else
    do! (if negb exclude_from_read_conflict
         then Txn_AddReadConflictKeyRange cf start_key end_key else ret tt) in
    ret (Val values).

Definition Txn_Put (cf : CFIndex) (key value : string) : M RocksDBTxn unit :=
  do! CheckCF cf in
  modify (set_write_set <[(index cf, key) := Some value]>).

Definition Txn_Del (cf : CFIndex) (key : string) : M RocksDBTxn unit :=
  do! CheckCF cf in
  modify (set_write_set <[(index cf, key) := None]>).

#[global] Instance RocksDBTxn_TxnBase : TxnBase RocksDBTxn := {|
  Get := Txn_Get;
  AddReadConflictKey := Txn_AddReadConflictKey;
  GetRange := Txn_GetRange;
  AddReadConflictKeyRange := Txn_AddReadConflictKeyRange;
  Put := Txn_Put;
  Del := Txn_Del;
|}.

(** ** RocksDBConflictDetector *)

Record RocksDBConflictDetector := {
  committed_txns_ : gmap Z RocksDBTxn;     (* std::map keyed by commit version *)
  latest_purged_version_ : Z;
}.

Definition RocksDBConflictDetector_make (latest_purged_version : Z) : RocksDBConflictDetector :=
  {| committed_txns_ := ∅; latest_purged_version_ := latest_purged_version |}.

Definition HasConflict (txn concurrent_txn : RocksDBTxn) : outcome bool :=
  if negb (start_version_ txn <? commit_version_ concurrent_txn) then
    Throw "Check failed: (txn.start_version_) < (concurrent_txn.commit_version_)."
  else if negb (commit_version_ txn >? commit_version_ concurrent_txn) then
    Throw "Check failed: (txn.commit_version_) > (concurrent_txn.commit_version_)."
  else
    Ret (existsb (λ '(key_with_cf, _),
                   match read_set_ txn !! key_with_cf with Some _ => true | None => false end)
           (map_to_list (write_set_ concurrent_txn))).

(** [std::any_of] with a predicate that may throw. *)
Fixpoint any_of {A} (f : A → outcome bool) (l : list A) : outcome bool :=
  match l with
  | [] => Ret false
  | x :: l =>
      match f x with
      | Ret true => Ret true
      | Ret false => any_of f l
      | o => o
      end
  end.

Definition version_le {A} (x y : Z * A) : Prop := x.1 ≤ y.1.
#[global] Instance version_le_dec {A} : RelDecision (@version_le A).
Proof. intros x y. unfold version_le. apply _. Defined.

(** [[lower_bound(lo), upper_bound(hi))], in version order. *)
Definition committed_between (d : RocksDBConflictDetector) (lo hi : Z) :
    list (Z * RocksDBTxn) :=
  merge_sort version_le
    (filter (λ p, lo ≤ p.1 ≤ hi) (map_to_list (committed_txns_ d))).

Definition IsConflictFree (d : RocksDBConflictDetector) (txn : RocksDBTxn) : outcome bool :=
  if negb (start_version_ txn >? 0) then
    Throw "Check failed: (txn->start_version_) > (0)."
  else if negb (commit_version_ txn >? start_version_ txn) then
    Throw "Check failed: (txn->commit_version_) > (txn->start_version_)."
  else if start_version_ txn <? latest_purged_version_ d then Ret false
  else
    match any_of
            (λ '(version, prev_committed_txn),
               if negb (version =? commit_version_ prev_committed_txn) then
                 Throw "Check failed: (version) == (prev_committed_txn->commit_version_)."
               else HasConflict txn prev_committed_txn)
            (committed_between d (start_version_ txn) (commit_version_ txn)) with
    | Ret b => Ret (negb b)
    | o => o
    end.

Definition PurgeTo (version : Z) : M RocksDBConflictDetector unit :=
  modify (λ d, {|
    committed_txns_ := filter (λ p, version < p.1) (committed_txns_ d);
    latest_purged_version_ :=
      if version >? latest_purged_version_ d then version else latest_purged_version_ d;
  |}).

(** ** RocksDBKVStore *)

Record RocksDBKVStore := {
  db_ : DB;
  kv_cf_handles_ : list string;
  version_ : Z;                            (* std::atomic<int64_t> *)
  conflict_detector_ : RocksDBConflictDetector;
}.

Definition cf_names : list (CFIndex * string) :=
  [(kDefaultCFIndex, kDefaultCFName); (kInodeCFIndex, kInodeCFName);
   (kMTimeCFIndex, kMTimeCFName); (kATimeCFIndex, kATimeCFName);
   (kDEntCFIndex, kDEntCFName)].

(** The constructor: open, and check that the handles are the expected ones. *)
Definition RocksDBKVStore_make : outcome RocksDBKVStore :=
  let '(status, cf_handles, db) := db_Open "/tmp/rocksdb" (snd <$> cf_names) in
  if negb (rs_ok status) then Throw "Check failed: status.ok()."
  else if negb (Z.of_nat (length cf_handles) =? Z.of_nat (length cf_names)) then
    Throw "Check failed: (cf_handles_.size()) == (cf_descriptors.size())."
  else if negb (forallb (λ '(cf, name),
                  match cf_handles !! Z.to_nat (index cf) with
                  | Some n => String.eqb n name
                  | None => false
                  end) cf_names) then
    Throw "Check failed: (cf_handles_[cf_index.index]->GetName()) == (cf_name)."
  else
    Ret {| db_ := db; kv_cf_handles_ := cf_handles; version_ := 1;
           conflict_detector_ := RocksDBConflictDetector_make (1 - 1) |}.

Definition set_version (v : Z) (k : RocksDBKVStore) : RocksDBKVStore :=
  {| db_ := db_ k; kv_cf_handles_ := kv_cf_handles_ k; version_ := v;
     conflict_detector_ := conflict_detector_ k |}.
Definition set_db (db : DB) (k : RocksDBKVStore) : RocksDBKVStore :=
  {| db_ := db; kv_cf_handles_ := kv_cf_handles_ k; version_ := version_ k;
     conflict_detector_ := conflict_detector_ k |}.

(** [version_.fetch_add(1)]. *)
Definition fetch_add_version : M RocksDBKVStore Z :=
  let! v := gets version_ in
  do! modify (set_version (i64 (v + 1))) in
  ret v.

Definition KV_StartTxn : M RocksDBKVStore RocksDBTxn :=
  let! v := fetch_add_version in
  let! k := gets (λ k, k) in
  of_outcome (RocksDBTxn_make (db_ k) (kv_cf_handles_ k) v).

Definition write_op_of (p : Z * string * option string) : batch_op :=
  let '(cf, key, value) := p in
  match value with
  | Some v => BatchPut cf key v
  | None => BatchDelete cf key
  end.

Definition write_key_le (x y : Z * string * option string) : Prop :=
  x.1.1 < y.1.1 ∨ (x.1.1 = y.1.1 ∧ str_le x.1.2 y.1.2).
#[global] Instance write_key_le_dec : RelDecision write_key_le.
Proof. intros x y. unfold write_key_le. apply _. Defined.

(** The batch: one operation per entry of the write set, in the map's order. *)
Definition write_batch (txn : RocksDBTxn) : list batch_op :=
  write_op_of <$> merge_sort write_key_le (map_to_list (write_set_ txn)).

Definition KV_CommitTxn (txn : RocksDBTxn) : M RocksDBKVStore (expected unit) :=
  let! v := fetch_add_version in
  let rocksdb_txn := set_commit_version v txn in
  let! k := gets (λ k, k) in
  let! free := of_outcome (IsConflictFree (conflict_detector_ k) rocksdb_txn) in
  if negb free then
    let! e := ConflictError (location_at "src/namenode/table/kv/rocksdb_kv_store.cc" 257)
                "" None in
    ret (Unexp e)
  else
    let '(status, db) := db_Write (db_ k) (write_batch rocksdb_txn) in
    do! modify (set_db db) in
    do! Check (rs_ok status) "db_->Write(rocksdb::WriteOptions(), &write_batch).ok()" in
    ret (Val tt).

#[global] Instance RocksDBKVStore_KVStoreBase : KVStoreBase RocksDBKVStore RocksDBTxn :=
  {| StartTxn := KV_StartTxn; CommitTxn := KV_CommitTxn |}.

End rocksdb.

(** ** Lemmas *)

Section rocksdb_lemmas.
Context `{RocksDBLaws, Fmt, Build}.

#[global] Instance RocksDBTxn_TxnSpec : TxnSpec RocksDBTxn := {|
  txn_snapshot t := snap_contents (snapshot_ t);
  txn_writes t := write_set_ t;
  txn_healthy t := snap_healthy (snapshot_ t);
  txn_id t := start_version_ t;
  txn_wf t := length (cf_handles_ t) = 5%nat;
|}.

Lemma CheckCF_ok cf t : valid_cf cf → txn_wf t → CheckCF cf t = (Ret tt, t).
Proof.
  unfold valid_cf. simpl. intros Hcf Hwf. unfold CheckCF, bind, gets, Check.
  destruct (Z.geb_spec (index cf) 0); [|lia].
  destruct (Z.ltb_spec (index cf) (Z.of_nat (length (cf_handles_ t)))); [done|lia].
Qed.

Lemma CheckCF_invalid cf : valid_cf cf → CFIndex_neqb cf kInvalidCFIndex = true.
Proof.
  unfold valid_cf, CFIndex_neqb, CFIndex_eqb. simpl. intros.
  destruct (Z.eqb_spec (index cf) (-1)); [lia|done].
Qed.

Lemma AddReadConflictKey_ok cf key v t :
  valid_cf cf → txn_wf t →
  ∃ t', Txn_AddReadConflictKey cf key v t = (Ret tt, t') ∧ txn_frame t t' ∧
        read_set_ t' = <[(index cf, key) :=
          optional (match v with monostate => None | optional v => v end)]> (read_set_ t) ∧
        start_version_ t' = start_version_ t.
Proof.
  intros Hcf Hwf. unfold Txn_AddReadConflictKey.
  erewrite bind_Ret by (by apply CheckCF_ok). eexists. by repeat split.
Qed.

(** A read either adds its key to the read set, or leaves it alone. *)
Lemma maybe_AddReadConflictKey_ok (ex : bool) cf key v t :
  valid_cf cf → txn_wf t →
  ∃ t', (if negb ex then Txn_AddReadConflictKey cf key v else ret tt) t = (Ret tt, t') ∧
        txn_frame t t'.
Proof.
  intros Hcf Hwf. destruct ex; simpl.
  - exists t. split; [done|]. by apply txn_frame_refl.
  - destruct (AddReadConflictKey_ok cf key v t Hcf Hwf) as (t' & E & Hf & _). eauto.
Qed.

(** RocksDB's own messages reach [Status], whose check may throw. *)
Lemma SystemError_read_result {A} (healthy : Prop) (v : A) loc msg (t : RocksDBTxn) :
  ¬ healthy →
  ∃ o, bind (SystemError loc msg None) (λ e, ret (Unexp e)) t = (o, t) ∧
       read_result healthy v o.
Proof.
  intros Hh. unfold SystemError, bind.
  destruct (Status_make_cases kSystemError msg None loc t) as [(_ & st & -> & _ & Hst)|[_ ->]];
    [done|..]; eexists; (split; [done|]); right; (split; [done|]); [left|right]; eauto.
Qed.

Lemma Txn_Get_law cf key ex t :
  valid_cf cf → txn_wf t →
  ∃ o t', Txn_Get cf key ex t = (o, t') ∧ txn_frame t t' ∧
          read_result (txn_healthy t) (txn_snapshot t !! (index cf, key)) o.
Proof.
  intros Hcf Hwf. unfold Txn_Get. rewrite CheckCF_invalid by done.
  erewrite bind_Ret by reflexivity. erewrite bind_Ret by (by apply CheckCF_ok).
  erewrite bind_Ret by reflexivity. cbv beta.
  destruct (db_Get (snapshot_ t) (index cf) key) as [st slice] eqn:EG.
  destruct (rs_ok st) eqn:Eok; [|destruct (rs_IsNotFound st) eqn:Enf].
  - destruct (maybe_AddReadConflictKey_ok ex cf key (optional (Some slice)) t Hcf Hwf)
      as (t' & E & Hf). erewrite bind_Ret by done.
    do 2 eexists. split; [done|]. split; [done|]. left. do 2 f_equal.
    symmetry. by eapply db_Get_ok.
  - destruct (maybe_AddReadConflictKey_ok ex cf key monostate t Hcf Hwf)
      as (t' & E & Hf). erewrite bind_Ret by done.
    do 2 eexists. split; [done|]. split; [done|]. left. do 2 f_equal.
    symmetry. by eapply db_Get_not_found.
  - edestruct (SystemError_read_result (txn_healthy t) (txn_snapshot t !! (index cf, key)))
      as (o & E & Hr); cycle 1.
    + exists o, t. split; [exact E|]. split; [by apply txn_frame_refl | exact Hr].
    + simpl. intros Hh. destruct (db_Get_healthy (snapshot_ t) (index cf) key Hh) as [Ho|Ho];
        rewrite EG in Ho; simpl in Ho; congruence.
Qed.

(** The loop of [GetRange] collects the entries before [hi]; on a healthy
    iterator it ends without an error. *)
Lemma GetRange_loop_spec it hi room :
  StronglySorted key_le (it_rest it) →
  let '(vs, it') := GetRange_loop it hi room in
  (rs_ok (it_status it') = true →
   vs = take room (snd <$> filter (λ kv, str_ltb kv.1 hi = true) (it_rest it))) ∧
  (it_healthy it → it_healthy it').
Proof.
  revert it. induction room as [|room IH]; intros it Hs; simpl; [done|].
  destruct (it_Valid it) eqn:Ev; simpl.
  - apply it_Valid_true in Ev as [Hok Hrest]. rewrite Hrest in Hs |- *.
    destruct (str_ltb (it_key it) hi) eqn:El.
    + apply StronglySorted_inv in Hs as [Hs _]. specialize (IH (it_Next it) Hs).
      destruct (GetRange_loop (it_Next it) hi room) as [vs it']. destruct IH as [IH1 IH2].
      split; [|eauto using it_Next_healthy]. intros Hst. rewrite filter_cons_True by done.
      simpl. f_equal. auto.
    + split; [|done]. intros _. rewrite list_filter_none; [done|].
      apply StronglySorted_inv in Hs as [_ Hs]. constructor; simpl; [congruence|].
      eapply Forall_impl; [exact Hs|]. intros [k v] Hle Hlt. simpl in *.
      unfold key_le in Hle. simpl in Hle.
      pose proof (str_leb_ltb_trans _ _ _ Hle Hlt). congruence.
  - split; [|done]. intros Hst. by rewrite (it_Valid_false it Ev Hst).
Qed.

Lemma Txn_GetRange_law cf lo hi limit ex t :
  valid_cf cf → txn_wf t →
  ∃ o t', Txn_GetRange cf lo hi limit ex t = (o, t') ∧ txn_frame t t' ∧
    read_result (txn_healthy t) (range_values (txn_snapshot t) (index cf) lo hi limit) o.
Proof.
  intros Hcf Hwf. unfold Txn_GetRange. rewrite CheckCF_invalid by done.
  erewrite bind_Ret by reflexivity. erewrite bind_Ret by (by apply CheckCF_ok).
  erewrite bind_Ret by reflexivity. cbv beta zeta.
  set (it := it_Seek (db_NewIterator (snapshot_ t) (index cf)) lo).
  pose proof (it_Seek_law (snapshot_ t) (index cf) lo) as Hrest. fold it in Hrest.
  pose proof (GetRange_loop_spec it hi limit) as Hloop. rewrite Hrest in Hloop.
  specialize (Hloop (StronglySorted_filter _ _ _ (cf_entries_sorted _ _))).
  destruct (GetRange_loop it hi limit) as [vs it']. destruct Hloop as [Hvs Hh].
  destruct (rs_ok (it_status it')) eqn:Eok; cbn [negb].
  - do 2 eexists. split; [by destruct ex|]. split; [by apply txn_frame_refl|]. left.
    rewrite Hvs by done. rewrite list_filter_and. done.
  - edestruct (SystemError_read_result (txn_healthy t)
      (range_values (txn_snapshot t) (index cf) lo hi limit)) as (o & E & Hr); cycle 1.
    + exists o, t. split; [exact E|]. split; [by apply txn_frame_refl | exact Hr].
    + simpl. intros Hhs. assert (it_healthy it') as Hit by eauto using it_Seek_healthy.
      apply it_status_healthy in Hit. congruence.
Qed.

#[global] Instance RocksDBTxn_TxnLaws : TxnLaws RocksDBTxn.
Proof.
  split.
  - apply Txn_Get_law.
  - apply Txn_GetRange_law.
  - intros cf k v t Hcf Hwf. cbn [Put RocksDBTxn_TxnBase]. unfold Txn_Put.
    erewrite bind_Ret by (by apply CheckCF_ok). eexists. by repeat split.
  - intros cf k t Hcf Hwf. cbn [Del RocksDBTxn_TxnBase]. unfold Txn_Del.
    erewrite bind_Ret by (by apply CheckCF_ok). eexists. by repeat split.
Qed.

(** *** The batch *)

Lemma foldl_batch_ops (l : list (Z * string * option string)) (m : kvmap) :
  NoDup l.*1 →
  foldl apply_batch_op m (write_op_of <$> l) = apply_writes (list_to_map l) m.
Proof.
  revert m. induction l as [|[[cf k] o] l IH]; intros m Hnd.
  - simpl. symmetry. apply apply_writes_empty.
  - apply NoDup_cons in Hnd as [Hni Hnd]. cbn [fmap list_fmap foldl].
    rewrite IH by done. cbn [list_to_map foldr uncurry fst snd].
    apply map_eq. intros k'. rewrite !lookup_apply_writes.
    destruct (decide (k' = (cf, k))) as [->|Hne].
    + rewrite not_elem_of_list_to_map_1 by done. rewrite lookup_insert_eq.
      by destruct o; simpl; simplify_map_eq.
    + rewrite lookup_insert_ne by done.
      by destruct o; simpl; simplify_map_eq.
Qed.

Lemma write_batch_apply (txn : RocksDBTxn) (m : kvmap) :
  foldl apply_batch_op m (write_batch txn) = apply_writes (write_set_ txn) m.
Proof.
  unfold write_batch.
  assert (NoDup (merge_sort write_key_le (map_to_list (write_set_ txn))).*1) as Hnd.
  { rewrite merge_sort_Permutation. apply NoDup_fst_map_to_list. }
  rewrite foldl_batch_ops by done. f_equal.
  rewrite <- (list_to_map_to_list (write_set_ txn)) at 2.
  apply list_to_map_proper; [done|]. apply merge_sort_Permutation.
Qed.

End rocksdb_lemmas.
