(* ===== verification/Conflict.v ===== *)
(** The promises of the RocksDB-backed store: what [IsConflictFree] decides and
    why its verdict is sound, what [CommitTxn] does to the database, what a
    transaction reads, and what the store as a whole guarantees over any
    interleaving of its transactions.  [MemDB] is an in-memory database that
    satisfies [RocksDBLaws], for the closed examples. *)

From Stdlib Require Import ZArith Lia Ascii String.
From stdpp Require Import prelude strings gmap sorting relations.
From S2P Require Import Prelude Common Types KVStoreBase RocksDB.

#[local] Open Scope Z_scope.

(** ** Operations in sequence and the store as a transition system *)

Section defs.
Context `{RocksDB, Fmt, Build}.

Inductive txn_op :=
| OpGet (cf : CFIndex) (key : string) (exclude : bool)
| OpGetRange (cf : CFIndex) (lo hi : string) (limit : nat) (exclude : bool)
| OpAddReadConflictKey (cf : CFIndex) (key : string) (v : variant_mo string)
| OpPut (cf : CFIndex) (key v : string)
| OpDel (cf : CFIndex) (key : string).

(** The transaction after an operation, whatever the operation returned. *)
Definition run_txn_op (op : txn_op) (t : RocksDBTxn) : RocksDBTxn :=
  match op with
  | OpGet cf key ex => (Txn_Get cf key ex t).2
  | OpGetRange cf lo hi limit ex => (Txn_GetRange cf lo hi limit ex t).2
  | OpAddReadConflictKey cf key v => (Txn_AddReadConflictKey cf key v t).2
  | OpPut cf key v => (Txn_Put cf key v t).2
  | OpDel cf key => (Txn_Del cf key t).2
  end.

Record KVSys := { sys_store : RocksDBKVStore; sys_txns : gmap nat RocksDBTxn }.

(** Any number of clients start transactions, use them and commit them, in any
    order. *)
Inductive kv_step : KVSys → KVSys → Prop :=
| kv_start i k k' t txns :
    KV_StartTxn k = (Ret t, k') → txns !! i = None →
    kv_step {| sys_store := k; sys_txns := txns |}
            {| sys_store := k'; sys_txns := <[i := t]> txns |}
| kv_use i op k t txns :
    txns !! i = Some t →
    kv_step {| sys_store := k; sys_txns := txns |}
            {| sys_store := k; sys_txns := <[i := run_txn_op op t]> txns |}
| kv_commit i o k k' t txns :
    txns !! i = Some t → KV_CommitTxn t k = (o, k') →
    kv_step {| sys_store := k; sys_txns := txns |}
            {| sys_store := k'; sys_txns := delete i txns |}.

(** The contents after the committed transactions of a window are replayed. *)
Definition replay (m : kvmap) (ps : list (Z * RocksDBTxn)) : kvmap :=
  foldl (λ m p, apply_writes (write_set_ p.2) m) m ps.

Definition detector_wf (d : RocksDBConflictDetector) : Prop :=
  ∀ v c, committed_txns_ d !! v = Some c → commit_version_ c = v.

(** [c] wrote nothing that [t] read. *)
Definition no_overlap (t c : RocksDBTxn) : Prop :=
  ∀ key, is_Some (write_set_ c !! key) → read_set_ t !! key = None.

Definition write_failed : string :=
  "Check failed: db_->Write(rocksdb::WriteOptions(), &write_batch).ok().".

End defs.

(** ** The in-memory database *)

Definition MemDB : RocksDB := {|
  rs_status := option string;
  rs_ok s := match s with None => true | Some _ => false end;
  rs_IsNotFound s := match s with Some s => String.eqb s "NotFound: " | None => false end;
  rs_ToString s := match s with None => "OK" | Some s => s end;
  DB := kvmap;
  Snapshot := kvmap;
  Iterator := list (string * string);
  db_Open _ names := (None, names, ∅);
  db_GetSnapshot m := Some m;
  db_Get m cf k := match m !! (cf, k) with
                   | Some v => (None, v)
                   | None => (Some "NotFound: "%string, ""%string)
                   end;
  db_NewIterator m cf := cf_entries m cf;
  it_Seek l k := filter (λ kv, str_le k kv.1) l;
  it_Valid l := match l with [] => false | _ => true end;
  it_Next l := tail l;
  it_key l := match l with kv :: _ => kv.1 | [] => "" end;
  it_value l := match l with kv :: _ => kv.2 | [] => "" end;
  it_status _ := None;
  db_Write m batch := (None, foldl apply_batch_op m batch);
|}.

Definition MemDBSpec : @RocksDBSpec MemDB := {|
  db_contents := λ m : @DB MemDB, m : kvmap;
  snap_contents := λ m : @Snapshot MemDB, m : kvmap;
  snap_healthy := λ _, True;
  it_rest := λ l : @Iterator MemDB, l : list (string * string);
  it_healthy := λ _, True;
|}.

Lemma MemDBLaws : @RocksDBLaws MemDB MemDBSpec.
Proof.
  split; simpl; try done.
  - intros db. by exists db.
  - intros s cf k st v. destruct (s !! (cf, k)); naive_solver.
  - intros s cf k st v. destruct (s !! (cf, k)); naive_solver.
  - intros s cf k _. destruct (s !! (cf, k)); simpl; auto.
  - by intros [|[k v] l].
  - by intros [|[k v] l].
  - intros db batch st db' [= <- <-] _. done.
  - intros db batch st db' [= <- <-] _. by right.
Qed.

(** ** Lemmas *)

Section conflict.
Context `{RocksDBLaws, Fmt, Build}.

Lemma elem_of_committed_between d lo hi v c :
  (v, c) ∈ committed_between d lo hi ↔ committed_txns_ d !! v = Some c ∧ lo ≤ v ≤ hi.
Proof.
  unfold committed_between.
  rewrite merge_sort_Permutation, list_elem_of_filter, elem_of_map_to_list. simpl. tauto.
Qed.

Lemma any_of_Ret {A} (f : A → outcome bool) (b : A → bool) (l : list A) :
  Forall (λ x, f x = Ret (b x)) l → any_of f l = Ret (existsb b l).
Proof.
  induction 1 as [|x l Hx _ IH]; simpl; [done|]. rewrite Hx. by destruct (b x).
Qed.

Lemma any_of_Ret_false {A} (f : A → outcome bool) (l : list A) :
  any_of f l = Ret false → Forall (λ x, f x = Ret false) l.
Proof.
  induction l as [|x l IH]; simpl; [constructor|].
  destruct (f x) as [[]|w|] eqn:E; try done. intros Hl. constructor; auto.
Qed.

Definition overlaps (t c : RocksDBTxn) : bool :=
  existsb (λ '(key_with_cf, _),
             match read_set_ t !! key_with_cf with Some _ => true | None => false end)
    (map_to_list (write_set_ c)).

Lemma overlaps_false t c : overlaps t c = false ↔ no_overlap t c.
Proof.
  unfold overlaps, no_overlap. split.
  - intros Ho key [o Hk]. apply elem_of_map_to_list in Hk.
    destruct (read_set_ t !! key) eqn:Er; [|done].
    assert (overlaps t c = true); [|unfold overlaps in *; congruence].
    apply existsb_exists. exists (key, o). rewrite <- list_elem_of_In.
    split; [done|]. by rewrite Er.
  - intros Hno. apply not_true_iff_false. intros Ho.
    apply existsb_exists in Ho as ([key o] & Hin & Ho).
    rewrite <- list_elem_of_In in Hin. apply elem_of_map_to_list in Hin.
    rewrite (Hno key) in Ho; [done|]. by eexists.
Qed.

Lemma HasConflict_eval t c :
  start_version_ t < commit_version_ c < commit_version_ t →
  HasConflict t c = Ret (overlaps t c).
Proof.
  intros Hv. unfold HasConflict.
  destruct (Z.ltb_spec (start_version_ t) (commit_version_ c)); [|lia].
  destruct (Z.gtb_spec (commit_version_ t) (commit_version_ c)); [done|lia].
Qed.

Lemma HasConflict_Ret_false t c : HasConflict t c = Ret false → no_overlap t c.
Proof.
  unfold HasConflict. do 2 (case_match; [done|]). intros [= Ho]. by apply overlaps_false.
Qed.

Lemma IsConflictFree_eval d t :
  detector_wf d → 0 < start_version_ t < commit_version_ t →
  committed_txns_ d !! start_version_ t = None →
  committed_txns_ d !! commit_version_ t = None →
  IsConflictFree d t = Ret
    (negb (start_version_ t <? latest_purged_version_ d) &&
     negb (existsb (λ p, overlaps t p.2)
             (committed_between d (start_version_ t) (commit_version_ t)))).
Proof.
  intros Hwf Hv Hs Hc. unfold IsConflictFree.
  destruct (Z.gtb_spec (start_version_ t) 0); [|lia].
  destruct (Z.gtb_spec (commit_version_ t) (start_version_ t)); [|lia]. cbn [negb].
  destruct (_ <? _); [done|]. cbn [negb andb].
  erewrite (any_of_Ret _ (λ p, overlaps t p.2)); [done|].
  apply Forall_forall. intros [v c] [Hl Hr]%elem_of_committed_between.
  pose proof (Hwf _ _ Hl) as Hcv. rewrite Hcv, Z.eqb_refl. cbn [negb].
  apply HasConflict_eval.
  assert (v ≠ start_version_ t) by congruence. assert (v ≠ commit_version_ t) by congruence.
  simpl. lia.
Qed.

Lemma existsb_overlaps_false d t lo hi :
  existsb (λ p, overlaps t p.2) (committed_between d lo hi) = false ↔
  ∀ v c, lo ≤ v ≤ hi → committed_txns_ d !! v = Some c → no_overlap t c.
Proof.
  rewrite <- not_true_iff_false, existsb_exists. split.
  - intros Hno v c Hv Hl. apply overlaps_false, not_true_iff_false. intros Ho.
    apply Hno. exists (v, c). by rewrite <- list_elem_of_In, elem_of_committed_between.
  - intros Hno ([v c] & Hin & Ho).
    rewrite <- list_elem_of_In, elem_of_committed_between in Hin. destruct Hin as [Hl Hv].
    eapply Hno, overlaps_false in Hl; [|done]. simpl in Ho. congruence.
Qed.

(** Transactions that wrote nothing [t] read leave [t]'s reads alone. *)
Lemma replay_unread t ps m key :
  Forall (λ p, no_overlap t p.2) ps → is_Some (read_set_ t !! key) →
  replay m ps !! key = m !! key.
Proof.
  intros Hps Hr. revert m. induction Hps as [|p ps Hp _ IH]; intros m; simpl; [done|].
  rewrite IH, lookup_apply_writes. destruct (write_set_ p.2 !! key) eqn:Ew; [|done].
  rewrite (Hp key) in Hr by eauto. by destruct Hr.
Qed.

Lemma IsConflictFree_Ret_true d t :
  IsConflictFree d t = Ret true →
  Forall (λ p, no_overlap t p.2)
    (committed_between d (start_version_ t) (commit_version_ t)).
Proof.
  unfold IsConflictFree. do 3 (case_match; [done|]).
  destruct (any_of _ _) as [[]|w|] eqn:E; try done. intros _.
  apply any_of_Ret_false in E. eapply Forall_impl; [exact E|].
  intros [v c]. simpl. case_match; [done|]. apply HasConflict_Ret_false.
Qed.

(** *** The store *)

Lemma KV_StartTxn_eval k :
  ∃ s, db_GetSnapshot (db_ k) = Some s ∧ snap_contents s = db_contents (db_ k) ∧
  KV_StartTxn k =
    (Ret {| cf_handles_ := kv_cf_handles_ k; snapshot_ := s; start_version_ := version_ k;
            commit_version_ := -1; read_set_ := ∅; write_set_ := ∅ |},
     set_version (i64 (version_ k + 1)) k).
Proof.
  destruct (db_GetSnapshot_law (db_ k)) as (s & E & Hc). exists s. split; [done|].
  split; [done|]. unfold KV_StartTxn, fetch_add_version, bind, gets, modify, ret, of_outcome.
  simpl. unfold RocksDBTxn_make. by rewrite E.
Qed.

(** The outcome of a commit, by the detector's verdict and the write's status. *)
Lemma KV_CommitTxn_eval t k :
  KV_CommitTxn t k =
    let k1 := set_version (i64 (version_ k + 1)) k in
    let t' := set_commit_version (version_ k) t in
    match IsConflictFree (conflict_detector_ k) t' with
    | Ret true =>
        let '(st, db') := db_Write (db_ k) (write_batch t) in
        (if rs_ok st then Ret (Val tt) else Throw write_failed, set_db db' k1)
    | Ret false =>
        (Ret (Unexp {| status_code_ := kConflictError;
           msg_ := Status_msg kConflictError "" None
                     (location_at "src/namenode/table/kv/rocksdb_kv_store.cc" 257) |}), k1)
    | Throw w => (Throw w, k1)
    | Undef => (Undef, k1)
    end.
Proof.
  unfold KV_CommitTxn, fetch_add_version. cbn zeta.
  unfold bind at 1 2 3 4, gets, modify, ret at 1. cbn -[db_Write IsConflictFree].
  unfold bind at 1, of_outcome.
  destruct (IsConflictFree _ _) as [[]|w|]; [|..]; cbn [negb]; try done.
  - change (write_batch (set_commit_version (version_ k) t)) with (write_batch t).
    destruct (db_Write (db_ k) (write_batch t)) as [st db'].
    unfold bind, modify, Check. by destruct (rs_ok st).
  - unfold ConflictError, bind. by rewrite Status_make_ok by first [by left | done].
Qed.

(** A database whose writes and reads do not fail. *)
Definition db_reliable : Prop :=
  (∀ db batch, rs_ok (db_Write db batch).1 = true) ∧
  (∀ db s, db_GetSnapshot db = Some s → snap_healthy s).

Definition empty_detector : RocksDBConflictDetector :=
  {| committed_txns_ := ∅; latest_purged_version_ := 0 |}.

(** Each transaction takes two versions. *)
Definition store_quiet (n : nat) (k : RocksDBKVStore) : Prop :=
  db_reliable ∧ length (kv_cf_handles_ k) = 5%nat ∧ conflict_detector_ k = empty_detector ∧
  1 ≤ version_ k ∧ version_ k + 2 * Z.of_nat n ≤ 2 ^ 62.

#[global] Instance RocksDBKVStore_KVStoreSpec : KVStoreSpec RocksDBKVStore := {|
  kv_contents k := db_contents (db_ k);
  kv_ok k := length (kv_cf_handles_ k) = 5%nat;
  kv_healthy k := ∀ s, db_GetSnapshot (db_ k) = Some s → snap_healthy s;
  kv_quiet := store_quiet;
|}.

Lemma IsConflictFree_empty t p :
  0 < start_version_ t < commit_version_ t → p ≤ start_version_ t →
  IsConflictFree {| committed_txns_ := ∅; latest_purged_version_ := p |} t = Ret true.
Proof.
  intros Hv Hp. rewrite IsConflictFree_eval; try done.
  cbn [latest_purged_version_]. destruct (Z.ltb_spec (start_version_ t) p); [lia|].
  unfold committed_between.
  cbn [committed_txns_]. by rewrite map_to_list_empty.
Qed.

(** One transaction of a quiet store. *)
Lemma store_quiet_commit n (k : RocksDBKVStore) :
  store_quiet (S n) k →
  ∃ (t : RocksDBTxn) k1, KV_StartTxn k = (Ret t, k1) ∧ store_quiet n k1 ∧
    ∀ t', start_version_ t' = start_version_ t →
      ∃ k2, KV_CommitTxn t' k1 = (Ret (Val tt), k2) ∧ store_quiet n k2.
Proof.
  intros (Hrel & Hh & Hd & Hv & Hn). destruct (KV_StartTxn_eval k) as (s & _ & _ & E).
  rewrite i64_small in E by (unfold is_i64; lia).
  do 2 eexists. split; [exact E|]. unfold store_quiet.
  cbn [version_ set_version conflict_detector_ kv_cf_handles_]. split; [split_and!; try done; lia|].
  cbn [start_version_]. intros t' Ht'. rewrite KV_CommitTxn_eval. cbn zeta.
  cbn [conflict_detector_ set_version version_]. rewrite Hd. unfold empty_detector.
  rewrite IsConflictFree_empty by (simpl; lia).
  destruct (db_Write _ _) as [st db'] eqn:Ew. rewrite i64_small by (unfold is_i64; lia).
  assert (rs_ok st = true) as ->
    by (rewrite <- (proj1 Hrel (db_ (set_version (version_ k + 1) k)) (write_batch t')), Ew; done).
  eexists. split; [done|]. cbn [version_ set_version set_db conflict_detector_ kv_cf_handles_].
  split_and!; try done; lia.
Qed.

#[global] Instance RocksDBKVStore_KVStoreLaws : KVStoreLaws RocksDBKVStore RocksDBTxn.
Proof.
  split; cbn [kv_ok kv_contents kv_healthy kv_quiet RocksDBKVStore_KVStoreSpec StartTxn CommitTxn
    RocksDBKVStore_KVStoreBase].
  - intros k Hk. destruct (KV_StartTxn_eval k) as (s & Hs & Hc & ->). do 2 eexists.
    split; [done|]. split_and!; try done. intros Hh. by apply Hh.
  - intros t k Hk _. rewrite KV_CommitTxn_eval. cbn zeta.
    destruct (IsConflictFree _ _) as [[]|w|].
    2-4: do 2 eexists; split; [done|]; split; [done|]; right; by split.
    destruct (db_Write _ _) as [st db'] eqn:Ew. do 2 eexists. split; [done|].
    split; [done|]. cbn [db_ set_db set_version]. destruct (rs_ok st) eqn:Eok.
    + left. rewrite (db_Write_ok _ _ _ _ Ew Eok). apply write_batch_apply.
    + destruct (db_Write_atomic _ _ _ _ Ew Eok) as [-> | ->]; [by right|].
      left. apply write_batch_apply.
  - intros n k Hq. pose proof Hq as ([_ Hr] & Hh & _). split; [exact Hh|].
    split; [by intros s; apply Hr|].
    split; [unfold store_quiet in *; split_and!; try apply Hq; lia|].
    destruct (store_quiet_commit n k Hq) as (t & k1 & E & Hq1 & Hc). exists t, k1.
    split_and!; [done|done|]. intros t' _. apply Hc.
Qed.

Lemma run_txn_op_frame op t :
  start_version_ (run_txn_op op t) = start_version_ t ∧
  snapshot_ (run_txn_op op t) = snapshot_ t ∧
  cf_handles_ (run_txn_op op t) = cf_handles_ t.
Proof.
  destruct op; simpl;
    unfold Txn_Get, Txn_GetRange, Txn_AddReadConflictKey, Txn_Put, Txn_Del, CheckCF,
      Txn_AddReadConflictKeyRange, SystemError, Status_make, bind, gets, Check, modify, ret, throw;
    repeat (case_match; simplify_eq; simpl; try done).
Qed.

(** An invariant that counts steps, up to a bound. *)
Lemma nsteps_invariant {S} (R : relation S) (I : nat → S → Prop) (hi : Z) :
  (∀ n x y, Z.of_nat n < hi → I n x → R x y → I (Datatypes.S n) y) →
  ∀ x, I 0%nat x → ∀ n y, Z.of_nat n < hi → nsteps R n x y → I n y.
Proof.
  intros Hstep x Hx n. induction n as [|n IH]; intros y Hn Hs.
  - by inv Hs.
  - apply nsteps_inv_r in Hs as (z & Hxz & Hzy). eapply Hstep, Hzy; [lia|]. apply IH; [lia|done].
Qed.

(** The invariant of the store after [n] steps. *)
Definition kv_inv (n : nat) (s : KVSys) : Prop :=
  let k := sys_store s in
  conflict_detector_ k = {| committed_txns_ := ∅; latest_purged_version_ := 0 |} ∧
  1 ≤ version_ k ≤ 1 + Z.of_nat n ∧
  length (kv_cf_handles_ k) = 5%nat ∧
  map_Forall (λ _ t, 0 < start_version_ t < version_ k) (sys_txns s).

Lemma kv_inv_step n s s' :
  Z.of_nat n < 2 ^ 62 → kv_inv n s → kv_step s s' → kv_inv (S n) s'.
Proof.
  intros Hn Hinv Hstep. destruct Hstep as [i k k' t txns HS Hi|i op k t txns Hi|i o k k' t txns Hi HC];
    destruct Hinv as (Hd & Hv & Hh & Htx); cbn [sys_store sys_txns] in *.
  - destruct (KV_StartTxn_eval k) as (s & _ & _ & E). rewrite E in HS. injection HS as <- <-.
    unfold kv_inv. cbn [sys_store sys_txns set_version conflict_detector_ version_ kv_cf_handles_].
    rewrite i64_small by (unfold is_i64; lia).
    split_and!; [done|lia|lia|done|]. apply map_Forall_insert_2; cbn [start_version_]; [lia|].
    eapply map_Forall_impl; [exact Htx|]. simpl. lia.
  - unfold kv_inv. cbn [sys_store sys_txns]. split_and!; [done|lia|lia|done|].
    apply map_Forall_insert_2; [|done]. destruct (run_txn_op_frame op t) as (-> & _).
    by apply (Htx i).
  - rewrite KV_CommitTxn_eval, Hd in HC. cbn zeta in HC.
    rewrite IsConflictFree_empty in HC; cycle 1.
    { cbn. by apply (Htx i). } { pose proof (Htx i t Hi) as Ht. cbn in Ht |- *. lia. }
    destruct (db_Write _ _) as [st db'] in HC. injection HC as <- <-.
    unfold kv_inv. cbn [sys_store sys_txns set_version set_db conflict_detector_ version_ kv_cf_handles_].
    rewrite i64_small by (unfold is_i64; lia). split_and!; [done|lia|lia|done|].
    apply map_Forall_delete. eapply map_Forall_impl; [exact Htx|]. simpl. lia.
Qed.

Lemma kv_inv_init k :
  RocksDBKVStore_make = Ret k → kv_inv 0 {| sys_store := k; sys_txns := ∅ |}.
Proof.
  unfold RocksDBKVStore_make. destruct (db_Open _ _) as [[st hs] db].
  do 3 (case_match; [done|]). intros [= <-]. unfold kv_inv. simpl. split_and!; [done|lia|lia|..].
  - match goal with H : negb (Z.of_nat _ =? _) = false |- _ =>
      apply negb_false_iff, Z.eqb_eq in H; simpl in H; lia end.
  - apply map_Forall_empty.
Qed.

Lemma kv_inv_reachable n k s :
  RocksDBKVStore_make = Ret k → Z.of_nat n < 2 ^ 62 →
  nsteps kv_step n {| sys_store := k; sys_txns := ∅ |} s → kv_inv n s.
Proof.
  intros Hk Hn Hs. eapply (nsteps_invariant kv_step kv_inv); try done.
  - intros. by eapply kv_inv_step.
  - by apply kv_inv_init.
Qed.

Lemma run_txn_ops_frame ops t :
  let t' := foldl (λ t op, run_txn_op op t) t ops in
  start_version_ t' = start_version_ t ∧ snapshot_ t' = snapshot_ t ∧
  cf_handles_ t' = cf_handles_ t.
Proof.
  revert t. induction ops as [|op ops IH]; intros t; simpl; [done|].
  destruct (IH (run_txn_op op t)) as (-> & -> & ->). apply run_txn_op_frame.
Qed.

(** Committing an active transaction. *)
Lemma kv_inv_commit n s i t :
  kv_inv n s → sys_txns s !! i = Some t →
  let k := sys_store s in
  let '(st, db') := db_Write (db_ k) (write_batch t) in
  KV_CommitTxn t k =
    (if rs_ok st then Ret (Val tt) else Throw write_failed,
     set_db db' (set_version (i64 (version_ k + 1)) k)) ∧
  (rs_ok st = true →
   db_contents db' = apply_writes (write_set_ t) (db_contents (db_ k))).
Proof.
  intros (Hd & Hv & _ & Htx) Hi. cbn zeta. rewrite KV_CommitTxn_eval, Hd. cbn zeta.
  pose proof (Htx i t Hi) as Ht. cbn in Ht.
  rewrite IsConflictFree_empty by (cbn; lia).
  destruct (db_Write _ _) as [st db'] eqn:Ew. split; [done|]. intros Eok.
  rewrite (db_Write_ok _ _ _ _ Ew Eok). apply write_batch_apply.
Qed.

(** ** Properties *)

(** C14: on a detector whose map is keyed by commit versions, a
    transaction with fresh versions is declared conflict free exactly when it
    started no earlier than the last purge and no transaction committed strictly
    between its start and its commit wrote a key it read; no check fires. *)
Theorem conflict_free_iff (d : RocksDBConflictDetector) (t : RocksDBTxn)
    (Hwf : detector_wf d) (Hv : 0 < start_version_ t < commit_version_ t)
    (Hs : committed_txns_ d !! start_version_ t = None)
    (Hc : committed_txns_ d !! commit_version_ t = None) :
  ∃ b, IsConflictFree d t = Ret b ∧
    (b = true ↔
       latest_purged_version_ d ≤ start_version_ t ∧
       ∀ v c, start_version_ t < v < commit_version_ t →
              committed_txns_ d !! v = Some c → no_overlap t c).
Proof.
  eexists. split; [by apply IsConflictFree_eval|].
  rewrite andb_true_iff, !negb_true_iff, Z.ltb_ge, existsb_overlaps_false.
  split; intros [Hp Hno]; (split; [done|]); intros v c Hr Hl; eapply Hno; try done; [lia|].
  assert (v ≠ start_version_ t) by congruence. assert (v ≠ commit_version_ t) by congruence. lia.
Qed.

(** When the detector declares a transaction conflict
    free, replaying the registered transactions of its window over the contents it
    started from leaves every key it read unchanged, so its reads are still
    current at its commit: with all commits registered, committing transactions
    would be serialisable in commit order. *)
Theorem conflict_free_reads_valid (d : RocksDBConflictDetector) (t : RocksDBTxn) (m : kvmap)
    (key : Z * string)
    (Hfree : IsConflictFree d t = Ret true) (Hread : is_Some (read_set_ t !! key)) :
  replay m (committed_between d (start_version_ t) (commit_version_ t)) !! key = m !! key.
Proof. by eapply replay_unread, Hread; apply IsConflictFree_Ret_true. Qed.

(** After [PurgeTo v] the detector forgets the commits up to
    [v]; it refuses every transaction that started before [v] and gives the others
    the verdict it gave before. *)
Theorem purge_refuses_older (d d' : RocksDBConflictDetector) (t : RocksDBTxn) (v : Z)
    (Hwf : detector_wf d) (Hv : 0 < start_version_ t < commit_version_ t)
    (Hs : committed_txns_ d !! start_version_ t = None)
    (Hc : committed_txns_ d !! commit_version_ t = None)
    (Hpurge : PurgeTo v d = (Ret tt, d')) :
  IsConflictFree d' t = if start_version_ t <? v then Ret false else IsConflictFree d t.
Proof.
  injection Hpurge as <-. set (d' := {| committed_txns_ := _ |}).
  assert (Hl : ∀ w c, committed_txns_ d' !! w = Some c ↔ committed_txns_ d !! w = Some c ∧ v < w).
  { intros w c. unfold d'. cbn [committed_txns_]. by rewrite map_lookup_filter_Some. }
  assert (Hn : ∀ w, committed_txns_ d !! w = None → committed_txns_ d' !! w = None).
  { intros w Hw. apply eq_None_not_Some. intros [c [Hc' _]%Hl]. congruence. }
  rewrite IsConflictFree_eval; [|by intros w c [? _]%Hl; apply Hwf | done | by apply Hn..].
  assert (latest_purged_version_ d' = Z.max v (latest_purged_version_ d)) as ->.
  { unfold d'. cbn [latest_purged_version_].
    destruct (Z.gtb_spec v (latest_purged_version_ d)); lia. }
  destruct (Z.ltb_spec (start_version_ t) v).
  - destruct (Z.ltb_spec (start_version_ t) (Z.max v (latest_purged_version_ d))); [done|lia].
  - rewrite IsConflictFree_eval by done. do 2 f_equal.
    + f_equal. destruct (Z.ltb_spec (start_version_ t) (Z.max v (latest_purged_version_ d))),
        (Z.ltb_spec (start_version_ t) (latest_purged_version_ d)); lia || done.
    + apply eq_true_iff_eq. rewrite !negb_true_iff, !existsb_overlaps_false.
      split; intros Hno w c Hr Hw; eapply Hno; try done.
      * apply Hl. split; [done|]. assert (w ≠ start_version_ t) by congruence. lia.
      * by apply Hl in Hw as [].
Qed.

(** C11: [CommitTxn], on a conflict-free verdict and a
    successful write, changes the database by exactly the transaction's write
    set, atomically and in one batch; on a conflict it returns [kConflictError]
    and writes nothing; a failed write throws, with all
    of the write set applied or nothing. *)
Theorem commit_applies_write_set (t : RocksDBTxn) (k : RocksDBKVStore) :
  let verdict := IsConflictFree (conflict_detector_ k) (set_commit_version (version_ k) t) in
  let '(o, k') := KV_CommitTxn t k in
  version_ k' = i64 (version_ k + 1) ∧ conflict_detector_ k' = conflict_detector_ k ∧
  match verdict with
  | Ret true =>
      if rs_ok (db_Write (db_ k) (write_batch t)).1
      then o = Ret (Val tt) ∧
           db_contents (db_ k') = apply_writes (write_set_ t) (db_contents (db_ k))
      else o = Throw write_failed ∧
           (db_contents (db_ k') = db_contents (db_ k) ∨
            db_contents (db_ k') = apply_writes (write_set_ t) (db_contents (db_ k)))
  | Ret false =>
      db_ k' = db_ k ∧ ∃ e, o = Ret (Unexp e) ∧ status_code_ e = kConflictError
  | Throw w => db_ k' = db_ k ∧ o = Throw w
  | Undef => db_ k' = db_ k ∧ o = Undef
  end.
Proof.
  intros verdict. rewrite KV_CommitTxn_eval. cbn zeta. fold verdict. clearbody verdict.
  destruct verdict as [[]|w|]; cbn [set_version version_ conflict_detector_ db_]; eauto 10.
  destruct (db_Write (db_ k) (write_batch t)) as [st db'] eqn:Ew.
  cbn [set_db version_ conflict_detector_ db_ fst]. split_and!; [done..|].
  rewrite <- write_batch_apply. destruct (rs_ok st) eqn:Eok; (split; [done|]).
  - by rewrite (db_Write_ok _ _ _ _ Ew Eok).
  - by apply (db_Write_atomic _ _ _ _ Ew Eok).
Qed.

(** C12: after any operations of its own, puts and deletes
    included, a transaction's successful [Get] returns what the database held when
    the transaction started: it sees neither later commits nor its own writes. *)
Theorem reads_see_start_snapshot (k k' : RocksDBKVStore) (t : RocksDBTxn)
    (ops : list txn_op) (cf : CFIndex) (key : string) (ex : bool) (v : option string)
    (Hcf : valid_cf cf) (Hk : length (kv_cf_handles_ k) = 5%nat)
    (Hstart : KV_StartTxn k = (Ret t, k'))
    (Hget : (Txn_Get cf key ex (foldl (λ t op, run_txn_op op t) t ops)).1 = Ret (Val v)) :
  v = db_contents (db_ k) !! (index cf, key).
Proof.
  destruct (KV_StartTxn_eval k) as (s & _ & Hc & E). rewrite E in Hstart.
  injection Hstart as Ht _. rewrite <- Hc.
  destruct (run_txn_ops_frame ops t) as (_ & Hsn & Hh).
  destruct (Txn_Get_law cf key ex (foldl (λ t op, run_txn_op op t) t ops)) as (o & t' & Eg & _ & Hr);
    [done|simpl; by rewrite Hh, <- Ht|].
  rewrite Eg in Hget. simpl in Hget. subst o.
  destruct Hr as [[= ->] | (_ & [(? & [=] & _) | (? & [=])])].
  simpl. by rewrite Hsn, <- Ht.
Qed.

(** C15: over every interleaving of fewer than [2^62] steps,
    the store registers no committed transaction, so every commit of an active
    transaction writes its whole write set, whatever was committed since it
    started: no commit returns [kConflictError] and no check of the detector fires. *)
Theorem store_never_reports_conflict (k : RocksDBKVStore) (n : nat) (s : KVSys) (i : nat)
    (t : RocksDBTxn)
    (Hmake : RocksDBKVStore_make = Ret k) (Hn : Z.of_nat n < 2 ^ 62)
    (Hs : nsteps kv_step n {| sys_store := k; sys_txns := ∅ |} s)
    (Hi : sys_txns s !! i = Some t) :
  committed_txns_ (conflict_detector_ (sys_store s)) = ∅ ∧
  ∃ o k', KV_CommitTxn t (sys_store s) = (o, k') ∧
    (o = Ret (Val tt) ∧
       db_contents (db_ k') = apply_writes (write_set_ t) (db_contents (db_ (sys_store s))) ∨
     o = Throw write_failed).
Proof.
  pose proof (kv_inv_reachable n k s Hmake Hn Hs) as Hinv.
  split; [by destruct Hinv as (-> & _)|].
  pose proof (kv_inv_commit n s i t Hinv Hi) as HC. cbn zeta in HC.
  destruct (db_Write _ _) as [st db']. destruct HC as [-> HC].
  do 2 eexists. split; [done|]. destruct (rs_ok st); [left|right]; auto.
Qed.

(** Of two concurrent active transactions, however
    their reads and writes overlap, both commits succeed when the writes do, and
    the later one overwrites what the earlier one wrote: an update made between a
    transaction's read and its write is lost. *)
Theorem concurrent_commits_both_succeed (k : RocksDBKVStore) (n : nat) (s : KVSys)
    (i j : nat) (t1 t2 : RocksDBTxn)
    (Hmake : RocksDBKVStore_make = Ret k) (Hn : Z.of_nat (S n) < 2 ^ 62)
    (Hs : nsteps kv_step n {| sys_store := k; sys_txns := ∅ |} s)
    (Hij : i ≠ j) (Hi : sys_txns s !! i = Some t1) (Hj : sys_txns s !! j = Some t2)
    (Hok : ∀ db batch, rs_ok (db_Write db batch).1 = true) :
  ∃ k1 k2,
    KV_CommitTxn t1 (sys_store s) = (Ret (Val tt), k1) ∧
    KV_CommitTxn t2 k1 = (Ret (Val tt), k2) ∧
    db_contents (db_ k2) = apply_writes (write_set_ t2)
      (apply_writes (write_set_ t1) (db_contents (db_ (sys_store s)))).
Proof.
  pose proof (kv_inv_reachable n k s Hmake ltac:(lia) Hs) as Hinv.
  pose proof (kv_inv_commit n s i t1 Hinv Hi) as HC1. cbn zeta in HC1.
  pose proof (Hok (db_ (sys_store s)) (write_batch t1)) as Hok1.
  destruct (db_Write _ _) as [st1 db1]. cbn in Hok1. rewrite Hok1 in HC1.
  destruct HC1 as [HC1 Hw1]. set (k1 := set_db db1 _) in HC1.
  assert (kv_inv (S n) {| sys_store := k1; sys_txns := delete i (sys_txns s) |}) as Hinv1.
  { destruct s as [k0 txns]. eapply kv_inv_step; [|done|by eapply kv_commit]. lia. }
  pose proof (kv_inv_commit _ _ j t2 Hinv1) as HC2. cbn [sys_store sys_txns] in HC2.
  rewrite lookup_delete_ne in HC2 by done. specialize (HC2 Hj). cbn zeta in HC2.
  pose proof (Hok (db_ k1) (write_batch t2)) as Hok2.
  destruct (db_Write (db_ k1) _) as [st2 db2]. cbn in Hok2. rewrite Hok2 in HC2.
  destruct HC2 as [HC2 Hw2]. do 2 eexists. split; [done|]. split; [done|].
  cbn [db_ set_db]. rewrite Hw2 by done. f_equal. by apply Hw1.
Qed.
End conflict.

(** ** Witnesses, on the in-memory database *)

Section demo.
#[local] Existing Instances MemDB MemDBSpec MemDBLaws demo_fmt demo_build.

Definition demo_store : RocksDBKVStore :=
  {| db_ := (∅ : kvmap); kv_cf_handles_ := snd <$> cf_names; version_ := 1;
     conflict_detector_ := {| committed_txns_ := ∅; latest_purged_version_ := 0 |} |}.
Definition demo_txn (start commit : Z) (reads : list string) (ws : list (string * string)) :
    RocksDBTxn :=
  {| cf_handles_ := snd <$> cf_names; snapshot_ := (∅ : kvmap); start_version_ := start;
     commit_version_ := commit;
     read_set_ := list_to_map ((λ k, ((4, k), monostate)) <$> reads);
     write_set_ := list_to_map ((λ '(k, v), ((4, k), Some v)) <$> ws) |}.
Definition demo_detector : RocksDBConflictDetector :=
  {| committed_txns_ := {[ 3 := demo_txn 1 3 [] [("a", "x")] ]}%string;
     latest_purged_version_ := 0 |}.

Lemma demo_detector_wf : detector_wf demo_detector.
Proof.
  intros v c Hl. unfold demo_detector in Hl. cbn [committed_txns_] in Hl.
  by apply lookup_singleton_Some in Hl as [<- <-].
Qed.

Lemma conflict_free_iff_witness :
  ∃ b, IsConflictFree demo_detector (demo_txn 2 4 ["a"]%string []) = Ret b ∧
    b = false ∧ ¬ ∀ v c, 2 < v < 4 → committed_txns_ demo_detector !! v = Some c →
                         no_overlap (demo_txn 2 4 ["a"]%string []) c.
Proof.
  destruct (conflict_free_iff demo_detector (demo_txn 2 4 ["a"]%string [])
    demo_detector_wf ltac:(vm_compute; done) eq_refl eq_refl) as (b & E & Hb).
  assert (b = false) as Eb.
  { assert (IsConflictFree demo_detector (demo_txn 2 4 ["a"]%string []) = Ret false) as E'
      by (vm_compute; reflexivity). congruence. }
  exists b. split; [exact E|]. split; [exact Eb|]. intros Hno. rewrite Eb in Hb.
  apply (diff_false_true). apply Hb. split; [vm_compute; discriminate|]. exact Hno.
Defined.

Lemma conflict_free_reads_valid_witness :
  replay (∅ : kvmap) (committed_between demo_detector 2 4) !! (4, "b")%string
  = (∅ : kvmap) !! (4, "b")%string.
Proof.
  apply (conflict_free_reads_valid demo_detector (demo_txn 2 4 ["b"]%string []) ∅ (4, "b"%string)).
  - vm_compute. reflexivity.
  - vm_compute. by eexists.
Defined.

Lemma purge_refuses_older_witness :
  ∃ d', PurgeTo 3 demo_detector = (Ret tt, d') ∧
        IsConflictFree d' (demo_txn 2 4 [] []) = Ret false.
Proof.
  exists (PurgeTo 3 demo_detector).2. split; [reflexivity|].
  apply (purge_refuses_older demo_detector _ (demo_txn 2 4 [] []) 3 demo_detector_wf);
    [cbn; lia | reflexivity..].
Defined.

(** A put over a row and a commit. *)
Lemma commit_applies_write_set_witness :
  ∃ k', KV_CommitTxn (demo_txn 1 (-1) [] [("a", "x")]%string) (set_version 2 demo_store) = (Ret (Val tt), k') ∧
    db_contents (db_ k') !! (4, "a"%string) = Some "x"%string.
Proof.
  pose proof (commit_applies_write_set (demo_txn 1 (-1) [] [("a", "x")]%string) (set_version 2 demo_store)) as H.
  cbn zeta in H.
  assert (IsConflictFree (conflict_detector_ (set_version 2 demo_store))
    (set_commit_version (version_ (set_version 2 demo_store)) (demo_txn 1 (-1) [] [("a", "x")]%string)) = Ret true)
    as Ev by (vm_compute; reflexivity).
  assert (rs_ok (db_Write (db_ (set_version 2 demo_store))
    (write_batch (demo_txn 1 (-1) [] [("a", "x")]%string))).1 = true) as Ew by reflexivity.
  destruct (KV_CommitTxn (demo_txn 1 (-1) [] [("a", "x")]%string) (set_version 2 demo_store)) as [o k'].
  rewrite Ev, Ew in H. destruct H as (_ & _ & -> & Hc). exists k'. split; [reflexivity|].
  rewrite Hc. vm_compute. reflexivity.
Defined.

Lemma reads_see_start_snapshot_witness :
  (Txn_Get kDEntCFIndex "a" false
     (run_txn_op (OpPut kDEntCFIndex "a" "new") (demo_txn 1 (-1) [] []))).1 = Ret (Val None)
  ∧ None = (∅ : kvmap) !! (4, "a")%string.
Proof.
  split; [vm_compute; reflexivity|].
  refine (reads_see_start_snapshot demo_store _ _ [OpPut kDEntCFIndex "a" "new"]
    kDEntCFIndex "a" false None _ eq_refl eq_refl _); vm_compute; done.
Defined.

(** Two transactions that read one key and write it; both are active. *)
Definition demo_reads_writes (v : string) : list txn_op :=
  [OpGet kDEntCFIndex "a" false; OpPut kDEntCFIndex "a" v]%string.
Definition demo_active (start : Z) (ops : list txn_op) : RocksDBTxn :=
  foldl (λ t op, run_txn_op op t) (demo_txn start (-1) [] []) ops.

Definition demo_state (v : Z) (txns : gmap nat RocksDBTxn) : KVSys :=
  {| sys_store := set_version v demo_store; sys_txns := txns |}.
Definition demo_sys : KVSys :=
  demo_state 3 (<[1%nat := demo_active 2 (demo_reads_writes "two")]>
    (<[0%nat := demo_active 1 (demo_reads_writes "one")]> ∅)).

Lemma demo_start (i : nat) (v : Z) (txns : gmap nat RocksDBTxn) :
  0 < v < 100 → txns !! i = None →
  kv_step (demo_state v txns) (demo_state (v + 1) (<[i := demo_active v []]> txns)).
Proof.
  intros Hv Hi. apply kv_start; [|done].
  destruct (KV_StartTxn_eval (set_version v demo_store)) as (s & E & _ & ->).
  injection E as <-. cbn [version_ set_version]. by rewrite i64_small by (unfold is_i64; lia).
Qed.

Lemma demo_use (i : nat) (v start : Z) (ops : list txn_op) (op : txn_op)
    (txns : gmap nat RocksDBTxn) :
  txns !! i = Some (demo_active start ops) →
  kv_step (demo_state v txns)
          (demo_state v (<[i := demo_active start (ops ++ [op])]> txns)).
Proof.
  intros Hi. unfold demo_active. rewrite foldl_app. by apply kv_use.
Qed.

Lemma demo_sys_reachable :
  nsteps kv_step 6 {| sys_store := demo_store; sys_txns := ∅ |} demo_sys.
Proof.
  eapply nsteps_l; [by apply (demo_start 0%nat 1 ∅)|].
  eapply nsteps_l; [by apply (demo_start 1%nat 2)|].
  eapply nsteps_l;
    [by apply (demo_use 0%nat _ 1 [] (OpGet kDEntCFIndex "a" false))|].
  eapply nsteps_l;
    [by apply (demo_use 0%nat _ 1 [OpGet kDEntCFIndex "a" false] (OpPut kDEntCFIndex "a" "one"))|].
  eapply nsteps_l;
    [by apply (demo_use 1%nat _ 2 [] (OpGet kDEntCFIndex "a" false))|].
  eapply nsteps_l;
    [by apply (demo_use 1%nat _ 2 [OpGet kDEntCFIndex "a" false] (OpPut kDEntCFIndex "a" "two"))|].
  match goal with |- nsteps _ _ ?s _ => assert (s = demo_sys) as -> end; [|constructor].
  apply (f_equal (demo_state 3)), map_eq. by intros [|[|i]].
Qed.

Lemma store_never_reports_conflict_witness :
  committed_txns_ (conflict_detector_ (sys_store demo_sys)) = ∅ ∧
  ∃ k', KV_CommitTxn (demo_active 2 (demo_reads_writes "two")) (sys_store demo_sys)
        = (Ret (Val tt), k').
Proof.
  destruct (store_never_reports_conflict demo_store 6 demo_sys 1
    (demo_active 2 (demo_reads_writes "two")) eq_refl ltac:(vm_compute; reflexivity)
    demo_sys_reachable eq_refl) as (Hc & o & k' & E & [[-> _]|Ho]).
  - split; [exact Hc|]. exists k'. exact E.
  - exfalso. rewrite Ho in E. apply (f_equal fst) in E. vm_compute in E. discriminate E.
Defined.

(** The first update of the key is lost. *)
Lemma concurrent_commits_both_succeed_witness :
  ∃ k1 k2,
    KV_CommitTxn (demo_active 1 (demo_reads_writes "one")) (sys_store demo_sys)
      = (Ret (Val tt), k1) ∧
    KV_CommitTxn (demo_active 2 (demo_reads_writes "two")) k1 = (Ret (Val tt), k2) ∧
    db_contents (db_ k2) !! (4, "a"%string) = Some "two"%string.
Proof.
  destruct (concurrent_commits_both_succeed demo_store 6 demo_sys 0 1
    (demo_active 1 (demo_reads_writes "one")) (demo_active 2 (demo_reads_writes "two"))
    eq_refl ltac:(vm_compute; reflexivity) demo_sys_reachable ltac:(discriminate)
    eq_refl eq_refl ltac:(intros db batch; reflexivity)) as (k1 & k2 & E1 & E2 & Hc).
  exists k1, k2. split; [exact E1|]. split; [exact E2|]. rewrite Hc. vm_compute. reflexivity.
Defined.
End demo.
