(* ===== verification/Serializable.v ===== *)
(** What concurrent transactions see of each other: src/namenode/table/kv/
    rocksdb_kv_store.cc.  [hs_step] is the store with the transactions under way and
    those it committed, in a list; a history of commits is a replay of their write sets,
    and each transaction has read the state its start found.  The comment of
    [IsConflictFree] promises more, that it read the state its commit found: that is so
    when nothing it read was written in between, which the detector would check if
    [CommitTxn] told it of commits (see [Conflict.store_never_reports_conflict]), except
    for ranges ([phantom_rows_admitted]). *)

From Stdlib Require Import ZArith Lia Ascii String.
From stdpp Require Import prelude strings gmap sorting relations.
From S2P Require Import Prelude Common Types KVStoreBase RocksDB Conflict.

#[local] Open Scope Z_scope.

(** ** Histories *)

Section defs.
Context `{RocksDBSpec, Fmt, Build}.

(** The contents after transactions commit one after the other. *)
Definition serial (m : kvmap) (ts : list RocksDBTxn) : kvmap :=
  foldl (λ m t, apply_writes (write_set_ t) m) m ts.

Definition set_detector (d : RocksDBConflictDetector) (k : RocksDBKVStore) : RocksDBKVStore :=
  {| db_ := db_ k; kv_cf_handles_ := kv_cf_handles_ k; version_ := version_ k;
     conflict_detector_ := d |}.

(** The operations the tables call: none adds a read of its own making. *)
Definition own_op (op : txn_op) : bool :=
  match op with OpAddReadConflictKey _ _ _ => false | _ => true end.

Record HSys := {
  hs_store : RocksDBKVStore;
  hs_active : gmap nat RocksDBTxn;
  hs_committed : list RocksDBTxn;
}.

(** Clients start, use and commit transactions in any order; purges, which nothing in
    the source asks for, may happen at any time.  A failed write throws, and the process
    ends. *)
Inductive hs_step : HSys → HSys → Prop :=
| hs_start i k k' t active cs :
    KV_StartTxn k = (Ret t, k') → active !! i = None →
    hs_step {| hs_store := k; hs_active := active; hs_committed := cs |}
            {| hs_store := k'; hs_active := <[i := t]> active; hs_committed := cs |}
| hs_use i op k t active cs :
    active !! i = Some t → own_op op = true →
    hs_step {| hs_store := k; hs_active := active; hs_committed := cs |}
            {| hs_store := k; hs_active := <[i := run_txn_op op t]> active;
               hs_committed := cs |}
| hs_commit i k k' t active cs :
    active !! i = Some t → KV_CommitTxn t k = (Ret (Val tt), k') →
    hs_step {| hs_store := k; hs_active := active; hs_committed := cs |}
            {| hs_store := k'; hs_active := delete i active;
               hs_committed := cs ++ [set_commit_version (version_ k) t] |}
| hs_abort i e k k' t active cs :
    active !! i = Some t → KV_CommitTxn t k = (Ret (Unexp e), k') →
    hs_step {| hs_store := k; hs_active := active; hs_committed := cs |}
            {| hs_store := k'; hs_active := delete i active; hs_committed := cs |}
| hs_purge v d k active cs :
    PurgeTo v (conflict_detector_ k) = (Ret tt, d) →
    hs_step {| hs_store := k; hs_active := active; hs_committed := cs |}
            {| hs_store := set_detector d k; hs_active := active; hs_committed := cs |}.

Definition hs_init (k : RocksDBKVStore) : HSys :=
  {| hs_store := k; hs_active := ∅; hs_committed := [] |}.

Definition commit_lt (t1 t2 : RocksDBTxn) : Prop := commit_version_ t1 < commit_version_ t2.

(** The read set records what the snapshot holds. *)
Definition reads_true (t : RocksDBTxn) : Prop :=
  map_Forall (λ key v, v = optional (snap_contents (snapshot_ t) !! key)) (read_set_ t).

(** The transactions committed so far are those [t] saw and those since it started;
    [t] read the state that the former left, which is that of all of them for a
    transaction whose reads the latter did not write. *)
Definition saw_start (m : kvmap) (before : list RocksDBTxn) (t : RocksDBTxn) : Prop :=
  ∃ seen since, before = seen ++ since ∧
    Forall (λ c, commit_version_ c < start_version_ t) seen ∧
    Forall (λ c, start_version_ t < commit_version_ c) since ∧
    map_Forall (λ key v, v = optional (serial m seen !! key)) (read_set_ t) ∧
    (Forall (no_overlap t) since →
     map_Forall (λ key v, v = optional (serial m before !! key)) (read_set_ t)).

Definition history_ok (m : kvmap) (cs : list RocksDBTxn) : Prop :=
  ∀ before t after, cs = before ++ t :: after → saw_start m before t.

(** An active transaction: its snapshot is a prefix of the history, and the rest of
    the history committed after it started. *)
Definition active_ok (m : kvmap) (hi : Z) (cs : list RocksDBTxn) (t : RocksDBTxn) : Prop :=
  0 < start_version_ t < hi ∧ reads_true t ∧
  ∃ seen since, cs = seen ++ since ∧
    snap_contents (snapshot_ t) = serial m seen ∧
    Forall (λ c, commit_version_ c < start_version_ t) seen ∧
    Forall (λ c, start_version_ t < commit_version_ c) since.

Record hs_inv (m : kvmap) (n : nat) (s : HSys) : Prop := {
  hi_version : 1 ≤ version_ (hs_store s) ≤ 1 + Z.of_nat n;
  hi_contents : db_contents (db_ (hs_store s)) = serial m (hs_committed s);
  hi_sorted : StronglySorted commit_lt (hs_committed s);
  hi_below : Forall (λ c, commit_version_ c < version_ (hs_store s)) (hs_committed s);
  hi_active : map_Forall (λ _, active_ok m (version_ (hs_store s)) (hs_committed s))
                (hs_active s);
  hi_history : history_ok m (hs_committed s);
}.
End defs.

(** ** Lemmas *)

Section serializable.
Context `{RocksDBLaws, Fmt, Build}.

Lemma serial_app m ts1 ts2 : serial m (ts1 ++ ts2) = serial (serial m ts1) ts2.
Proof. apply foldl_app. Qed.

Lemma serial_snoc m ts t : serial m (ts ++ [t]) = apply_writes (write_set_ t) (serial m ts).
Proof. apply serial_app. Qed.

Lemma serial_unread t ts m key :
  Forall (no_overlap t) ts → is_Some (read_set_ t !! key) → serial m ts !! key = m !! key.
Proof.
  intros Hts Hr. revert m. induction Hts as [|c ts Hc _ IH]; intros m; simpl; [done|].
  rewrite IH, lookup_apply_writes. destruct (write_set_ c !! key) eqn:Ew; [|done].
  rewrite (Hc key) in Hr by eauto. by destruct Hr.
Qed.

(** *** Reads *)

Lemma CheckCF_state cf t : (CheckCF cf t).2 = t.
Proof.
  unfold CheckCF, bind, gets, Check. destruct (index cf >=? 0); [|done]. cbn.
  by destruct (index cf <? _).
Qed.

Lemma SystemError_state {S} loc msg (s : S) : (SystemError loc msg None s).2 = s.
Proof.
  unfold SystemError. by destruct (Status_make_cases kSystemError msg None loc s)
    as [(_ & st & -> & _)|[_ ->]].
Qed.

(** The state after [m; k], when [m] leaves it alone. *)
Lemma bind_state {S A B} (m : M S A) (k : A → M S B) (P : S → Prop) s :
  (m s).2 = s → P s → (∀ a, P (k a s).2) → P (bind m k s).2.
Proof. unfold bind. destruct (m s) as [[a|w|] s']; simpl; intros ->; auto. Qed.

Lemma bind_state_after {S A B} (m : M S A) (k : A → M S B) (P : S → Prop) s :
  P (m s).2 → (∀ a s', (k a s').2 = s') → P (bind m k s).2.
Proof. unfold bind. intros Hm Hk. destruct (m s) as [[a|w|] s']; simpl in *; by rewrite ?Hk. Qed.

Lemma AddReadConflictKey_cases cf key v t :
  (Txn_AddReadConflictKey cf key v t).2 = t ∨
  (Txn_AddReadConflictKey cf key v t).2
  = set_read_set <[(index cf, key) :=
      optional (match v with monostate => None | optional v => v end)]> t.
Proof.
  unfold Txn_AddReadConflictKey. apply (bind_state _ _ (λ s, s = t ∨ s = _)); [|by left|by right].
  apply CheckCF_state.
Qed.

Lemma reads_true_insert key t v :
  reads_true t → v = optional (snap_contents (snapshot_ t) !! key) →
  reads_true (set_read_set <[key := v]> t).
Proof. intros Ht Hv. by apply map_Forall_insert_2. Qed.

Lemma AddReadConflictKey_reads_true cf key v t :
  reads_true t →
  match v with monostate => None | optional v => v end
    = snap_contents (snapshot_ t) !! (index cf, key) →
  reads_true (Txn_AddReadConflictKey cf key v t).2.
Proof.
  intros Ht Hv. destruct (AddReadConflictKey_cases cf key v t) as [-> | ->]; [done|].
  apply reads_true_insert; [done|]. by rewrite Hv.
Qed.

Lemma Get_reads_true cf key ex t : reads_true t → reads_true (Txn_Get cf key ex t).2.
Proof.
  intros Ht. unfold Txn_Get. apply bind_state; [by unfold Check; case_match|done|intros _].
  apply bind_state; [apply CheckCF_state|done|intros _]. unfold bind at 1. cbn [gets].
  destruct (db_Get _ _ _) as [st v] eqn:EG.
  destruct (rs_ok st) eqn:Eok; [|destruct (rs_IsNotFound st) eqn:Enf].
  - apply bind_state_after; [|done]. destruct ex; [done|].
    apply AddReadConflictKey_reads_true; [done|]. symmetry. by eapply db_Get_ok.
  - apply bind_state_after; [|done]. destruct ex; [done|].
    apply AddReadConflictKey_reads_true; [done|]. symmetry. by eapply db_Get_not_found.
  - apply bind_state; [apply SystemError_state|done|done].
Qed.

(** A range read leaves the whole transaction alone, its read set included. *)
Lemma GetRange_state cf lo hi limit ex t : (Txn_GetRange cf lo hi limit ex t).2 = t.
Proof.
  unfold Txn_GetRange. apply bind_state; [by unfold Check; case_match|done|intros _].
  apply (bind_state _ _ (λ s, s = t)); [apply CheckCF_state|done|intros _].
  unfold bind at 1. cbn [gets]. destruct (GetRange_loop _ _ _) as [vs it].
  destruct (negb _).
  - apply (bind_state _ _ (λ s, s = t)); [apply SystemError_state|done|done].
  - by destruct ex.
Qed.

Lemma run_txn_op_reads_true op t :
  own_op op = true → reads_true t → reads_true (run_txn_op op t).
Proof.
  destruct op as [cf key ex|cf lo hi limit ex|cf key v|cf key v|cf key]; cbn; try done; intros _ Ht.
  - by apply Get_reads_true.
  - by rewrite GetRange_state.
  - unfold Txn_Put. by apply bind_state; [apply CheckCF_state|..].
  - unfold Txn_Del. by apply bind_state; [apply CheckCF_state|..].
Qed.

(** *** The invariant *)

Lemma active_ok_weaken m hi hi' cs ts t :
  hi ≤ hi' → Forall (λ c, start_version_ t < commit_version_ c) ts →
  active_ok m hi cs t → active_ok m hi' (cs ++ ts) t.
Proof.
  intros Hhi Hts (Hv & Hr & seen & since & -> & Hs & Hb & Ha). split; [lia|]. split; [done|].
  exists seen, (since ++ ts). rewrite app_assoc. split_and!; [done..|]. by apply Forall_app.
Qed.

Lemma active_ok_later m hi hi' cs t : hi ≤ hi' → active_ok m hi cs t → active_ok m hi' cs t.
Proof.
  intros Hhi Ht. rewrite <- (app_nil_r cs). by eapply active_ok_weaken.
Qed.

Lemma active_ok_grow m hi hi' cs (act : gmap nat RocksDBTxn) :
  hi ≤ hi' → map_Forall (λ _, active_ok m hi cs) act → map_Forall (λ _, active_ok m hi' cs) act.
Proof.
  intros Hhi Hact. eapply map_Forall_impl; [exact Hact|]. intros i t. by apply active_ok_later.
Qed.

Lemma Forall_lt_weaken {A} (f : A → Z) (l : list A) hi hi' :
  hi ≤ hi' → Forall (λ c, f c < hi) l → Forall (λ c, f c < hi') l.
Proof. intros Hhi Hl. eapply Forall_impl; [exact Hl|]. cbn. lia. Qed.

Lemma StronglySorted_snoc {A} (R : relation A) (l : list A) x :
  StronglySorted R l → Forall (λ y, R y x) l → StronglySorted R (l ++ [x]).
Proof.
  induction 1 as [|y l Hl IH Hy]; cbn; intros Hx; [by repeat constructor|].
  apply Forall_cons in Hx as [Hyx Hx]. constructor; [by apply IH|].
  apply Forall_app. split; [done|]. by constructor.
Qed.

(** What a transaction read when it commits. *)
Lemma active_saw_start m hi cs t v :
  active_ok m hi cs t → saw_start m cs (set_commit_version v t).
Proof.
  intros (_ & Hr & seen & since & -> & Hs & Hb & Ha). exists seen, since.
  assert (map_Forall (λ key v, v = optional (serial m seen !! key)) (read_set_ t)) as Hseen.
  { eapply map_Forall_impl; [exact Hr|]. intros key x ->. by rewrite Hs. }
  split_and!; try done. intros Hno key x Hkey. rewrite (Hseen key x Hkey), serial_app. f_equal.
  symmetry. apply (serial_unread _ _ _ _ Hno). by exists x.
Qed.

Lemma history_ok_snoc m cs t : history_ok m cs → saw_start m cs t → history_ok m (cs ++ [t]).
Proof.
  intros Hcs Ht before t0 after E. induction after as [|x after' _] using rev_ind.
  - by apply app_inj_tail in E as [-> ->].
  - rewrite app_comm_cons, app_assoc in E. apply app_inj_tail in E as [-> ->]. by eapply Hcs.
Qed.

Ltac hs_simpl :=
  cbn [hs_store hs_active hs_committed set_version set_db set_detector version_ db_
    conflict_detector_ start_version_ snapshot_ read_set_].

(** A commit is accepted with the write, or refused before it. *)
Lemma KV_CommitTxn_history t k r k' :
  KV_CommitTxn t k = (Ret r, k') →
  version_ k' = i64 (version_ k + 1) ∧
  db_contents (db_ k') =
    match r with Val _ => apply_writes (write_set_ t) (db_contents (db_ k)) | Unexp _ => db_contents (db_ k) end.
Proof.
  rewrite KV_CommitTxn_eval. cbn zeta. destruct (IsConflictFree _ _) as [[]|w|]; try done.
  - destruct (db_Write _ _) as [st db'] eqn:Ew. destruct (rs_ok st) eqn:Eok; [|done].
    intros [= <- <-]. split; [done|]. cbn [db_ set_db].
    rewrite (db_Write_ok _ _ _ _ Ew Eok). apply write_batch_apply.
  - by intros [= <- <-].
Qed.

Lemma hs_inv_step m n s s' :
  Z.of_nat n < 2 ^ 62 → hs_inv m n s → hs_step s s' → hs_inv m (S n) s'.
Proof.
  intros Hn Hinv Hstep.
  destruct Hstep as [i k k' t act cs HS Hi|i op k t act cs Hi Hop|i k k' t act cs Hi HC
    |i e k k' t act cs Hi HC|v d k act cs HP];
    destruct Hinv as [Hv Hc Hsort Hlow Hact Hrd]; cbn [hs_store hs_active hs_committed] in *.
  - destruct (KV_StartTxn_eval k) as (s & _ & Hsc & E). rewrite E in HS. injection HS as <- <-.
    rewrite i64_small by (unfold is_i64; lia). split; hs_simpl; try done; [lia|..].
    + eapply Forall_lt_weaken, Hlow. lia.
    + apply map_Forall_insert_2; [|eapply active_ok_grow, Hact; lia].
      split; [cbn; lia|]. split; [apply map_Forall_empty|]. exists cs, [].
      rewrite app_nil_r. split_and!; [done| |exact Hlow|done]. cbn. by rewrite Hsc.
  - split; hs_simpl; try done; [lia|]. apply map_Forall_insert_2; [|done].
    destruct (Hact i t Hi) as (Ht & Hr & Hs). destruct (run_txn_op_frame op t) as (Es & En & _).
    split; [by rewrite Es|]. split; [by apply run_txn_op_reads_true|]. by rewrite Es, En.
  - pose proof (Hact i t Hi) as Ht. destruct (KV_CommitTxn_history _ _ _ _ HC) as [Ev Edb].
    rewrite i64_small in Ev by (unfold is_i64; lia). split; hs_simpl; rewrite ?Ev; [lia|..].
    + by rewrite Edb, serial_snoc, Hc.
    + by apply StronglySorted_snoc.
    + apply Forall_app. split; [eapply Forall_lt_weaken, Hlow; lia|]. constructor; [cbn; lia|done].
    + apply map_Forall_delete. eapply map_Forall_impl; [exact Hact|]. intros j t' Ht'.
      eapply active_ok_weaken, Ht'; [lia|]. constructor; [|done]. cbn.
      destruct Ht' as [? _]. lia.
    + apply history_ok_snoc; [done|]. exact (active_saw_start _ _ _ _ _ Ht).
  - destruct (KV_CommitTxn_history _ _ _ _ HC) as [Ev Edb].
    rewrite i64_small in Ev by (unfold is_i64; lia). split; hs_simpl; rewrite ?Ev, ?Edb; try done; [lia|..].
    + eapply Forall_lt_weaken, Hlow. lia.
    + apply map_Forall_delete. eapply active_ok_grow, Hact. lia.
  - split; hs_simpl; try done; lia.
Qed.

Lemma hs_inv_init k :
  RocksDBKVStore_make = Ret k → hs_inv (db_contents (db_ k)) 0 (hs_init k).
Proof.
  intros Hk. pose proof (kv_inv_init k Hk) as (_ & Hv & _). cbn in Hv.
  split; cbn; try done; [constructor|]. intros before t after E. by destruct before.
Qed.

Lemma hs_inv_reachable k n s :
  RocksDBKVStore_make = Ret k → Z.of_nat n < 2 ^ 62 → nsteps hs_step n (hs_init k) s →
  hs_inv (db_contents (db_ k)) n s.
Proof.
  intros Hk Hn Hs. eapply (nsteps_invariant hs_step (hs_inv (db_contents (db_ k)))); try done.
  - intros. by eapply hs_inv_step.
  - by apply hs_inv_init.
Qed.

(** ** Properties *)

(** C13: whatever interleaving of fewer than [2^62] starts,
    reads, writes, commits, aborts and purges the store goes through, its contents are
    the replay of the committed transactions one after the other, in the order of their
    commits.  Each of them recorded for every key it read what the replay of the
    transactions committed before it started holds there, whatever was committed since;
    and when those since wrote nothing it read, what the replay of all the earlier ones
    holds: it could have run alone, at its commit. *)
Theorem committed_history_snapshots (k : RocksDBKVStore) (n : nat) (s : HSys)
    (Hmake : RocksDBKVStore_make = Ret k) (Hn : Z.of_nat n < 2 ^ 62)
    (Hs : nsteps hs_step n (hs_init k) s) :
  let m := db_contents (db_ k) in
  db_contents (db_ (hs_store s)) = serial m (hs_committed s) ∧
  StronglySorted commit_lt (hs_committed s) ∧
  ∀ before t after, hs_committed s = before ++ t :: after →
    ∃ seen since, before = seen ++ since ∧
      Forall (λ c, commit_version_ c < start_version_ t) seen ∧
      Forall (λ c, start_version_ t < commit_version_ c) since ∧
      map_Forall (λ key v, v = optional (serial m seen !! key)) (read_set_ t) ∧
      (Forall (no_overlap t) since →
       map_Forall (λ key v, v = optional (serial m before !! key)) (read_set_ t)).
Proof. destruct (hs_inv_reachable k n s Hmake Hn Hs). by split_and!. Qed.
End serializable.

(** ** Two concurrent transactions, on the in-memory database *)

Section demo.
#[local] Existing Instances MemDB MemDBSpec MemDBLaws demo_fmt demo_build.

Lemma demo_uses (i : nat) (v start : Z) (ops done : list txn_op)
    (act : gmap nat RocksDBTxn) (cs : list RocksDBTxn) :
  forallb own_op ops = true → act !! i = Some (demo_active start done) →
  nsteps hs_step (length ops)
    {| hs_store := set_version v demo_store; hs_active := act; hs_committed := cs |}
    {| hs_store := set_version v demo_store;
       hs_active := <[i := demo_active start (done ++ ops)]> act; hs_committed := cs |}.
Proof.
  revert done act. induction ops as [|op ops IH]; intros done act Hown Hi.
  - rewrite app_nil_r, insert_id by done. constructor.
  - apply andb_true_iff in Hown as [Hop Hown]. eapply nsteps_l; [by eapply hs_use|].
    replace (run_txn_op op (demo_active start done)) with (demo_active start (done ++ [op]))
      by (unfold demo_active; by rewrite foldl_app).
    replace (done ++ op :: ops) with ((done ++ [op]) ++ ops) by by rewrite <- app_assoc.
    rewrite <- (insert_insert_eq act i (demo_active start ((done ++ [op]) ++ ops))
      (demo_active start (done ++ [op]))).
    apply IH; [done|]. apply lookup_insert_eq.
Qed.

Definition demo_committed (start commit : Z) (ops : list txn_op) : RocksDBTxn :=
  set_commit_version commit (demo_active start ops).

(** Both start, both work, both commit. *)
Definition demo_final (ops1 ops2 : list txn_op) : HSys :=
  {| hs_store :=
       {| db_ := serial ∅ [demo_committed 1 3 ops1; demo_committed 2 4 ops2];
          kv_cf_handles_ := snd <$> cf_names; version_ := 5;
          conflict_detector_ := empty_detector |};
     hs_active := ∅;
     hs_committed := [demo_committed 1 3 ops1; demo_committed 2 4 ops2] |}.

Lemma demo_commit_ok (d : RocksDBConflictDetector) (db : kvmap) (v : Z) (t : RocksDBTxn) :
  0 < v < 100 → IsConflictFree d (set_commit_version v t) = Ret true →
  KV_CommitTxn t {| db_ := (db : @DB MemDB); kv_cf_handles_ := snd <$> cf_names;
                    version_ := v; conflict_detector_ := d |}
  = (Ret (Val tt), {| db_ := (apply_writes (write_set_ t) db : @DB MemDB);
                      kv_cf_handles_ := snd <$> cf_names;
                      version_ := v + 1; conflict_detector_ := d |}).
Proof.
  intros Hv Hfree. rewrite KV_CommitTxn_eval. cbn zeta. cbn [conflict_detector_ version_ db_].
  rewrite Hfree, <- write_batch_apply, i64_small by (unfold is_i64; lia). done.
Qed.

Lemma demo_hs_start (i : nat) (v : Z) (act : gmap nat RocksDBTxn) (cs : list RocksDBTxn) :
  0 < v < 100 → act !! i = None →
  hs_step {| hs_store := set_version v demo_store; hs_active := act; hs_committed := cs |}
          {| hs_store := set_version (v + 1) demo_store;
             hs_active := <[i := demo_active v []]> act; hs_committed := cs |}.
Proof.
  intros Hv Hi. apply hs_start; [|done].
  destruct (KV_StartTxn_eval (set_version v demo_store)) as (s & E & _ & ->).
  injection E as <-. cbn [version_ set_version]. by rewrite i64_small by (unfold is_i64; lia).
Qed.

Lemma demo_start_version start commit ops :
  start_version_ (demo_committed start commit ops) = start.
Proof. unfold demo_committed. cbn. by destruct (run_txn_ops_frame ops (demo_txn start (-1) [] [])). Qed.

Lemma demo_history (ops1 ops2 : list txn_op) :
  forallb own_op ops1 = true → forallb own_op ops2 = true →
  nsteps hs_step (2 + (length ops1 + (length ops2 + 2)))
    (hs_init demo_store) (demo_final ops1 ops2).
Proof.
  intros H1 H2.
  eapply nsteps_l; [by apply (demo_hs_start 0%nat 1)|].
  eapply nsteps_l; [by apply (demo_hs_start 1%nat 2)|].
  eapply nsteps_trans; [by apply (demo_uses 0%nat 3 1 ops1 [])|].
  eapply nsteps_trans; [by apply (demo_uses 1%nat 3 2 ops2 [])|].
  cbn [app].
  eapply nsteps_l.
  { eapply (hs_commit 0%nat); [done|]. apply (demo_commit_ok _ ∅ 3); [done|].
    apply (IsConflictFree_empty (demo_committed 1 3 ops1) 0); by rewrite demo_start_version. }
  eapply nsteps_l.
  { eapply (hs_commit 1%nat); [done|]. apply (demo_commit_ok _ _ 4); [done|].
    apply (IsConflictFree_empty (demo_committed 2 4 ops2) 0); by rewrite demo_start_version. }
  constructor.
Qed.

(** The second transaction reads a key that the first, which commits while it runs,
    does not write; it could have run after it. *)
Definition demo_ops1 : list txn_op := [OpGet kDEntCFIndex "a" false; OpPut kDEntCFIndex "a" "one"]%string.
Definition demo_ops2 : list txn_op := [OpGet kDEntCFIndex "b" false; OpPut kDEntCFIndex "b" "two"]%string.

Lemma demo_reads_b : read_set_ (demo_committed 2 4 demo_ops2) = {[ (4, "b"%string) := optional None ]}.
Proof. vm_compute. reflexivity. Qed.
Lemma demo_writes_a : write_set_ (demo_committed 1 3 demo_ops1) = {[ (4, "a"%string) := Some "one"%string ]}.
Proof. vm_compute. reflexivity. Qed.

Lemma demo_no_overlap : no_overlap (demo_committed 2 4 demo_ops2) (demo_committed 1 3 demo_ops1).
Proof.
  intros key [v Hv]. rewrite demo_writes_a in Hv. apply lookup_singleton_Some in Hv as [<- _].
  rewrite demo_reads_b. by apply lookup_singleton_ne.
Qed.

Lemma committed_history_snapshots_witness :
  read_set_ (demo_committed 2 4 demo_ops2) !! (4, "b"%string) = Some (optional None) ∧
  optional None = optional (serial ∅ [demo_committed 1 3 demo_ops1] !! (4, "b"%string)).
Proof.
  assert (read_set_ (demo_committed 2 4 demo_ops2) !! (4, "b"%string) = Some (optional None)) as Hb
    by (vm_compute; reflexivity).
  split; [exact Hb|].
  pose proof (demo_history demo_ops1 demo_ops2 eq_refl eq_refl) as Hs.
  destruct (committed_history_snapshots demo_store 8 _ eq_refl ltac:(vm_compute; reflexivity) Hs)
    as (_ & _ & Hr).
  destruct (Hr [demo_committed 1 3 demo_ops1] (demo_committed 2 4 demo_ops2) [] eq_refl)
    as (seen & since & E & _ & _ & _ & Hserial).
  refine (Hserial _ (4, "b"%string) _ Hb).
  apply Forall_forall. intros c Hc.
  assert (c ∈ [demo_committed 1 3 demo_ops1]) as Hc1 by (rewrite E; apply elem_of_app; by right).
  apply list_elem_of_singleton in Hc1 as ->. exact demo_no_overlap.
Defined.

(** Two transactions list one range, find it empty and put a row each. *)
Definition demo_list_put (key : string) : list txn_op :=
  [OpGetRange kDEntCFIndex "a" "z" 10 false; OpPut kDEntCFIndex key "row"]%string.

(** Range reads are not tracked, so that even on a detector that holds the other one, two
    transactions that list one range, find it empty and put a row each are both declared
    conflict free, although the one that runs second, in either order, would have found
    the row of the other. *)
Theorem phantom_rows_admitted :
  let t1 := demo_committed 1 3 (demo_list_put "p") in
  let t2 := demo_committed 2 4 (demo_list_put "q") in
  let listing t := (Txn_GetRange kDEntCFIndex "a" "z" 10 false t).1 in
  IsConflictFree {| committed_txns_ := {[ 3 := t1 ]}; latest_purged_version_ := 0 |} t2 = Ret true ∧
  IsConflictFree {| committed_txns_ := {[ 4 := t2 ]}; latest_purged_version_ := 0 |}
    (demo_committed 1 5 (demo_list_put "p")) = Ret true ∧
  listing t1 = Ret (Val []) ∧ listing t2 = Ret (Val []) ∧
  range_values (serial ∅ [t1]) (index kDEntCFIndex) "a" "z" 10 = ["row"%string] ∧
  range_values (serial ∅ [t2]) (index kDEntCFIndex) "a" "z" 10 = ["row"%string].
Proof. vm_compute. done. Qed.
End demo.
