(* ===== verification/DetectorLock.v ===== *)
(** The mutex of the conflict detector: src/namenode/table/kv/rocksdb_kv_store.cc,
    [IsConflictFree] and [PurgeTo] as the coroutines they are.

    Both begin with [co_await mutex_.async_lock()] and call [unlock] by hand on each
    path that returns.  A coroutine that finds the mutex held is suspended until it is
    released.  [RocksDB.IsConflictFree] and [RocksDB.PurgeTo] are what runs in
    between. *)

From Stdlib Require Import ZArith Lia Ascii String.
From stdpp Require Import prelude strings gmap sorting relations.
From S2P Require Import Prelude Common Types KVStoreBase RocksDB Conflict.

#[local] Open Scope Z_scope.

Inductive awaited (A : Type) :=
| Suspended
| Done (o : outcome A).
Arguments Suspended {A}.
Arguments Done {A} o.

Section lock.
Context `{RocksDB}.

Record LockedDetector := { detector : RocksDBConflictDetector; mutex_ : bool }.

(** [async_lock] and [unlock]. *)
Definition async_lock (d : LockedDetector) : option LockedDetector :=
  if mutex_ d then None else Some {| detector := detector d; mutex_ := true |}.
Definition unlock (d : LockedDetector) : LockedDetector :=
  {| detector := detector d; mutex_ := false |}.

(** The two paths that return call [unlock]; an exception of a check does not pass
    through it. *)
Definition IsConflictFree_async (txn : RocksDBTxn) (d : LockedDetector) :
    awaited bool * LockedDetector :=
  match async_lock d with
  | None => (Suspended, d)
  | Some d =>
      match IsConflictFree (detector d) txn with
      | Ret free => (Done (Ret free), unlock d)
      | o => (Done o, d)
      end
  end.

Definition PurgeTo_async (version : Z) (d : LockedDetector) : awaited unit * LockedDetector :=
  match async_lock d with
  | None => (Suspended, d)
  | Some d =>
      match PurgeTo version (detector d) with
      | (Ret tt, det) => (Done (Ret tt), unlock {| detector := det; mutex_ := mutex_ d |})
      | (o, det) => (Done o, {| detector := det; mutex_ := mutex_ d |})
      end
  end.

(** Calls of the detector, one after the other; a suspended one stays suspended. *)
Inductive det_call :=
| CallIsConflictFree (txn : RocksDBTxn)
| CallPurgeTo (version : Z).

Definition run_call (c : det_call) (d : LockedDetector) : awaited (option bool) * LockedDetector :=
  match c with
  | CallIsConflictFree txn =>
      let '(r, d) := IsConflictFree_async txn d in
      (match r with
       | Suspended => Suspended
       | Done (Ret b) => Done (Ret (Some b))
       | Done (Throw w) => Done (Throw w)
       | Done Undef => Done Undef
       end, d)
  | CallPurgeTo v =>
      let '(r, d) := PurgeTo_async v d in
      (match r with
       | Suspended => Suspended
       | Done (Ret _) => Done (Ret None)
       | Done (Throw w) => Done (Throw w)
       | Done Undef => Done Undef
       end, d)
  end.

Fixpoint run_calls (cs : list det_call) (d : LockedDetector) :
    list (awaited (option bool)) * LockedDetector :=
  match cs with
  | [] => ([], d)
  | c :: cs =>
      let '(r, d) := run_call c d in
      let '(rs, d) := run_calls cs d in
      (r :: rs, d)
  end.

(** The same calls without a mutex, as far as they return. *)
Definition plain_call (c : det_call) (d : RocksDBConflictDetector) :
    outcome (option bool) * RocksDBConflictDetector :=
  match c with
  | CallIsConflictFree txn =>
      (match IsConflictFree d txn with
       | Ret b => Ret (Some b) | Throw w => Throw w | Undef => Undef end, d)
  | CallPurgeTo v => (Ret None, (PurgeTo v d).2)
  end.
Fixpoint plain_calls (cs : list det_call) (d : RocksDBConflictDetector) :
    list (outcome (option bool)) * RocksDBConflictDetector :=
  match cs with
  | [] => ([], d)
  | c :: cs =>
      let '(o, d) := plain_call c d in
      match o with
      | Ret _ => let '(os, d) := plain_calls cs d in (o :: os, d)
      | _ => ([o], d)
      end
  end.

Definition is_Ret {A} (o : outcome A) : bool := match o with Ret _ => true | _ => false end.

(** ** Lemmas *)

Lemma run_call_free c (d : RocksDBConflictDetector) :
  run_call c {| detector := d; mutex_ := false |} =
    let '(o, d') := plain_call c d in (Done o, {| detector := d'; mutex_ := negb (is_Ret o) |}).
Proof.
  destruct c as [txn|v]; cbn; [|done].
  unfold IsConflictFree_async. cbn. by destruct (IsConflictFree d txn).
Qed.

Lemma run_call_held c (d : RocksDBConflictDetector) :
  run_call c {| detector := d; mutex_ := true |} = (Suspended, {| detector := d; mutex_ := true |}).
Proof. by destruct c. Qed.

Lemma run_calls_held cs (d : RocksDBConflictDetector) :
  run_calls cs {| detector := d; mutex_ := true |} =
    (replicate (length cs) Suspended, {| detector := d; mutex_ := true |}).
Proof.
  induction cs as [|c cs IH]; [done|]. cbn [run_calls length replicate].
  by rewrite run_call_held, IH.
Qed.

(** ** Properties *)

(** C30: with the mutex free at first, the calls of the
    detector give what they give without a mutex until one of them throws, and the
    mutex is free after each; the call that throws keeps the mutex, and every later
    call is suspended for ever. *)
Theorem mutex_leaked_by_failed_check (cs : list det_call) (d : RocksDBConflictDetector) :
  let '(os, d') := plain_calls cs d in
  run_calls cs {| detector := d; mutex_ := false |} =
    ((Done <$> os) ++ replicate (length cs - length os) Suspended,
     {| detector := d'; mutex_ := negb (forallb is_Ret os) |}).
Proof.
  revert d. induction cs as [|c cs IH]; intros d; [done|]. cbn [plain_calls run_calls].
  rewrite run_call_free. destruct (plain_call c d) as [o d1].
  destruct o as [b|w|]; cbn [is_Ret negb].
  - specialize (IH d1). destruct (plain_calls cs d1) as [os d2]. rewrite IH. done.
  - rewrite run_calls_held. cbn [length forallb is_Ret andb negb fmap list_fmap app].
    by rewrite Nat.sub_succ, Nat.sub_0_r.
  - rewrite run_calls_held. cbn [length forallb is_Ret andb negb fmap list_fmap app].
    by rewrite Nat.sub_succ, Nat.sub_0_r.
Qed.
End lock.

Section store.
Context `{RocksDBLaws, Fmt, Build}.

(** Over every interleaving of fewer than [2^62] steps of the
    store's transactions, the check of a commit takes a free mutex, throws nothing and
    leaves the mutex free: no commit is ever suspended on it. *)
Theorem commits_never_wait (k : RocksDBKVStore) (n : nat) (s : KVSys) (i : nat) (t : RocksDBTxn)
    (Hmake : RocksDBKVStore_make = Ret k) (Hn : Z.of_nat n < 2 ^ 62)
    (Hs : nsteps kv_step n {| sys_store := k; sys_txns := ∅ |} s)
    (Hi : sys_txns s !! i = Some t) :
  let d := {| detector := conflict_detector_ (sys_store s); mutex_ := false |} in
  IsConflictFree_async (set_commit_version (version_ (sys_store s)) t) d = (Done (Ret true), d).
Proof.
  intros d. pose proof (kv_inv_reachable n k s Hmake Hn Hs) as (Hd & Hv & _ & Htx).
  unfold IsConflictFree_async, d. cbn [async_lock mutex_ detector]. rewrite Hd.
  pose proof (Htx i t Hi) as Ht. cbn in Ht.
  rewrite IsConflictFree_empty by (cbn; lia). done.
Qed.
End store.

(** ** Witness *)

Section demo.
#[local] Existing Instances MemDB MemDBSpec MemDBLaws demo_fmt demo_build.

Lemma commits_never_wait_witness :
  let d := {| detector := empty_detector; mutex_ := false |} in
  IsConflictFree_async (set_commit_version 3 (demo_active 2 (demo_reads_writes "two"))) d
  = (Done (Ret true), d).
Proof.
  apply (commits_never_wait demo_store 6 demo_sys 1 (demo_active 2 (demo_reads_writes "two")) eq_refl).
  - reflexivity.
  - exact demo_sys_reachable.
  - reflexivity.
Defined.

(** A transaction whose commit version was never set wedges the detector. *)
Example unset_commit_version_wedges :
  (run_calls [CallIsConflictFree (demo_txn 2 (-1) [] []); CallPurgeTo 1]
     {| detector := empty_detector; mutex_ := false |}).1
  = [Done (Throw "Check failed: (txn->commit_version_) > (txn->start_version_)."); Suspended].
Proof. reflexivity. Qed.
End demo.
