(* ===== verification/Serde.v ===== *)
(** Rows as key-value pairs: src/namenode/table/kv/serde.h and serde.cc, over the
    schemas src/proto/inode.fbs and dent.fbs.

    Two libraries are parameters: absl's big-endian loads and stores
    ([BigEndian]), whose laws are their definition as big-endian numbers, and
    the code flatc generates from the schemas ([FlatBuffers]): packing an object
    tree, verifying a buffer and reading its root, whose law is that reading
    what was packed gives the fields back.  The law says nothing of a table with
    an empty name, for which the accessor may be null. *)

From Stdlib Require Import ZArith Lia Ascii String.
From stdpp Require Import prelude strings gmap sorting.
From S2P Require Import Prelude Common Types KVStoreBase RocksDB Conflict.

#[local] Open Scope Z_scope.

(** ** absl::big_endian *)

Class BigEndian := {
  Store64 : Z → string;     (* the 8 bytes written *)
  Load64 : string → Z;      (* of 8 bytes *)
}.

Class BigEndianLaws `{BigEndian} : Prop := {
  Store64_law v : Store64 v = encode_be 8 v;
  Load64_law s : String.length s = 8%nat → Load64 s = decode_be s;
}.

(** ** The flatbuffers schemas *)

Record AclT := { aclt_uid : Z; aclt_gid : Z; aclt_perm : Z }.

(** A table with a [name] field, [N] being [string] in the object tree the code
    fills and [option string] in a buffer's root, whose accessor may be null. *)
Record DirT (N : Type) := {
  dirt_parent_id : Z;
  dirt_name : N;
  dirt_id : Z;
  dirt_acl : option AclT;
  dirt_ctime_in_ns : Z;
}.
Arguments dirt_parent_id {N} _.
Arguments dirt_name {N} _.
Arguments dirt_id {N} _.
Arguments dirt_acl {N} _.
Arguments dirt_ctime_in_ns {N} _.

Record FileT := {
  filet_id : Z;
  filet_acl : option AclT;
  filet_ctime_in_ns : Z;
}.

Record HardLinkT (N : Type) := {
  hlt_parent_id : Z;
  hlt_name : N;
  hlt_id : Z;
}.
Arguments hlt_parent_id {N} _.
Arguments hlt_name {N} _.
Arguments hlt_id {N} _.

Inductive InodeTypeUnion (N : Type) :=
| InodeType_NONE
| InodeType_File (f : FileT)
| InodeType_Dir (d : DirT N).
Arguments InodeType_NONE {N}.
Arguments InodeType_File {N} f.
Arguments InodeType_Dir {N} d.

Inductive DEntTypeUnion (N : Type) :=
| DEntType_NONE
| DEntType_HardLink (h : HardLinkT N)
| DEntType_Dir (d : DirT N).
Arguments DEntType_NONE {N}.
Arguments DEntType_HardLink {N} h.
Arguments DEntType_Dir {N} d.

Class FlatBuffers := {
  PackInode : InodeTypeUnion string → string;
  VerifyInode : string → bool;
  RootInode : string → InodeTypeUnion (option string);
  PackDEnt : DEntTypeUnion string → string;
  VerifyDEnt : string → bool;
  RootDEnt : string → DEntTypeUnion (option string);
}.

Definition dirt_view (d : DirT string) : DirT (option string) :=
  {| dirt_parent_id := dirt_parent_id d; dirt_name := Some (dirt_name d);
     dirt_id := dirt_id d; dirt_acl := dirt_acl d;
     dirt_ctime_in_ns := dirt_ctime_in_ns d |}.
Definition hlt_view (h : HardLinkT string) : HardLinkT (option string) :=
  {| hlt_parent_id := hlt_parent_id h; hlt_name := Some (hlt_name h); hlt_id := hlt_id h |}.

(** What the schema's field types and the law can carry. *)
Definition dirt_ok (d : DirT string) : Prop :=
  is_u64 (dirt_parent_id d) ∧ is_u64 (dirt_id d) ∧ is_i64 (dirt_ctime_in_ns d) ∧
  dirt_name d ≠ ""%string.
Definition filet_ok (f : FileT) : Prop := is_u64 (filet_id f) ∧ is_i64 (filet_ctime_in_ns f).
Definition hlt_ok (h : HardLinkT string) : Prop :=
  is_u64 (hlt_parent_id h) ∧ is_u64 (hlt_id h) ∧ hlt_name h ≠ ""%string.

Class FlatBuffersLaws `{FlatBuffers} : Prop := {
  VerifyInode_law u : VerifyInode (PackInode u) = true;
  RootInode_Dir d :
    dirt_ok d → RootInode (PackInode (InodeType_Dir d)) = InodeType_Dir (dirt_view d);
  RootInode_File f :
    filet_ok f → RootInode (PackInode (InodeType_File f)) = InodeType_File f;
  VerifyDEnt_law u : VerifyDEnt (PackDEnt u) = true;
  RootDEnt_Dir d :
    dirt_ok d → RootDEnt (PackDEnt (DEntType_Dir d)) = DEntType_Dir (dirt_view d);
  RootDEnt_HardLink h :
    hlt_ok h → RootDEnt (PackDEnt (DEntType_HardLink h)) = DEntType_HardLink (hlt_view h);
}.

(** ** Serde: from row changes to writes *)

Record WriteOps := {
  del_key : option string;
  put_kv : option (string * string);
}.

(** What [Serde::Write] needs of a derived class, at one row type. *)
Record Serde (T : Type) := {
  IsKeyChanged : T → T → bool;
  IsValueChanged : T → T → bool;
  SerKey : T → string;
  SerVal : T → string;
}.
Arguments IsKeyChanged {T} _ _ _.
Arguments IsValueChanged {T} _ _ _.
Arguments SerKey {T} _ _.
Arguments SerVal {T} _ _.

Definition GetWriteOps {T} (self : Serde T) (orig mod_ : option T) : WriteOps :=
  match mod_, orig with
  | None, Some o => {| del_key := Some (SerKey self o); put_kv := None |}
  | None, None => {| del_key := None; put_kv := None |}
  | Some m, None => {| del_key := None; put_kv := Some (SerKey self m, SerVal self m) |}
  | Some m, Some o =>
      let key_changed := IsKeyChanged self o m in
      let value_changed := IsValueChanged self o m in
      {| del_key := if key_changed then Some (SerKey self o) else None;
         put_kv := if key_changed || value_changed
                   then Some (SerKey self m, SerVal self m) else None |}
  end.

Definition Serde_Write {T X} `{TxnBase X} (self : Serde T) (cf_index : CFIndex)
    (orig mod_ : option T) : M X unit :=
  let write_ops := GetWriteOps self orig mod_ in
  do! (match del_key write_ops with
       | Some k => Del cf_index k
       | None => ret tt
       end) in
  match put_kv write_ops with
  | Some (k, v) => Put cf_index k v
  | None => ret tt
  end.

Definition str_neqb (a b : string) : bool := negb (String.eqb a b).

Section serdes.
Context `{BigEndian, FlatBuffers}.

(** A 64-bit field as the 8 bytes of a key or of a value. *)
Definition SerID (id : InodeID) : string := Store64 (val id).

(** ** InodeSerde *)

Definition InodeSerde_IsKeyChanged_Dir (orig mod_ : Dir) : bool :=
  InodeID_neqb (dir_id orig) (dir_id mod_).
Definition InodeSerde_IsKeyChanged_File (orig mod_ : File) : bool :=
  InodeID_neqb (file_id orig) (file_id mod_).

Definition InodeSerde_IsValueChanged_Dir (orig mod_ : Dir) : bool :=
  InodeID_neqb (dir_parent_id orig) (dir_parent_id mod_) ||
  str_neqb (dir_name orig) (dir_name mod_) ||
  InodeID_neqb (dir_id orig) (dir_id mod_) ||
  negb (Acl_eqb (dir_acl orig) (dir_acl mod_)) ||
  negb (dir_ctime_in_ns orig =? dir_ctime_in_ns mod_).
Definition InodeSerde_IsValueChanged_File (orig mod_ : File) : bool :=
  InodeID_neqb (file_id orig) (file_id mod_) ||
  negb (Acl_eqb (file_acl orig) (file_acl mod_)) ||
  negb (file_ctime_in_ns orig =? file_ctime_in_ns mod_).

Definition InodeSerde_SerKey (id : InodeID) : string := SerID id.
Definition InodeSerde_SerKey_Dir (dir : Dir) : string := InodeSerde_SerKey (dir_id dir).
Definition InodeSerde_SerKey_File (file : File) : string := InodeSerde_SerKey (file_id file).

(** The [acl] of the object tree is not set. *)
Definition InodeSerde_DirT (dir : Dir) : DirT string :=
  {| dirt_parent_id := val (dir_parent_id dir); dirt_name := dir_name dir;
     dirt_id := val (dir_id dir); dirt_acl := None;
     dirt_ctime_in_ns := dir_ctime_in_ns dir |}.
Definition InodeSerde_SerVal_Dir (dir : Dir) : string :=
  PackInode (InodeType_Dir (InodeSerde_DirT dir)).
Definition InodeSerde_FileT (file : File) : FileT :=
  {| filet_id := val (file_id file); filet_acl := None;
     filet_ctime_in_ns := file_ctime_in_ns file |}.
Definition InodeSerde_SerVal_File (file : File) : string :=
  PackInode (InodeType_File (InodeSerde_FileT file)).

Definition InodeSerde_DeKey {S} (key : string) : M S InodeID :=
  do! Check (Z.of_nat (String.length key) =? 8) "(key.size()) == (sizeof(InodeID))" in
  ret {| val := Load64 key |}.

(** Members without an initialiser are value-initialised. *)
Definition zero_acl : Acl := {| uid := 0; gid := 0; perm := 0 |}.

Definition InodeSerde_DeVal {S} (v : string) : M S (Dir + File) :=
  do! Check (VerifyInode v)
    "flatbuffers::Verifier(reinterpret_cast<const uint8_t*>(val.data()), val.size()) .VerifyBuffer<serde::Inode>()" in
  match RootInode v with
  | InodeType_Dir dir =>
      match dirt_name dir with
      | None => undef
      | Some name =>
          ret (inl {| dir_parent_id := {| val := dirt_parent_id dir |}; dir_name := name;
                      dir_id := {| val := dirt_id dir |}; dir_acl := zero_acl;
                      dir_ctime_in_ns := dirt_ctime_in_ns dir;
                      dir_mtime_in_ns := 0; dir_atime_in_ns := 0 |})
      end
  | InodeType_File file =>
      ret (inr {| file_id := {| val := filet_id file |}; file_acl := zero_acl;
                  file_ctime_in_ns := filet_ctime_in_ns file;
                  file_mtime_in_ns := 0; file_atime_in_ns := 0 |})
  | InodeType_NONE => throw "Check failed: file != nullptr."
  end.

Definition InodeSerde_Dir : Serde Dir := {|
  IsKeyChanged := InodeSerde_IsKeyChanged_Dir;
  IsValueChanged := InodeSerde_IsValueChanged_Dir;
  SerKey := InodeSerde_SerKey_Dir;
  SerVal := InodeSerde_SerVal_Dir |}.
Definition InodeSerde_File : Serde File := {|
  IsKeyChanged := InodeSerde_IsKeyChanged_File;
  IsValueChanged := InodeSerde_IsValueChanged_File;
  SerKey := InodeSerde_SerKey_File;
  SerVal := InodeSerde_SerVal_File |}.

(** ** MTimeSerde *)

Definition MTimeSerde_IsKeyChanged_Dir (orig mod_ : Dir) : bool :=
  InodeID_neqb (dir_id orig) (dir_id mod_).
Definition MTimeSerde_IsKeyChanged_File (orig mod_ : File) : bool :=
  InodeID_neqb (file_id orig) (file_id mod_).
Definition MTimeSerde_IsValueChanged_Dir (orig mod_ : Dir) : bool :=
  negb (dir_mtime_in_ns orig =? dir_mtime_in_ns mod_).
Definition MTimeSerde_IsValueChanged_File (orig mod_ : File) : bool :=
  negb (file_mtime_in_ns orig =? file_mtime_in_ns mod_).
Definition MTimeSerde_SerKey (id : InodeID) : string := InodeSerde_SerKey id.
Definition MTimeSerde_SerKey_Dir (dir : Dir) : string := MTimeSerde_SerKey (dir_id dir).
Definition MTimeSerde_SerKey_File (file : File) : string := MTimeSerde_SerKey (file_id file).
Definition MTimeSerde_SerVal (mtime_in_ns : Z) : string := Store64 (u64 mtime_in_ns).
Definition MTimeSerde_SerVal_Dir (dir : Dir) : string := MTimeSerde_SerVal (dir_mtime_in_ns dir).
Definition MTimeSerde_SerVal_File (file : File) : string :=
  MTimeSerde_SerVal (file_mtime_in_ns file).
Definition MTimeSerde_DeVal {S} (v : string) : M S Z :=
  do! Check (Z.of_nat (String.length v) =? 8) "(val.size()) == (sizeof(int64_t))" in
  ret (i64 (Load64 v)).

Definition MTimeSerde_Dir : Serde Dir := {|
  IsKeyChanged := MTimeSerde_IsKeyChanged_Dir;
  IsValueChanged := MTimeSerde_IsValueChanged_Dir;
  SerKey := MTimeSerde_SerKey_Dir;
  SerVal := MTimeSerde_SerVal_Dir |}.
Definition MTimeSerde_File : Serde File := {|
  IsKeyChanged := MTimeSerde_IsKeyChanged_File;
  IsValueChanged := MTimeSerde_IsValueChanged_File;
  SerKey := MTimeSerde_SerKey_File;
  SerVal := MTimeSerde_SerVal_File |}.

(** ** ATimeSerde *)

Definition ATimeSerde_IsKeyChanged_Dir (orig mod_ : Dir) : bool :=
  InodeID_neqb (dir_id orig) (dir_id mod_).
Definition ATimeSerde_IsKeyChanged_File (orig mod_ : File) : bool :=
  InodeID_neqb (file_id orig) (file_id mod_).
Definition ATimeSerde_IsValueChanged_Dir (orig mod_ : Dir) : bool :=
  negb (dir_atime_in_ns orig =? dir_atime_in_ns mod_).
Definition ATimeSerde_IsValueChanged_File (orig mod_ : File) : bool :=
  negb (file_atime_in_ns orig =? file_atime_in_ns mod_).
Definition ATimeSerde_SerKey (id : InodeID) : string := InodeSerde_SerKey id.
Definition ATimeSerde_SerKey_Dir (dir : Dir) : string := ATimeSerde_SerKey (dir_id dir).
Definition ATimeSerde_SerKey_File (file : File) : string := ATimeSerde_SerKey (file_id file).
Definition ATimeSerde_SerVal (atime_in_ns : Z) : string := Store64 (u64 atime_in_ns).
Definition ATimeSerde_SerVal_Dir (dir : Dir) : string := ATimeSerde_SerVal (dir_atime_in_ns dir).
Definition ATimeSerde_SerVal_File (file : File) : string :=
  ATimeSerde_SerVal (file_atime_in_ns file).
Definition ATimeSerde_DeVal {S} (v : string) : M S Z :=
  do! Check (Z.of_nat (String.length v) =? 8) "(val.size()) == (sizeof(int64_t))" in
  ret (i64 (Load64 v)).

Definition ATimeSerde_Dir : Serde Dir := {|
  IsKeyChanged := ATimeSerde_IsKeyChanged_Dir;
  IsValueChanged := ATimeSerde_IsValueChanged_Dir;
  SerKey := ATimeSerde_SerKey_Dir;
  SerVal := ATimeSerde_SerVal_Dir |}.
Definition ATimeSerde_File : Serde File := {|
  IsKeyChanged := ATimeSerde_IsKeyChanged_File;
  IsValueChanged := ATimeSerde_IsValueChanged_File;
  SerKey := ATimeSerde_SerKey_File;
  SerVal := ATimeSerde_SerVal_File |}.

(** ** DEntSerde *)

Definition DEntSerde_IsKeyChanged_Dir (orig mod_ : Dir) : bool :=
  InodeID_neqb (dir_parent_id orig) (dir_parent_id mod_) ||
  str_neqb (dir_name orig) (dir_name mod_).
Definition DEntSerde_IsKeyChanged_HardLink (orig mod_ : HardLink) : bool :=
  InodeID_neqb (hl_parent_id orig) (hl_parent_id mod_) ||
  str_neqb (hl_name orig) (hl_name mod_).
Definition DEntSerde_IsValueChanged_Dir (orig mod_ : Dir) : bool :=
  InodeID_neqb (dir_id orig) (dir_id mod_).
Definition DEntSerde_IsValueChanged_HardLink (orig mod_ : HardLink) : bool :=
  InodeID_neqb (hl_id orig) (hl_id mod_).

Definition DEntSerde_SerKey (parent_id : InodeID) (name : string) : string :=
  (Store64 (val parent_id) +:+ name)%string.
Definition DEntSerde_SerKey_Dir (dir : Dir) : string :=
  DEntSerde_SerKey (dir_parent_id dir) (dir_name dir).
Definition DEntSerde_SerKey_HardLink (hard_link : HardLink) : string :=
  DEntSerde_SerKey (hl_parent_id hard_link) (hl_name hard_link).

(** Neither [acl] nor [ctime_in_ns] is set. *)
Definition DEntSerde_DirT (dir : Dir) : DirT string :=
  {| dirt_parent_id := val (dir_parent_id dir); dirt_name := dir_name dir;
     dirt_id := val (dir_id dir); dirt_acl := None; dirt_ctime_in_ns := 0 |}.
Definition DEntSerde_SerVal_Dir (dir : Dir) : string :=
  PackDEnt (DEntType_Dir (DEntSerde_DirT dir)).
Definition DEntSerde_HardLinkT (hard_link : HardLink) : HardLinkT string :=
  {| hlt_parent_id := val (hl_parent_id hard_link); hlt_name := hl_name hard_link;
     hlt_id := val (hl_id hard_link) |}.
Definition DEntSerde_SerVal_HardLink (hard_link : HardLink) : string :=
  PackDEnt (DEntType_HardLink (DEntSerde_HardLinkT hard_link)).

(** [DeKey] wants a key of exactly eight bytes; the name is what follows them. *)
Definition DEntSerde_DeKey {S} (key : string) : M S (InodeID * string) :=
  do! Check (Z.of_nat (String.length key) =? 8) "(key.size()) == (sizeof(InodeID))" in
  ret ({| val := Load64 (substring 0 8 key) |}, substring 8 (String.length key - 8) key).

Definition DEntSerde_DeVal {S} (v : string) : M S (Dir + HardLink) :=
  do! Check (VerifyDEnt v)
    "flatbuffers::Verifier(reinterpret_cast<const uint8_t*>(val.data()), val.size()) .VerifyBuffer<serde::DEnt>()" in
  match RootDEnt v with
  | DEntType_Dir dir =>
      match dirt_name dir with
      | None => undef
      | Some name =>
          ret (inl {| dir_parent_id := {| val := dirt_parent_id dir |}; dir_name := name;
                      dir_id := {| val := dirt_id dir |}; dir_acl := zero_acl;
                      dir_ctime_in_ns := 0; dir_mtime_in_ns := 0; dir_atime_in_ns := 0 |})
      end
  | DEntType_HardLink hard_link =>
      match hlt_name hard_link with
      | None => undef
      | Some name =>
          ret (inr {| hl_parent_id := {| val := hlt_parent_id hard_link |}; hl_name := name;
                      hl_id := {| val := hlt_id hard_link |} |})
      end
  | DEntType_NONE => throw "Check failed: hard_link != nullptr."
  end.

Definition DEntSerde_Dir : Serde Dir := {|
  IsKeyChanged := DEntSerde_IsKeyChanged_Dir;
  IsValueChanged := DEntSerde_IsValueChanged_Dir;
  SerKey := DEntSerde_SerKey_Dir;
  SerVal := DEntSerde_SerVal_Dir |}.
Definition DEntSerde_HardLink : Serde HardLink := {|
  IsKeyChanged := DEntSerde_IsKeyChanged_HardLink;
  IsValueChanged := DEntSerde_IsValueChanged_HardLink;
  SerKey := DEntSerde_SerKey_HardLink;
  SerVal := DEntSerde_SerVal_HardLink |}.

End serdes.

(** ** A concrete encoding, for the closed examples *)

Fixpoint bits_of_pos (p : positive) : string :=
  match p with
  | xH => ""
  | xO p => String "0" (bits_of_pos p)
  | xI p => String "1" (bits_of_pos p)
  end.
Fixpoint pos_of_bits (s : string) : positive :=
  match s with
  | EmptyString => xH
  | String c s => if Ascii.eqb c "1" then xI (pos_of_bits s) else xO (pos_of_bits s)
  end.

#[global] Instance AclT_eq_dec : EqDecision AclT.
Proof. solve_decision. Defined.
#[global] Instance FileT_eq_dec : EqDecision FileT.
Proof. solve_decision. Defined.
#[global] Instance DirT_eq_dec {N} `{EqDecision N} : EqDecision (DirT N).
Proof. solve_decision. Defined.
#[global] Instance HardLinkT_eq_dec {N} `{EqDecision N} : EqDecision (HardLinkT N).
Proof. solve_decision. Defined.

#[global] Instance AclT_countable : Countable AclT.
Proof.
  apply (inj_countable' (λ a, (aclt_uid a, aclt_gid a, aclt_perm a))
    (λ '(u, g, p), {| aclt_uid := u; aclt_gid := g; aclt_perm := p |})). by intros [].
Defined.
#[global] Instance FileT_countable : Countable FileT.
Proof.
  apply (inj_countable' (λ f, (filet_id f, filet_acl f, filet_ctime_in_ns f))
    (λ '(i, a, c), {| filet_id := i; filet_acl := a; filet_ctime_in_ns := c |})). by intros [].
Defined.
#[global] Instance DirT_countable : Countable (DirT string).
Proof.
  apply (inj_countable'
    (λ d, (dirt_parent_id d, dirt_name d, dirt_id d, dirt_acl d, dirt_ctime_in_ns d))
    (λ '(p, n, i, a, c), {| dirt_parent_id := p; dirt_name := n; dirt_id := i;
                            dirt_acl := a; dirt_ctime_in_ns := c |})). by intros [].
Defined.
#[global] Instance HardLinkT_countable : Countable (HardLinkT string).
Proof.
  apply (inj_countable' (λ h, (hlt_parent_id h, hlt_name h, hlt_id h))
    (λ '(p, n, i), {| hlt_parent_id := p; hlt_name := n; hlt_id := i |})). by intros [].
Defined.

Definition demo_be : BigEndian := {| Store64 := encode_be 8; Load64 := decode_be |}.

Definition demo_fb : FlatBuffers := {|
  PackInode u :=
    match u with
    | InodeType_NONE => "N"
    | InodeType_File f => String "F" (bits_of_pos (encode f))
    | InodeType_Dir d => String "D" (bits_of_pos (encode d))
    end;
  VerifyInode _ := true;
  RootInode s :=
    match s with
    | String "F" s => match decode (pos_of_bits s) with
                      | Some f => InodeType_File f
                      | None => InodeType_NONE
                      end
    | String "D" s => match decode (pos_of_bits s) with
                      | Some d => InodeType_Dir (dirt_view d)
                      | None => InodeType_NONE
                      end
    | _ => InodeType_NONE
    end;
  PackDEnt u :=
    match u with
    | DEntType_NONE => "N"
    | DEntType_HardLink h => String "H" (bits_of_pos (encode h))
    | DEntType_Dir d => String "D" (bits_of_pos (encode d))
    end;
  VerifyDEnt _ := true;
  RootDEnt s :=
    match s with
    | String "H" s => match decode (pos_of_bits s) with
                      | Some h => DEntType_HardLink (hlt_view h)
                      | None => DEntType_NONE
                      end
    | String "D" s => match decode (pos_of_bits s) with
                      | Some d => DEntType_Dir (dirt_view d)
                      | None => DEntType_NONE
                      end
    | _ => DEntType_NONE
    end;
|}%string.

Lemma pos_of_bits_of_pos p : pos_of_bits (bits_of_pos p) = p.
Proof. induction p; simpl; congruence. Qed.

Lemma demo_be_laws : @BigEndianLaws demo_be.
Proof. by split. Qed.

Lemma demo_fb_laws : @FlatBuffersLaws demo_fb.
Proof.
  split; try done; intros x Hx; cbn [PackInode RootInode PackDEnt RootDEnt demo_fb];
    by rewrite pos_of_bits_of_pos, decode_encode.
Qed.

(** ** Lemmas *)

Definition serde_laws {T} (s : Serde T) : Prop :=
  ∀ a b, IsKeyChanged s a b = false →
         SerKey s a = SerKey s b ∧ (IsValueChanged s a b = false → SerVal s a = SerVal s b).

Lemma InodeID_neqb_false a b : InodeID_neqb a b = false → a = b.
Proof.
  unfold InodeID_neqb, InodeID_eqb. destruct a, b. simpl.
  destruct (Z.eqb_spec val val0); naive_solver.
Qed.
Lemma str_neqb_false a b : str_neqb a b = false → a = b.
Proof. unfold str_neqb. by destruct (String.eqb_spec a b). Qed.
Lemma Acl_neqb_false a b : negb (Acl_eqb a b) = false → a = b.
Proof.
  unfold Acl_eqb. destruct a as [u g p], b as [u' g' p']. simpl.
  destruct (Z.eqb_spec u u'), (Z.eqb_spec g g'), (Z.eqb_spec p p'); simpl; congruence.
Qed.
Lemma Z_neqb_false (a b : Z) : negb (a =? b) = false → a = b.
Proof. by destruct (Z.eqb_spec a b). Qed.

Create HintDb serde.
#[export] Hint Resolve InodeID_neqb_false str_neqb_false Acl_neqb_false Z_neqb_false : serde.

(** Turn "nothing changed" tests into equations of fields. *)
Ltac unchanged :=
  repeat match goal with
  | H : (_ || _)%bool = false |- _ => apply orb_false_iff in H as [? ?]
  | H : InodeID_neqb _ _ = false |- _ => apply InodeID_neqb_false in H
  | H : str_neqb _ _ = false |- _ => apply str_neqb_false in H
  | H : negb (Acl_eqb _ _) = false |- _ => apply Acl_neqb_false in H
  | H : negb (_ =? _) = false |- _ => apply Z_neqb_false in H
  end.
#[export] Hint Unfold
  InodeSerde_Dir InodeSerde_File MTimeSerde_Dir MTimeSerde_File ATimeSerde_Dir
  ATimeSerde_File DEntSerde_Dir DEntSerde_HardLink InodeSerde_IsKeyChanged_Dir
  InodeSerde_IsValueChanged_Dir InodeSerde_SerKey_Dir InodeSerde_SerVal_Dir
  InodeSerde_IsKeyChanged_File InodeSerde_IsValueChanged_File InodeSerde_SerKey_File
  InodeSerde_SerVal_File MTimeSerde_IsKeyChanged_Dir MTimeSerde_IsValueChanged_Dir
  MTimeSerde_SerKey_Dir MTimeSerde_SerVal_Dir MTimeSerde_IsKeyChanged_File
  MTimeSerde_IsValueChanged_File MTimeSerde_SerKey_File MTimeSerde_SerVal_File
  ATimeSerde_IsKeyChanged_Dir ATimeSerde_IsValueChanged_Dir ATimeSerde_SerKey_Dir
  ATimeSerde_SerVal_Dir ATimeSerde_IsKeyChanged_File ATimeSerde_IsValueChanged_File
  ATimeSerde_SerKey_File ATimeSerde_SerVal_File DEntSerde_IsKeyChanged_Dir
  DEntSerde_IsValueChanged_Dir DEntSerde_SerKey_Dir DEntSerde_SerVal_Dir
  DEntSerde_IsKeyChanged_HardLink DEntSerde_IsValueChanged_HardLink
  DEntSerde_SerKey_HardLink DEntSerde_SerVal_HardLink InodeSerde_DirT InodeSerde_FileT
  DEntSerde_DirT DEntSerde_HardLinkT : serde.
Ltac solve_serde_laws :=
  intros [] []; autounfold with serde; cbn; intros; unchanged;
  split; [congruence | intros; unchanged; congruence].

Section serde_lemmas.
Context `{BigEndianLaws, FlatBuffersLaws}.

Lemma InodeSerde_Dir_laws : serde_laws InodeSerde_Dir.
Proof. solve_serde_laws. Qed.
Lemma InodeSerde_File_laws : serde_laws InodeSerde_File.
Proof. solve_serde_laws. Qed.
Lemma MTimeSerde_Dir_laws : serde_laws MTimeSerde_Dir.
Proof. solve_serde_laws. Qed.
Lemma MTimeSerde_File_laws : serde_laws MTimeSerde_File.
Proof. solve_serde_laws. Qed.
Lemma ATimeSerde_Dir_laws : serde_laws ATimeSerde_Dir.
Proof. solve_serde_laws. Qed.
Lemma ATimeSerde_File_laws : serde_laws ATimeSerde_File.
Proof. solve_serde_laws. Qed.
Lemma DEntSerde_Dir_laws : serde_laws DEntSerde_Dir.
Proof. solve_serde_laws. Qed.
Lemma DEntSerde_HardLink_laws : serde_laws DEntSerde_HardLink.
Proof. solve_serde_laws. Qed.

(** *** Keys and values *)

Lemma Store64_length v : String.length (Store64 v) = 8%nat.
Proof. rewrite Store64_law. apply encode_be_length. Qed.

Lemma Load64_Store64 v : Load64 (Store64 v) = u64 v.
Proof.
  rewrite Load64_law by apply Store64_length.
  by rewrite Store64_law, decode_encode_be.
Qed.

Lemma Store64_compare a b :
  is_u64 a → is_u64 b → String.compare (Store64 a) (Store64 b) = (a ?= b).
Proof. intros. rewrite !Store64_law. by apply encode_be_compare. Qed.

Lemma Store64_inj a b : is_u64 a → is_u64 b → Store64 a = Store64 b → a = b.
Proof.
  intros Ha Hb E. apply Z.compare_eq. rewrite <- Store64_compare by done.
  rewrite E. apply str_compare_refl.
Qed.

Lemma SerID_inj i j : is_u64 (val i) → is_u64 (val j) → SerID i = SerID j → i = j.
Proof. destruct i, j. intros ?? E%Store64_inj; simpl in *; congruence. Qed.

Lemma DEntSerde_SerKey_inj p q n n' :
  is_u64 (val p) → is_u64 (val q) →
  DEntSerde_SerKey p n = DEntSerde_SerKey q n' → p = q ∧ n = n'.
Proof.
  intros Hp Hq E. apply str_app_inj_length in E as [E ->]; [|by rewrite !Store64_length].
  apply Store64_inj in E; [|done..]. destruct p, q. simpl in *. by subst.
Qed.

Lemma DEntSerde_SerKey_compare p q n n' :
  is_u64 (val p) → is_u64 (val q) →
  String.compare (DEntSerde_SerKey p n) (DEntSerde_SerKey q n') =
    if InodeID_eqb p q then String.compare n n' else (val p ?= val q).
Proof.
  intros Hp Hq. unfold DEntSerde_SerKey, InodeID_eqb.
  destruct (Z.eqb_spec (val p) (val q)) as [->|Hne]; [apply str_compare_app|].
  rewrite str_compare_app_ne, Store64_compare; rewrite ?Store64_length; try done.
  rewrite Store64_compare by done. by rewrite Z.compare_eq_iff.
Qed.

Lemma MTimeSerde_DeVal_SerVal {S} (t : Z) (s : S) :
  is_i64 t → MTimeSerde_DeVal (MTimeSerde_SerVal t) s = (Ret t, s).
Proof.
  intros Ht. unfold MTimeSerde_DeVal, MTimeSerde_SerVal, bind.
  rewrite Store64_length. cbn -[i64 u64 Load64].
  rewrite Load64_Store64, u64_small, i64_u64 by (done || apply u64_is_u64). done.
Qed.

Lemma ATimeSerde_DeVal_SerVal {S} (t : Z) (s : S) :
  is_i64 t → ATimeSerde_DeVal (ATimeSerde_SerVal t) s = (Ret t, s).
Proof. apply MTimeSerde_DeVal_SerVal. Qed.

(** *** Rows read back *)

Definition dir_ok (d : Dir) : Prop :=
  is_u64 (val (dir_parent_id d)) ∧ is_u64 (val (dir_id d)) ∧ is_i64 (dir_ctime_in_ns d) ∧
  is_i64 (dir_mtime_in_ns d) ∧ is_i64 (dir_atime_in_ns d) ∧ dir_name d ≠ ""%string.
Definition file_ok (f : File) : Prop :=
  is_u64 (val (file_id f)) ∧ is_i64 (file_ctime_in_ns f).
Definition hard_link_ok (h : HardLink) : Prop :=
  is_u64 (val (hl_parent_id h)) ∧ is_u64 (val (hl_id h)) ∧ hl_name h ≠ ""%string.

(** What the Inode column family keeps of a directory. *)
Definition inode_image (d : Dir) : Dir :=
  {| dir_parent_id := dir_parent_id d; dir_name := dir_name d; dir_id := dir_id d;
     dir_acl := zero_acl; dir_ctime_in_ns := dir_ctime_in_ns d;
     dir_mtime_in_ns := 0; dir_atime_in_ns := 0 |}.
(** What the DEnt column family keeps. *)
Definition dent_image (d : Dir) : Dir :=
  {| dir_parent_id := dir_parent_id d; dir_name := dir_name d; dir_id := dir_id d;
     dir_acl := zero_acl; dir_ctime_in_ns := 0; dir_mtime_in_ns := 0; dir_atime_in_ns := 0 |}.

Lemma InodeSerde_DeVal_Dir {S} (d : Dir) (s : S) :
  dir_ok d → InodeSerde_DeVal (InodeSerde_SerVal_Dir d) s = (Ret (inl (inode_image d)), s).
Proof.
  intros (?&?&?&?&?&?). unfold InodeSerde_DeVal, InodeSerde_SerVal_Dir, bind.
  rewrite VerifyInode_law. cbn [Check ret].
  rewrite RootInode_Dir by (unfold dirt_ok; simpl; auto). simpl.
  unfold inode_image. by destruct d as [[] ? [] ? ? ? ?].
Qed.

Lemma DEntSerde_DeVal_Dir {S} (d : Dir) (s : S) :
  dir_ok d → DEntSerde_DeVal (DEntSerde_SerVal_Dir d) s = (Ret (inl (dent_image d)), s).
Proof.
  intros (?&?&?&?&?&?). unfold DEntSerde_DeVal, DEntSerde_SerVal_Dir, bind.
  rewrite VerifyDEnt_law. cbn [Check ret].
  rewrite RootDEnt_Dir by (unfold dirt_ok, is_i64; simpl; auto with lia). simpl.
  unfold dent_image. by destruct d as [[] ? [] ? ? ? ?].
Qed.

Lemma DEntSerde_DeVal_HardLink {S} (h : HardLink) (s : S) :
  hard_link_ok h →
  DEntSerde_DeVal (DEntSerde_SerVal_HardLink h) s = (Ret (inr h), s).
Proof.
  intros (?&?&?). unfold DEntSerde_DeVal, DEntSerde_SerVal_HardLink, bind.
  rewrite VerifyDEnt_law. cbn [Check ret].
  rewrite RootDEnt_HardLink by (unfold hlt_ok; simpl; auto). simpl.
  by destruct h as [[] ? []].
Qed.

Lemma InodeSerde_DeVal_File {S} (f : File) (s : S) :
  file_ok f →
  InodeSerde_DeVal (InodeSerde_SerVal_File f) s
  = (Ret (inr {| file_id := file_id f; file_acl := zero_acl;
                 file_ctime_in_ns := file_ctime_in_ns f;
                 file_mtime_in_ns := 0; file_atime_in_ns := 0 |}), s).
Proof.
  intros (?&?). unfold InodeSerde_DeVal, InodeSerde_SerVal_File, bind.
  rewrite VerifyInode_law. cbn [Check ret].
  rewrite RootInode_File by (unfold filet_ok; simpl; auto). simpl.
  by destruct f as [[] ? ? ? ?].
Qed.

End serde_lemmas.

(** ** Serde::Write as an update of one row *)

(** The row [orig] is in the column family. *)
Definition holds_row {T} (s : Serde T) (cf : CFIndex) (orig : option T) (m : kvmap) : Prop :=
  ∀ o, orig = Some o → m !! (index cf, SerKey s o) = Some (SerVal s o).

(** Replace the row [orig] by the row [mod_]. *)
Definition row_update {T} (s : Serde T) (cf : CFIndex) (orig mod_ : option T) (m : kvmap) :
    kvmap :=
  let m := match orig with Some o => delete (index cf, SerKey s o) m | None => m end in
  match mod_ with Some x => <[(index cf, SerKey s x) := SerVal s x]> m | None => m end.

(** What [Write] adds to the pending writes. *)
Definition row_writes {T} (s : Serde T) (cf : CFIndex) (orig mod_ : option T) (w : writes) :
    writes :=
  let ops := GetWriteOps s orig mod_ in
  let w := match del_key ops with Some k => <[(index cf, k) := None]> w | None => w end in
  match put_kv ops with Some (k, v) => <[(index cf, k) := Some v]> w | None => w end.

Lemma Serde_Write_eval {T X} `{TxnLaws X} (s : Serde T) (cf : CFIndex) (orig mod_ : option T) (t : X) :
  valid_cf cf → txn_wf t →
  ∃ t', Serde_Write s cf orig mod_ t = (Ret tt, t') ∧
        txn_writing t (row_writes s cf orig mod_ (txn_writes t)) t'.
Proof.
  intros Hcf Hwf. unfold Serde_Write, row_writes.
  destruct (GetWriteOps s orig mod_) as [[dk|] [[pk pv]|]]; cbn [del_key put_kv].
  - destruct (Del_law cf dk t Hcf Hwf) as (t1 & E1 & Hw1). erewrite bind_Ret by done.
    assert (txn_wf t1) as Hwf1 by apply Hw1.
    destruct (Put_law cf pk pv t1 Hcf Hwf1) as (t2 & E2 & Hw2). exists t2. split; [done|].
    rewrite <- (proj1 (proj2 Hw1)). by eapply txn_writing_trans.
  - destruct (Del_law cf dk t Hcf Hwf) as (t1 & E1 & Hw1). erewrite bind_Ret by done. by exists t1.
  - erewrite bind_Ret by reflexivity. by apply Put_law.
  - exists t. split; [done|]. by apply txn_frame_refl.
Qed.

Lemma row_writes_update {T} (s : Serde T) (cf : CFIndex) (orig mod_ : option T) (w : writes) (m : kvmap) :
  serde_laws s → holds_row s cf orig (apply_writes w m) →
  apply_writes (row_writes s cf orig mod_ w) m = row_update s cf orig mod_ (apply_writes w m).
Proof.
  intros Hs Hrow. unfold row_writes, row_update, GetWriteOps.
  destruct mod_ as [x|], orig as [o|]; cbn [del_key put_kv];
    rewrite ?apply_writes_insert_Some, ?apply_writes_insert_None; try done.
  destruct (IsKeyChanged s o x) eqn:Ek; cbn [orb].
  - by rewrite apply_writes_insert_Some, apply_writes_insert_None.
  - destruct (Hs o x Ek) as [Hk Hv]. rewrite Hk.
    destruct (IsValueChanged s o x) eqn:Ev.
    + by rewrite apply_writes_insert_Some, insert_delete_eq.
    + rewrite insert_delete_eq, insert_id; [done|].
      rewrite <- Hk, <- Hv by done. by apply Hrow.
Qed.

(** ** Properties *)

(** C19: for every one of the eight serialisers, [Serde::Write]
    on a transaction whose contents hold the original row leaves pending writes
    under which the contents have that row replaced by the modified one: deleted,
    inserted, moved to its new key or rewritten in place, the writes it skips for
    unchanged rows included. *)
Theorem serde_write_updates_row {T X} `{TxnLaws X} (s : Serde T) (cf : CFIndex)
    (orig mod_ : option T) (t : X)
    (Hs : serde_laws s) (Hcf : valid_cf cf) (Hwf : txn_wf t)
    (Hrow : holds_row s cf orig (apply_writes (txn_writes t) (txn_snapshot t))) :
  ∃ t', Serde_Write s cf orig mod_ t = (Ret tt, t') ∧
    txn_snapshot t' = txn_snapshot t ∧
    apply_writes (txn_writes t') (txn_snapshot t') =
      row_update s cf orig mod_ (apply_writes (txn_writes t) (txn_snapshot t)).
Proof.
  destruct (Serde_Write_eval s cf orig mod_ t Hcf Hwf) as (t' & E & Hsn & Hw & _).
  exists t'. split; [done|]. split; [done|]. rewrite Hsn, Hw. by apply row_writes_update.
Qed.

(** C20: the DEnt keys of 64-bit parents are ordered by parent, then
    bytewise by name, and distinct entries have distinct keys: one directory's
    entries are contiguous and sorted by name. *)
Theorem dent_keys_ordered `{BigEndianLaws} (p q : InodeID) (n n' : string)
    (Hp : is_u64 (val p)) (Hq : is_u64 (val q)) :
  (str_ltb (DEntSerde_SerKey p n) (DEntSerde_SerKey q n') = true ↔
     val p < val q ∨ p = q ∧ str_ltb n n' = true) ∧
  (DEntSerde_SerKey p n = DEntSerde_SerKey q n' → p = q ∧ n = n').
Proof.
  split; [|by apply DEntSerde_SerKey_inj].
  unfold str_ltb. rewrite DEntSerde_SerKey_compare by done.
  unfold InodeID_eqb. destruct p as [p], q as [q]. cbn [val] in *.
  destruct (Z.eqb_spec p q) as [->|Hne].
  - split; [auto|]. by intros [?|[_ ?]]; [lia|].
  - assert (Hc : (p ?= q) = Lt ↔ p < q) by apply Z.compare_lt_iff.
    destruct (p ?= q); split; try done; intros; try (left; by apply Hc); naive_solver.
Qed.

(** Inode keys decode to the ID they encode, and the two time
    values decode to the signed 64-bit number they encode; nothing throws. *)
Theorem fixed_width_roundtrip `{BigEndianLaws} {S} (id : InodeID) (mtime atime : Z) (s : S)
    (Hid : is_u64 (val id)) (Hm : is_i64 mtime) (Ha : is_i64 atime) :
  InodeSerde_DeKey (InodeSerde_SerKey id) s = (Ret id, s) ∧
  MTimeSerde_DeVal (MTimeSerde_SerVal mtime) s = (Ret mtime, s) ∧
  ATimeSerde_DeVal (ATimeSerde_SerVal atime) s = (Ret atime, s).
Proof.
  split; [|split; [by apply MTimeSerde_DeVal_SerVal | by apply ATimeSerde_DeVal_SerVal]].
  unfold InodeSerde_DeKey, InodeSerde_SerKey, SerID, bind.
  rewrite Store64_length. cbn -[Load64]. rewrite Load64_Store64, u64_small by done.
  by destruct id.
Qed.

(** C36: reading back what was serialised, the Inode column
    family returns a directory without its [acl] and its two other times, the
    DEnt column family without its [ctime_in_ns] too, a file without its [acl];
    only a hard link comes back whole. *)
Theorem stored_rows_lose_fields `{BigEndianLaws, FlatBuffersLaws} {S}
    (d : Dir) (f : File) (h : HardLink) (s : S)
    (Hd : dir_ok d) (Hf : file_ok f) (Hh : hard_link_ok h) :
  InodeSerde_DeVal (InodeSerde_SerVal_Dir d) s = (Ret (inl (inode_image d)), s) ∧
  DEntSerde_DeVal (DEntSerde_SerVal_Dir d) s = (Ret (inl (dent_image d)), s) ∧
  InodeSerde_DeVal (InodeSerde_SerVal_File f) s
    = (Ret (inr {| file_id := file_id f; file_acl := zero_acl;
                   file_ctime_in_ns := file_ctime_in_ns f;
                   file_mtime_in_ns := 0; file_atime_in_ns := 0 |}), s) ∧
  DEntSerde_DeVal (DEntSerde_SerVal_HardLink h) s = (Ret (inr h), s).
Proof.
  split_and!; [by apply InodeSerde_DeVal_Dir | by apply DEntSerde_DeVal_Dir
    | by apply InodeSerde_DeVal_File | by apply DEntSerde_DeVal_HardLink].
Qed.

(** [DEntSerde::DeKey] decodes the key of an entry only
    when its name is empty; the key of any named entry fails its size check. *)
Theorem dent_dekey_rejects_names `{BigEndianLaws} {S} (p : InodeID) (n : string) (s : S)
    (Hp : is_u64 (val p)) :
  DEntSerde_DeKey (DEntSerde_SerKey p n) s =
    (if str_empty n then Ret (p, ""%string)
     else Throw "Check failed: (key.size()) == (sizeof(InodeID)).", s).
Proof.
  unfold DEntSerde_DeKey, DEntSerde_SerKey, bind, Check.
  rewrite str_app_length, Store64_length. destruct n as [|c n]; cbn [str_empty].
  - rewrite string_app_nil_r, Nat.add_0_r. cbn [Z.eqb]. change (Z.of_nat 8 =? 8) with true.
    cbn iota. unfold ret. rewrite Store64_law. cbn -[Load64 ascii_of_Z Z.shiftr].
    assert (Load64 (encode_be 8 (val p)) = val p) as E.
    { rewrite <- Store64_law, Load64_Store64. by apply u64_small. }
    cbn -[Load64 ascii_of_Z Z.shiftr] in E. rewrite E. by destruct p.
  - destruct (Z.eqb_spec (Z.of_nat (8 + String.length (String c n))) 8) as [E|]; [|done].
    cbn [String.length] in E. lia.
Qed.

(** ** Witnesses *)

Section demo.
#[local] Existing Instances MemDB MemDBSpec MemDBLaws demo_fmt demo_build demo_be demo_fb
  demo_be_laws demo_fb_laws.

Definition demo_acl : Acl := {| uid := 7; gid := 8; perm := 493 |}.
Definition demo_dir (name : string) : Dir :=
  {| dir_parent_id := kRootInodeID; dir_name := name; dir_id := {| val := 5 |};
     dir_acl := demo_acl; dir_ctime_in_ns := 10; dir_mtime_in_ns := 11;
     dir_atime_in_ns := 12 |}.

(** A transaction of the in-memory store over the contents [m]. *)
Definition demo_txn_over (m : kvmap) : RocksDBTxn :=
  {| cf_handles_ := snd <$> cf_names; snapshot_ := m; start_version_ := 1;
     commit_version_ := -1; read_set_ := ∅; write_set_ := ∅ |}.

Lemma demo_dir_ok name : name ≠ ""%string → dir_ok (demo_dir name).
Proof. intros. unfold dir_ok, is_u64, is_i64. simpl. split_and!; first [done | lia]. Qed.

(** Renaming a directory moves its entry. *)
Lemma serde_write_updates_row_witness :
  ∃ t', Serde_Write DEntSerde_Dir kDEntCFIndex (Some (demo_dir "a")) (Some (demo_dir "b"))
          (demo_txn_over {[ (4, DEntSerde_SerKey kRootInodeID "a")
                            := DEntSerde_SerVal_Dir (demo_dir "a") ]}) = (Ret tt, t') ∧
    apply_writes (txn_writes t') (txn_snapshot t') !! (4, DEntSerde_SerKey kRootInodeID "a")
      = None ∧
    apply_writes (txn_writes t') (txn_snapshot t') !! (4, DEntSerde_SerKey kRootInodeID "b")
      = Some (DEntSerde_SerVal_Dir (demo_dir "b")).
Proof.
  destruct (serde_write_updates_row DEntSerde_Dir kDEntCFIndex (Some (demo_dir "a"))
    (Some (demo_dir "b")) (demo_txn_over {[ (4, DEntSerde_SerKey kRootInodeID "a")
                            := DEntSerde_SerVal_Dir (demo_dir "a") ]})
    DEntSerde_Dir_laws ltac:(vm_compute; done) eq_refl) as (t' & E & _ & Hc).
  { intros o [= <-]. vm_compute. reflexivity. }
  exists t'. split; [exact E|]. rewrite Hc. split; vm_compute; reflexivity.
Defined.

Lemma dent_keys_ordered_witness :
  str_ltb (DEntSerde_SerKey {| val := 2 |} "z") (DEntSerde_SerKey {| val := 256 |} "a") = true.
Proof.
  apply (dent_keys_ordered {| val := 2 |} {| val := 256 |} "z" "a");
    [vm_compute; done | vm_compute; done | left; vm_compute; done].
Defined.

Lemma fixed_width_roundtrip_witness :
  MTimeSerde_DeVal (MTimeSerde_SerVal (-3)) tt = (Ret (-3), tt).
Proof.
  apply (fixed_width_roundtrip (S := unit) kRootInodeID (-3) 0 tt); vm_compute; done.
Defined.

Lemma stored_rows_lose_fields_witness :
  InodeSerde_DeVal (InodeSerde_SerVal_Dir (demo_dir "a")) tt
    = (Ret (inl (inode_image (demo_dir "a"))), tt) ∧
  dir_acl (inode_image (demo_dir "a")) ≠ dir_acl (demo_dir "a").
Proof.
  split; [|discriminate].
  apply (stored_rows_lose_fields (S := unit) (demo_dir "a")
    {| file_id := {| val := 3 |}; file_acl := demo_acl; file_ctime_in_ns := 1;
       file_mtime_in_ns := 2; file_atime_in_ns := 3 |}
    {| hl_parent_id := kRootInodeID; hl_name := "l"; hl_id := {| val := 3 |} |} tt).
  - by apply demo_dir_ok.
  - split; vm_compute; done.
  - split_and!; vm_compute; done.
Defined.

Lemma dent_dekey_rejects_names_witness :
  DEntSerde_DeKey (DEntSerde_SerKey kRootInodeID "a") tt
  = (Throw "Check failed: (key.size()) == (sizeof(InodeID)).", tt).
Proof. apply (dent_dekey_rejects_names (S := unit) kRootInodeID "a" tt). vm_compute. done. Defined.
End demo.
