(* ===== verification/Tables.v ===== *)
(** The directory table and the directory-entry view: src/namenode/table/
    dir_table_base.h, dent_view_base.h (the interfaces), kv/kv_dir_table.h and .cc,
    kv/kv_dent_view.h and .cc.

    [FS] is the abstract content of the namespace: inodes by ID and entries by
    parent and name.  [DirTableLaws] and [DEntViewLaws] state what the two
    tables promise to the request handlers in terms of it; [fs_rep] ties it to
    the key-value pairs, and the key-value tables are proved to keep the promises
    over any transaction that satisfies [TxnLaws]. *)

From Stdlib Require Import ZArith Lia Ascii String.
From stdpp Require Import prelude strings gmap sorting.
From S2P Require Import Prelude Common Types KVStoreBase RocksDB Conflict Serde.

#[local] Open Scope Z_scope.

(** ** The interfaces *)

Class DirTableBase (T : Type) := {
  DirTable_Read : InodeID → M T (expected (option Dir));
  DirTable_ReadByName : InodeID → string → M T (expected (option Dir));
  DirTable_Write : option Dir → option Dir → M T unit;
}.

(** The tables of files and of hard links: nothing implements or calls them. *)
Class FileTableBase (T : Type) := {
  FileTable_Read : InodeID → M T (expected (option File));
  FileTable_Write : option File → option File → M T unit;
}.
Class HardLinkTableBase (T : Type) := {
  HardLinkTable_Read : InodeID → string → M T (expected (option HardLink));
  HardLinkTable_Write : option HardLink → option HardLink → M T unit;
}.

(** [std::variant<std::monostate, Dir, HardLink>]. *)
Inductive dent_variant :=
| DEntMonostate
| DEntDir (d : Dir)
| DEntHardLink (h : HardLink).

Class DEntViewBase (T : Type) := {
  DEntView_Read : InodeID → string → M T (expected dent_variant);
  DEntView_List : InodeID → string → nat → M T (expected (list (Dir + HardLink)));
}.

(** ** KVDirTable and KVDEntView *)

(** [operator==] on [std::optional<Dir>]: [Dir] has no [operator==] of its own,
    so [*lhs == *rhs] converts both sides back and calls the operator itself;
    [None] is running out of fuel. *)
Definition has_value {A} (o : option A) : bool :=
  match o with Some _ => true | None => false end.

Fixpoint operator_eq_opt_Dir (fuel : nat) (lhs rhs : option Dir) : option bool :=
  match fuel with
  | O => None
  | S fuel =>
      if xorb (has_value lhs) (has_value rhs) then Some false
      else match lhs, rhs with
           | Some l, Some r => operator_eq_opt_Dir fuel (Some l) (Some r)
           | _, _ => Some true
           end
  end.

Section kv_tables.
Context {T : Type} `{TxnBase T, BigEndian, FlatBuffers, Fmt, Build}.

(** The root directory is not stored until something is written to its row. *)
Definition root_dir : Dir :=
  {| dir_parent_id := kRootInodeID; dir_name := ""; dir_id := kRootInodeID;
     dir_acl := {| uid := 0; gid := 0; perm := ALLPERMS |};
     dir_ctime_in_ns := 0; dir_mtime_in_ns := 0; dir_atime_in_ns := 0 |}.

Definition set_dir_mtime (t : Z) (d : Dir) : Dir :=
  {| dir_parent_id := dir_parent_id d; dir_name := dir_name d; dir_id := dir_id d;
     dir_acl := dir_acl d; dir_ctime_in_ns := dir_ctime_in_ns d;
     dir_mtime_in_ns := t; dir_atime_in_ns := dir_atime_in_ns d |}.
Definition set_dir_atime (t : Z) (d : Dir) : Dir :=
  {| dir_parent_id := dir_parent_id d; dir_name := dir_name d; dir_id := dir_id d;
     dir_acl := dir_acl d; dir_ctime_in_ns := dir_ctime_in_ns d;
     dir_mtime_in_ns := dir_mtime_in_ns d; dir_atime_in_ns := t |}.

Definition kv_dir_table_cc : string := "src/namenode/table/kv/kv_dir_table.cc".

Definition KVDirTable_Read (id : InodeID) : M T (expected (option Dir)) :=
  let! inode_str := Get kInodeCFIndex (InodeSerde_SerKey id) false in
  match inode_str with
  | Unexp error =>
      let! e := SystemError (location_at kv_dir_table_cc 51)
        ("Failed to retrieve inode for inode " +:+ fmt_int (val id) +:+ ".") (Some error) in
      ret (Unexp e)
  | Val None =>
      if InodeID_eqb id kRootInodeID then ret (Val (Some root_dir)) else ret (Val None)
  | Val (Some inode_str) =>
      let! inode := InodeSerde_DeVal inode_str in
      match inode with
      | inr _ => ret (Val None)
      | inl dir =>
          let! mtime_str := Get kMTimeCFIndex (MTimeSerde_SerKey id) false in
          match mtime_str with
          | Unexp error =>
              let! e := SystemError (location_at kv_dir_table_cc 77)
                ("Failed to retrieve mtime for inode " +:+ fmt_int (val id) +:+ ".")
                (Some error) in
              ret (Unexp e)
          | Val None => throw "Check failed: (*mtime_str) != std::nullopt."
          | Val (Some mtime_str) =>
              let! mtime := MTimeSerde_DeVal mtime_str in
              let dir := set_dir_mtime mtime dir in
              let! atime_str := Get kATimeCFIndex (ATimeSerde_SerKey id) false in
              match atime_str with
              | Unexp error =>
                  let! e := SystemError (location_at kv_dir_table_cc 87)
                    ("Failed to retrieve atime for inode " +:+ fmt_int (val id) +:+ ".")
                    (Some error) in
                  ret (Unexp e)
              | Val None => throw "Check failed: (*atime_str) != std::nullopt."
              | Val (Some atime_str) =>
                  let! atime := ATimeSerde_DeVal atime_str in
                  ret (Val (Some (set_dir_atime atime dir)))
              end
          end
      end
  end%string.

Definition KVDirTable_ReadByName (parent_id : InodeID) (name : string) :
    M T (expected (option Dir)) :=
  let! dent_str := Get kDEntCFIndex (DEntSerde_SerKey parent_id name) false in
  match dent_str with
  | Unexp error =>
      let! e := SystemError (location_at kv_dir_table_cc 101)
        ("Failed to retrieve dir entry for parent inode " +:+ fmt_int (val parent_id)
         +:+ " and name " +:+ name +:+ ".") (Some error) in
      ret (Unexp e)
  | Val None => ret (Val None)
  | Val (Some dent_str) =>
      let! dent := DEntSerde_DeVal dent_str in
      match dent with
      | inl dir => ret (Val (Some dir))
      | inr _ => ret (Val None)
      end
  end%string.

Definition KVDirTable_Write (orig mod_ : option Dir) : M T unit :=
  do! Serde_Write InodeSerde_Dir kInodeCFIndex orig mod_ in
  do! Serde_Write MTimeSerde_Dir kMTimeCFIndex orig mod_ in
  do! Serde_Write ATimeSerde_Dir kATimeCFIndex orig mod_ in
  Serde_Write DEntSerde_Dir kDEntCFIndex orig mod_.

Definition KVDirTable : DirTableBase T := {|
  DirTable_Read := KVDirTable_Read;
  DirTable_ReadByName := KVDirTable_ReadByName;
  DirTable_Write := KVDirTable_Write;
|}.

Definition kv_dent_view_cc : string := "src/namenode/table/kv/kv_dent_view.cc".

Definition KVDEntView_Read (parent_id : InodeID) (name : string) :
    M T (expected dent_variant) :=
  let! dent_str := Get kDEntCFIndex (DEntSerde_SerKey parent_id name) false in
  match dent_str with
  | Unexp error =>
      let! e := SystemError (location_at kv_dent_view_cc 36)
        ("Failed to retrieve dir entry for parent inode " +:+ fmt_int (val parent_id)
         +:+ " and name " +:+ name +:+ ".") (Some error) in
      ret (Unexp e)
  | Val None => ret (Val DEntMonostate)
  | Val (Some dent_str) =>
      let! dent := DEntSerde_DeVal dent_str in
      ret (Val (match dent with inl dir => DEntDir dir | inr h => DEntHardLink h end))
  end%string.

(** The loop that decodes the values of the range. *)
Fixpoint DeValAll (dent_strs : list string) : M T (list (Dir + HardLink)) :=
  match dent_strs with
  | [] => ret []
  | dent_str :: dent_strs =>
      let! dent := DEntSerde_DeVal dent_str in
      let! dents := DeValAll dent_strs in
      ret (dent :: dents)
  end.

(** "\xFF": one byte. *)
Definition xFF : string := String (ascii_of_Z 255) "".

Definition KVDEntView_List (parent_id : InodeID) (start_after : string) (limit : nat) :
    M T (expected (list (Dir + HardLink))) :=
  let! dent_strs := GetRange kDEntCFIndex (DEntSerde_SerKey parent_id start_after)
                      (DEntSerde_SerKey parent_id xFF) limit false in
  match dent_strs with
  | Unexp error =>
      let! e := SystemError (location_at kv_dent_view_cc 65)
        ("Failed to retrieve dir entries for parent inode " +:+ fmt_int (val parent_id)
         +:+ " and start after " +:+ start_after +:+ ".") (Some error) in
      ret (Unexp e)
  | Val dent_strs =>
      let! dents := DeValAll dent_strs in
      ret (Val dents)
  end%string.

Definition KVDEntView : DEntViewBase T := {|
  DEntView_Read := KVDEntView_Read;
  DEntView_List := KVDEntView_List;
|}.

End kv_tables.
#[global] Existing Instance KVDirTable.
#[global] Existing Instance KVDEntView.

(** ** The abstract namespace *)

Record FS := {
  fs_inodes : gmap Z (Dir + File);
  fs_dents : gmap (Z * string) (Dir + HardLink);
}.

(** Reading a directory gives the row without its ACL; the root has a default. *)
Definition dir_seen (d : Dir) : Dir :=
  {| dir_parent_id := dir_parent_id d; dir_name := dir_name d; dir_id := dir_id d;
     dir_acl := zero_acl; dir_ctime_in_ns := dir_ctime_in_ns d;
     dir_mtime_in_ns := dir_mtime_in_ns d; dir_atime_in_ns := dir_atime_in_ns d |}.
Definition fs_dir (fs : FS) (id : InodeID) : option Dir :=
  match fs_inodes fs !! val id with
  | Some (inl d) => Some (dir_seen d)
  | Some (inr _) => None
  | None => if InodeID_eqb id kRootInodeID then Some root_dir else None
  end.

(** Reading an entry gives its key and its inode's ID. *)
Definition dent_seen (e : Dir + HardLink) : Dir + HardLink :=
  match e with inl d => inl (dent_image d) | inr h => inr h end.
Definition fs_dent (fs : FS) (parent_id : InodeID) (name : string) : option (Dir + HardLink) :=
  dent_seen <$> fs_dents fs !! (val parent_id, name).

(** The entries of a directory from [start] on, in name order. *)
Definition fs_list (fs : FS) (parent_id : InodeID) (start : string) (limit : nat) :
    list (Dir + HardLink) :=
  dent_seen <$> range_values (fs_dents fs) (val parent_id) start xFF limit.

Definition fs_remove (d : Dir) (fs : FS) : FS :=
  {| fs_inodes := delete (val (dir_id d)) (fs_inodes fs);
     fs_dents := delete (val (dir_parent_id d), dir_name d) (fs_dents fs) |}.
Definition fs_insert (d : Dir) (fs : FS) : FS :=
  {| fs_inodes := <[val (dir_id d) := inl d]> (fs_inodes fs);
     fs_dents := <[(val (dir_parent_id d), dir_name d) := inl d]> (fs_dents fs) |}.
Definition fs_update (orig mod_ : option Dir) (fs : FS) : FS :=
  let fs := match orig with Some o => fs_remove o fs | None => fs end in
  match mod_ with Some d => fs_insert d fs | None => fs end.

(** The directory [orig] is there, as an inode and as an entry. *)
Definition fs_holds (orig : option Dir) (fs : FS) : Prop :=
  ∀ o, orig = Some o →
    fs_inodes fs !! val (dir_id o) = Some (inl o) ∧
    fs_dents fs !! (val (dir_parent_id o), dir_name o) = Some (inl o).

(** ** What the tables promise *)

Class FSRep := fs_rep : kvmap → FS → Prop.

Class DirTableLaws (T : Type) `{DirTableBase T, TxnSpec T, FSRep} : Prop := {
  DirTable_parent_law m fs id d :
    fs_rep m fs → is_u64 (val id) → fs_dir fs id = Some d → is_u64 (val (dir_parent_id d));
  DirTable_Read_law id (t : T) fs :
    is_u64 (val id) → txn_wf t → fs_rep (txn_snapshot t) fs →
    reads (DirTable_Read id) t (fs_dir fs id);
  DirTable_ReadByName_law parent_id name (t : T) fs :
    is_u64 (val parent_id) → txn_wf t → fs_rep (txn_snapshot t) fs →
    reads (DirTable_ReadByName parent_id name) t
      (match fs_dent fs parent_id name with Some (inl d) => Some d | _ => None end);
  (* whatever the other contents are, the pending writes of the table turn a
     namespace that holds the original row into the updated one *)
  DirTable_Write_law orig mod_ (t : T) :
    txn_wf t → (∀ d, mod_ = Some d → dir_ok d) →
    ∃ t', DirTable_Write orig mod_ t = (Ret tt, t') ∧
      txn_writing t (txn_writes t') t' ∧
      ∀ m fs, fs_rep (apply_writes (txn_writes t) m) fs → fs_holds orig fs →
              fs_rep (apply_writes (txn_writes t') m) (fs_update orig mod_ fs);
}.

Class DEntViewLaws (T : Type) `{DEntViewBase T, TxnSpec T, FSRep} : Prop := {
  DEntView_Read_law parent_id name (t : T) fs :
    is_u64 (val parent_id) → txn_wf t → fs_rep (txn_snapshot t) fs →
    reads (DEntView_Read parent_id name) t
      (match fs_dent fs parent_id name with
       | Some (inl d) => DEntDir d
       | Some (inr h) => DEntHardLink h
       | None => DEntMonostate
       end);
  DEntView_List_law parent_id start limit (t : T) fs :
    is_u64 (val parent_id) → txn_wf t → fs_rep (txn_snapshot t) fs →
    reads (DEntView_List parent_id start limit) t (fs_list fs parent_id start limit);
}.

(** ** The representation of the namespace by key-value pairs *)

Section representation.
Context `{BigEndian, FlatBuffers}.

Definition dent_ok (e : Dir + HardLink) : Prop :=
  match e with inl d => dir_ok d | inr h => hard_link_ok h end.
Definition dent_key (e : Dir + HardLink) : Z * string :=
  match e with
  | inl d => (val (dir_parent_id d), dir_name d)
  | inr h => (val (hl_parent_id h), hl_name h)
  end.
Definition dent_val (e : Dir + HardLink) : string :=
  match e with inl d => DEntSerde_SerVal_Dir d | inr h => DEntSerde_SerVal_HardLink h end.

Definition inode_rep (m : kvmap) (id : Z) (i : option (Dir + File)) : Prop :=
  match i with
  | None => m !! (1, Store64 id) = None
  | Some (inl d) =>
      dir_ok d ∧ val (dir_id d) = id ∧
      m !! (1, Store64 id) = Some (InodeSerde_SerVal_Dir d) ∧
      m !! (2, Store64 id) = Some (MTimeSerde_SerVal_Dir d) ∧
      m !! (3, Store64 id) = Some (ATimeSerde_SerVal_Dir d)
  | Some (inr f) =>
      file_ok f ∧ val (file_id f) = id ∧ m !! (1, Store64 id) = Some (InodeSerde_SerVal_File f)
  end.

Definition inode_id (i : Dir + File) : InodeID :=
  match i with inl d => dir_id d | inr f => file_id f end.

(** A row decodes under its column family: inodes under their own ID, times as eight
    bytes, entries under their own parent and name. *)
Definition row_typed (cf : Z) (k v : string) : Prop :=
  match cf with
  | 1 => ∃ id, InodeSerde_DeKey k tt = (Ret id, tt) ∧
           ∃ i, InodeSerde_DeVal v tt = (Ret i, tt) ∧ inode_id i = id
  | 2 | 3 => ∃ id, InodeSerde_DeKey k tt = (Ret id, tt) ∧
           ∃ t, MTimeSerde_DeVal v tt = (Ret t, tt)
  | 4 => ∃ p n e, k = DEntSerde_SerKey p n ∧ DEntSerde_DeVal v tt = (Ret e, tt) ∧
           dent_key e = (val p, n)
  | _ => True
  end.

Record kv_rep (m : kvmap) (fs : FS) : Prop := {
  rep_inode id : is_u64 id → inode_rep m id (fs_inodes fs !! id);
  rep_dent p n : is_u64 p →
    m !! (4, DEntSerde_SerKey {| val := p |} n) = dent_val <$> fs_dents fs !! (p, n);
  rep_dent_ok k e : fs_dents fs !! k = Some e → dent_ok e ∧ dent_key e = k;
  rep_dent_key k v : m !! (4, k) = Some v →
    ∃ p n, is_u64 p ∧ k = DEntSerde_SerKey {| val := p |} n;
  rep_row cf k v : 1 ≤ cf ≤ 3 → m !! (cf, k) = Some v →
    ∃ id, is_u64 id ∧ k = Store64 id ∧ (cf = 1 ∨ String.length v = 8%nat);
}.

#[global] Instance KVRep : FSRep := kv_rep.

(** An empty store is an empty namespace. *)
Definition fs_empty : FS := {| fs_inodes := ∅; fs_dents := ∅ |}.

End representation.

(** ** Lemmas *)

Section kv_tables_lemmas.
Context {T : Type} `{TxnLaws T, BigEndianLaws, FlatBuffersLaws, Fmt, Build}.

Lemma valid_cfs : valid_cf kInodeCFIndex ∧ valid_cf kMTimeCFIndex ∧ valid_cf kATimeCFIndex ∧
  valid_cf kDEntCFIndex.
Proof. unfold valid_cf. simpl. lia. Qed.

(** The error branch every read of the tables has. *)
Lemma wrap_error {A} loc msg (error : Status) (t : T) :
  msg_wf msg → status_wf error →
  ∃ st, bind (SystemError loc msg (Some error)) (λ e, ret (Unexp e)) t
        = (Ret (Unexp st : expected A), t) ∧ status_wf st.
Proof.
  intros Hm He. destruct (Status_make_bind kSystemError msg (Some error) loc
    (λ e, ret (Unexp e : expected A)) t Hm) as (st & E & _ & Hst); [by intros e [= <-]|].
  by exists st.
Qed.

Lemma dent_decode {S} (e : Dir + HardLink) (t : S) :
  dent_ok e → DEntSerde_DeVal (dent_val e) t = (Ret (dent_seen e), t).
Proof.
  destruct e; simpl; intros; [by apply DEntSerde_DeVal_Dir | by apply DEntSerde_DeVal_HardLink].
Qed.

Lemma rep_dent_lookup m fs p n :
  kv_rep m fs → is_u64 (val p) →
  m !! (index kDEntCFIndex, DEntSerde_SerKey p n) = dent_val <$> fs_dents fs !! (val p, n).
Proof. intros Hrep Hp. destruct p as [p]. by apply (rep_dent m fs Hrep). Qed.

Lemma KVDirTable_Read_reads id (t : T) fs :
  is_u64 (val id) → txn_wf t → kv_rep (txn_snapshot t) fs →
  reads (KVDirTable_Read id) t (fs_dir fs id).
Proof.
  intros Hid Hwf Hrep. destruct valid_cfs as (Hc1 & Hc2 & Hc3 & _).
  pose proof (rep_inode _ _ Hrep (val id) Hid) as Hi. unfold KVDirTable_Read, fs_dir.
  change (InodeSerde_SerKey id) with (Store64 (val id)).
  change (MTimeSerde_SerKey id) with (Store64 (val id)).
  change (ATimeSerde_SerKey id) with (Store64 (val id)).
  eapply reads_bind; [by apply Get_law | intros e t1 He; apply wrap_error; [solve_msg_wf|done] |].
  intros t1 (Hs1 & _ & _ & _ & Hwf1). cbn [index kInodeCFIndex].
  destruct (fs_inodes fs !! val id) as [[d|f]|]; cbn [inode_rep] in Hi.
  - destruct Hi as (Hok & _ & -> & Hm & Ha). cbn match.
    eapply reads_bind_Ret; [by apply InodeSerde_DeVal_Dir|]. cbn match.
    eapply reads_bind; [by apply Get_law | intros e t2 He; apply wrap_error; [solve_msg_wf|done] |].
    intros t2 (Hs2 & _ & _ & _ & Hwf2). cbn [index kMTimeCFIndex]. rewrite Hs1.
    rewrite Hm. cbn match.
    eapply reads_bind_Ret; [apply MTimeSerde_DeVal_SerVal; apply Hok|]. cbv beta.
    eapply reads_bind; [by apply Get_law | intros e t3 He; apply wrap_error; [solve_msg_wf|done] |].
    intros t3 (Hs3 & _ & _ & _ & Hwf3). cbn [index kATimeCFIndex]. rewrite Hs2, Hs1.
    rewrite Ha. cbn match.
    eapply reads_bind_Ret; [apply ATimeSerde_DeVal_SerVal; apply Hok|]. cbv beta.
    by apply reads_Ret.
  - destruct Hi as (Hok & _ & ->). cbn match.
    eapply reads_bind_Ret; [by apply InodeSerde_DeVal_File|]. cbn match. by apply reads_Ret.
  - rewrite Hi. cbn match. destruct (InodeID_eqb id kRootInodeID); by apply reads_Ret.
Qed.

Lemma KVDirTable_ReadByName_reads p n (t : T) fs :
  is_u64 (val p) → txn_wf t → kv_rep (txn_snapshot t) fs →
  reads (KVDirTable_ReadByName p n) t
    (match fs_dent fs p n with Some (inl d) => Some d | _ => None end).
Proof.
  intros Hp Hwf Hrep. destruct valid_cfs as (_ & _ & _ & Hc). unfold KVDirTable_ReadByName, fs_dent.
  eapply reads_bind; [by apply Get_law | intros e t1 He; apply wrap_error; [solve_msg_wf|done] |].
  intros t1 (_ & _ & _ & _ & Hwf1). rewrite (rep_dent_lookup _ fs) by done.
  destruct (fs_dents fs !! (val p, n)) as [e|] eqn:E; cbn; [|by apply reads_Ret].
  eapply reads_bind_Ret; [by apply dent_decode, (rep_dent_ok _ _ Hrep _ _ E)|].
  destruct e; by apply reads_Ret.
Qed.

Lemma KVDEntView_Read_reads p n (t : T) fs :
  is_u64 (val p) → txn_wf t → kv_rep (txn_snapshot t) fs →
  reads (KVDEntView_Read p n) t
    (match fs_dent fs p n with
     | Some (inl d) => DEntDir d
     | Some (inr h) => DEntHardLink h
     | None => DEntMonostate
     end).
Proof.
  intros Hp Hwf Hrep. destruct valid_cfs as (_ & _ & _ & Hc). unfold KVDEntView_Read, fs_dent.
  eapply reads_bind; [by apply Get_law | intros e t1 He; apply wrap_error; [solve_msg_wf|done] |].
  intros t1 (_ & _ & _ & _ & Hwf1). rewrite (rep_dent_lookup _ fs) by done.
  destruct (fs_dents fs !! (val p, n)) as [e|] eqn:E; cbn; [|by apply reads_Ret].
  eapply reads_bind_Ret; [by apply dent_decode, (rep_dent_ok _ _ Hrep _ _ E)|].
  destruct e; by apply reads_Ret.
Qed.

(** Keys of one directory compare as its names do. *)
Lemma SerKey_leb_same p n n' :
  is_u64 (val p) → str_leb (DEntSerde_SerKey p n) (DEntSerde_SerKey p n') = str_leb n n'.
Proof.
  intros. unfold str_leb. rewrite DEntSerde_SerKey_compare by done.
  unfold InodeID_eqb. by rewrite Z.eqb_refl.
Qed.
Lemma SerKey_ltb_same p n n' :
  is_u64 (val p) → str_ltb (DEntSerde_SerKey p n) (DEntSerde_SerKey p n') = str_ltb n n'.
Proof.
  intros. unfold str_ltb. rewrite DEntSerde_SerKey_compare by done.
  unfold InodeID_eqb. by rewrite Z.eqb_refl.
Qed.

(** A key between two keys of a directory is a key of that directory. *)
Lemma in_range_SerKey {A} p q lo hi n (v : A) :
  is_u64 (val p) → is_u64 (val q) →
  in_range (DEntSerde_SerKey p lo) (DEntSerde_SerKey p hi) (DEntSerde_SerKey q n, v) ↔
  q = p ∧ in_range lo hi (n, v).
Proof.
  intros Hp Hq. unfold in_range, str_le. cbn [fst]. split.
  - intros [Hlo Hhi]. assert (q = p) as ->.
    { unfold str_leb, str_ltb in *. rewrite DEntSerde_SerKey_compare in Hlo, Hhi by done.
      unfold InodeID_eqb in *. destruct p as [p], q as [q]. cbn [val] in *. f_equal.
      destruct (Z.eqb_spec p q), (Z.eqb_spec q p); try congruence.
      destruct (Z.compare_spec p q), (Z.compare_spec q p); try done; lia. }
    rewrite SerKey_leb_same in Hlo by done. by rewrite SerKey_ltb_same in Hhi by done.
  - intros [-> ?]. by rewrite SerKey_leb_same, SerKey_ltb_same.
Qed.

Lemma StronglySorted_fmap_lt {A B} (f : string * A → string * B) (l : list (string * A)) :
  (∀ x y, key_lt x y → key_lt (f x) (f y)) → StronglySorted key_lt l →
  StronglySorted key_lt (f <$> l).
Proof.
  intros Hf. induction 1 as [|x l Hs IH Hx]; cbn; constructor; [done|].
  rewrite Forall_fmap. eapply Forall_impl; [exact Hx|]. intros y. apply Hf.
Qed.

Lemma filter_entries_sorted {A} (m : gmap (Z * string) A) cf lo hi :
  StronglySorted key_lt (filter (in_range lo hi) (cf_entries m cf)).
Proof.
  apply StronglySorted_filter, StronglySorted_key_lt; [apply cf_entries_sorted | apply cf_entries_NoDup].
Qed.

(** The range of a directory's keys holds its entries, in name order. *)
Lemma range_values_dents m fs p lo hi limit :
  kv_rep m fs → is_u64 (val p) →
  range_values m (index kDEntCFIndex) (DEntSerde_SerKey p lo) (DEntSerde_SerKey p hi) limit
  = dent_val <$> range_values (fs_dents fs) (val p) lo hi limit.
Proof.
  intros Hrep Hp. unfold range_values. rewrite fmap_take. f_equal.
  set (row := λ ne : string * (Dir + HardLink), (DEntSerde_SerKey p ne.1, dent_val ne.2)).
  transitivity (snd <$> (row <$> filter (in_range lo hi) (cf_entries (fs_dents fs) (val p))));
    [|by rewrite <- !list_fmap_compose].
  f_equal. apply StronglySorted_key_lt_eq; [apply filter_entries_sorted|..].
  { apply StronglySorted_fmap_lt; [|apply filter_entries_sorted].
    intros x y. unfold key_lt, row. cbn [fst]. by rewrite SerKey_ltb_same. }
  intros [k v]. rewrite list_elem_of_filter, elem_of_cf_entries, list_elem_of_fmap. split.
  - intros [Hr Hm]. destruct (rep_dent_key _ _ Hrep _ _ Hm) as (q & n & Hq & ->).
    apply in_range_SerKey in Hr as [E Hr]; [|done..]. rewrite E in Hm.
    rewrite (rep_dent_lookup m fs) in Hm by done.
    destruct (fs_dents fs !! (val p, n)) as [e|] eqn:Ed; [|done]. injection Hm as <-.
    exists (n, e). unfold row. cbn [fst snd]. rewrite E. split; [done|].
    by rewrite list_elem_of_filter, elem_of_cf_entries.
  - intros ([n e] & [= -> ->] & Hin). rewrite list_elem_of_filter, elem_of_cf_entries in Hin.
    destruct Hin as [Hr Ed]. rewrite in_range_SerKey, (rep_dent_lookup m fs), Ed by done.
    by split.
Qed.

Lemma DeValAll_eval (es : list (Dir + HardLink)) (t : T) :
  Forall dent_ok es → DeValAll (dent_val <$> es) t = (Ret (dent_seen <$> es), t).
Proof.
  induction 1 as [|e es He _ IH]; cbn [fmap list_fmap DeValAll]; [done|].
  erewrite bind_Ret by (by apply dent_decode). by erewrite bind_Ret by (apply IH).
Qed.

Lemma range_values_ok m fs p lo hi limit :
  kv_rep m fs → Forall dent_ok (range_values (fs_dents fs) p lo hi limit).
Proof.
  intros Hrep. apply Forall_forall. intros e He. unfold range_values in He.
  apply (subseteq_take limit) in He.
  apply list_elem_of_fmap in He as ([n e'] & -> & He).
  apply list_elem_of_filter in He as [_ He%elem_of_cf_entries]. by apply (rep_dent_ok _ _ Hrep) in He as [].
Qed.

Lemma KVDEntView_List_reads p start limit (t : T) fs :
  is_u64 (val p) → txn_wf t → kv_rep (txn_snapshot t) fs →
  reads (KVDEntView_List p start limit) t (fs_list fs p start limit).
Proof.
  intros Hp Hwf Hrep. destruct valid_cfs as (_ & _ & _ & Hc). unfold KVDEntView_List.
  eapply reads_bind; [by apply GetRange_law | intros e t1 He; apply wrap_error; [solve_msg_wf|done] |].
  intros t1 (_ & _ & _ & _ & Hwf1). rewrite (range_values_dents _ fs) by done.
  eapply reads_bind_Ret; [eapply DeValAll_eval, range_values_ok, Hrep|]. by apply reads_Ret.
Qed.

(** *** Writing a row *)

(** The four rows of a directory, on the contents. *)
Definition dir_rows_update (orig mod_ : option Dir) (m : kvmap) : kvmap :=
  row_update DEntSerde_Dir kDEntCFIndex orig mod_
    (row_update ATimeSerde_Dir kATimeCFIndex orig mod_
      (row_update MTimeSerde_Dir kMTimeCFIndex orig mod_
        (row_update InodeSerde_Dir kInodeCFIndex orig mod_ m))).

Lemma lookup_row_update_ne (s : Serde Dir) (cf : CFIndex) (orig mod_ : option Dir) (m : kvmap) c k :
  c ≠ index cf → row_update s cf orig mod_ m !! (c, k) = m !! (c, k).
Proof.
  intros Hc. unfold row_update.
  destruct mod_; rewrite ?lookup_insert_ne by congruence;
    destruct orig; rewrite ?lookup_delete_ne by congruence; done.
Qed.

Lemma lookup_row_update (s : Serde Dir) (cf : CFIndex) (orig mod_ : option Dir) (m : kvmap) k :
  row_update s cf orig mod_ m !! (index cf, k) =
    match mod_ with
    | Some d => if decide (SerKey s d = k) then Some (SerVal s d) else
        match orig with
        | Some o => if decide (SerKey s o = k) then None else m !! (index cf, k)
        | None => m !! (index cf, k)
        end
    | None =>
        match orig with
        | Some o => if decide (SerKey s o = k) then None else m !! (index cf, k)
        | None => m !! (index cf, k)
        end
    end.
Proof.
  unfold row_update.
  destruct mod_, orig; repeat case_decide; subst;
    rewrite ?lookup_insert_eq, ?lookup_insert_ne, ?lookup_delete_eq, ?lookup_delete_ne by congruence;
    done.
Qed.

Lemma holds_row_update_ne (s s' : Serde Dir) (cf cf' : CFIndex) (orig o mod_ : option Dir)
    (m : kvmap) :
  index cf ≠ index cf' → holds_row s cf orig m →
  holds_row s cf orig (row_update s' cf' o mod_ m).
Proof. intros Hc Hm d Hd. rewrite lookup_row_update_ne by done. by apply Hm. Qed.

Lemma holds_rows m fs orig :
  kv_rep m fs → fs_holds orig fs →
  holds_row InodeSerde_Dir kInodeCFIndex orig m ∧ holds_row MTimeSerde_Dir kMTimeCFIndex orig m ∧
  holds_row ATimeSerde_Dir kATimeCFIndex orig m ∧ holds_row DEntSerde_Dir kDEntCFIndex orig m.
Proof.
  intros Hrep Hholds.
  assert (∀ o, orig = Some o → inode_rep m (val (dir_id o)) (Some (inl o)) ∧
    m !! (index kDEntCFIndex, DEntSerde_SerKey_Dir o) = Some (DEntSerde_SerVal_Dir o)) as Hi.
  { intros o Ho. destruct (Hholds o Ho) as [Hi Hd].
    pose proof (rep_dent_ok _ _ Hrep _ _ Hd) as [Hok _]. split.
    - rewrite <- Hi. apply (rep_inode _ _ Hrep), Hok.
    - unfold DEntSerde_SerKey_Dir. rewrite (rep_dent_lookup m fs) by (done || apply Hok).
      by rewrite Hd. }
  split_and!; intros o Ho; destruct (Hi o Ho) as [(_ & _ & ? & ? & ?) ?]; done.
Qed.

Lemma KVDirTable_Write_eval (orig mod_ : option Dir) (t : T) :
  txn_wf t →
  ∃ t', KVDirTable_Write orig mod_ t = (Ret tt, t') ∧ txn_writing t (txn_writes t') t' ∧
    ∀ m fs, kv_rep (apply_writes (txn_writes t) m) fs → fs_holds orig fs →
      apply_writes (txn_writes t') m = dir_rows_update orig mod_ (apply_writes (txn_writes t) m).
Proof.
  intros Hwf. destruct valid_cfs as (Hc1 & Hc2 & Hc3 & Hc4). unfold KVDirTable_Write.
  destruct (Serde_Write_eval InodeSerde_Dir _ orig mod_ t Hc1 Hwf) as (t1 & E1 & Hw1).
  destruct (Serde_Write_eval MTimeSerde_Dir _ orig mod_ t1 Hc2) as (t2 & E2 & Hw2); [apply Hw1|].
  destruct (Serde_Write_eval ATimeSerde_Dir _ orig mod_ t2 Hc3) as (t3 & E3 & Hw3); [apply Hw2|].
  destruct (Serde_Write_eval DEntSerde_Dir _ orig mod_ t3 Hc4) as (t4 & E4 & Hw4); [apply Hw3|].
  exists t4. erewrite bind_Ret by exact E1. erewrite bind_Ret by exact E2.
  erewrite bind_Ret by exact E3. split; [exact E4|].
  pose proof (txn_writing_trans _ _ _ _ _ Hw1 (txn_writing_trans _ _ _ _ _ Hw2
    (txn_writing_trans _ _ _ _ _ Hw3 Hw4))) as Hw.
  split; [by rewrite (proj1 (proj2 Hw))|].
  intros m fs Hrep Hholds. rewrite (proj1 (proj2 Hw4)), (proj1 (proj2 Hw3)), (proj1 (proj2 Hw2)),
    (proj1 (proj2 Hw1)).
  destruct (holds_rows _ _ _ Hrep Hholds) as (Hr1 & Hr2 & Hr3 & Hr4). unfold dir_rows_update.
  repeat (erewrite row_writes_update;
    eauto using InodeSerde_Dir_laws, MTimeSerde_Dir_laws, ATimeSerde_Dir_laws, DEntSerde_Dir_laws).
  all: repeat (apply holds_row_update_ne; [done|]); done.
Qed.

Lemma lookup_dir_rows (orig mod_ : option Dir) (m : kvmap) k :
  dir_rows_update orig mod_ m !! (1, k) = row_update InodeSerde_Dir kInodeCFIndex orig mod_ m !! (1, k) ∧
  dir_rows_update orig mod_ m !! (2, k) = row_update MTimeSerde_Dir kMTimeCFIndex orig mod_ m !! (2, k) ∧
  dir_rows_update orig mod_ m !! (3, k) = row_update ATimeSerde_Dir kATimeCFIndex orig mod_ m !! (3, k) ∧
  dir_rows_update orig mod_ m !! (4, k) = row_update DEntSerde_Dir kDEntCFIndex orig mod_ m !! (4, k).
Proof.
  assert (∀ (s : Serde Dir) (cf : CFIndex) (m1 m2 : kvmap),
    m1 !! (index cf, k) = m2 !! (index cf, k) →
    row_update s cf orig mod_ m1 !! (index cf, k) = row_update s cf orig mod_ m2 !! (index cf, k)) as Hext.
  { intros s cf m1 m2 E. by rewrite !lookup_row_update, E. }
  unfold dir_rows_update.
  split_and!; rewrite ?lookup_row_update_ne by done; try done.
  - apply (Hext _ kMTimeCFIndex). by rewrite ?lookup_row_update_ne.
  - apply (Hext _ kATimeCFIndex). by rewrite ?lookup_row_update_ne.
  - apply (Hext _ kDEntCFIndex). by rewrite ?lookup_row_update_ne.
Qed.

(** Whether a directory is the one with ID [id], or the one named [k]. *)
Lemma decide_Store64 {A} (i id : Z) (x y : A) :
  is_u64 i → is_u64 id →
  (if decide (Store64 i = Store64 id) then x else y) = if decide (i = id) then x else y.
Proof.
  intros Hi Hid. repeat case_decide; subst; try done. by eapply Store64_inj in Hi.
Qed.
Lemma decide_SerKey {A} (p : InodeID) (q : Z) n n' (x y : A) :
  is_u64 (val p) → is_u64 q →
  (if decide (DEntSerde_SerKey p n = DEntSerde_SerKey {| val := q |} n') then x else y)
  = if decide ((val p, n) = (q, n')) then x else y.
Proof.
  intros Hp Hq. destruct p as [p]. cbn [val] in *. repeat case_decide; simplify_eq; try done.
  match goal with E : DEntSerde_SerKey _ _ = _ |- _ =>
    apply DEntSerde_SerKey_inj in E as [[= ->] ->] end; done.
Qed.

Lemma holds_ok m fs orig :
  kv_rep m fs → fs_holds orig fs → ∀ o, orig = Some o → dir_ok o.
Proof. intros Hrep Hholds o Ho. apply Hholds in Ho as [_ Hd]. by apply (rep_dent_ok _ _ Hrep) in Hd as []. Qed.

Lemma inode_rep_ext (m m' : kvmap) id i :
  m' !! (1, Store64 id) = m !! (1, Store64 id) → m' !! (2, Store64 id) = m !! (2, Store64 id) →
  m' !! (3, Store64 id) = m !! (3, Store64 id) → inode_rep m id i → inode_rep m' id i.
Proof. unfold inode_rep. by intros -> -> ->. Qed.

Lemma inode_rep_update (orig mod_ : option Dir) m fs id :
  kv_rep m fs → fs_holds orig fs → (∀ d, mod_ = Some d → dir_ok d) → is_u64 id →
  inode_rep (dir_rows_update orig mod_ m) id (fs_inodes (fs_update orig mod_ fs) !! id).
Proof.
  intros Hrep Hholds Hmod Hid. pose proof (holds_ok _ _ _ Hrep Hholds) as Hor.
  destruct (lookup_dir_rows orig mod_ m (Store64 id)) as (E1 & E2 & E3 & _).
  rewrite (lookup_row_update _ kInodeCFIndex) in E1.
  rewrite (lookup_row_update _ kMTimeCFIndex) in E2.
  rewrite (lookup_row_update _ kATimeCFIndex) in E3.
  pose proof (rep_inode _ _ Hrep id Hid) as Hi.
  assert (∀ d, mod_ = Some d → is_u64 (val (dir_id d))) as Hm64 by (intros; by apply Hmod).
  assert (∀ o, orig = Some o → is_u64 (val (dir_id o))) as Ho64 by (intros; by apply Hor).
  cbn [SerKey InodeSerde_Dir MTimeSerde_Dir ATimeSerde_Dir] in E1, E2, E3.
  unfold InodeSerde_SerKey_Dir, MTimeSerde_SerKey_Dir, ATimeSerde_SerKey_Dir,
    ATimeSerde_SerKey, MTimeSerde_SerKey, InodeSerde_SerKey, SerID in E1, E2, E3.
  destruct mod_ as [d|], orig as [o|]; cbn [fs_update fs_insert fs_remove fs_inodes];
    rewrite ?lookup_insert, ?lookup_delete;
    rewrite ?decide_Store64 in E1, E2, E3 by auto;
    repeat case_decide; cbn [inode_rep];
    first [by eapply inode_rep_ext | rewrite ?E1, ?E2, ?E3; eauto 10].
Qed.

(** A row of the first three families is an old one or the new directory's. *)
Lemma dir_rows_row (orig mod_ : option Dir) m fs cf k v :
  kv_rep m fs → (∀ d, mod_ = Some d → dir_ok d) → 1 ≤ cf ≤ 3 →
  dir_rows_update orig mod_ m !! (cf, k) = Some v →
  ∃ id, is_u64 id ∧ k = Store64 id ∧ (cf = 1 ∨ String.length v = 8%nat).
Proof.
  intros Hrep Hmod Hcf. destruct (lookup_dir_rows orig mod_ m k) as (E1 & E2 & E3 & _).
  rewrite (lookup_row_update _ kInodeCFIndex) in E1.
  rewrite (lookup_row_update _ kMTimeCFIndex) in E2.
  rewrite (lookup_row_update _ kATimeCFIndex) in E3.
  pose proof (rep_row _ _ Hrep cf k v Hcf) as Hold.
  assert (∀ d, mod_ = Some d → is_u64 (val (dir_id d))) as Hid by (intros; by apply Hmod).
  assert (cf = 1 ∨ cf = 2 ∨ cf = 3) as [-> | [-> | ->]] by lia; rewrite ?E1, ?E2, ?E3; clear E1 E2 E3;
    destruct mod_ as [d|], orig as [o|]; repeat case_decide; try done;
    intros [= <-]; exists (val (dir_id d)); (split; [by apply Hid|]); (split; [done|]);
    first [by left | right; apply Store64_length].
Qed.

Lemma kv_rep_update (orig mod_ : option Dir) m fs :
  kv_rep m fs → fs_holds orig fs → (∀ d, mod_ = Some d → dir_ok d) →
  kv_rep (dir_rows_update orig mod_ m) (fs_update orig mod_ fs).
Proof.
  intros Hrep Hholds Hmod. pose proof (holds_ok _ _ _ Hrep Hholds) as Hor.
  assert (∀ d, mod_ = Some d → is_u64 (val (dir_parent_id d))) as Hm64 by (intros; by apply Hmod).
  assert (∀ o, orig = Some o → is_u64 (val (dir_parent_id o))) as Ho64 by (intros; by apply Hor).
  split.
  - intros. by apply inode_rep_update.
  - intros p n Hp. pose proof (rep_dent _ _ Hrep p n Hp) as Hd.
    destruct (lookup_dir_rows orig mod_ m (DEntSerde_SerKey {| val := p |} n)) as (_ & _ & _ & E).
    rewrite E, (lookup_row_update _ kDEntCFIndex). cbn [SerKey SerVal DEntSerde_Dir index kDEntCFIndex].
    rewrite Hd. unfold DEntSerde_SerKey_Dir.
    destruct mod_ as [d|], orig as [o|]; cbn [fs_update fs_insert fs_remove fs_dents];
      rewrite ?decide_SerKey by eauto; rewrite ?lookup_insert, ?lookup_delete;
      repeat case_decide; done.
  - intros k e. destruct mod_ as [d|], orig as [o|]; cbn [fs_update fs_insert fs_remove fs_dents];
      rewrite ?lookup_insert, ?lookup_delete; repeat case_decide; try done;
      try apply (rep_dent_ok _ _ Hrep); intros [= <-]; split; auto; by apply Hmod.
  - intros k v. destruct (lookup_dir_rows orig mod_ m k) as (_ & _ & _ & E).
    rewrite E, (lookup_row_update _ kDEntCFIndex). cbn [SerKey SerVal DEntSerde_Dir index kDEntCFIndex].
    unfold DEntSerde_SerKey_Dir.
    assert (∀ d, mod_ = Some d → ∃ p n, is_u64 p ∧
      DEntSerde_SerKey (dir_parent_id d) (dir_name d) = DEntSerde_SerKey {| val := p |} n) as Hk.
    { intros d Hd. exists (val (dir_parent_id d)), (dir_name d). split; [by apply Hm64|].
      by destruct (dir_parent_id d). }
    destruct mod_ as [d|], orig as [o|]; repeat case_decide; try done; subst;
      try apply (rep_dent_key _ _ Hrep); intros _; by apply Hk.
  - intros cf k v Hcf. by eapply dir_rows_row.
Qed.

#[global] Instance KVDirTable_laws : DirTableLaws T.
Proof.
  split.
  - intros m fs id d Hrep Hid. unfold fs_dir. pose proof (rep_inode _ _ Hrep _ Hid) as Hi.
    destruct (fs_inodes fs !! val id) as [[d'|f]|]; [|done|].
    + intros [= <-]. apply Hi.
    + destruct (InodeID_eqb id kRootInodeID); [|done]. intros [= <-]. by vm_compute.
  - intros. by apply KVDirTable_Read_reads.
  - intros. by apply KVDirTable_ReadByName_reads.
  - intros orig mod_ t Hwf Hmod. destruct (KVDirTable_Write_eval orig mod_ t Hwf) as (t' & E & Hw & Hm).
    exists t'. split; [exact E|]. split; [exact Hw|]. intros m fs Hrep Hholds.
    rewrite (Hm m fs Hrep Hholds). by apply kv_rep_update.
Qed.

#[global] Instance KVDEntView_laws : DEntViewLaws T.
Proof. split; intros; [by apply KVDEntView_Read_reads | by apply KVDEntView_List_reads]. Qed.

Lemma kv_rep_empty : kv_rep ∅ fs_empty.
Proof. split; intros; by simplify_map_eq. Qed.

(** Every row of a store that represents a namespace decodes. *)
Lemma rep_row_typed m fs cf k v : kv_rep m fs → m !! (cf, k) = Some v → row_typed cf k v.
Proof.
  intros Hrep Hrow. unfold row_typed.
  assert (∀ id, is_u64 id → InodeSerde_DeKey (Store64 id) tt = (Ret {| val := id |}, tt)) as Hkey.
  { intros id Hid. unfold InodeSerde_DeKey, bind, Check. rewrite Store64_length.
    cbn -[Load64]. by rewrite Load64_Store64, u64_small. }
  assert (String.length v = 8%nat → ∃ t, MTimeSerde_DeVal v tt = (Ret t, tt)) as Htime.
  { intros Hl. unfold MTimeSerde_DeVal, bind, Check. rewrite Hl. by eexists. }
  destruct (decide (1 ≤ cf ≤ 3)) as [Hcf|Hcf].
  - destruct (rep_row _ _ Hrep cf k v Hcf Hrow) as (id & Hid & -> & Hlen).
    assert (cf = 1 ∨ cf = 2 ∨ cf = 3) as [-> | [-> | ->]] by lia;
      exists {| val := id |}; (split; [by apply Hkey|]);
      [|destruct Hlen as [?|?]; [lia | by apply Htime]..].
    pose proof (rep_inode _ _ Hrep id Hid) as Hi.
    destruct (fs_inodes fs !! id) as [[d|f]|]; cbn [inode_rep] in Hi; [| |congruence].
    + destruct Hi as (Hok & E & Hv & _). rewrite Hv in Hrow. injection Hrow as <-.
      eexists. split; [by apply InodeSerde_DeVal_Dir|]. cbn. subst. by destruct (dir_id d).
    + destruct Hi as (Hok & E & Hv). rewrite Hv in Hrow. injection Hrow as <-.
      eexists. split; [by apply InodeSerde_DeVal_File|]. cbn. subst. by destruct (file_id f).
  - assert (cf = 4 ∨ (cf < 1 ∨ 4 < cf)) as [-> | Hout] by lia.
    + destruct (rep_dent_key _ _ Hrep k v Hrow) as (p & n & Hp & ->).
      rewrite (rep_dent _ _ Hrep p n Hp) in Hrow.
      destruct (fs_dents fs !! (p, n)) as [e|] eqn:E; [|done]. injection Hrow as <-.
      destruct (rep_dent_ok _ _ Hrep _ _ E) as [Hok Hk]. exists {| val := p |}, n, (dent_seen e).
      split; [done|]. split; [by apply dent_decode|]. by destruct e.
    + destruct cf as [|[[|[]|]|[[]|[]|]|]|]; try done; lia.
Qed.

(** A least entry comes first. *)
Lemma sorted_head {A} (l : list (string * A)) (x : string * A) :
  StronglySorted key_lt l → x ∈ l → (∀ y, y ∈ l → str_le x.1 y.1) → ∃ l', l = x :: l'.
Proof.
  intros Hs Hx Hle. destruct Hs as [|y l Hs Hf]; [by apply not_elem_of_nil in Hx|].
  apply elem_of_cons in Hx as [->|Hx]; [by eexists|]. exfalso.
  rewrite Forall_forall in Hf. pose proof (Hf x Hx) as Hlt.
  pose proof (Hle y (list_elem_of_here _ _)) as Hxy. unfold str_le in Hxy.
  pose proof (str_leb_ltb_trans _ _ _ Hxy Hlt) as Hc. by rewrite str_ltb_irrefl in Hc.
Qed.

Lemma StronglySorted_take_lt {A} n (l : list (string * A)) :
  StronglySorted key_lt l → StronglySorted key_lt (take n l).
Proof.
  intros Hs. revert n. induction Hs as [|x l Hs IH Hf]; intros [|n]; cbn; constructor; [done|].
  by apply Forall_take.
Qed.

End kv_tables_lemmas.

(** ** Properties *)

Section properties.
Context {T : Type} `{TxnLaws T, BigEndianLaws, FlatBuffersLaws, Fmt, Build}.

(** C17: over a transaction whose snapshot represents a
    namespace, reading a directory by ID, by name, and an entry by name return what
    the namespace holds (the root's default row included), change neither the
    snapshot nor the pending writes, and fail only when the transaction meets an
    I/O error: no check fires and no null pointer is followed. *)
Theorem table_reads_refine_namespace (id parent_id : InodeID) (name : string) (t : T) (fs : FS)
    (Hid : is_u64 (val id)) (Hp : is_u64 (val parent_id)) (Hwf : txn_wf t)
    (Hrep : kv_rep (txn_snapshot t) fs) :
  reads (KVDirTable_Read id) t (fs_dir fs id) ∧
  reads (KVDirTable_ReadByName parent_id name) t
    (match fs_dent fs parent_id name with Some (inl d) => Some d | _ => None end) ∧
  reads (KVDEntView_Read parent_id name) t
    (match fs_dent fs parent_id name with
     | Some (inl d) => DEntDir d
     | Some (inr h) => DEntHardLink h
     | None => DEntMonostate
     end).
Proof.
  split_and!; [by apply KVDirTable_Read_reads | by apply KVDirTable_ReadByName_reads
    | by apply KVDEntView_Read_reads].
Qed.

(** C16: [KVDirTable::Write] turns pending writes under which
    the contents represent a namespace that holds the original directory into
    pending writes under which they represent that namespace with the directory
    removed, added, or replaced (moved, when its ID, parent or name changed): the
    four column families stay consistent. *)
Theorem dir_write_refines_update (orig mod_ : option Dir) (t : T) (m : kvmap) (fs : FS)
    (Hwf : txn_wf t) (Hmod : ∀ d, mod_ = Some d → dir_ok d)
    (Hrep : kv_rep (apply_writes (txn_writes t) m) fs) (Hholds : fs_holds orig fs) :
  ∃ t', KVDirTable_Write orig mod_ t = (Ret tt, t') ∧ txn_snapshot t' = txn_snapshot t ∧
        kv_rep (apply_writes (txn_writes t') m) (fs_update orig mod_ fs).
Proof.
  destruct (DirTable_Write_law orig mod_ t Hwf Hmod) as (t' & E & (Hs & _) & Hm).
  exists t'. split; [exact E|]. split; [exact Hs|]. by apply Hm.
Qed.

(** C18: a healthy [KVDEntView::List] returns at most [limit] entries of the
    directory, in strictly increasing name order, each named from [start_after]
    (included) up to, and not including, the byte 0xFF; when it returns fewer than
    [limit], it returns all of those. *)
Theorem list_contract (p : InodeID) (start : string) (limit : nat) (t : T) (fs : FS)
    (Hp : is_u64 (val p)) (Hwf : txn_wf t) (Hh : txn_healthy t)
    (Hrep : kv_rep (txn_snapshot t) fs) :
  ∃ ents t', KVDEntView_List p start limit t = (Ret (Val ents), t') ∧
    (length ents ≤ limit)%nat ∧
    StronglySorted (λ e e', str_ltb (dent_key e).2 (dent_key e').2 = true) ents ∧
    (∀ e, e ∈ ents → ∃ name, dent_key e = (val p, name) ∧ fs_dent fs p name = Some e ∧
                             in_range start xFF (name, e)) ∧
    ((length ents < limit)%nat → ∀ name e, fs_dent fs p name = Some e →
       in_range start xFF (name, e) → e ∈ ents).
Proof.
  destruct (KVDEntView_List_reads p start limit t fs Hp Hwf Hrep) as (o & t' & E & _ & Hr).
  destruct Hr as [-> | [? _]]; [|done]. exists (fs_list fs p start limit), t'. split; [exact E|].
  unfold fs_list, range_values.
  set (l := filter (in_range start xFF) (cf_entries (fs_dents fs) (val p))).
  assert (Hl : ∀ n e, (n, e) ∈ l ↔ in_range start xFF (n, e) ∧ fs_dents fs !! (val p, n) = Some e).
  { intros n e. unfold l. by rewrite list_elem_of_filter, elem_of_cf_entries. }
  assert (Hkey : ∀ n e, (n, e) ∈ l → dent_key (dent_seen e) = (val p, n)).
  { intros n e [_ He]%Hl. apply (rep_dent_ok _ _ Hrep) in He as [_ <-]. by destruct e. }
  rewrite length_fmap, length_take, length_fmap. split_and!.
  - lia.
  - rewrite <- fmap_take, <- list_fmap_compose.
    pose proof (filter_entries_sorted (fs_dents fs) (val p) start xFF) as Hs. fold l in Hs.
    assert (Hkt : ∀ x, x ∈ take limit l → dent_key (dent_seen x.2) = (val p, x.1)).
    { intros [n e] Hin. by apply Hkey, (subseteq_take limit). }
    apply (StronglySorted_take_lt limit) in Hs. clearbody l.
    induction Hs as [|x l' Hs IH Hf]; cbn; constructor.
    + apply IH. intros y Hy. apply Hkt. by right.
    + rewrite Forall_fmap. rewrite Forall_forall in Hf |- *. intros y Hy. cbn.
      rewrite (Hkt x), (Hkt y) by (by left || by right). by apply Hf.
  - intros e (e' & -> & Hin)%list_elem_of_fmap. apply subseteq_take in Hin.
    apply list_elem_of_fmap in Hin as ([n e] & -> & Hin). cbn [snd].
    exists n. split; [by apply Hkey|]. apply Hl in Hin as [Hr He]. unfold fs_dent. by rewrite He.
  - intros Hlen name e He Hr. unfold fs_dent in He.
    destruct (fs_dents fs !! (val p, name)) as [e'|] eqn:Ed; [|done]. injection He as <-.
    apply list_elem_of_fmap_2. rewrite take_ge by (rewrite length_fmap; lia).
    apply list_elem_of_fmap. exists (name, e'). split; [done|]. by apply Hl.
Qed.

(** The entry named [start_after] itself is the first
    one a healthy [KVDEntView::List] returns. *)
Theorem list_includes_start_after (p : InodeID) (start : string) (limit : nat) (t : T) (fs : FS)
    (e : Dir + HardLink)
    (Hp : is_u64 (val p)) (Hwf : txn_wf t) (Hh : txn_healthy t)
    (Hrep : kv_rep (txn_snapshot t) fs) (He : fs_dent fs p start = Some e)
    (Hff : str_ltb start xFF = true) (Hlim : (0 < limit)%nat) :
  ∃ ents t', KVDEntView_List p start limit t = (Ret (Val (e :: ents)), t').
Proof.
  destruct (KVDEntView_List_reads p start limit t fs Hp Hwf Hrep) as (o & t' & E & _ & Hr).
  destruct Hr as [-> | [? _]]; [|done]. rewrite E. unfold fs_list, range_values.
  unfold fs_dent in He. destruct (fs_dents fs !! (val p, start)) as [e'|] eqn:Ed; [|done].
  injection He as <-.
  destruct (sorted_head _ (start, e') (filter_entries_sorted (fs_dents fs) (val p) start xFF))
    as (l' & ->).
  - rewrite list_elem_of_filter, elem_of_cf_entries. repeat split; [|done..].
    apply str_leb_cases. by right.
  - intros y Hy. apply list_elem_of_filter in Hy as [[Hy _] _]. exact Hy.
  - destruct limit; [lia|]. cbn. eauto.
Qed.

End properties.

(** Comparing two present directories with the
    [operator==] of kv_dir_table.cc never returns; with an absent one it returns
    whether both are absent. *)
Theorem optional_dir_equality_diverges (lhs rhs : Dir) :
  (∀ fuel, operator_eq_opt_Dir fuel (Some lhs) (Some rhs) = None) ∧
  (∀ fuel o, operator_eq_opt_Dir (S fuel) o None = Some (negb (has_value o))) ∧
  (∀ fuel o, operator_eq_opt_Dir (S fuel) None o = Some (negb (has_value o))).
Proof.
  split_and!; [|by intros fuel []..]. intros fuel. by induction fuel.
Qed.

(** ** Witnesses *)

Section demo.
#[local] Existing Instances MemDB MemDBSpec MemDBLaws demo_fmt demo_build demo_be demo_fb
  demo_be_laws demo_fb_laws.

Definition demo_fs : FS := fs_insert (demo_dir "a") fs_empty.
Definition demo_kv : kvmap := dir_rows_update None (Some (demo_dir "a")) ∅.

Lemma demo_rep : kv_rep demo_kv demo_fs.
Proof.
  apply (kv_rep_update None (Some (demo_dir "a")) ∅ fs_empty kv_rep_empty); [done|].
  intros d [= <-]. by apply demo_dir_ok.
Qed.

Lemma table_reads_refine_namespace_witness :
  (KVDirTable_Read {| val := 5 |} (demo_txn_over demo_kv)).1
    = Ret (Val (Some (dir_seen (demo_dir "a")))) ∧
  reads (KVDirTable_Read {| val := 5 |}) (demo_txn_over demo_kv)
    (Some (dir_seen (demo_dir "a"))).
Proof.
  split; [vm_compute; reflexivity|].
  apply (table_reads_refine_namespace {| val := 5 |} kRootInodeID "a" (demo_txn_over demo_kv) demo_fs);
    [vm_compute; done | vm_compute; done | reflexivity | exact demo_rep].
Defined.

(** Renaming the directory. *)
Lemma dir_write_refines_update_witness :
  ∃ t', KVDirTable_Write (Some (demo_dir "a")) (Some (demo_dir "b")) (demo_txn_over demo_kv)
          = (Ret tt, t') ∧
    kv_rep (apply_writes (txn_writes t') demo_kv)
      (fs_update (Some (demo_dir "a")) (Some (demo_dir "b")) demo_fs).
Proof.
  destruct (dir_write_refines_update (Some (demo_dir "a")) (Some (demo_dir "b"))
    (demo_txn_over demo_kv) demo_kv demo_fs) as (t' & E & _ & Hr).
  - reflexivity.
  - intros d [= <-]. by apply demo_dir_ok.
  - change (txn_writes (demo_txn_over demo_kv)) with (∅ : writes). rewrite apply_writes_empty.
    exact demo_rep.
  - intros o [= <-]. split; reflexivity.
  - exists t'. split; [exact E | exact Hr].
Defined.

Lemma list_contract_witness :
  ∃ ents t', KVDEntView_List kRootInodeID "" 10 (demo_txn_over demo_kv) = (Ret (Val ents), t') ∧
    inl (dent_image (demo_dir "a")) ∈ ents.
Proof.
  destruct (list_contract kRootInodeID "" 10 (demo_txn_over demo_kv) demo_fs
    ltac:(vm_compute; done) eq_refl I demo_rep) as (ents & t' & E & Hlen & _ & _ & Hall).
  exists ents, t'. split; [exact E|].
  assert (ents = [inl (dent_image (demo_dir "a"))]) as El.
  { apply (f_equal fst) in E. vm_compute in E. injection E as <-. reflexivity. }
  apply (Hall ltac:(rewrite El; cbn; lia) "a"%string); [reflexivity|].
  split; vm_compute; reflexivity.
Defined.

Lemma list_includes_start_after_witness :
  ∃ ents t', KVDEntView_List kRootInodeID "a" 10 (demo_txn_over demo_kv)
             = (Ret (Val (inl (dent_image (demo_dir "a")) :: ents)), t').
Proof.
  apply (list_includes_start_after kRootInodeID "a" 10 (demo_txn_over demo_kv) demo_fs);
    [vm_compute; done | reflexivity | exact I | exact demo_rep | reflexivity | reflexivity | lia].
Defined.
End demo.
