(* ===== verification/Proto.v ===== *)
(** The messages of src/proto/client_namenode.proto, as the C++ code protoc generates
    presents them: a field that was never set reads as its default, a sub-message is
    present once its [mutable_] accessor was called. *)

From Stdlib Require Import ZArith Lia Ascii String.
From stdpp Require Import prelude strings gmap.
From S2P Require Import Prelude Common.

#[local] Open Scope Z_scope.

Record PingRequest := { ping : string }.
Record PongResponse := { pong : string }.

Record Stat := {
  st_id : Z;              (* uint64 *)
  st_mode : Z;            (* uint64 *)
  st_nlink : Z;           (* int32 *)
  st_uid : Z;             (* uint64 *)
  st_gid : Z;             (* uint64 *)
  st_size : Z;            (* int64, and the fields below *)
  st_atime_in_ns : Z;
  st_mtime_in_ns : Z;
  st_ctime_in_ns : Z;
  st_block_size : Z;
  st_block_num : Z;
}.
Definition Stat_default : Stat :=
  {| st_id := 0; st_mode := 0; st_nlink := 0; st_uid := 0; st_gid := 0; st_size := 0;
     st_atime_in_ns := 0; st_mtime_in_ns := 0; st_ctime_in_ns := 0; st_block_size := 0;
     st_block_num := 0 |}.

Record GetInodeRequest := { gi_path : option string; gi_id : option Z }.
(** [id()] of an optional field. *)
Definition GetInodeRequest_id (req : GetInodeRequest) : Z :=
  match gi_id req with Some id => id | None => 0 end.

(** GetInodeResponse and LookupResponse have the same fields, an [int64 id] and a
    [Stat]; MkdirsResponse has an [uint64 id]. *)
Record StatResponse := {
  sr_error_code : Z;
  sr_error_msg : string;
  sr_id : Z;
  sr_stat : option Stat;
}.
Definition StatResponse_default : StatResponse :=
  {| sr_error_code := 0; sr_error_msg := ""; sr_id := 0; sr_stat := None |}.

Record LookupRequest := { lk_parent_id : Z; lk_name : string }.

Record ListDirRequest := {
  ld_id : Z;
  ld_start_after : string;
  ld_limit : Z;           (* int32 *)
  ld_uid : Z;
  ld_gid : Z;
}.
Record ProtoDEnt := { de_id : Z; de_name : string; de_type : Z }.
Record ListDirResponse := {
  lr_error_code : Z;
  lr_error_msg : string;
  lr_self_dent : option ProtoDEnt;
  lr_parent_dent : option ProtoDEnt;
  lr_ents : list ProtoDEnt;
  lr_has_more : bool;
}.
Definition ListDirResponse_default : ListDirResponse :=
  {| lr_error_code := 0; lr_error_msg := ""; lr_self_dent := None; lr_parent_dent := None;
     lr_ents := []; lr_has_more := false |}.

Record MkdirsRequest := {
  mk_parent_id : Z;
  mk_name : string;
  mk_mode : Z;            (* uint64 *)
  mk_uid : Z;
  mk_gid : Z;
}.

#[global] Instance StatResponse_ErrorResp : ErrorResp StatResponse := {|
  resp_default := StatResponse_default;
  set_error_code c r := {| sr_error_code := c; sr_error_msg := sr_error_msg r;
                           sr_id := sr_id r; sr_stat := sr_stat r |};
  set_error_msg m r := {| sr_error_code := sr_error_code r; sr_error_msg := m;
                          sr_id := sr_id r; sr_stat := sr_stat r |};
|}.
#[global] Instance ListDirResponse_ErrorResp : ErrorResp ListDirResponse := {|
  resp_default := ListDirResponse_default;
  set_error_code c r :=
    {| lr_error_code := c; lr_error_msg := lr_error_msg r; lr_self_dent := lr_self_dent r;
       lr_parent_dent := lr_parent_dent r; lr_ents := lr_ents r; lr_has_more := lr_has_more r |};
  set_error_msg m r :=
    {| lr_error_code := lr_error_code r; lr_error_msg := m; lr_self_dent := lr_self_dent r;
       lr_parent_dent := lr_parent_dent r; lr_ents := lr_ents r; lr_has_more := lr_has_more r |};
|}.
