(* ===== verification/Service.v ===== *)
(** The namenode's request handlers: src/namenode/namenode_ctx.h and .cc,
    service/handler_ctx.h and .cc, service/operation/*.h and *.cc and their flags.

    A handler is a computation over [Handler]: the namenode's context and the
    transaction the handler opened, gone once it was handed to [CommitTxn].  The
    reading of the clock is an argument of the handler that takes one. *)

From Stdlib Require Import ZArith Lia Ascii String.
From stdpp Require Import prelude strings gmap.
From S2P Require Import Prelude Common Types IdGen KVStoreBase RocksDB Conflict Serde Tables Proto.

#[local] Open Scope Z_scope.

(** ** Flags *)

Class Flags := {
  FLAGS_request_monotonic_buffer_resource_prealloc_bytes : Z;   (* uint32 *)
  FLAGS_list_dir_default_limit : Z;                             (* uint32 *)
}.
Definition default_flags : Flags := {|
  FLAGS_request_monotonic_buffer_resource_prealloc_bytes := 4096;
  FLAGS_list_dir_default_limit := 100;
|}.

(** ** NameNodeCtx and HandlerCtx *)

Record NameNodeCtx (K : Type) := {
  kv_store_ : K;
  inode_id_generator_ : IDGen;
}.
Arguments kv_store_ {K} _.
Arguments inode_id_generator_ {K} _.

Record Handler (K T : Type) := {
  namenode_ctx_ : NameNodeCtx K;
  txn_ : option T;               (* the unique_ptr, null once moved from *)
}.
Arguments namenode_ctx_ {K T} _.
Arguments txn_ {K T} _.

Section handlers.
Context {K T : Type} `{KVStoreBase K T, DirTableBase T, DEntViewBase T, Fmt, Build, Flags}.

(** [Start]: the generator of node 0, clock sequence 0. *)
Definition NameNodeCtx_Start (kv_store : K) : outcome (NameNodeCtx K) :=
  match IDGen_make 0 0 0 with
  | (Ret tt, g) => Ret {| kv_store_ := kv_store; inode_id_generator_ := g |}
  | (Throw w, _) => Throw w
  | (Undef, _) => Undef
  end.

Definition on_kv {A} (m : M K A) : M (NameNodeCtx K) A :=
  zoom kv_store_
    (λ k c, {| kv_store_ := k; inode_id_generator_ := inode_id_generator_ c |}) m.
Definition on_id_gen {A} (m : M IDGen A) : M (NameNodeCtx K) A :=
  zoom inode_id_generator_ (λ g c, {| kv_store_ := kv_store_ c; inode_id_generator_ := g |}) m.
Definition on_ctx {A} (m : M (NameNodeCtx K) A) : M (Handler K T) A :=
  zoom namenode_ctx_ (λ c h, {| namenode_ctx_ := c; txn_ := txn_ h |}) m.

(** The tables use the transaction through a raw pointer, dangling once [txn_] has
    been moved from and destroyed. *)
Definition on_txn {A} (m : M T A) : M (Handler K T) A := λ h,
  match txn_ h with
  | None => (Undef, h)
  | Some t => let '(o, t) := m t in
              (o, {| namenode_ctx_ := namenode_ctx_ h; txn_ := Some t |})
  end.

(** The constructor: the transaction is opened first. *)
Definition HandlerCtx_make : M (NameNodeCtx K) (Handler K T) :=
  let! txn := on_kv StartTxn in
  do! Check (FLAGS_request_monotonic_buffer_resource_prealloc_bytes >? 0)
        "(request_monotonic_buffer_resource_prealloc_bytes_) > (0)" in
  let! c := gets (λ c, c) in
  ret {| namenode_ctx_ := c; txn_ := Some txn |}.

(** [GetTxn]: the pointer is moved out. *)
Definition GetTxn : M (Handler K T) T := λ h,
  match txn_ h with
  | None => (Undef, h)
  | Some t => (Ret t, {| namenode_ctx_ := namenode_ctx_ h; txn_ := None |})
  end.

(** The [Stat] of a directory, as three of the handlers fill it. *)
Definition Dir_Stat (dir : Dir) : Stat :=
  {| st_id := val (dir_id dir); st_mode := Z.lor S_IFDIR (perm (dir_acl dir)); st_nlink := 1;
     st_uid := uid (dir_acl dir); st_gid := gid (dir_acl dir); st_size := 0;
     st_atime_in_ns := dir_atime_in_ns dir; st_mtime_in_ns := dir_mtime_in_ns dir;
     st_ctime_in_ns := dir_ctime_in_ns dir; st_block_size := 0; st_block_num := 0 |}.

(** ** GetInodeOp *)

Definition get_inode_op_cc : string := "src/namenode/service/operation/get_inode_op.cc".

Definition GetInodeOp_Run (req : GetInodeRequest) : M (Handler K T) StatResponse :=
  let id := {| val := GetInodeRequest_id req |} in
  let! dir := on_txn (DirTable_Read id) in
  match dir with
  | Unexp error =>
      let! status := SystemError (location_at get_inode_op_cc 35)
        ("Failed to retrieve inode " +:+ fmt_int (val id) +:+ ".") (Some error) in
      ret (MakeError status)
  | Val None =>
      let! status := NotFoundError (location_at get_inode_op_cc 42)
        ("Inode " +:+ fmt_int (val id) +:+ " not found.") None in
      ret (MakeError status)
  | Val (Some dir) =>
      ret {| sr_error_code := 0; sr_error_msg := ""; sr_id := i64 (val (dir_id dir));
             sr_stat := Some (Dir_Stat dir) |}
  end%string.

(** ** LookupOp *)

Definition lookup_op_cc : string := "src/namenode/service/operation/lookup_op.cc".

Definition HardLink_Stat (hard_link : HardLink) : Stat :=
  {| st_id := val (hl_id hard_link); st_mode := S_IFREG; st_nlink := 1; st_uid := 0; st_gid := 0;
     st_size := 0; st_atime_in_ns := 0; st_mtime_in_ns := 0; st_ctime_in_ns := 0;
     st_block_size := 0; st_block_num := 0 |}.

Definition LookupOp_Run (req : LookupRequest) : M (Handler K T) StatResponse :=
  let parent_id := {| val := lk_parent_id req |} in
  let! dent := on_txn (DEntView_Read parent_id (lk_name req)) in
  match dent with
  | Unexp error =>
      let! status := SystemError (location_at lookup_op_cc 37)
        ("Failed to look up with parent ID " +:+ lk_name req +:+ " and name "
         +:+ fmt_int (val parent_id) +:+ ".") (Some error) in
      ret (MakeError status)
  | Val DEntMonostate =>
      let! status := NotFoundError (location_at lookup_op_cc 47)
        ("Parent ID " +:+ fmt_int (val parent_id) +:+ " and name " +:+ lk_name req
         +:+ " not found.") None in
      ret (MakeError status)
  | Val (DEntDir dir) =>
      ret {| sr_error_code := 0; sr_error_msg := ""; sr_id := i64 (val (dir_id dir));
             sr_stat := Some (Dir_Stat dir) |}
  | Val (DEntHardLink hard_link) =>
      ret {| sr_error_code := 0; sr_error_msg := ""; sr_id := i64 (val (hl_id hard_link));
             sr_stat := Some (HardLink_Stat hard_link) |}
  end%string.

(** ** ListDirOp *)

Definition list_dir_op_cc : string := "src/namenode/service/operation/list_dir_op.cc".

Definition ListDir_ent (ent : Dir + HardLink) : ProtoDEnt :=
  match ent with
  | inl d => {| de_id := val (dir_id d); de_name := dir_name d; de_type := S_IFDIR |}
  | inr h => {| de_id := val (hl_id h); de_name := hl_name h; de_type := S_IFREG |}
  end.

(** [self_dent] and [parent_dent] of the first page; the error response otherwise. *)
Definition ListDir_dots (parent_id : InodeID) (parent_dir : Dir) :
    M (Handler K T) (ListDirResponse + option ProtoDEnt * option ProtoDEnt) :=
  let self_dent := {| de_id := val parent_id; de_name := "."; de_type := S_IFDIR |} in
  if InodeID_eqb parent_id kRootInodeID then
    ret (inr (Some self_dent,
              Some {| de_id := val parent_id; de_name := ".."; de_type := S_IFDIR |}))
  else
    let grandparent_id := dir_parent_id parent_dir in
    let! grandparent_dir := on_txn (DirTable_Read grandparent_id) in
    match grandparent_dir with
    | Unexp error =>
        let! status := SystemError (location_at list_dir_op_cc 79)
          ("Unable to get grandparent inode " +:+ fmt_int (val grandparent_id) +:+ ".")
          (Some error) in
        ret (inl (MakeError status))
    | Val None => ret (inr (Some self_dent, None))
    | Val (Some _) =>
        ret (inr (Some self_dent,
                  Some {| de_id := val grandparent_id; de_name := ".."; de_type := S_IFDIR |}))
    end%string.

(** The argument of [List]: [int32_t] and [uint32_t] give an [uint32_t]. *)
Definition ListDir_limit (req : ListDirRequest) : nat :=
  Z.to_nat (if ld_limit req >? 0 then ld_limit req else FLAGS_list_dir_default_limit).

Definition ListDirOp_Run (req : ListDirRequest) : M (Handler K T) ListDirResponse :=
  let parent_id := {| val := ld_id req |} in
  let! parent_dir := on_txn (DirTable_Read parent_id) in
  match parent_dir with
  | Unexp error =>
      let! status := SystemError (location_at list_dir_op_cc 41)
        ("Unable to get parent inode " +:+ fmt_int (val parent_id) +:+ ".") (Some error) in
      ret (MakeError status)
  | Val None =>
      let! status := ParentNotFoundError (location_at list_dir_op_cc 48)
        ("Parent inode " +:+ fmt_int (val parent_id) +:+ " not found.") None in
      ret (MakeError status)
  | Val (Some parent_dir) =>
      let! has_permission := CheckPermission (dir_acl parent_dir)
        {| user_uid := ld_uid req; user_gid := ld_gid req |} S_IRUSR in
      match has_permission with
      | Unexp error =>
          let! status := PermissionError (location_at list_dir_op_cc 56)
            ("Permission denied on parent inode " +:+ fmt_int (val parent_id) +:+ ".")
            (Some error) in
          ret (MakeError status)
      | Val _ =>
          let is_first_req := str_empty (ld_start_after req) in
          let! dots := (if is_first_req then ListDir_dots parent_id parent_dir
                        else ret (inr (None, None))) in
          match dots with
          | inl resp => ret resp
          | inr (self_dent, parent_dent) =>
              let! ents := on_txn (DEntView_List parent_id (ld_start_after req)
                                     (ListDir_limit req)) in
              match ents with
              | Unexp error =>
                  let! status := SystemError (location_at list_dir_op_cc 99)
                    ("Unable to list directory " +:+ fmt_int (val parent_id) +:+ ".")
                    (Some error) in
                  ret (MakeError status)
              | Val ents =>
                  ret {| lr_error_code := 0; lr_error_msg := ""; lr_self_dent := self_dent;
                         lr_parent_dent := parent_dent; lr_ents := ListDir_ent <$> ents;
                         lr_has_more := (Z.of_nat (length ents) =? u64 (ld_limit req))%Z |}
              end
          end
      end
  end%string.

(** ** MkdirsOp *)

(** The handler's error responses carry a code and no message. *)
Definition Mkdirs_error (c : StatusCode) : StatResponse :=
  set_error_code (StatusCode_to_int c) resp_default.

Definition Mkdirs_acl (parent_acl : Acl) (req : MkdirsRequest) : Acl :=
  let acl := {| uid := mk_uid req; gid := mk_gid req; perm := Z.land (mk_mode req) ALLPERMS |} in
  if negb (Z.land (perm parent_acl) S_ISGID =? 0) then
    {| uid := uid acl; gid := gid parent_acl; perm := Z.lor (perm acl) S_ISGID |}
  else acl.

Definition MkdirsOp_Run (now_ns : Z) (req : MkdirsRequest) : M (Handler K T) StatResponse :=
  let parent_id := {| val := mk_parent_id req |} in
  let! parent_dir := on_txn (DirTable_Read parent_id) in
  match parent_dir with
  | Unexp _ => ret (Mkdirs_error kSystemError)
  | Val None => ret (Mkdirs_error kParentNotFoundError)
  | Val (Some parent_dir) =>
      let! has_permission := CheckPermission (dir_acl parent_dir)
        {| user_uid := mk_uid req; user_gid := mk_gid req |} S_IWOTH in
      match has_permission with
      | Unexp _ => ret (Mkdirs_error kPermissionError)
      | Val _ =>
          let! id := on_ctx (on_id_gen Next) in
          let dir := {| dir_parent_id := {| val := mk_parent_id req |}; dir_name := mk_name req;
                        dir_id := id; dir_acl := Mkdirs_acl (dir_acl parent_dir) req;
                        dir_ctime_in_ns := now_ns; dir_mtime_in_ns := now_ns;
                        dir_atime_in_ns := now_ns |} in
          do! on_txn (DirTable_Write None (Some dir)) in
          let! txn := GetTxn in
          let! _ := on_ctx (on_kv (CommitTxn txn)) in
          ret {| sr_error_code := 0; sr_error_msg := ""; sr_id := val (dir_id dir);
                 sr_stat := Some (Dir_Stat dir) |}
      end
  end.

(** ** PingPongOp *)

Definition PingPongOp_Run (req : PingRequest) : M (NameNodeCtx K) PongResponse :=
  ret {| pong := "" |}.

(** ** The service: one request at a time, each with a handler of its own *)

Inductive Request :=
| ReqPingPong (r : PingRequest)
| ReqGetInode (r : GetInodeRequest)
| ReqLookup (r : LookupRequest)
| ReqListDir (r : ListDirRequest)
| ReqMkdirs (r : MkdirsRequest).
Inductive Response :=
| RespPingPong (r : PongResponse)
| RespGetInode (r : StatResponse)
| RespLookup (r : StatResponse)
| RespListDir (r : ListDirResponse)
| RespMkdirs (r : StatResponse).

(** A handler's [Run] on a fresh [HandlerCtx]; the transaction dies with it. *)
Definition with_handler {A} (run : M (Handler K T) A) : M (NameNodeCtx K) A := λ c,
  match HandlerCtx_make c with
  | (Ret h, c) => let '(o, h) := run h in (o, namenode_ctx_ h)
  | (Throw w, c) => (Throw w, c)
  | (Undef, c) => (Undef, c)
  end.

(** The classes of the operations: each object serves one request.  All but
    [PingPongOp] own a [HandlerCtx]. *)
Definition PingPongOp (req : PingRequest) : M (NameNodeCtx K) PongResponse := PingPongOp_Run req.
Definition GetInodeOp (req : GetInodeRequest) : M (NameNodeCtx K) StatResponse :=
  with_handler (GetInodeOp_Run req).
Definition LookupOp (req : LookupRequest) : M (NameNodeCtx K) StatResponse :=
  with_handler (LookupOp_Run req).
Definition ListDirOp (req : ListDirRequest) : M (NameNodeCtx K) ListDirResponse :=
  with_handler (ListDirOp_Run req).
Definition MkdirsOp (now_ns : Z) (req : MkdirsRequest) : M (NameNodeCtx K) StatResponse :=
  with_handler (MkdirsOp_Run now_ns req).

(** [RegisterRpcHandler]: the five operations, the clock reading being [now_ns]. *)
Definition serve (now_ns : Z) (req : Request) : M (NameNodeCtx K) Response :=
  match req with
  | ReqPingPong r => let! p := PingPongOp r in ret (RespPingPong p)
  | ReqGetInode r => let! p := GetInodeOp r in ret (RespGetInode p)
  | ReqLookup r => let! p := LookupOp r in ret (RespLookup p)
  | ReqListDir r => let! p := ListDirOp r in ret (RespListDir p)
  | ReqMkdirs r => let! p := MkdirsOp now_ns r in ret (RespMkdirs p)
  end.

End handlers.

(** ** What each request should answer, over the abstract namespace *)

Inductive reply (A : Type) :=
| ROk (a : A)
| RErr (c : StatusCode).
Arguments ROk {A} a.
Arguments RErr {A} c.

Section specs.
Context `{Flags}.

Definition get_inode_spec (fs : FS) (req : GetInodeRequest) : reply StatResponse :=
  match fs_dir fs {| val := GetInodeRequest_id req |} with
  | None => RErr kNotFoundError
  | Some d => ROk {| sr_error_code := 0; sr_error_msg := ""; sr_id := i64 (val (dir_id d));
                     sr_stat := Some (Dir_Stat d) |}
  end.

Definition lookup_spec (fs : FS) (req : LookupRequest) : reply StatResponse :=
  match fs_dent fs {| val := lk_parent_id req |} (lk_name req) with
  | None => RErr kNotFoundError
  | Some (inl d) => ROk {| sr_error_code := 0; sr_error_msg := ""; sr_id := i64 (val (dir_id d));
                           sr_stat := Some (Dir_Stat d) |}
  | Some (inr h) => ROk {| sr_error_code := 0; sr_error_msg := ""; sr_id := i64 (val (hl_id h));
                           sr_stat := Some (HardLink_Stat h) |}
  end.

(** The ".." of a first page: the root is its own parent, and a parent that is not
    there is left out. *)
Definition dotdot_spec (fs : FS) (id : InodeID) (d : Dir) : option ProtoDEnt :=
  let dent i := {| de_id := val i; de_name := ".."; de_type := S_IFDIR |} in
  if InodeID_eqb id kRootInodeID then Some (dent id)
  else match fs_dir fs (dir_parent_id d) with
       | Some _ => Some (dent (dir_parent_id d))
       | None => None
       end.

Definition list_dir_spec (fs : FS) (req : ListDirRequest) : reply ListDirResponse :=
  let id := {| val := ld_id req |} in
  match fs_dir fs id with
  | None => RErr kParentNotFoundError
  | Some d =>
      if granted (dir_acl d) {| user_uid := ld_uid req; user_gid := ld_gid req |} S_IRUSR then
        let ents := fs_list fs id (ld_start_after req) (ListDir_limit req) in
        let first := str_empty (ld_start_after req) in
        ROk {| lr_error_code := 0; lr_error_msg := "";
               lr_self_dent :=
                 if first then Some {| de_id := val id; de_name := "."; de_type := S_IFDIR |}
                 else None;
               lr_parent_dent := if first then dotdot_spec fs id d else None;
               lr_ents := ListDir_ent <$> ents;
               lr_has_more := Z.of_nat (length ents) =? u64 (ld_limit req) |}
      else RErr kPermissionError
  end.

(** The directory a granted [Mkdirs] creates. *)
Definition mkdirs_dir (parent : Dir) (id : InodeID) (now_ns : Z) (req : MkdirsRequest) : Dir :=
  {| dir_parent_id := {| val := mk_parent_id req |}; dir_name := mk_name req; dir_id := id;
     dir_acl := Mkdirs_acl (dir_acl parent) req; dir_ctime_in_ns := now_ns;
     dir_mtime_in_ns := now_ns; dir_atime_in_ns := now_ns |}.

Definition mkdirs_spec (fs : FS) (req : MkdirsRequest) : reply (InodeID → Z → Dir) :=
  match fs_dir fs {| val := mk_parent_id req |} with
  | None => RErr kParentNotFoundError
  | Some p =>
      if granted (dir_acl p) {| user_uid := mk_uid req; user_gid := mk_gid req |} S_IWOTH
      then ROk (λ id now_ns, mkdirs_dir p id now_ns req)
      else RErr kPermissionError
  end.

Definition mkdirs_resp (d : Dir) : StatResponse :=
  {| sr_error_code := 0; sr_error_msg := ""; sr_id := val (dir_id d);
     sr_stat := Some (Dir_Stat d) |}.

End specs.

(** An error response: the code, some message, and nothing else. *)
Definition error_reply {A} `{ErrorResp A} (resp : A) (c : StatusCode) : Prop :=
  ∃ msg, resp = set_error_msg msg (set_error_code (StatusCode_to_int c) resp_default).

(** The handler answers what the specification says; a handler whose reads meet
    I/O errors may answer [kSystemError] or throw instead. *)
Definition replies {A} `{ErrorResp A} (healthy : Prop) (spec : reply A) (o : outcome A) : Prop :=
  (∃ resp, o = Ret resp ∧
     match spec with ROk r => resp = r | RErr c => error_reply resp c end) ∨
  (¬ healthy ∧
     ((∃ resp, o = Ret resp ∧ error_reply resp kSystemError) ∨ ∃ w, o = Throw w)).

(** ** Lemmas *)

Section handlers_lemmas.
Context {K T : Type} `{KVStoreBase K T, KVStoreSpec K, TxnSpec T, DirTableBase T,
  DEntViewBase T, FSRep, Fmt, Build, Flags, !KVStoreLaws K T, !DirTableLaws T,
  !DEntViewLaws T}.

Definition set_txn (t : option T) (h : Handler K T) : Handler K T :=
  {| namenode_ctx_ := namenode_ctx_ h; txn_ := t |}.

(** [run] leaves the namenode alone and answers [spec]. *)
Definition answers {A} `{ErrorResp A} (run : M (Handler K T) A) (c : NameNodeCtx K) (t : T)
    (spec : reply A) : Prop :=
  ∃ o t', run {| namenode_ctx_ := c; txn_ := Some t |}
          = (o, {| namenode_ctx_ := c; txn_ := Some t' |}) ∧
          txn_frame t t' ∧ replies (txn_healthy t) spec o.

Lemma answers_bind {A B} `{ErrorResp B} (m : M T (expected A))
    (k : expected A → M (Handler K T) B) (c : NameNodeCtx K) (t : T) (v : A) (spec : reply B) :
  reads m t v →
  (∀ e h, status_wf e → ∃ resp, k (Unexp e) h = (Ret resp, h) ∧ error_reply resp kSystemError) →
  (∀ t', txn_frame t t' → answers (k (Val v)) c t' spec) →
  answers (bind (on_txn m) k) c t spec.
Proof.
  intros (o & t1 & E & Hf & Hr) Herr Hval. unfold answers, bind, on_txn. cbn [txn_]. rewrite E.
  cbn [namenode_ctx_].
  assert (txn_healthy t ↔ txn_healthy t1) as Hh by apply Hf.
  destruct Hr as [-> | [Hn [(e & -> & He)|(s & ->)]]].
  - destruct (Hval t1 Hf) as (o & t2 & -> & Hf2 & Hr). exists o, t2.
    split; [done|]. split; [by eapply txn_frame_trans|]. unfold replies in *. by rewrite Hh.
  - destruct (Herr e {| namenode_ctx_ := c; txn_ := Some t1 |} He) as (resp & -> & Hresp).
    do 2 eexists. split; [done|]. split; [done|]. right. eauto.
  - do 2 eexists. split; [done|]. split; [done|]. right. eauto.
Qed.

Lemma answers_Ret {A} `{ErrorResp A} (run : M (Handler K T) A) c (t : T) resp spec :
  txn_wf t →
  run {| namenode_ctx_ := c; txn_ := Some t |}
    = (Ret resp, {| namenode_ctx_ := c; txn_ := Some t |}) →
  match spec with ROk r => resp = r | RErr e => error_reply resp e end →
  answers run c t spec.
Proof.
  intros Hwf E Hr. exists (Ret resp), t. split; [exact E|]. split; [by apply txn_frame_refl|].
  left. eauto.
Qed.

(** Making a status and answering with it. *)
Lemma status_reply_then {A S} `{ErrorResp A} code loc msg internal (k : Status → M S A) (s : S) :
  (∀ st s, k st s = (Ret (MakeError st), s)) →
  msg_wf msg → (∀ e, internal = Some e → status_wf e) →
  ∃ resp, bind (Status_make code msg internal loc) k s = (Ret resp, s) ∧ error_reply resp code.
Proof.
  intros Hk Hm Hi.
  destruct (Status_make_bind code msg internal loc k s Hm Hi) as (st & E & <- & _).
  exists (MakeError st). rewrite E, Hk. split; [done|]. by exists (msg_ st).
Qed.

Lemma status_reply {A S} `{ErrorResp A} code loc msg internal (s : S) :
  msg_wf msg → (∀ e, internal = Some e → status_wf e) →
  ∃ resp, bind (Status_make code msg internal loc) (λ status, ret (MakeError status)) s
          = (Ret (resp : A), s) ∧ error_reply resp code.
Proof. by apply status_reply_then. Qed.

Lemma answers_status {A} `{ErrorResp A} code loc msg internal c (t : T) :
  txn_wf t → msg_wf msg → (∀ e, internal = Some e → status_wf e) →
  answers (A := A) (bind (Status_make code msg internal loc) (λ status, ret (MakeError status)))
    c t (RErr code).
Proof.
  intros Hwf Hm Hi.
  destruct (status_reply (A := A) code loc msg internal
    {| namenode_ctx_ := c; txn_ := Some t |} Hm Hi) as (resp & E & Hr).
  by apply (answers_Ret _ _ _ resp).
Qed.

Lemma some_wf (error : Status) : status_wf error → ∀ e, Some error = Some e → status_wf e.
Proof. by intros ? ? [= <-]. Qed.
Lemma none_wf : ∀ e, None = Some e → status_wf e.
Proof. done. Qed.

Lemma GetInodeOp_answers req c (t : T) fs :
  is_u64 (GetInodeRequest_id req) → txn_wf t → fs_rep (txn_snapshot t) fs →
  answers (GetInodeOp_Run req) c t (get_inode_spec fs req).
Proof.
  intros Hid Hwf Hrep. unfold GetInodeOp_Run, get_inode_spec.
  eapply answers_bind; [by apply DirTable_Read_law | |].
  { intros e h He. apply status_reply; [solve_msg_wf | by apply some_wf]. }
  intros t1 (_ & _ & _ & _ & Hwf1). destruct (fs_dir fs _) as [d|].
  - by eapply answers_Ret.
  - apply answers_status; [done | solve_msg_wf | apply none_wf].
Qed.

Lemma LookupOp_answers req c (t : T) fs :
  is_u64 (lk_parent_id req) → txn_wf t → fs_rep (txn_snapshot t) fs →
  answers (LookupOp_Run req) c t (lookup_spec fs req).
Proof.
  intros Hid Hwf Hrep. unfold LookupOp_Run, lookup_spec.
  eapply answers_bind; [by apply DEntView_Read_law | |].
  { intros e h He. apply status_reply; [solve_msg_wf | by apply some_wf]. }
  intros t1 (_ & _ & _ & _ & Hwf1). destruct (fs_dent fs _ _) as [[d|l]|]; [by eapply answers_Ret..|].
  apply answers_status; [done | solve_msg_wf | apply none_wf].
Qed.

Lemma answers_pure {A B} `{ErrorResp B} (m : M (Handler K T) A) (k : A → M (Handler K T) B)
    c (t : T) (a : A) spec :
  (∀ h, m h = (Ret a, h)) → answers (k a) c t spec → answers (bind m k) c t spec.
Proof. intros E. unfold answers, bind. by rewrite E. Qed.

Lemma answers_assoc {A B C} `{ErrorResp C} (m : M (Handler K T) A) (k : A → M (Handler K T) B)
    (k' : B → M (Handler K T) C) c (t : T) spec :
  answers (bind m (λ a, bind (k a) k')) c t spec → answers (bind (bind m k) k') c t spec.
Proof. unfold answers. by rewrite bind_assoc. Qed.

(** The permission check of a handler. *)
Lemma answers_check {B} `{ErrorResp B} acl user p (k : expected unit → M (Handler K T) B)
    c (t : T) spec :
  (granted acl user p = true → answers (k (Val tt)) c t spec) →
  (granted acl user p = false → ∀ e, status_wf e → answers (k (Unexp e)) c t spec) →
  answers (bind (CheckPermission acl user p) k) c t spec.
Proof.
  intros Ht Hf. unfold answers, bind.
  destruct (CheckPermission_eval acl user p {| namenode_ctx_ := c; txn_ := Some t |})
    as (st & _ & Hst & ->).
  destruct (granted acl user p); [by apply Ht | by apply Hf].
Qed.

Lemma ListDirOp_answers req c (t : T) fs :
  is_u64 (ld_id req) → txn_wf t → fs_rep (txn_snapshot t) fs →
  answers (ListDirOp_Run req) c t (list_dir_spec fs req).
Proof.
  intros Hid Hwf Hrep. unfold ListDirOp_Run, list_dir_spec.
  eapply answers_bind; [by apply DirTable_Read_law | |].
  { intros e h He. apply status_reply; [solve_msg_wf | by apply some_wf]. }
  intros t1 (Hs1 & _ & _ & _ & Hwf1). destruct (fs_dir fs _) as [d|] eqn:Ed; cycle 1.
  { apply answers_status; [done | solve_msg_wf | apply none_wf]. }
  apply answers_check; intros Hg; rewrite Hg; cycle 1.
  { intros e He. apply answers_status; [done | solve_msg_wf | by apply some_wf]. }
  (* the page, once the dots are known *)
  assert (∀ t2 self parent, txn_frame t1 t2 → answers
    (let! ents := on_txn (DEntView_List {| val := ld_id req |} (ld_start_after req)
                            (ListDir_limit req)) in
     match ents with
     | Unexp error =>
         let! status := SystemError (location_at list_dir_op_cc 99)
           ("Unable to list directory " +:+ fmt_int (ld_id req) +:+ ".")%string
           (Some error) in
         ret (MakeError status)
     | Val ents =>
         ret {| lr_error_code := 0; lr_error_msg := ""; lr_self_dent := self;
                lr_parent_dent := parent; lr_ents := ListDir_ent <$> ents;
                lr_has_more := Z.of_nat (length ents) =? u64 (ld_limit req) |}
     end) c t2
    (let ents := fs_list fs {| val := ld_id req |} (ld_start_after req) (ListDir_limit req) in
     ROk {| lr_error_code := 0; lr_error_msg := ""; lr_self_dent := self;
            lr_parent_dent := parent; lr_ents := ListDir_ent <$> ents;
            lr_has_more := Z.of_nat (length ents) =? u64 (ld_limit req) |})) as Hpage.
  { intros t2 self parent (Hs2 & _ & _ & _ & Hwf2).
    eapply answers_bind; [apply DEntView_List_law; [done..|by rewrite Hs2, Hs1] | |].
    { intros e h He. apply status_reply; [solve_msg_wf | by apply some_wf]. }
    intros t3 (_ & _ & _ & _ & Hwf3). by eapply answers_Ret. }
  cbn zeta. destruct (str_empty (ld_start_after req)).
  - unfold ListDir_dots, dotdot_spec. destruct (InodeID_eqb _ kRootInodeID).
    { eapply answers_pure; [done|]. apply Hpage. apply txn_frame_refl. exact Hwf1. }
    apply answers_assoc. eapply answers_bind.
    { apply (DirTable_Read_law (dir_parent_id d) t1 fs);
        [exact (DirTable_parent_law _ _ {| val := ld_id req |} d Hrep Hid Ed) | done | by rewrite Hs1]. }
    { intros e h He. rewrite bind_assoc.
      by apply status_reply_then; [|solve_msg_wf | apply some_wf]. }
    intros t2 Hf2. destruct (fs_dir fs (dir_parent_id d)) as [g|];
      (eapply answers_pure; [done|]; by apply Hpage).
  - eapply answers_pure; [done|]. apply Hpage. apply txn_frame_refl. exact Hwf1.
Qed.

(** *** Mkdirs *)

(** What follows the permission check. *)
Definition mkdirs_rest (now_ns : Z) (mk : InodeID → Z → Dir) : M (Handler K T) StatResponse :=
  let! id := on_ctx (on_id_gen Next) in
  do! on_txn (DirTable_Write None (Some (mk id now_ns))) in
  let! txn := GetTxn in
  let! _ := on_ctx (on_kv (CommitTxn txn)) in
  ret (mkdirs_resp (mk id now_ns)).

(** A request is refused, or goes on to create the directory, as specified, unless
    the parent could not be read. *)
Lemma MkdirsOp_cases now_ns req c (t : T) fs :
  is_u64 (mk_parent_id req) → txn_wf t → fs_rep (txn_snapshot t) fs →
  ∃ t', txn_frame t t' ∧
    (MkdirsOp_Run now_ns req {| namenode_ctx_ := c; txn_ := Some t |} =
       match mkdirs_spec fs req with
       | RErr e => (Ret (Mkdirs_error e), {| namenode_ctx_ := c; txn_ := Some t' |})
       | ROk mk => mkdirs_rest now_ns mk {| namenode_ctx_ := c; txn_ := Some t' |}
       end ∨
     ¬ txn_healthy t ∧
     ∃ o, MkdirsOp_Run now_ns req {| namenode_ctx_ := c; txn_ := Some t |}
          = (o, {| namenode_ctx_ := c; txn_ := Some t' |}) ∧
          (o = Ret (Mkdirs_error kSystemError) ∨ ∃ w, o = Throw w)).
Proof.
  intros Hid Hwf Hrep. unfold MkdirsOp_Run, mkdirs_spec.
  destruct (DirTable_Read_law {| val := mk_parent_id req |} t fs Hid Hwf Hrep)
    as (o & t1 & E & Hf & Hr). exists t1. split; [exact Hf|].
  destruct Hr as [-> | [Hn [(e & -> & _)|(w & ->)]]]; [left | right; split; [done|]..]; cycle 1.
  { eexists. erewrite bind_Ret by (unfold on_txn; cbn [txn_]; by rewrite E). eauto. }
  { exists (Throw w). unfold bind, on_txn. cbn [txn_]. rewrite E. eauto. }
  erewrite bind_Ret by (unfold on_txn; cbn [txn_]; by rewrite E). cbn [namenode_ctx_].
  destruct (fs_dir fs _) as [p|]; [|done].
  destruct (CheckPermission_eval (dir_acl p) {| user_uid := mk_uid req; user_gid := mk_gid req |}
    S_IWOTH {| namenode_ctx_ := c; txn_ := Some t1 |}) as (st & _ & _ & E2).
  erewrite bind_Ret by exact E2. by destruct (granted _ _ _).
Qed.

Definition ctx_with (k : K) (g : IDGen) : NameNodeCtx K :=
  {| kv_store_ := k; inode_id_generator_ := g |}.

(** What a commit's outcome leaves of the reply: nothing, unless it throws. *)
Definition after_commit {A} (oc : outcome (expected unit)) (a : A) : outcome A :=
  match oc with Ret _ => Ret a | Throw w => Throw w | Undef => Undef end.

(** A request's commit: [oc] is what [CommitTxn] made of a transaction of the
    request, on the store the request's own [StartTxn] left. *)
Definition commits (k k' : K) (oc : outcome (expected unit)) : Prop :=
  ∃ (t0 t : T) k1, StartTxn k = (Ret t0, k1) ∧ txn_wf t ∧ txn_id t = txn_id t0 ∧
    CommitTxn t k1 = (oc, k').

Lemma mkdirs_rest_eval now_ns k g (t : T) mk id g' :
  txn_wf t → txn_writes t = ∅ → kv_ok k → Next g = (Ret id, g') → dir_ok (mk id now_ns) →
  ∃ oc k',
    mkdirs_rest now_ns mk {| namenode_ctx_ := ctx_with k g; txn_ := Some t |}
    = (after_commit oc (mkdirs_resp (mk id now_ns)),
       {| namenode_ctx_ := ctx_with k' g'; txn_ := None |}) ∧
    kv_ok k' ∧ 
    (∃ t2 : T, txn_wf t2 ∧ txn_id t2 = txn_id t ∧ CommitTxn t2 k = (oc, k')) ∧
    ∀ fs1, fs_rep (kv_contents k) fs1 →
      fs_rep (kv_contents k') (fs_insert (mk id now_ns) fs1) ∨
      (kv_contents k' = kv_contents k ∧ oc ≠ Ret (Val tt)).
Proof.
  intros Hwf Hw0 Hk HN Hok. unfold mkdirs_rest.
  erewrite bind_Ret by (unfold on_ctx, on_id_gen, zoom; cbn [namenode_ctx_ inode_id_generator_ ctx_with];
    rewrite HN; reflexivity).
  destruct (DirTable_Write_law None (Some (mk id now_ns)) t Hwf) as (t2 & E2 & (_ & _ & _ & Hid2 & Hwf2) & Hrep2).
  { by intros d [= <-]. }
  erewrite bind_Ret by (unfold on_txn; cbn [txn_]; rewrite E2; reflexivity).
  erewrite bind_Ret by reflexivity.
  destruct (CommitTxn_law t2 k Hk Hwf2) as (oc & k' & E3 & Hk' & Hc).
  exists oc, k'. split; [|split; [exact Hk'|split; [by exists t2|]]].
  - unfold bind, on_ctx, on_kv, zoom. cbn [namenode_ctx_ kv_store_ ctx_with txn_]. rewrite E3.
    by destruct oc.
  - intros fs1 Hfs1. destruct Hc as [Hc|Hc]; [|by right]. left. rewrite Hc.
    apply (Hrep2 (kv_contents k) fs1); [|done]. by rewrite Hw0, apply_writes_empty.
Qed.

Lemma mkdirs_dir_ok p id now_ns req :
  is_u64 (val id) → is_u64 (mk_parent_id req) → mk_name req ≠ ""%string → is_i64 now_ns →
  dir_ok (mkdirs_dir p id now_ns req).
Proof. unfold dir_ok. auto 10. Qed.

(** The bits [S_IRUSR] asks of each class. *)
Lemma granted_S_IRUSR acl user :
  granted acl user S_IRUSR =
  (user_uid user =? 0) || Z.testbit (perm acl) (8 + class_shift acl user).
Proof.
  unfold granted, perm_needed, class_shift.
  assert (∀ k, 0 ≤ k → (Z.land (perm acl) (2 ^ k) =? 2 ^ k) = Z.testbit (perm acl) k) as Hbit.
  { intros k Hk. apply eq_true_iff_eq. rewrite Z.eqb_eq, land_subset. split.
    - intros Hs. apply Hs; [done|]. by apply Z.pow2_bits_true.
    - intros Ht i Hi Hb. rewrite Z.pow2_bits_eqb in Hb by done. by apply Z.eqb_eq in Hb as <-. }
  destruct (Z.eqb_spec (user_uid user) 0); [by rewrite Z.land_0_r|]. cbn [orb].
  destruct (_ =? uid acl); [|destruct (_ =? gid acl)].
  - apply (Hbit 14). lia.
  - apply (Hbit 11). lia.
  - apply (Hbit 8). lia.
Qed.

(** *** Whole requests *)

Definition ctx_ok (c : NameNodeCtx K) (fs : FS) : Prop :=
  kv_ok (kv_store_ c) ∧ fs_rep (kv_contents (kv_store_ c)) fs ∧
  idgen_wf (inode_id_generator_ c).

Definition flags_ok : Prop := FLAGS_request_monotonic_buffer_resource_prealloc_bytes > 0.

Lemma HandlerCtx_make_ok (c : NameNodeCtx K) fs :
  flags_ok → ctx_ok c fs →
  ∃ k' (t : T), HandlerCtx_make c =
    (Ret {| namenode_ctx_ := ctx_with k' (inode_id_generator_ c); txn_ := Some t |},
     ctx_with k' (inode_id_generator_ c)) ∧
    StartTxn (kv_store_ c) = (Ret t, k') ∧
    ctx_ok (ctx_with k' (inode_id_generator_ c)) fs ∧ txn_wf t ∧
    fs_rep (txn_snapshot t) fs ∧ txn_writes t = ∅ ∧
    kv_contents k' = kv_contents (kv_store_ c) ∧
    (kv_healthy (kv_store_ c) → txn_healthy t).
Proof.
  intros Hfl (Hk & Hrep & Hg). destruct (StartTxn_law (kv_store_ c) Hk)
    as (t & k' & E & Hk' & Hc & Hwf & Hs & Hw & Hh).
  exists k', t. split.
  - unfold HandlerCtx_make, on_kv. erewrite bind_Ret by (unfold zoom; rewrite E; reflexivity).
    unfold flags_ok in Hfl. unfold bind, Check.
    destruct (Z.gtb_spec FLAGS_request_monotonic_buffer_resource_prealloc_bytes 0); [done|lia].
  - split; [exact E|]. unfold ctx_ok. cbn [kv_store_ inode_id_generator_ ctx_with]. rewrite Hc, Hs. auto 10.
Qed.

(** A read request, from the reply of its handler. *)
Lemma with_handler_answers {A} `{ErrorResp A} (run : M (Handler K T) A) (c : NameNodeCtx K) fs spec :
  flags_ok → ctx_ok c fs →
  (∀ c' (t : T), txn_wf t → fs_rep (txn_snapshot t) fs → answers run c' t spec) →
  ∃ o c', with_handler run c = (o, c') ∧ replies (kv_healthy (kv_store_ c)) spec o ∧
    ctx_ok c' fs ∧ inode_id_generator_ c' = inode_id_generator_ c ∧
    kv_contents (kv_store_ c') = kv_contents (kv_store_ c) ∧
    ∃ t : T, StartTxn (kv_store_ c) = (Ret t, kv_store_ c').
Proof.
  intros Hfl Hc Hrun. destruct (HandlerCtx_make_ok c fs Hfl Hc)
    as (k' & t & E & Hst & Hc' & Hwf & Hrep & _ & Hkv & Hh).
  destruct (Hrun (ctx_with k' (inode_id_generator_ c)) t Hwf Hrep) as (o & t' & Er & _ & Ho).
  exists o, (ctx_with k' (inode_id_generator_ c)). unfold with_handler. rewrite E, Er.
  split_and!; try done; [|by exists t]. destruct Ho as [Ho|[Hn Ho]]; [by left|]. right.
  split; [|exact Ho]. tauto.
Qed.

(** A whole [Mkdirs] request. *)
Lemma with_handler_Mkdirs now_ns req (c : NameNodeCtx K) fs :
  flags_ok → ctx_ok c fs → is_u64 (mk_parent_id req) → mk_name req ≠ ""%string → is_i64 now_ns →
  let g := inode_id_generator_ c in
  ∃ o c', with_handler (MkdirsOp_Run now_ns req) c = (o, c') ∧
    ( (* nothing created *)
     (ctx_ok c' fs ∧ inode_id_generator_ c' = g ∧
      (∃ t : T, StartTxn (kv_store_ c) = (Ret t, kv_store_ c')) ∧
      ((∃ e, mkdirs_spec fs req = RErr e ∧ o = Ret (Mkdirs_error e)) ∨
       ¬ kv_healthy (kv_store_ c) ∧
         (o = Ret (Mkdirs_error kSystemError) ∨ ∃ w, o = Throw w))) ∨
     (* the IDs are used up *)
     (∃ mk w, mkdirs_spec fs req = ROk mk ∧ (Next g).1 = Throw w ∧ o = Throw w) ∨
     (* created, or the commit failed *)
     (∃ mk id oc, mkdirs_spec fs req = ROk mk ∧ Next g = (Ret id, inode_id_generator_ c') ∧
        o = after_commit oc (mkdirs_resp (mk id now_ns)) ∧
        commits (kv_store_ c) (kv_store_ c') oc ∧
        (ctx_ok c' (fs_insert (mk id now_ns) fs) ∨ ctx_ok c' fs ∧ oc ≠ Ret (Val tt)))).
Proof.
  intros Hfl Hc Hid Hname Hnow g. destruct (HandlerCtx_make_ok c fs Hfl Hc)
    as (k' & t & E & Hst & Hc' & Hwf & Hrep & Hw0 & Hkv & Hh).
  unfold with_handler. rewrite E. fold g in E, Hc' |- *.
  destruct (MkdirsOp_cases now_ns req (ctx_with k' g) t fs Hid Hwf Hrep) as (t1 & Hf & Hrun).
  destruct Hrun as [Hrun | (Hn & o & Hrun & Ho)]; rewrite Hrun; cycle 1.
  { do 2 eexists. split; [done|]. left. split_and!; [done|done|by exists t|]. right.
    split; [tauto | done]. }
  destruct (mkdirs_spec fs req) as [mk|e] eqn:Hspec; cycle 1.
  { do 2 eexists. split; [done|]. left. split_and!; [done|done|by exists t|]. left. eauto. }
  assert (idgen_wf g) as Hg by apply Hc.
  destruct (Next g) as [[id|w|] g'] eqn:HN; cycle 1.
  { exists (Throw w), (ctx_with k' g'). split; [|right; left; by exists mk, w].
    unfold mkdirs_rest, bind, on_ctx, on_id_gen, zoom. cbn [namenode_ctx_ inode_id_generator_ ctx_with].
    by rewrite HN. }
  { exfalso. by apply Next_not_Undef in HN. }
  destruct Hf as (_ & Hw1 & _ & Hid1 & Hwf1). rewrite Hw0 in Hw1.
  destruct (Next_Ret _ _ _ Hg HN) as (_ & _ & Hg').
  destruct (mkdirs_rest_eval now_ns k' g t1 mk id g' Hwf1 Hw1 (proj1 Hc') HN) as (oc & k2 & -> & Hk2 & (t2 & Hwf2 & Hid2 & Ht2) & Hc2).
  { unfold mkdirs_spec in Hspec. destruct (fs_dir fs _) as [p|]; [|done].
    destruct (granted _ _ _); [|done]. injection Hspec as <-.
    apply mkdirs_dir_ok; try done. exact (Next_u64 _ _ _ Hg HN). }
  do 2 eexists. split; [done|]. right. right. exists mk, id, oc. split; [done|]. split; [done|].
  split; [done|]. unfold ctx_ok. cbn [kv_store_ inode_id_generator_ ctx_with namenode_ctx_].
  split; [exists t, t2, k'; split_and!; try done; congruence|].
  destruct (Hc2 fs) as [Hc3|[Hc3 Hne]]; [apply Hc'| by left |]. right.
  rewrite Hc3. split; [|exact Hne]. split; [exact Hk2|]. split; [apply Hc' | exact Hg'].
Qed.

End handlers_lemmas.

(** ** Properties *)

Section properties.
Context {K T : Type} `{KVStoreBase K T, KVStoreSpec K, TxnSpec T, DirTableBase T,
  DEntViewBase T, FSRep, Fmt, Build, Flags, !KVStoreLaws K T, !DirTableLaws T,
  !DEntViewLaws T}.

(** C4: [GetInode], [Lookup] and [ListDir] answer what the
    namespace in the store determines (the codes [kNotFoundError],
    [kParentNotFoundError] and [kPermissionError] included) and change nothing in
    the store; only a store whose reads fail makes them answer [kSystemError] or
    throw. *)
Theorem read_requests_refine (c : NameNodeCtx K) (fs : FS) (gi : GetInodeRequest)
    (lk : LookupRequest) (ld : ListDirRequest)
    (Hfl : flags_ok) (Hc : ctx_ok c fs) (Hgi : is_u64 (GetInodeRequest_id gi))
    (Hlk : is_u64 (lk_parent_id lk)) (Hld : is_u64 (ld_id ld)) :
  (∃ o c', with_handler (GetInodeOp_Run gi) c = (o, c') ∧
     replies (kv_healthy (kv_store_ c)) (get_inode_spec fs gi) o ∧
     kv_contents (kv_store_ c') = kv_contents (kv_store_ c)) ∧
  (∃ o c', with_handler (LookupOp_Run lk) c = (o, c') ∧
     replies (kv_healthy (kv_store_ c)) (lookup_spec fs lk) o ∧
     kv_contents (kv_store_ c') = kv_contents (kv_store_ c)) ∧
  (∃ o c', with_handler (ListDirOp_Run ld) c = (o, c') ∧
     replies (kv_healthy (kv_store_ c)) (list_dir_spec fs ld) o ∧
     kv_contents (kv_store_ c') = kv_contents (kv_store_ c)).
Proof.
  split_and!.
  - destruct (with_handler_answers (GetInodeOp_Run gi) c fs (get_inode_spec fs gi) Hfl Hc)
      as (o & c' & ? & ? & _ & _ & ? & _); [intros; by apply GetInodeOp_answers|]. by exists o, c'.
  - destruct (with_handler_answers (LookupOp_Run lk) c fs (lookup_spec fs lk) Hfl Hc)
      as (o & c' & ? & ? & _ & _ & ? & _); [intros; by apply LookupOp_answers|]. by exists o, c'.
  - destruct (with_handler_answers (ListDirOp_Run ld) c fs (list_dir_spec fs ld) Hfl Hc)
      as (o & c' & ? & ? & _ & _ & ? & _); [intros; by apply ListDirOp_answers|]. by exists o, c'.
Qed.

(** C3: on a healthy store, [Mkdirs] refuses what the specification
    refuses and changes nothing; otherwise it draws an ID (throwing when they are
    used up) and commits.  A successful commit adds exactly the specified directory,
    with its four rows; one that fails adds it or leaves the namespace as it was.
    The reply reports success whatever status the commit returned. *)
Theorem mkdirs_refines (now_ns : Z) (req : MkdirsRequest) (c : NameNodeCtx K) (fs : FS)
    (Hfl : flags_ok) (Hc : ctx_ok c fs) (Hh : kv_healthy (kv_store_ c))
    (Hid : is_u64 (mk_parent_id req)) (Hname : mk_name req ≠ ""%string) (Hnow : is_i64 now_ns) :
  ∃ o c', with_handler (MkdirsOp_Run now_ns req) c = (o, c') ∧
    match mkdirs_spec fs req with
    | RErr e => o = Ret (Mkdirs_error e) ∧ ctx_ok c' fs
    | ROk mk =>
        (∃ w, (Next (inode_id_generator_ c)).1 = Throw w ∧ o = Throw w) ∨
        ∃ id oc, Next (inode_id_generator_ c) = (Ret id, inode_id_generator_ c') ∧
          o = after_commit oc (mkdirs_resp (mk id now_ns)) ∧
          commits (T := T) (kv_store_ c) (kv_store_ c') oc ∧
          (ctx_ok c' (fs_insert (mk id now_ns) fs) ∨ ctx_ok c' fs ∧ oc ≠ Ret (Val tt))
    end.
Proof.
  destruct (with_handler_Mkdirs now_ns req c fs Hfl Hc Hid Hname Hnow) as (o & c' & E & Hcase).
  exists o, c'. split; [exact E|].
  destruct Hcase as [(Hc' & _ & _ & [(e & -> & ->)|[Hn _]])|[(mk & w & -> & Hw & ->)|
    (mk & id & oc & -> & HN & -> & Hc')]]; [done | done | left; eauto | right; eauto].
Qed.

(** Creating a directory under a name that is
    taken is not refused: once the commit succeeds the reply is a success and the
    entry names the new directory; the inode it named before is still there, and
    no longer reachable by that name. *)
Theorem mkdirs_replaces_existing_entry (now_ns : Z) (req : MkdirsRequest) (c c' : NameNodeCtx K)
    (fs : FS) (mk : InodeID → Z → Dir) (old : Dir) (resp : StatResponse) (id : InodeID)
    (Hfl : flags_ok) (Hc : ctx_ok c fs) (Hh : kv_healthy (kv_store_ c))
    (Hid : is_u64 (mk_parent_id req)) (Hname : mk_name req ≠ ""%string) (Hnow : is_i64 now_ns)
    (Hmk : mkdirs_spec fs req = ROk mk)
    (Hold : fs_dents fs !! (mk_parent_id req, mk_name req) = Some (inl old))
    (Hinode : fs_inodes fs !! val (dir_id old) = Some (inl old))
    (Hnext : (Next (inode_id_generator_ c)).1 = Ret id) (Hnew : dir_id old ≠ id)
    (Hrun : with_handler (MkdirsOp_Run now_ns req) c = (Ret resp, c')) :
  sr_error_code resp = 0 ∧ sr_id resp = val id ∧
  ∃ fs' oc, ctx_ok c' fs' ∧ commits (T := T) (kv_store_ c) (kv_store_ c') oc ∧
    (fs' = fs ∧ oc ≠ Ret (Val tt) ∨
     (fs_dent fs' {| val := mk_parent_id req |} (mk_name req) = Some (inl (dent_image (mk id now_ns))) ∧
      fs_dir fs' (dir_id old) = Some (dir_seen old))).
Proof.
  destruct (with_handler_Mkdirs now_ns req c fs Hfl Hc Hid Hname Hnow) as (o & c1 & E & Hcase).
  rewrite Hrun in E. injection E as <- <-.
  destruct Hcase as [(Hc' & _ & _ & [(e & He & _)|[Hn _]])|[(mk' & w & _ & Hw & _)|
    (mk' & id' & oc & Hmk' & HN & Ho & Hcm & Hc')]]; [congruence | done | congruence |].
  rewrite HN in Hnext. injection Hnext as ->. rewrite Hmk in Hmk'. injection Hmk' as <-.
  assert (val (dir_id old) ≠ val id) as Hne.
  { intros Heq. apply Hnew. destruct (dir_id old), id. simpl in *. by subst. }
  assert (dir_parent_id (mk id now_ns) = {| val := mk_parent_id req |} ∧
          dir_name (mk id now_ns) = mk_name req ∧ dir_id (mk id now_ns) = id) as (Ep & En & Ei).
  { unfold mkdirs_spec in Hmk. destruct (fs_dir fs _) as [p|]; [|done].
    destruct (granted _ _ _); [|done]. by injection Hmk as <-. }
  destruct oc as [x|w|]; [|done..]. injection Ho as ->. unfold mkdirs_resp. cbn [sr_error_code sr_id].
  split; [done|]. split; [by rewrite Ei|].
  destruct Hc' as [Hc'|[Hc' Hx]]; [|by exists fs, (Ret x); auto].
  exists (fs_insert (mk id now_ns) fs), (Ret x). split; [exact Hc'|]. split; [exact Hcm|]. right.
  unfold fs_dent, fs_dir, fs_insert. cbn [fs_dents fs_inodes val]. rewrite Ep, En, Ei. cbn [val].
  by rewrite lookup_insert_eq, lookup_insert_ne, Hinode.
Qed.

(** C35: the stored directory has lost its permission bits: whatever
    mode it was created with, every later [Mkdirs] or [ListDir] in it by a user
    other than root, its owner included, is refused. *)
Theorem created_dir_locked (now_ns : Z) (d : Dir) (mkreq : MkdirsRequest) (ld : ListDirRequest)
    (c : NameNodeCtx K) (fs : FS)
    (Hfl : flags_ok) (Hc : ctx_ok c (fs_insert d fs)) (Hh : kv_healthy (kv_store_ c))
    (Hd : is_u64 (val (dir_id d)))
    (Hmk : mk_parent_id mkreq = val (dir_id d)) (Hmu : 0 < mk_uid mkreq)
    (Hname : mk_name mkreq ≠ ""%string) (Hnow : is_i64 now_ns)
    (Hld : ld_id ld = val (dir_id d)) (Hlu : 0 < ld_uid ld) :
  (with_handler (MkdirsOp_Run now_ns mkreq) c).1 = Ret (Mkdirs_error kPermissionError) ∧
  ∃ resp, (with_handler (ListDirOp_Run ld) c).1 = Ret resp ∧ error_reply resp kPermissionError.
Proof.
  assert (∀ u g p, 0 < u → p = S_IRUSR ∨ p = S_IWOTH →
    granted zero_acl {| user_uid := u; user_gid := g |} p = false) as Hdeny.
  { intros u g p Hu Hp. unfold granted, perm_needed. cbn [user_uid user_gid zero_acl uid gid perm].
    destruct (Z.eqb_spec u 0); [lia|]. destruct (g =? 0); destruct Hp as [-> | ->]; reflexivity. }
  assert (fs_dir (fs_insert d fs) {| val := val (dir_id d) |} = Some (dir_seen d)) as Hdir.
  { unfold fs_dir, fs_insert. cbn [fs_inodes val]. by rewrite lookup_insert_eq. }
  split.
  - assert (mkdirs_spec (fs_insert d fs) mkreq = RErr kPermissionError) as Hspec.
    { unfold mkdirs_spec. rewrite Hmk, Hdir. cbn [dir_acl dir_seen]. by rewrite Hdeny by auto. }
    destruct (with_handler_Mkdirs now_ns mkreq c _ Hfl Hc) as (o & c' & -> & Hcase);
      [by rewrite Hmk | done | done |].
    destruct Hcase as [(_ & _ & _ & [(e & He & ->)|[Hn _]])|[(mk & w & Hm & _)|(mk & id & oc & Hm & _)]];
      try congruence. rewrite Hspec in He. by injection He as <-.
  - destruct (with_handler_answers (ListDirOp_Run ld) c _ (list_dir_spec (fs_insert d fs) ld) Hfl Hc)
      as (o & c' & -> & Hr & _); [intros; apply ListDirOp_answers; [by rewrite Hld|done..]|].
    destruct Hr as [(resp & -> & Hr)|[? _]]; [|done]. exists resp. split; [done|].
    unfold list_dir_spec in Hr. rewrite Hld, Hdir in Hr. cbn [dir_acl dir_seen] in Hr.
    by rewrite Hdeny in Hr by auto.
Qed.

(** [ListDir] does not test the read bit of the user's class but
    the bit eight places above the class's lowest one: for the others class that
    is the owner's read bit, for the group class the set-user-ID bit, and for the
    owner a bit no mode has, so that a directory's owner (root apart) can never
    list it. *)
Theorem list_dir_read_bit (ld : ListDirRequest) (c : NameNodeCtx K) (fs : FS) (d : Dir)
    (Hfl : flags_ok) (Hc : ctx_ok c fs) (Hh : kv_healthy (kv_store_ c))
    (Hid : is_u64 (ld_id ld)) (Hd : fs_dir fs {| val := ld_id ld |} = Some d)
    (Hperm : 0 ≤ perm (dir_acl d) < 4096) :
  let user := {| user_uid := ld_uid ld; user_gid := ld_gid ld |} in
  ∃ resp, (with_handler (ListDirOp_Run ld) c).1 = Ret resp ∧
    (lr_error_code resp = StatusCode_to_int kPermissionError ↔
       ld_uid ld ≠ 0 ∧ Z.testbit (perm (dir_acl d)) (8 + class_shift (dir_acl d) user) = false) ∧
    (ld_uid ld ≠ 0 → ld_uid ld = uid (dir_acl d) →
       lr_error_code resp = StatusCode_to_int kPermissionError).
Proof.
  intros user.
  destruct (with_handler_answers (ListDirOp_Run ld) c _ (list_dir_spec fs ld) Hfl Hc)
    as (o & c' & -> & Hr & _); [intros; by apply ListDirOp_answers|].
  destruct Hr as [(resp & -> & Hr)|[? _]]; [|done]. exists resp. split; [done|].
  unfold list_dir_spec in Hr. rewrite Hd in Hr. fold user in Hr.
  assert (granted (dir_acl d) user S_IRUSR = (ld_uid ld =? 0) ||
    Z.testbit (perm (dir_acl d)) (8 + class_shift (dir_acl d) user)) as Hg
    by apply granted_S_IRUSR.
  assert (lr_error_code resp = StatusCode_to_int kPermissionError ↔
    ld_uid ld ≠ 0 ∧ Z.testbit (perm (dir_acl d)) (8 + class_shift (dir_acl d) user) = false) as Hiff.
  { rewrite Hg in Hr. destruct (Z.eqb_spec (ld_uid ld) 0) as [E0|E0]; cbn [orb] in Hr.
    - subst resp. split; [done|]. by intros [? _].
    - destruct (Z.testbit _ _); [subst resp; split; [done|]; by intros [_ ?]|].
      destruct Hr as (msg & ->). done. }
  split; [exact Hiff|]. intros Hu Howner. apply Hiff. split; [exact Hu|].
  unfold class_shift, user. cbn [user_uid]. rewrite (proj2 (Z.eqb_eq _ _) Howner).
  apply (Z.bits_above_log2 (perm (dir_acl d)) (8 + 6)); [lia|].
  destruct (Z.eq_dec (perm (dir_acl d)) 0) as [-> | ?]; [done|]. apply Z.log2_lt_pow2; [lia|].
  change (2 ^ (8 + 6)) with 16384. lia.
Qed.

(** The page of a granted [ListDir] carries the flag [has_more] exactly
    when it is as long as the request's own [limit]: with an explicit limit, when the
    page is full; with the default limit (0), only when there is no entry at all,
    and never when the default limit cut the listing short. *)
Theorem list_has_more (ld : ListDirRequest) (c : NameNodeCtx K) (fs : FS) (d : Dir)
    (Hfl : flags_ok) (Hc : ctx_ok c fs) (Hh : kv_healthy (kv_store_ c))
    (Hid : is_u64 (ld_id ld)) (Hd : fs_dir fs {| val := ld_id ld |} = Some d)
    (Hg : granted (dir_acl d) {| user_uid := ld_uid ld; user_gid := ld_gid ld |} S_IRUSR = true) :
  ∃ resp, (with_handler (ListDirOp_Run ld) c).1 = Ret resp ∧
    lr_error_code resp = 0 ∧
    (length (lr_ents resp) ≤ ListDir_limit ld)%nat ∧
    (0 < ld_limit ld < 2 ^ 31 →
       lr_has_more resp = true ↔ length (lr_ents resp) = ListDir_limit ld) ∧
    (ld_limit ld = 0 → lr_has_more resp = true ↔ lr_ents resp = []).
Proof.
  destruct (with_handler_answers (ListDirOp_Run ld) c _ (list_dir_spec fs ld) Hfl Hc)
    as (o & c' & -> & Hr & _); [intros; by apply ListDirOp_answers|].
  destruct Hr as [(resp & -> & Hr)|[? _]]; [|done]. exists resp. split; [done|].
  unfold list_dir_spec in Hr. rewrite Hd, Hg in Hr. subst resp.
  cbn [lr_error_code lr_ents lr_has_more]. set (ents := fs_list _ _ _ _).
  rewrite length_fmap. split_and!.
  - done.
  - unfold ents, fs_list, range_values. rewrite length_fmap, length_take. lia.
  - intros Hl. rewrite u64_small by (unfold is_u64; lia). unfold ListDir_limit.
    destruct (Z.gtb_spec (ld_limit ld) 0); [|lia]. rewrite Z.eqb_eq. lia.
  - intros ->. rewrite Z.eqb_eq. change (u64 0) with 0. split.
    + destruct ents; [done|]. cbn. lia.
    + by intros ->%fmap_nil_inv.
Qed.

End properties.

(** ** Witnesses *)

Section demo.
#[local] Existing Instances MemDB MemDBSpec MemDBLaws demo_fmt demo_build demo_be demo_fb
  demo_be_laws demo_fb_laws default_flags.

(** A namenode whose store holds one directory "a", with ID 5, in the root. *)
Definition demo_ctx : NameNodeCtx RocksDBKVStore :=
  {| kv_store_ := set_db demo_kv demo_store;
     inode_id_generator_ := {| node_id_ := 0; clock_sequence_ := 0; id_ := 100 |} |}.
Definition demo_mkdirs (name : string) : MkdirsRequest :=
  {| mk_parent_id := 1; mk_name := name; mk_mode := 511; mk_uid := 7; mk_gid := 8 |}.
Definition demo_list (id limit user : Z) : ListDirRequest :=
  {| ld_id := id; ld_start_after := ""; ld_limit := limit; ld_uid := user; ld_gid := user |}.

Lemma demo_flags_ok : flags_ok.
Proof. reflexivity. Qed.
Lemma demo_ctx_ok : ctx_ok demo_ctx demo_fs.
Proof.
  split; [reflexivity|]. split; [exact demo_rep|]. unfold idgen_wf, id_base. cbn. lia.
Qed.
Lemma demo_healthy : kv_healthy (KVStoreSpec := RocksDBKVStore_KVStoreSpec) (kv_store_ demo_ctx).
Proof. intros s _. exact I. Qed.

Lemma read_requests_refine_witness :
  ∃ o c', with_handler (GetInodeOp_Run {| gi_path := None; gi_id := Some 5 |}) demo_ctx = (o, c') ∧
    replies True (ROk {| sr_error_code := 0; sr_error_msg := ""; sr_id := 5;
      sr_stat := Some (Dir_Stat (dir_seen (demo_dir "a"))) |}) o.
Proof.
  destruct (read_requests_refine (K := RocksDBKVStore) (T := RocksDBTxn) demo_ctx demo_fs
    {| gi_path := None; gi_id := Some 5 |} {| lk_parent_id := 1; lk_name := "a" |}
    (demo_list 1 0 0) demo_flags_ok demo_ctx_ok) as ((o & c' & E & Hr & _) & _);
    [vm_compute; done..|].
  exists o, c'. split; [exact E|].
  destruct Hr as [Hr|[Hn _]]; [by left | by destruct (Hn demo_healthy)].
Defined.

Lemma mkdirs_refines_witness :
  ∃ c', with_handler (MkdirsOp_Run 50 (demo_mkdirs "b")) demo_ctx
        = (Ret (mkdirs_resp (mkdirs_dir root_dir {| val := 101 |} 50 (demo_mkdirs "b"))), c').
Proof.
  destruct (mkdirs_refines (K := RocksDBKVStore) (T := RocksDBTxn) 50 (demo_mkdirs "b") demo_ctx
    demo_fs demo_flags_ok demo_ctx_ok demo_healthy) as (o & c' & E & Hr);
    [vm_compute; done | done | vm_compute; done |].
  exists c'. rewrite E. f_equal. apply (f_equal fst) in E. cbn [fst] in E. rewrite <- E.
  vm_compute. reflexivity.
Defined.

Lemma mkdirs_replaces_existing_entry_witness :
  ∃ resp c', with_handler (MkdirsOp_Run 50 (demo_mkdirs "a")) demo_ctx = (Ret resp, c') ∧
    sr_error_code resp = 0 ∧ sr_id resp = 101.
Proof.
  destruct (with_handler (MkdirsOp_Run 50 (demo_mkdirs "a")) demo_ctx) as [o c'] eqn:E.
  assert (o = Ret (mkdirs_resp (mkdirs_dir root_dir {| val := 101 |} 50 (demo_mkdirs "a")))) as ->.
  { apply (f_equal fst) in E. cbn [fst] in E. rewrite <- E. vm_compute. reflexivity. }
  eexists _, c'. split; [reflexivity|].
  destruct (mkdirs_replaces_existing_entry (K := RocksDBKVStore) (T := RocksDBTxn) 50
    (demo_mkdirs "a") demo_ctx c' demo_fs (λ id now, mkdirs_dir root_dir id now (demo_mkdirs "a"))
    (demo_dir "a") _ {| val := 101 |} demo_flags_ok demo_ctx_ok demo_healthy
    ltac:(vm_compute; done) ltac:(done) ltac:(vm_compute; done) ltac:(reflexivity)
    ltac:(reflexivity) ltac:(reflexivity) ltac:(reflexivity) ltac:(discriminate) E)
    as (H1 & H2 & _).
  split; [exact H1 | exact H2].
Defined.

(** The owner of "a" may not list it. *)
Lemma created_dir_locked_witness :
  (with_handler (MkdirsOp_Run 50 {| mk_parent_id := 5; mk_name := "b"; mk_mode := 511;
                                    mk_uid := 7; mk_gid := 8 |}) demo_ctx).1
  = Ret (Mkdirs_error kPermissionError).
Proof.
  apply (created_dir_locked (K := RocksDBKVStore) (T := RocksDBTxn) 50 (demo_dir "a")
    {| mk_parent_id := 5; mk_name := "b"; mk_mode := 511; mk_uid := 7; mk_gid := 8 |}
    (demo_list 5 0 7) demo_ctx fs_empty demo_flags_ok demo_ctx_ok demo_healthy);
    [vm_compute; done | reflexivity | reflexivity | done | vm_compute; done | reflexivity
    | reflexivity].
Defined.

Lemma list_dir_read_bit_witness :
  ∃ resp, (with_handler (ListDirOp_Run (demo_list 5 0 7)) demo_ctx).1 = Ret resp ∧
          lr_error_code resp = 3.
Proof.
  destruct (list_dir_read_bit (K := RocksDBKVStore) (T := RocksDBTxn) (demo_list 5 0 7) demo_ctx
    demo_fs (dir_seen (demo_dir "a")) demo_flags_ok demo_ctx_ok demo_healthy)
    as (resp & E & Hiff & _); [vm_compute; done | reflexivity | vm_compute; done |].
  exists resp. split; [exact E|]. apply Hiff. split; [discriminate | reflexivity].
Defined.

(** The empty directory "a" claims to have more entries. *)
Lemma list_has_more_witness :
  ∃ resp, (with_handler (ListDirOp_Run (demo_list 5 0 0)) demo_ctx).1 = Ret resp ∧
          lr_has_more resp = true.
Proof.
  destruct (list_has_more (K := RocksDBKVStore) (T := RocksDBTxn) (demo_list 5 0 0) demo_ctx
    demo_fs (dir_seen (demo_dir "a")) demo_flags_ok demo_ctx_ok demo_healthy)
    as (resp & E & _ & _ & _ & Hm); [vm_compute; done | reflexivity | reflexivity |].
  exists resp. split; [exact E|]. apply (Hm eq_refl).
  assert (Ret resp = Ret {| lr_error_code := 0; lr_error_msg := "";
    lr_self_dent := Some {| de_id := 5; de_name := "."; de_type := S_IFDIR |};
    lr_parent_dent := Some {| de_id := 1; de_name := ".."; de_type := S_IFDIR |};
    lr_ents := []; lr_has_more := true |}) as [= ->]; [|reflexivity].
  rewrite <- E. vm_compute. reflexivity.
Defined.
End demo.
