(* ===== verification/System.v ===== *)
(** The namenode as a whole: any sequence of requests and of steps of the ID
    manager's thread, from a database that was empty at start-up.

    The service's main (src/namenode/service/client_namenode_service_main.cc) runs
    the handlers on one thread with an inline scheduler, so that requests are
    served one after the other; the manager's thread is the only other one, and the
    two share the IDs of the generator.  [IDGen::Update] loads them and stores them
    later: [tick] is one or the other, and any requests may be served in between.  An
    exception leaves the handler's coroutine, and nothing in the source catches
    it: the system stops there. *)

From Stdlib Require Import ZArith Lia Ascii String.
From stdpp Require Import prelude strings gmap relations.
From S2P Require Import Prelude Common Types IdGen KVStoreBase RocksDB Conflict Serde Tables Proto.
From S2P Require Import Service.

#[local] Open Scope Z_scope.

(** ** Events *)

Inductive srv_event :=
| EvRequest (now_ns : Z) (req : Request)
| EvTick (now_ns : Z).          (* the manager's thread loads, or stores *)

(** What protobuf guarantees of the fields, and a name for a new directory. *)
Definition req_ok (req : Request) : Prop :=
  match req with
  | ReqPingPong _ => True
  | ReqGetInode r => is_u64 (GetInodeRequest_id r)
  | ReqLookup r => is_u64 (lk_parent_id r)
  | ReqListDir r => is_u64 (ld_id r)
  | ReqMkdirs r => is_u64 (mk_parent_id r) ∧ mk_name r ≠ ""%string
  end.

Definition event_ok (e : srv_event) : Prop :=
  match e with
  | EvRequest now_ns req => req_ok req ∧ is_i64 now_ns
  | EvTick _ => True
  end.

(** ** The process *)

Section server.
Context {K T : Type} `{KVStoreBase K T, DirTableBase T, DEntViewBase T, Fmt, Build, Flags}.

(** The context, and what the manager's thread has loaded in the [Update] it is in. *)
Record Srv := {
  srv_ctx : NameNodeCtx K;
  srv_loaded : option (Z * Z);
}.
Definition srv_start (c : NameNodeCtx K) : Srv := {| srv_ctx := c; srv_loaded := None |}.
Definition srv_gen (s : Srv) : IDGen := inode_id_generator_ (srv_ctx s).
Definition set_srv_ctx (c : NameNodeCtx K) (s : Srv) : Srv :=
  {| srv_ctx := c; srv_loaded := srv_loaded s |}.

(** A turn of the manager's thread on its only generator. *)
Definition tick (now_ns : Z) : M Srv unit := λ s,
  let set g l := {| srv_ctx := {| kv_store_ := kv_store_ (srv_ctx s); inode_id_generator_ := g |};
                    srv_loaded := l |} in
  match manager_turn now_ns (srv_loaded s) (srv_gen s) with
  | (Ret l, g) => (Ret tt, set g l)
  | (Throw w, g) => (Throw w, set g (srv_loaded s))
  | (Undef, g) => (Undef, set g (srv_loaded s))
  end.

Definition run_event (e : srv_event) : M Srv (option Response) :=
  match e with
  | EvRequest now_ns req => let! r := zoom srv_ctx set_srv_ctx (serve (T := T) now_ns req) in ret (Some r)
  | EvTick now_ns => do! tick now_ns in ret None
  end.

Inductive srv_does : srv_event → Srv → Srv → Prop :=
| srv_request now_ns req resp c c' l :
    req_ok req → is_i64 now_ns → serve (T := T) now_ns req c = (Ret resp, c') →
    srv_does (EvRequest now_ns req) {| srv_ctx := c; srv_loaded := l |}
                                    {| srv_ctx := c'; srv_loaded := l |}
| srv_tick now_ns s s' : tick now_ns s = (Ret tt, s') → srv_does (EvTick now_ns) s s'.

Definition srv_step (s s' : Srv) : Prop := ∃ e, srv_does e s s'.

(** The order of events that the IDs need, and that nothing in the code enforces: no
    directory is made before the manager's thread has brought the IDs to [floor] (past
    the root's, or past those of earlier runs), and no store of [Update] comes after
    calls of [Next] have passed its timestamp. *)
Definition in_order (floor : Z) (e : srv_event) (s : Srv) : bool :=
  match e with
  | EvRequest _ (ReqMkdirs _) => floor <=? id_ (srv_gen s)
  | EvRequest _ _ => true
  | EvTick _ => negb (late (srv_loaded s) (srv_gen s))
  end.
Definition srv_step_in_order (floor : Z) (s s' : Srv) : Prop :=
  ∃ e, in_order floor e s = true ∧ srv_does e s s'.
End server.
Arguments Srv : clear implicits.

Section system.
Context {K T : Type} `{KVStoreBase K T, KVStoreSpec K, TxnSpec T, DirTableBase T,
  DEntViewBase T, FSRep, Fmt, Build, Flags, !KVStoreLaws K T, !DirTableLaws T,
  !DEntViewLaws T}.

(** ** Trees *)

(** Walk up the parents; [true] when the walk ends at the root. *)
Fixpoint reaches_root (fs : FS) (fuel : nat) (id : InodeID) : bool :=
  if InodeID_eqb id kRootInodeID then true
  else match fuel with
       | O => false
       | S fuel => match fs_dir fs id with
                   | Some d => reaches_root fs fuel (dir_parent_id d)
                   | None => false
                   end
       end.

(** Inodes are directories created with the IDs drawn so far, each in a directory
    that was there before; entries name them, each under its own parent and name. *)
Record tree_inv (fs : FS) (last : Z) : Prop := {
  tree_inode id i : fs_inodes fs !! id = Some i →
    ∃ d, i = inl d ∧ val (dir_id d) = id ∧ 1 < id ≤ last ∧ val (dir_parent_id d) < id ∧
         (val (dir_parent_id d) = 1 ∨ is_Some (fs_inodes fs !! val (dir_parent_id d)));
  tree_dent k e : fs_dents fs !! k = Some e →
    ∃ d, e = inl d ∧ k = (val (dir_parent_id d), dir_name d) ∧
         fs_inodes fs !! val (dir_id d) = Some (inl d);
}.

Lemma tree_inv_mono fs n n' : n ≤ n' → tree_inv fs n → tree_inv fs n'.
Proof.
  intros Hn [Hi Hd]. split; [|done]. intros id i Hid.
  destruct (Hi id i Hid) as (d & ? & ? & ? & ? & ?). exists d. split_and!; try done; lia.
Qed.

Lemma tree_inv_empty n : tree_inv fs_empty n.
Proof. split; intros; by simplify_map_eq. Qed.

(** A new ID under a directory that exists. *)
Lemma tree_inv_insert fs n d p :
  1 ≤ n → tree_inv fs n → val (dir_id d) = n + 1 →
  fs_dir fs (dir_parent_id d) = Some p → tree_inv (fs_insert d fs) (n + 1).
Proof.
  intros Hn Htree Hid Hp. pose proof (tree_inode _ _ Htree) as Hi.
  assert (fs_inodes fs !! val (dir_id d) = None) as Hfresh.
  { rewrite Hid. destruct (fs_inodes fs !! (n + 1)) as [i|] eqn:E; [|done].
    destruct (Hi _ _ E) as (? & _ & _ & ? & _). lia. }
  assert (val (dir_parent_id d) = 1 ∨
    ∃ pd, fs_inodes fs !! val (dir_parent_id d) = Some (inl pd) ∧ val (dir_parent_id d) ≤ n) as Hpar.
  { unfold fs_dir in Hp. destruct (fs_inodes fs !! val (dir_parent_id d)) as [[pd|f]|] eqn:E; [right|done|].
    - exists pd. split; [done|]. destruct (Hi _ _ E) as (? & _ & _ & ? & _). lia.
    - left. unfold InodeID_eqb in Hp. by destruct (Z.eqb_spec (val (dir_parent_id d)) (val kRootInodeID)). }
  split; unfold fs_insert; cbn [fs_inodes fs_dents].
  - intros id i. rewrite lookup_insert. case_decide as E.
    + intros [= <-]. exists d. split_and!; [done|done|lia|lia| |].
      * destruct Hpar as [->|(pd & _ & ?)]; lia.
      * destruct Hpar as [->|(pd & Hpd & ?)]; [by left|right].
        rewrite lookup_insert_ne by lia. by rewrite Hpd.
    + intros Hid'. destruct (Hi id i Hid') as (d' & -> & ? & ? & ? & Hpar').
      exists d'. split_and!; [done|done|lia|lia|done|].
      destruct Hpar' as [?|Hs]; [by left|right]. rewrite lookup_insert. by case_decide.
  - intros k e. rewrite lookup_insert. case_decide as E.
    + intros [= <-]. exists d. split; [done|]. split; [done|]. by rewrite lookup_insert_eq.
    + intros He. destruct (tree_dent _ _ Htree k e He) as (d' & -> & -> & Hd').
      exists d'. split; [done|]. split; [done|]. rewrite lookup_insert_ne; [done|].
      intros Heq. congruence.
Qed.

Lemma tree_reaches_root fs n : tree_inv fs n →
  ∀ fuel id d, fs_dir fs id = Some d → (Z.to_nat (val id) ≤ fuel)%nat → reaches_root fs fuel id = true.
Proof.
  intros Htree. induction fuel as [|fuel IH]; intros id d Hd Hfuel; cbn [reaches_root].
  all: destruct (InodeID_eqb id kRootInodeID) eqn:Eroot; [done|].
  all: assert (∃ d', fs_inodes fs !! val id = Some (inl d') ∧ d = dir_seen d') as (d' & Hi & ->)
    by (unfold fs_dir in Hd; destruct (fs_inodes fs !! val id) as [[d'|f]|];
        [injection Hd as <-; eauto | done | by rewrite Eroot in Hd]).
  all: destruct (tree_inode _ _ Htree _ _ Hi) as (d'' & [= <-] & _ & Hpos & Hlt & Hpar).
  - lia.
  - rewrite Hd. cbn [dir_parent_id dir_seen].
    assert (∃ p, fs_dir fs (dir_parent_id d') = Some p) as [p Hp].
    { unfold fs_dir. destruct Hpar as [E|[i Ei]].
      - unfold InodeID_eqb. rewrite E. destruct (fs_inodes fs !! 1) as [i|] eqn:E1; [|by eexists].
        destruct (tree_inode _ _ Htree _ _ E1) as (? & -> & _). by eexists.
      - rewrite Ei. destruct (tree_inode _ _ Htree _ _ Ei) as (? & -> & _). by eexists. }
    apply (IH _ p Hp). lia.
Qed.

(** What the invariant says of a namespace, in the words of the theorems. *)
Definition is_tree (fs : FS) (last : Z) : Prop :=
  (∀ id d, fs_dir fs id = Some d → reaches_root fs (Z.to_nat (val id)) id = true) ∧
  (∀ key e, fs_dents fs !! key = Some e →
     ∃ d, e = inl d ∧ key = (val (dir_parent_id d), dir_name d) ∧ dir_id d ≠ kRootInodeID ∧
          fs_inodes fs !! val (dir_id d) = Some (inl d)) ∧
  (∀ id i, fs_inodes fs !! id = Some i → ∃ d, i = inl d ∧ val (dir_id d) = id ∧ 1 < id ≤ last).

Lemma tree_inv_is_tree fs last : tree_inv fs last → is_tree fs last.
Proof.
  intros Htree. split_and!.
  - intros id d Hd. by eapply tree_reaches_root.
  - intros key e He. destruct (tree_dent _ _ Htree _ _ He) as (d & -> & -> & Hd).
    exists d. split_and!; try done. intros E. rewrite E in Hd.
    destruct (tree_inode _ _ Htree _ _ Hd) as (d' & _ & _ & ? & _). cbn in *. lia.
  - intros id i Hi. destruct (tree_inode _ _ Htree id i Hi) as (d & ? & ? & ? & _). by exists d.
Qed.

(** ** What an event does to the namespace and to the IDs *)

Lemma idgen_wf_nonneg g : idgen_wf g → 0 ≤ id_ g.
Proof. unfold idgen_wf, id_base. lia. Qed.

(** A request leaves the namespace and the generator alone, or it is a [Mkdirs] that
    draws an ID and adds a directory with it, unless its commit fails. *)
Definition served (req : Request) (c c' : NameNodeCtx K) (fs fs' : FS) : Prop :=
  (fs' = fs ∧ inode_id_generator_ c' = inode_id_generator_ c) ∨
  (∃ m id, req = ReqMkdirs m ∧ Next (inode_id_generator_ c) = (Ret id, inode_id_generator_ c') ∧
     (fs' = fs ∨ ∃ d p, fs' = fs_insert d fs ∧ dir_id d = id ∧ fs_dir fs (dir_parent_id d) = Some p)).

Lemma served_read {A} `{ErrorResp A} (run : M (Handler K T) A) req c fs spec o c' :
  flags_ok → ctx_ok c fs →
  (∀ c' (t : T), txn_wf t → fs_rep (txn_snapshot t) fs → answers run c' t spec) →
  with_handler run c = (o, c') → ∃ fs', ctx_ok c' fs' ∧ served req c c' fs fs'.
Proof.
  intros Hfl Hc Hrun E.
  destruct (with_handler_answers run c fs spec Hfl Hc Hrun) as (o' & c1 & E' & _ & Hc1 & Hg & _).
  rewrite E' in E. injection E as <- <-. exists fs. split; [done|]. by left.
Qed.

Lemma served_mkdirs now_ns req c fs resp c' :
  flags_ok → ctx_ok c fs → is_u64 (mk_parent_id req) → mk_name req ≠ ""%string → is_i64 now_ns →
  with_handler (MkdirsOp_Run now_ns req) c = (Ret resp, c') →
  ∃ fs', ctx_ok c' fs' ∧ served (ReqMkdirs req) c c' fs fs'.
Proof.
  intros Hfl Hc Hid Hname Hnow E.
  destruct (with_handler_Mkdirs now_ns req c fs Hfl Hc Hid Hname Hnow) as (o & c1 & E' & Hcase).
  rewrite E' in E. injection E as -> ->.
  destruct Hcase as [(Hc' & Hgen & _)|[(mk & w & _ & _ & Hw)|(mk & id & oc & Hmk & HN & _ & _ & Hc')]].
  - exists fs. split; [done|]. by left.
  - done.
  - destruct Hc' as [Hc'|[Hc' _]].
    + exists (fs_insert (mk id now_ns) fs). split; [done|]. right. exists req, id.
      split; [done|]. split; [done|]. right.
      unfold mkdirs_spec in Hmk. destruct (fs_dir fs _) as [p|] eqn:Ep; [|done].
      destruct (granted _ _ _); [|done]. injection Hmk as <-. by eexists _, p.
    + exists fs. split; [done|]. right. exists req, id. split; [done|]. split; [done|]. by left.
Qed.

Lemma serve_effect now_ns req c fs resp c' :
  flags_ok → ctx_ok c fs → req_ok req → is_i64 now_ns → serve (T := T) now_ns req c = (Ret resp, c') →
  ∃ fs', ctx_ok c' fs' ∧ served req c c' fs fs'.
Proof.
  intros Hfl Hc Hreq Hnow E.
  destruct req as [r|r|r|r|r]; cbn [serve req_ok] in *; bind_inv E;
    unfold PingPongOp, GetInodeOp, LookupOp, ListDirOp, MkdirsOp in *; injection E as <- <-.
  - unfold PingPongOp_Run in E0. injection E0 as <- <-. exists fs. split; [done|]. by left.
  - eapply (served_read (GetInodeOp_Run r) (ReqGetInode r) c fs (get_inode_spec fs r)); [done|done| |exact E0].
    intros. by apply GetInodeOp_answers.
  - eapply (served_read (LookupOp_Run r) (ReqLookup r) c fs (lookup_spec fs r)); [done|done| |exact E0].
    intros. by apply LookupOp_answers.
  - eapply (served_read (ListDirOp_Run r) (ReqListDir r) c fs (list_dir_spec fs r)); [done|done| |exact E0].
    intros. by apply ListDirOp_answers.
  - destruct Hreq. by eapply served_mkdirs.
Qed.

Lemma tick_effect now_ns (s s' : Srv K) fs :
  ctx_ok (srv_ctx s) fs → loaded_ok (srv_gen s) (srv_loaded s) → tick now_ns s = (Ret tt, s') →
  ctx_ok (srv_ctx s') fs ∧ loaded_ok (srv_gen s') (srv_loaded s') ∧
  (late (srv_loaded s) (srv_gen s) = false → id_ (srv_gen s) ≤ id_ (srv_gen s')).
Proof.
  intros (Hk & Hrep & Hg) Hl. unfold tick. fold (srv_gen s) in Hg.
  destruct (manager_turn now_ns (srv_loaded s) (srv_gen s)) as [[l|w|] g] eqn:E; try done.
  intros [= <-]. destruct (manager_turn_ok _ _ _ _ _ Hg Hl E) as (Hg' & Hl' & Hle).
  unfold srv_gen at 1 4. cbn [srv_ctx srv_loaded inode_id_generator_].
  split; [by split_and!|]. split; [exact Hl'|exact Hle].
Qed.

(** A turn after a load is its store. *)
Lemma tick_stores now_ns (s s' : Srv K) :
  late (srv_loaded s) (srv_gen s) = true → tick now_ns s = (Ret tt, s') → srv_loaded s' = None.
Proof.
  unfold tick. destruct (srv_loaded s) as [[ts raw]|]; [|done]. intros _. cbn [manager_turn].
  unfold bind. destruct (UpdateLoaded ts raw (srv_gen s)) as [[[]|w|] g]; [|done..]. by intros [= <-].
Qed.

(** ** Invariants of the process *)

(** In any order: the store represents some namespace. *)
Definition srv_ok (s : Srv K) : Prop :=
  loaded_ok (srv_gen s) (srv_loaded s) ∧ ∃ fs, ctx_ok (srv_ctx s) fs.

(** In order: a tree, with no ID beyond the last one drawn or the floor. *)
Definition srv_inv (floor : Z) (s : Srv K) : Prop :=
  loaded_ok (srv_gen s) (srv_loaded s) ∧
  ∃ fs, ctx_ok (srv_ctx s) fs ∧ tree_inv fs (Z.max floor (id_ (srv_gen s))).

Lemma served_loaded req c c' fs fs' l :
  idgen_wf (inode_id_generator_ c) → served req c c' fs fs' →
  loaded_ok (inode_id_generator_ c) l → loaded_ok (inode_id_generator_ c') l.
Proof. intros Hg [[_ ->]|(m & id & _ & HN & _)]; [done|]. by eapply loaded_ok_Next. Qed.

Lemma srv_ok_step s s' : flags_ok → srv_step (T := T) s s' → srv_ok s → srv_ok s'.
Proof.
  intros Hfl [e Hstep] [Hl [fs Hc]].
  destruct Hstep as [now_ns req resp c c' l Hreq Hnow E|now_ns s s' E]; cbn in *.
  - destruct (serve_effect now_ns req c fs resp c') as (fs' & Hc' & Hs); try done.
    split; [|by exists fs']. unfold srv_gen in *. cbn in *. eapply served_loaded; [apply Hc|done|done].
  - destruct (tick_effect now_ns s s' fs Hc Hl E) as (Hc' & Hl' & _). split; [done|]. by exists fs.
Qed.

Lemma srv_inv_step floor s s' :
  flags_ok → 1 ≤ floor → srv_step_in_order (T := T) floor s s' → srv_inv floor s → srv_inv floor s'.
Proof.
  intros Hfl Hfloor (e & Hord & Hstep) (Hl & fs & Hc & Htree).
  destruct Hstep as [now_ns req resp c c' l Hreq Hnow E|now_ns s s' E]; unfold srv_inv, srv_gen in *;
    cbn [srv_ctx srv_loaded] in *.
  - destruct (serve_effect now_ns req c fs resp c') as (fs' & Hc' & Hs); try done.
    assert (idgen_wf (inode_id_generator_ c)) as Hg by apply Hc.
    split; [by eapply served_loaded|]. exists fs'. split; [done|].
    destruct Hs as [[-> ->]|(m & id & -> & HN & Hfs)]; [done|].
    unfold in_order, srv_gen in Hord. cbn [srv_ctx] in Hord. apply Z.leb_le in Hord.
    destruct (Next_Ret _ _ _ Hg HN) as (Hv & Hg' & _). rewrite Hg'. cbn [id_ set_id_].
    rewrite Z.max_r in Htree by lia.
    destruct Hfs as [->|(d & p & -> & Hd & Hp)]; [eapply tree_inv_mono; [|exact Htree]; lia|].
    rewrite Z.max_r, Hv by lia. apply (tree_inv_insert fs _ d p); try done; [lia|]. by rewrite Hd.
  - destruct (tick_effect now_ns s s' fs Hc Hl E) as (Hc' & Hl' & Hle).
    split; [exact Hl'|]. exists fs. split; [done|].
    unfold in_order, srv_gen in *. apply negb_true_iff in Hord.
    eapply tree_inv_mono; [|exact Htree]. specialize (Hle Hord). lia.
Qed.

Lemma Start_eval (k : K) c :
  NameNodeCtx_Start k = Ret c →
  c = {| kv_store_ := k; inode_id_generator_ := {| node_id_ := 0; clock_sequence_ := 0; id_ := 0 |} |}.
Proof.
  unfold NameNodeCtx_Start.
  change (IDGen_make 0 0 0) with (Ret tt, {| node_id_ := 0; clock_sequence_ := 0; id_ := 0 |}).
  by intros [= <-].
Qed.

Lemma start_gen_wf : idgen_wf {| node_id_ := 0; clock_sequence_ := 0; id_ := 0 |}.
Proof. unfold idgen_wf, id_base. cbn. lia. Qed.

Lemma srv_inv_start floor (k : K) c :
  kv_ok k → fs_rep (kv_contents k) fs_empty → NameNodeCtx_Start k = Ret c →
  srv_inv floor (srv_start c).
Proof.
  intros Hk Hrep ->%Start_eval. split; [done|]. exists fs_empty.
  split; [|apply tree_inv_empty]. split; [exact Hk|]. split; [exact Hrep|exact start_gen_wf].
Qed.

Lemma srv_ok_reachable s s' : flags_ok → rtc (srv_step (T := T)) s s' → srv_ok s → srv_ok s'.
Proof. intros Hfl. induction 1 as [|s s1 s' Hs _ IH]; [done|]. intros Hok. by eapply IH, srv_ok_step. Qed.

Lemma srv_inv_reachable floor s s' :
  flags_ok → 1 ≤ floor → rtc (srv_step_in_order (T := T) floor) s s' → srv_inv floor s → srv_inv floor s'.
Proof.
  intros Hfl Hfloor. induction 1 as [|s s1 s' Hs _ IH]; [done|]. intros Hinv. by eapply IH, srv_inv_step.
Qed.

(** C1: from a database that was empty at start-up, and over any
    interleaving of requests with the loads and stores of the manager's thread in which
    no [Mkdirs] is served before its first store has moved the IDs off zero and no store
    comes after [Next] has passed its timestamp, the database represents a namespace in which every entry names
    a directory that exists, other than the root, under its own parent and name, so that
    no directory has two, and every directory reaches the root through its parents, in
    no more steps than its ID; inodes are directories stored under their own IDs, none
    beyond the last ID drawn. *)
Theorem namespace_is_tree (k : K) (c : NameNodeCtx K) (s : Srv K)
    (Hfl : flags_ok) (Hk : kv_ok k) (Hempty : fs_rep (kv_contents k) fs_empty)
    (Hstart : NameNodeCtx_Start k = Ret c)
    (Hreach : rtc (srv_step_in_order (T := T) (val kRootInodeID)) (srv_start c) s) :
  ∃ fs, fs_rep (kv_contents (kv_store_ (srv_ctx s))) fs ∧
    is_tree fs (Z.max (val kRootInodeID) (id_ (srv_gen s))).
Proof.
  destruct (srv_inv_reachable (val kRootInodeID) (srv_start c) s) as (_ & fs & (_ & Hrep & _) & Htree);
    [done|done|done|by eapply srv_inv_start|]. exists fs. split; [done|]. by apply tree_inv_is_tree.
Qed.
End system.

(** With the key-value tables, as the namenode has them. *)
Section rows.
Context {K T : Type} `{KVStoreBase K T, KVStoreSpec K, TxnSpec T, TxnBase T, BigEndianLaws,
  FlatBuffersLaws, Fmt, Build, Flags, !KVStoreLaws K T, !TxnLaws T}.

(** C21: whatever requests the namenode served since it started
    on an empty database, and whatever its manager's thread did in between, every row of
    the database decodes without an exception under its column family: an inode under
    its own ID, a time as eight bytes under an ID, an entry under its own parent and
    name. *)
Theorem stored_rows_well_typed (k : K) (c : NameNodeCtx K) (s : Srv K) (cf : Z) (key v : string)
    (Hfl : flags_ok) (Hk : kv_ok k) (Hempty : kv_contents k = ∅)
    (Hstart : NameNodeCtx_Start k = Ret c) (Hreach : rtc (srv_step (T := T)) (srv_start c) s)
    (Hrow : kv_contents (kv_store_ (srv_ctx s)) !! (cf, key) = Some v) :
  row_typed cf key v.
Proof.
  assert (srv_ok s) as (_ & fs & _ & Hrep & _); [|by eapply rep_row_typed].
  eapply (srv_ok_reachable (T := T)); [done|exact Hreach|].
  destruct (srv_inv_start 1 k c Hk) as (Hl & fs & Hc & _); [rewrite Hempty; apply kv_rep_empty|done|].
  split; [done|]. by exists fs.
Qed.
End rows.

(** ** Witnesses *)

Section demo.
#[local] Existing Instances MemDB MemDBSpec MemDBLaws demo_fmt demo_build demo_be demo_fb
  demo_be_laws demo_fb_laws default_flags.

Definition demo_gen (raw : Z) : IDGen := {| node_id_ := 0; clock_sequence_ := 0; id_ := raw |}.
Definition demo_start : NameNodeCtx RocksDBKVStore :=
  {| kv_store_ := demo_store; inode_id_generator_ := demo_gen 0 |}.
Definition demo_ticked : NameNodeCtx RocksDBKVStore :=
  {| kv_store_ := demo_store; inode_id_generator_ := demo_gen 1051989125 |}.
Lemma demo_gen_start : IDGen_make 0 0 0 = (Ret tt, demo_gen 0).
Proof. reflexivity. Qed.
Lemma demo_start_eval : NameNodeCtx_Start demo_store = Ret demo_start.
Proof. unfold NameNodeCtx_Start. by rewrite demo_gen_start. Qed.

(** The first load, and its store. *)
Definition demo_loading : Srv RocksDBKVStore :=
  {| srv_ctx := demo_start; srv_loaded := Some (1051989125, 0) |}.
Lemma demo_gen_load :
  manager_turn 1742256000005000000 None (demo_gen 0) = (Ret (Some (1051989125, 0)), demo_gen 0).
Proof. vm_compute. reflexivity. Qed.
Lemma demo_gen_store :
  manager_turn 0 (Some (1051989125, 0)) (demo_gen 0) = (Ret None, demo_gen 1051989125).
Proof. vm_compute. reflexivity. Qed.
Lemma demo_load : tick 1742256000005000000 (srv_start demo_start) = (Ret tt, demo_loading).
Proof. unfold tick, srv_gen. cbn [srv_start srv_loaded srv_ctx demo_start inode_id_generator_]. by rewrite demo_gen_load. Qed.
Lemma demo_stored : tick 0 demo_loading = (Ret tt, srv_start demo_ticked).
Proof.
  unfold tick, srv_gen. cbn [demo_loading srv_loaded srv_ctx demo_start inode_id_generator_].
  by rewrite demo_gen_store.
Qed.

(** The namenode after it served a tick and a [Mkdirs]. *)
Definition demo_served : NameNodeCtx RocksDBKVStore :=
  (serve (T := RocksDBTxn) 50 (ReqMkdirs (demo_mkdirs "a")) demo_ticked).2.

Lemma demo_store_ok : kv_ok demo_store.
Proof. reflexivity. Qed.

Lemma demo_makes_a :
  srv_does (T := RocksDBTxn) (EvRequest 50 (ReqMkdirs (demo_mkdirs "a"))) (srv_start demo_ticked)
    (srv_start demo_served).
Proof.
  apply (srv_request 50 (ReqMkdirs (demo_mkdirs "a"))
    (RespMkdirs (mkdirs_resp (mkdirs_dir root_dir {| val := id_ (inode_id_generator_ demo_ticked) + 1 |}
       50 (demo_mkdirs "a"))))).
  - split; [vm_compute; done | done].
  - vm_compute. done.
  - unfold demo_served. rewrite surjective_pairing at 1. f_equal.
Qed.

Lemma demo_reach :
  rtc (srv_step_in_order (K := RocksDBKVStore) (T := RocksDBTxn) 1) (srv_start demo_start)
    (srv_start demo_served).
Proof.
  apply (rtc_l _ _ demo_loading).
  { eexists. split; [|apply (srv_tick 1742256000005000000), demo_load]. reflexivity. }
  apply (rtc_l _ _ (srv_start demo_ticked)).
  { eexists. split; [|apply (srv_tick 0), demo_stored]. vm_compute. reflexivity. }
  apply rtc_once. eexists. split; [|exact demo_makes_a]. reflexivity.
Qed.

Lemma namespace_is_tree_witness :
  ∃ fs, fs_rep (kv_contents (kv_store_ demo_served)) fs ∧ is_tree fs 1051989126.
Proof.
  destruct (namespace_is_tree (K := RocksDBKVStore) (T := RocksDBTxn) demo_store demo_start
    (srv_start demo_served) demo_flags_ok demo_store_ok kv_rep_empty demo_start_eval demo_reach)
    as (fs & Hrep & Htree).
  exists fs. split; [exact Hrep | exact Htree].
Defined.

(** The entry "a" in the root, as it is stored. *)
Lemma stored_rows_well_typed_witness :
  ∃ v, kv_contents (kv_store_ demo_served) !! (4, DEntSerde_SerKey kRootInodeID "a") = Some v ∧
       row_typed 4 (DEntSerde_SerKey kRootInodeID "a") v.
Proof.
  destruct (kv_contents (kv_store_ demo_served) !! (4, DEntSerde_SerKey kRootInodeID "a")) as [v|] eqn:E.
  - exists v. split; [reflexivity|].
    apply (stored_rows_well_typed (K := RocksDBKVStore) (T := RocksDBTxn) demo_store demo_start
      (srv_start demo_served) 4 (DEntSerde_SerKey kRootInodeID "a") v demo_flags_ok demo_store_ok).
    + reflexivity.
    + exact demo_start_eval.
    + eapply rtc_subrel; [|exact demo_reach]. intros x y (e & _ & Hs). by exists e.
    + exact E.
  - exfalso. vm_compute in E. discriminate E.
Defined.
End demo.
