(* ===== verification/Namespace.v ===== *)
(** The namenode against its abstract specification: a machine over the namespace
    [FS] and the ID generator, with what the manager's thread has loaded of it, that
    answers each request at once.  Any sequence of requests and turns of that thread
    gets the same replies from both, as long as the store below serves its transactions
    without failures ([kv_quiet]). *)

From Stdlib Require Import ZArith Lia Ascii String.
From stdpp Require Import prelude strings gmap relations.
From S2P Require Import Prelude Common Types IdGen KVStoreBase RocksDB Conflict Serde Tables Proto.
From S2P Require Import Service System.

#[local] Open Scope Z_scope.

(** ** The namenode *)

Section run.
Context {K T : Type} `{KVStoreBase K T, DirTableBase T, DEntViewBase T, Fmt, Build, Flags}.

Fixpoint run_events (es : list srv_event) : M (Srv K) (list (option Response)) :=
  match es with
  | [] => ret []
  | e :: es =>
      let! r := run_event (T := T) e in
      let! rs := run_events es in
      ret (r :: rs)
  end.

End run.

(** ** The abstract machine *)

Record Ns := {
  ns_fs : FS;
  ns_gen : IDGen;
  ns_loaded : option (Z * Z);     (* as in the process *)
}.
Definition set_ns_gen (g : IDGen) (s : Ns) : Ns :=
  {| ns_fs := ns_fs s; ns_gen := g; ns_loaded := ns_loaded s |}.

Inductive NsReply :=
| NsPong (p : PongResponse)
| NsGetInode (r : reply StatResponse)
| NsLookup (r : reply StatResponse)
| NsListDir (r : reply ListDirResponse)
| NsMkdirs (r : reply StatResponse).

Section ns.
Context `{Flags}.

Definition ns_mkdirs (now_ns : Z) (req : MkdirsRequest) : M Ns (reply StatResponse) := λ s,
  match mkdirs_spec (ns_fs s) req with
  | RErr e => (Ret (RErr e), s)
  | ROk mk =>
      match Next (ns_gen s) with
      | (Ret id, g) =>
          (Ret (ROk (mkdirs_resp (mk id now_ns))),
           {| ns_fs := fs_insert (mk id now_ns) (ns_fs s); ns_gen := g; ns_loaded := ns_loaded s |})
      | (Throw w, g) => (Throw w, set_ns_gen g s)
      | (Undef, g) => (Undef, set_ns_gen g s)
      end
  end.

Definition ns_serve (now_ns : Z) (req : Request) : M Ns NsReply :=
  match req with
  | ReqPingPong _ => ret (NsPong {| pong := "" |})
  | ReqGetInode r => let! p := gets (λ s, get_inode_spec (ns_fs s) r) in ret (NsGetInode p)
  | ReqLookup r => let! p := gets (λ s, lookup_spec (ns_fs s) r) in ret (NsLookup p)
  | ReqListDir r => let! p := gets (λ s, list_dir_spec (ns_fs s) r) in ret (NsListDir p)
  | ReqMkdirs r => let! p := ns_mkdirs now_ns r in ret (NsMkdirs p)
  end.

Definition ns_tick (now_ns : Z) : M Ns unit := λ s,
  match manager_turn now_ns (ns_loaded s) (ns_gen s) with
  | (Ret l, g) => (Ret tt, {| ns_fs := ns_fs s; ns_gen := g; ns_loaded := l |})
  | (Throw w, g) => (Throw w, set_ns_gen g s)
  | (Undef, g) => (Undef, set_ns_gen g s)
  end.

Definition ns_event (e : srv_event) : M Ns (option NsReply) :=
  match e with
  | EvRequest now_ns req => let! r := ns_serve now_ns req in ret (Some r)
  | EvTick now_ns => do! ns_tick now_ns in ret None
  end.

Fixpoint ns_run (es : list srv_event) : M Ns (list (option NsReply)) :=
  match es with
  | [] => ret []
  | e :: es =>
      let! r := ns_event e in
      let! rs := ns_run es in
      ret (r :: rs)
  end.

End ns.

(** A response says what the machine says, error messages aside. *)
Definition says {A} `{ErrorResp A} (resp : A) (r : reply A) : Prop :=
  match r with ROk a => resp = a | RErr c => error_reply resp c end.
Definition resp_agrees (resp : Response) (r : NsReply) : Prop :=
  match resp, r with
  | RespPingPong p, NsPong p' => p = p'
  | RespGetInode p, NsGetInode r => says p r
  | RespLookup p, NsLookup r => says p r
  | RespListDir p, NsListDir r => says p r
  | RespMkdirs p, NsMkdirs r => says p r
  | _, _ => False
  end.
Definition reply_agrees (resp : option Response) (r : option NsReply) : Prop :=
  match resp, r with
  | Some resp, Some r => resp_agrees resp r
  | None, None => True
  | _, _ => False
  end.

(** ** Lemmas *)

Section equivalence.
Context {K T : Type} `{KVStoreBase K T, KVStoreSpec K, TxnSpec T, DirTableBase T,
  DEntViewBase T, FSRep, Fmt, Build, Flags, !KVStoreLaws K T, !DirTableLaws T,
  !DEntViewLaws T}.

(** The machine's view of the process, and a process with [n] transactions to come. *)
Definition ns_of (fs : FS) (s : Srv K) : Ns :=
  {| ns_fs := fs; ns_gen := srv_gen s; ns_loaded := srv_loaded s |}.
Definition srv_ready (n : nat) (fs : FS) (s : Srv K) : Prop :=
  ctx_ok (srv_ctx s) fs ∧ loaded_ok (srv_gen s) (srv_loaded s) ∧ kv_quiet n (kv_store_ (srv_ctx s)).

(** The two states after an event, or the exception both threw. *)
Definition agree {A B} (R : A → B → Prop) (n : nat) (x : outcome A * Srv K)
    (y : outcome B * Ns) : Prop :=
  match x, y with
  | (Ret a, s), (Ret b, m) => R a b ∧ m = ns_of (ns_fs m) s ∧ srv_ready n (ns_fs m) s
  | (Throw w, _), (Throw w', _) => w = w'
  | _, _ => False
  end.

Lemma agree_bind {A A' B B'} (R : A → B → Prop) (S : A' → B' → Prop) n n'
    (m : M (Srv K) A) (k : A → M (Srv K) A') (m' : M Ns B) (k' : B → M Ns B') c s :
  agree R n (m c) (m' s) →
  (∀ a b c s, R a b → agree R n (Ret a, c) (Ret b, s) → agree S n' (k a c) (k' b s)) →
  agree S n' (bind m k c) (bind m' k' s).
Proof.
  unfold bind. destruct (m c) as [[a|w|] c1], (m' s) as [[b|w'|] s1]; cbn; try done.
  intros (HR & Ha) Hk. by apply Hk.
Qed.

(** A request handled on the context of a process that is ready for it. *)
Notation on_ctx_of m := (zoom srv_ctx set_srv_ctx m).

Lemma agree_zoom {A B} (R : A → B → Prop) n (m : M (NameNodeCtx K) A) s a b c' fs' g :
  m (srv_ctx s) = (Ret a, c') → R a b → ctx_ok c' fs' → inode_id_generator_ c' = g →
  loaded_ok g (srv_loaded s) → kv_quiet n (kv_store_ c') →
  agree R n (on_ctx_of m s) (Ret b, {| ns_fs := fs'; ns_gen := g; ns_loaded := srv_loaded s |}).
Proof.
  intros E HR Hc <- Hl Hq. unfold zoom. rewrite E. split; [done|]. split; [done|]. by split_and!.
Qed.

(** A read request. *)
Lemma read_agrees {A} `{ErrorResp A} (run : M (Handler K T) A) (spec : FS → reply A) n s fs :
  flags_ok → srv_ready (S n) fs s →
  (∀ c' (t : T), txn_wf t → fs_rep (txn_snapshot t) fs → answers run c' t (spec fs)) →
  agree says n (on_ctx_of (with_handler run) s) (Ret (spec fs), ns_of fs s).
Proof.
  intros Hfl (Hc & Hl & Hq) Hrun.
  destruct (with_handler_answers run _ fs (spec fs) Hfl Hc Hrun)
    as (o & c' & E & Hr & Hc' & Hg & _ & t & Hst).
  destruct (kv_quiet_law n _ Hq) as (_ & Hh & _ & t0 & k1 & Hst' & Hq1 & _).
  rewrite Hst' in Hst. injection Hst as _ Ek. rewrite Ek in Hq1.
  destruct Hr as [(resp & -> & Hr)|[? _]]; [|done]. by apply (agree_zoom _ n _ _ _ _ _ _ _ E).
Qed.

Lemma mkdirs_agrees now_ns req n s fs :
  flags_ok → srv_ready (S n) fs s → is_u64 (mk_parent_id req) →
  mk_name req ≠ ""%string → is_i64 now_ns →
  agree says n (on_ctx_of (with_handler (MkdirsOp_Run now_ns req)) s)
    (ns_mkdirs now_ns req (ns_of fs s)).
Proof.
  intros Hfl (Hc & Hl & Hq) Hid Hname Hnow. unfold ns_mkdirs. cbn [ns_of ns_fs ns_gen ns_loaded].
  destruct (with_handler_Mkdirs now_ns req _ fs Hfl Hc Hid Hname Hnow) as (o & c' & E & Hcase).
  destruct (kv_quiet_law n _ Hq) as (_ & Hh & _ & t0 & k1 & Hst' & Hq1 & Hcommit).
  unfold srv_gen in *.
  destruct Hcase as [(Hc' & Hg & [t Hst] & [(e & -> & ->)|[Hn _]])|[(mk & w & -> & Hw & ->)|
    (mk & id & oc & -> & HN & -> & (t1 & t & k2 & Hst & Hwf & Hti & Hct) & Hc')]]; [|done|..].
  - rewrite Hst' in Hst. injection Hst as _ Ek. rewrite Ek in Hq1.
    apply (agree_zoom _ n _ _ _ _ _ _ _ E); try done. by exists ""%string.
  - destruct (Next _) as [[id|w'|] g'] eqn:HN; cbn in Hw; [done| |done].
    injection Hw as ->. unfold zoom. by rewrite E.
  - rewrite Hst' in Hst. injection Hst as <- <-.
    destruct (Hcommit t Hwf Hti) as (k3 & Hct' & Hq3). rewrite Hct' in Hct. injection Hct as <- Ek.
    rewrite Ek in Hq3. rewrite HN.
    destruct Hc' as [Hc'|[_ ?]]; [|done]. apply (agree_zoom _ n _ _ _ _ _ _ _ E); try done.
    eapply loaded_ok_Next; [apply Hc|exact HN|exact Hl].
Qed.

Lemma tick_agrees now_ns n s fs :
  srv_ready (S n) fs s → agree (λ _ _, True) n (tick now_ns s) (ns_tick now_ns (ns_of fs s)).
Proof.
  intros ((Hk & Hrep & Hg) & Hl & Hq). pose proof (kv_quiet_law (T := T) n _ Hq) as (_ & _ & Hq1 & _).
  unfold tick, ns_tick. cbn [ns_of ns_gen ns_fs ns_loaded].
  destruct (manager_turn _ _ _) as [o g] eqn:E.
  destruct (manager_turn_throws _ _ _ _ _ Hg Hl E) as [[l ->]|[w ->]]; [|done].
  destruct (manager_turn_ok _ _ _ _ _ Hg Hl E) as (Hg' & Hl' & _).
  split; [done|]. split; [done|]. by split_and!.
Qed.

(** A result wrapped on both sides. *)
Lemma agree_map {A A' B B'} (R : A → B → Prop) (S : A' → B' → Prop) n
    (m : M (Srv K) A) (f : A → A') (m' : M Ns B) (f' : B → B') c s :
  agree R n (m c) (m' s) → (∀ a b, R a b → S (f a) (f' b)) →
  agree S n (bind m (λ a, ret (f a)) c) (bind m' (λ b, ret (f' b)) s).
Proof.
  intros Ha HS. eapply agree_bind; [exact Ha|]. intros a b c1 s1 HR (_ & Hc).
  split; [by apply HS | exact Hc].
Qed.

Lemma zoom_map {A B} (m : M (NameNodeCtx K) A) (f : A → B) s :
  on_ctx_of (let! a := m in ret (f a)) s = (let! a := on_ctx_of m in ret (f a)) s.
Proof. unfold zoom, bind. by destruct (m (srv_ctx s)) as [[a|w|] c]. Qed.

Lemma serve_agrees now_ns req n s fs :
  flags_ok → srv_ready (S n) fs s → req_ok req → is_i64 now_ns →
  agree resp_agrees n (on_ctx_of (serve (T := T) now_ns req) s) (ns_serve now_ns req (ns_of fs s)).
Proof.
  intros Hfl Hs He Hnow. destruct req as [r|r|r|r|r]; cbn [serve ns_serve req_ok] in *;
    unfold PingPongOp, GetInodeOp, LookupOp, ListDirOp, MkdirsOp; rewrite zoom_map.
  - destruct Hs as (Hc & Hl & Hq). pose proof (kv_quiet_law (T := T) n _ Hq) as (_ & _ & Hq1 & _).
    split; [done|]. split; [done|]. by split_and!.
  - eapply (agree_map says); [|done]. apply (read_agrees _ (λ fs, get_inode_spec fs r)); [done..|].
    intros. by apply GetInodeOp_answers.
  - eapply (agree_map says); [|done]. apply (read_agrees _ (λ fs, lookup_spec fs r)); [done..|].
    intros. by apply LookupOp_answers.
  - eapply (agree_map says); [|done]. apply (read_agrees _ (λ fs, list_dir_spec fs r)); [done..|].
    intros. by apply ListDirOp_answers.
  - eapply (agree_map says); [|done]. destruct He. by apply mkdirs_agrees.
Qed.

(** A request served on the context, as the step relations have it. *)
Lemma served_agrees now_ns req n c l fs resp c' :
  flags_ok → srv_ready (S n) fs {| srv_ctx := c; srv_loaded := l |} → req_ok req → is_i64 now_ns →
  serve (T := T) now_ns req c = (Ret resp, c') →
  ∃ y fs', ns_serve now_ns req (ns_of fs {| srv_ctx := c; srv_loaded := l |}) =
      (Ret y, ns_of fs' {| srv_ctx := c'; srv_loaded := l |}) ∧
    resp_agrees resp y ∧ srv_ready n fs' {| srv_ctx := c'; srv_loaded := l |}.
Proof.
  intros Hfl Hs Hreq Hnow E. pose proof (serve_agrees now_ns req n _ fs Hfl Hs Hreq Hnow) as Ha.
  unfold zoom in Ha. cbn [srv_ctx] in Ha. rewrite E in Ha. unfold agree, set_srv_ctx in Ha. cbn [srv_loaded] in Ha.
  destruct (ns_serve _ _ _) as [[y|w|] m]; try done. destruct Ha as (HR & -> & Hr).
  by exists y, (ns_fs m).
Qed.

Lemma ticked_agrees now_ns n s fs s' :
  srv_ready (S n) fs s → tick now_ns s = (Ret tt, s') →
  ns_tick now_ns (ns_of fs s) = (Ret tt, ns_of fs s') ∧ srv_ready n fs s'.
Proof.
  intros Hs E. pose proof (tick_agrees now_ns n s fs Hs) as Ha. rewrite E in Ha. unfold agree in Ha.
  unfold ns_tick in *. cbn [ns_of ns_fs ns_gen ns_loaded] in *.
  destruct (manager_turn _ _ _) as [[l|w|] g]; try done. cbn [ns_fs] in Ha.
  by destruct Ha as (_ & <- & Hr).
Qed.

Lemma event_agrees e n s fs :
  flags_ok → srv_ready (S n) fs s → event_ok e →
  agree reply_agrees n (run_event (T := T) e s) (ns_event e (ns_of fs s)).
Proof.
  intros Hfl Hs He. destruct e as [now_ns req|now_ns]; cbn [run_event ns_event event_ok] in *.
  - destruct He. by eapply (agree_map resp_agrees); [apply serve_agrees|].
  - by eapply (agree_map (λ _ _, True)); [apply tick_agrees|].
Qed.

Lemma run_agrees es s fs :
  flags_ok → srv_ready (length es) fs s → Forall event_ok es →
  agree (Forall2 reply_agrees) 0 (run_events (T := T) es s) (ns_run es (ns_of fs s)).
Proof.
  intros Hfl Hs Hes. revert s fs Hs.
  induction Hes as [|e es He Hes IH]; intros s fs Hs; cbn [run_events ns_run length] in *.
  - by split_and!.
  - eapply agree_bind; [by apply event_agrees|]. intros a b s1 m1 HR (_ & -> & Hs1).
    cbn [ns_of ns_fs] in Hs1. eapply (agree_map (Forall2 reply_agrees)); [by apply IH|].
    intros rs rs' Hrs. by constructor.
Qed.

End equivalence.

(** ** Properties *)

Section properties.
Context {K T : Type} `{KVStoreBase K T, KVStoreSpec K, TxnSpec T, DirTableBase T,
  DEntViewBase T, FSRep, Fmt, Build, Flags, !KVStoreLaws K T, !DirTableLaws T,
  !DEntViewLaws T}.

(** C2: over a store that serves as many transactions as
    there are events without a failure, any sequence of requests and of loads and stores
    of the manager's thread makes the namenode and the abstract machine over namespaces
    reply the same: the same values, the same error codes, and an exception at the same
    event with the same text; the store then represents the machine's namespace, and
    the generator is the same, with what the thread has loaded of it. *)
Theorem namenode_equiv_namespace (es : list srv_event) (s : Srv K) (fs : FS)
    (Hfl : flags_ok) (Hc : ctx_ok (srv_ctx s) fs) (Hl : loaded_ok (srv_gen s) (srv_loaded s))
    (Hq : kv_quiet (length es) (kv_store_ (srv_ctx s))) (Hes : Forall event_ok es) :
  match run_events (T := T) es s, ns_run es (ns_of fs s) with
  | (Ret rs, s'), (Ret rs', m) =>
      Forall2 reply_agrees rs rs' ∧ fs_rep (kv_contents (kv_store_ (srv_ctx s'))) (ns_fs m) ∧
      m = ns_of (ns_fs m) s'
  | (Throw w, _), (Throw w', _) => w = w'
  | _, _ => False
  end.
Proof.
  pose proof (run_agrees es s fs Hfl (conj Hc (conj Hl Hq)) Hes) as Ha. unfold agree in Ha.
  repeat case_match; try done. by destruct Ha as (HR & Hm & (_ & Hrep & _) & _).
Qed.
End properties.

(** ** Witness *)

Section demo.
#[local] Existing Instances MemDB MemDBSpec MemDBLaws demo_fmt demo_build demo_be demo_fb
  demo_be_laws demo_fb_laws default_flags.

(** A load, a look at the root, the store, a directory, and looks at it. *)
Definition demo_events : list srv_event := [
  EvTick 1742256000005000000;
  EvRequest 49 (ReqLookup {| lk_parent_id := 1; lk_name := "b" |});
  EvTick 0;
  EvRequest 50 (ReqMkdirs (demo_mkdirs "b"));
  EvRequest 51 (ReqLookup {| lk_parent_id := 1; lk_name := "b" |});
  EvRequest 52 (ReqLookup {| lk_parent_id := 1; lk_name := "c" |})].

Lemma demo_quiet : kv_quiet (KVStoreSpec := RocksDBKVStore_KVStoreSpec) 6 (kv_store_ demo_ctx).
Proof. split; [by split; intros; [|exact I]|]. split_and!; reflexivity || done. Qed.

Lemma namenode_equiv_namespace_witness :
  ∃ rs s' st, run_events (T := RocksDBTxn) demo_events (srv_start demo_ctx) = (Ret rs, s') ∧
    Forall2 reply_agrees rs
      [None; Some (NsLookup (RErr kNotFoundError)); None; Some (NsMkdirs (ROk (mkdirs_resp
         (mkdirs_dir root_dir {| val := 1051989126 |} 50 (demo_mkdirs "b")))));
       Some (NsLookup (ROk {| sr_error_code := 0; sr_error_msg := ""; sr_id := 1051989126;
                              sr_stat := st |}));
       Some (NsLookup (RErr kNotFoundError))].
Proof.
  pose proof (namenode_equiv_namespace (K := RocksDBKVStore) (T := RocksDBTxn) demo_events
    (srv_start demo_ctx) demo_fs demo_flags_ok demo_ctx_ok I demo_quiet) as Heq.
  destruct (run_events demo_events (srv_start demo_ctx)) as [[rs|w|] s'] eqn:E.
  - exists rs, s'. eexists. split; [reflexivity|]. destruct Heq as [Heq _].
    + repeat constructor; vm_compute; done.
    + exact Heq.
  - exfalso. apply (f_equal fst) in E. vm_compute in E. discriminate E.
  - exfalso. apply (f_equal fst) in E. vm_compute in E. discriminate E.
Defined.
End demo.
