(* ===== verification/Visibility.v ===== *)
(** What the namenode shows of the directories it created: a directory made by a request
    is found by the requests that follow, in one run of the process, until a request
    makes another one under the same name.

    The argument is about the abstract machine of Namespace.v, whose runs the namenode's
    agree with. *)

From Stdlib Require Import ZArith Lia Ascii String.
From stdpp Require Import prelude strings gmap relations.
From S2P Require Import Prelude Common Types IdGen KVStoreBase RocksDB Conflict Serde Tables Proto.
From S2P Require Import Service System Namespace.

#[local] Open Scope Z_scope.

(** ** Runs in order

    [Update]'s store takes IDs back when [Next] has passed it ([late]); a directory made
    with such an ID would replace another one. *)

Section order.
Context {K T : Type} `{KVStoreBase K T, DirTableBase T, DEntViewBase T, Fmt, Build, Flags}.

Fixpoint run_in_order (floor : Z) (es : list srv_event) (s : Srv K) : bool :=
  match es with
  | [] => true
  | e :: es =>
      in_order floor e s &&
      match run_event (T := T) e s with
      | (Ret _, s') => run_in_order floor es s'
      | _ => true
      end
  end.
End order.

(** ** Runs of the abstract machine *)

Section ns.
Context `{Flags}.

Definition ns_wf (s : Ns) : Prop := idgen_wf (ns_gen s) ∧ loaded_ok (ns_gen s) (ns_loaded s).

Definition ns_in_time (e : srv_event) (s : Ns) : bool :=
  match e with EvTick _ => negb (late (ns_loaded s) (ns_gen s)) | _ => true end.
Fixpoint ns_run_in_time (es : list srv_event) (s : Ns) : bool :=
  match es with
  | [] => true
  | e :: es =>
      ns_in_time e s &&
      match ns_event e s with
      | (Ret _, s') => ns_run_in_time es s'
      | _ => true
      end
  end.

Lemma ns_run_cons_inv e es s rs s2 :
  ns_run (e :: es) s = (Ret rs, s2) →
  ∃ r rs' s1, rs = r :: rs' ∧ ns_event e s = (Ret r, s1) ∧ ns_run es s1 = (Ret rs', s2).
Proof.
  cbn [ns_run]. intros E. apply bind_Ret_inv in E as (r & s1 & E1 & E).
  apply bind_Ret_inv in E as (rs' & s2' & E2 & E). injection E as <- <-. by exists r, rs', s1.
Qed.

Lemma ns_run_app_inv es1 es2 s rs s2 :
  ns_run (es1 ++ es2) s = (Ret rs, s2) →
  ∃ rs1 rs2 s1, rs = rs1 ++ rs2 ∧ length rs1 = length es1 ∧
    ns_run es1 s = (Ret rs1, s1) ∧ ns_run es2 s1 = (Ret rs2, s2).
Proof.
  revert s rs. induction es1 as [|e es1 IH]; intros s rs E.
  - by exists [], rs, s.
  - apply ns_run_cons_inv in E as (r & rs' & s1 & -> & E1 & E).
    destruct (IH _ _ E) as (rs1 & rs2 & s3 & -> & Hl & E2 & E3).
    exists (r :: rs1), rs2, s3. split; [done|]. split; [cbn; lia|]. split; [|done].
    cbn [ns_run]. by rewrite (bind_Ret _ _ _ _ _ E1), (bind_Ret _ _ _ _ _ E2).
Qed.

(** [Mkdirs] draws an ID and adds the directory, or changes nothing. *)
Lemma ns_mkdirs_inv now_ns req s r s' :
  ns_mkdirs now_ns req s = (Ret r, s') → ns_wf s →
  match r with
  | RErr c => s' = s ∧ StatusCode_to_int c ≠ 0
  | ROk resp => ∃ d, resp = mkdirs_resp d ∧
      val (dir_parent_id d) = mk_parent_id req ∧ dir_name d = mk_name req ∧
      val (dir_id d) = id_ (ns_gen s) + 1 ∧
      ns_fs s' = fs_insert d (ns_fs s) ∧ id_ (ns_gen s') = val (dir_id d) ∧ ns_wf s'
  end.
Proof.
  unfold ns_mkdirs, mkdirs_spec. intros E [Hg Hl].
  destruct (fs_dir _ _) as [p|]; [|by injection E as <- <-].
  destruct (granted _ _ _); [|by injection E as <- <-].
  destruct (Next (ns_gen s)) as [[id|w|] g] eqn:HN; try done. injection E as <- <-.
  pose proof (loaded_ok_Next _ _ _ _ Hg HN Hl) as Hl'.
  destruct (Next_Ret _ _ _ Hg HN) as (Hid & -> & Hg').
  exists (mkdirs_dir p id now_ns req). split_and!; try done.
Qed.

Lemma ns_tick_inv now_ns s s' :
  ns_tick now_ns s = (Ret tt, s') → ns_wf s →
  ns_fs s' = ns_fs s ∧ ns_wf s' ∧
  (late (ns_loaded s) (ns_gen s) = false → id_ (ns_gen s) ≤ id_ (ns_gen s')).
Proof.
  unfold ns_tick. intros E [Hg Hl].
  destruct (manager_turn _ _ _) as [[l|w|] g] eqn:Em; try done. injection E as <-.
  destruct (manager_turn_ok _ _ _ _ _ Hg Hl Em) as (Hg' & Hl' & Hle). by split_and!.
Qed.

(** *** A directory that is there to see *)

Record shows (d : Dir) (s : Ns) : Prop := {
  shows_dent : fs_dents (ns_fs s) !! (val (dir_parent_id d), dir_name d) = Some (inl d);
  shows_inode : fs_inodes (ns_fs s) !! val (dir_id d) = Some (inl d);
  shows_id : val (dir_id d) ≤ id_ (ns_gen s);
}.

(** The request makes a directory of this name. *)
Definition makes (parent : Z) (name : string) (e : srv_event) : Prop :=
  match e with
  | EvRequest _ (ReqMkdirs r) => mk_parent_id r = parent ∧ mk_name r = name
  | _ => False
  end.

Lemma ns_event_shows e s r s' d :
  ns_event e s = (Ret r, s') → ns_wf s →
  ns_wf s' ∧
  (ns_in_time e s = true → ¬ makes (val (dir_parent_id d)) (dir_name d) e → shows d s → shows d s').
Proof.
  intros E Hg. destruct e as [now_ns [p|q|q|q|q]|now_ns]; cbn [ns_event ns_serve] in E.
  1-4: by injection E as <- <-.
  - apply bind_Ret_inv in E as (x & s1 & E & Ex). injection Ex as <- <-.
    apply bind_Ret_inv in E as (y & s2 & E & Ey). injection Ey as <- <-.
    pose proof (ns_mkdirs_inv _ _ _ _ _ E Hg) as Hm.
    destruct y as [resp|c]; [|by destruct Hm as [-> _]].
    destruct Hm as (d' & _ & Hp & Hn & Hid & Hfs & Hgen & Hg'). split; [done|].
    cbn [makes]. intros _ Hne [Hd Hi Hle]. split; rewrite ?Hfs; unfold fs_insert; cbn [fs_dents fs_inodes].
    + rewrite lookup_insert_ne; [done|]. intros [= ? ?]. apply Hne. split; congruence.
    + rewrite lookup_insert_ne; [done|]. lia.
    + lia.
  - apply bind_Ret_inv in E as ([] & s1 & E & Ex). injection Ex as <- <-.
    destruct (ns_tick_inv _ _ _ E Hg) as (Hfs & Hg' & Hle). split; [done|].
    intros Hlate%negb_true_iff _ [Hd Hi Hl]. specialize (Hle Hlate).
    split; rewrite ?Hfs; [done..|lia].
Qed.

Lemma ns_run_shows es s rs s' d :
  ns_run es s = (Ret rs, s') → ns_wf s →
  ns_wf s' ∧
  (ns_run_in_time es s = true →
   Forall (λ e, ¬ makes (val (dir_parent_id d)) (dir_name d) e) es → shows d s → shows d s').
Proof.
  revert s rs. induction es as [|e es IH]; intros s rs E Hg.
  - by injection E as <- <-.
  - apply ns_run_cons_inv in E as (r & rs' & s1 & -> & E1 & E).
    destruct (ns_event_shows _ _ _ _ d E1 Hg) as [Hg1 Hs1].
    destruct (IH _ _ E Hg1) as [Hg' Hs']. split; [done|].
    cbn [ns_run_in_time]. rewrite E1. intros [Ht Hts]%andb_true_iff [He Hes]%Forall_cons Hs.
    by apply Hs', Hs1.
Qed.

Lemma ns_run_in_time_prefix es1 es2 s : ns_run_in_time (es1 ++ es2) s = true → ns_run_in_time es1 s = true.
Proof.
  revert s. induction es1 as [|e es1 IH]; intros s; [done|]. cbn [app ns_run_in_time].
  intros [-> Hts]%andb_true_iff. cbn [andb]. destruct (ns_event e s) as [[r|w|] s1]; [|done..]. by apply IH.
Qed.

Lemma ns_run_in_time_app es1 es2 s rs s1 :
  ns_run es1 s = (Ret rs, s1) → ns_run_in_time (es1 ++ es2) s = true → ns_run_in_time es2 s1 = true.
Proof.
  revert s rs. induction es1 as [|e es1 IH]; intros s rs E.
  - by injection E as <- <-.
  - apply ns_run_cons_inv in E as (r & rs' & s2 & -> & E1 & E). cbn [app ns_run_in_time].
    rewrite E1. intros [_ Hts]%andb_true_iff. by eapply IH.
Qed.

(** The two ways to look at it. *)
Definition lookup_reply (d : Dir) : StatResponse :=
  {| sr_error_code := 0; sr_error_msg := ""; sr_id := i64 (val (dir_id d));
     sr_stat := Some (Dir_Stat (dent_image d)) |}.
Definition get_inode_reply (d : Dir) : StatResponse :=
  {| sr_error_code := 0; sr_error_msg := ""; sr_id := i64 (val (dir_id d));
     sr_stat := Some (Dir_Stat (dir_seen d)) |}.

Lemma shows_lookup d s :
  shows d s →
  lookup_spec (ns_fs s) {| lk_parent_id := val (dir_parent_id d); lk_name := dir_name d |}
  = ROk (lookup_reply d).
Proof. intros [Hd _ _]. unfold lookup_spec, fs_dent. cbn [lk_parent_id lk_name val]. by rewrite Hd. Qed.

Lemma shows_get_inode d s :
  shows d s →
  get_inode_spec (ns_fs s) {| gi_path := None; gi_id := Some (val (dir_id d)) |}
  = ROk (get_inode_reply d).
Proof. intros [_ Hi _]. unfold get_inode_spec, fs_dir. cbn. by rewrite Hi. Qed.

End ns.

(** ** The namenode *)

Section visible.
Context {K T : Type} `{KVStoreBase K T, KVStoreSpec K, TxnSpec T, DirTableBase T,
  DEntViewBase T, FSRep, Fmt, Build, Flags, !KVStoreLaws K T, !DirTableLaws T,
  !DEntViewLaws T}.

Lemma run_in_order_ns floor es (s : Srv K) fs :
  flags_ok → srv_ready (length es) fs s → Forall event_ok es →
  run_in_order (T := T) floor es s = true → ns_run_in_time es (ns_of fs s) = true.
Proof.
  intros Hfl Hs Hes. revert s fs Hs. induction Hes as [|e es He Hes IH]; intros s fs Hs; [done|].
  cbn [run_in_order ns_run_in_time length] in *. intros [Ho Hr]%andb_true_iff.
  apply andb_true_iff. split; [by destruct e|].
  pose proof (event_agrees e _ s fs Hfl Hs He) as Ha. unfold agree in Ha.
  destruct (run_event e s) as [[a|w|] s1], (ns_event e _) as [[b|w'|] m]; try done.
  destruct Ha as (_ & -> & Hs1). by apply IH.
Qed.

(** C6: a directory that [Mkdirs] answered with success is
    found by every later [Lookup] of its name and every later [GetInode] of its ID in
    the run, as the same directory, whatever other requests, loads and stores of the
    manager's thread come in between, as long as none of the requests makes a directory
    of that name again, no store is late, and the store serves without failures. *)
Theorem created_directory_found (es1 es2 : list srv_event) (now_ns t1 t2 : Z) (m : MkdirsRequest)
    (r : StatResponse) (rs : list (option Response)) (s s' : Srv K) (fs : FS) :
  let es := es1 ++ EvRequest now_ns (ReqMkdirs m) :: es2 ++
    [EvRequest t1 (ReqLookup {| lk_parent_id := mk_parent_id m; lk_name := mk_name m |});
     EvRequest t2 (ReqGetInode {| gi_path := None; gi_id := Some (sr_id r) |})] in
  flags_ok → ctx_ok (srv_ctx s) fs → loaded_ok (srv_gen s) (srv_loaded s) →
  kv_quiet (length es) (kv_store_ (srv_ctx s)) → Forall event_ok es →
  run_in_order (T := T) 0 es s = true →
  Forall (λ e, ¬ makes (mk_parent_id m) (mk_name m) e) es2 →
  run_events (T := T) es s = (Ret rs, s') →
  rs !! length es1 = Some (Some (RespMkdirs r)) → sr_error_code r = 0 →
  ∃ d, r = mkdirs_resp d ∧ val (dir_parent_id d) = mk_parent_id m ∧ dir_name d = mk_name m ∧
    drop (length es1 + S (length es2)) rs =
      [Some (RespLookup (lookup_reply d)); Some (RespGetInode (get_inode_reply d))].
Proof.
  intros es Hfl Hc Hl Hq Hes Hord Hmk Hrun Hr Hcode.
  assert (srv_ready (length es) fs s) as Hs by done.
  pose proof (run_in_order_ns 0 es s fs Hfl Hs Hes Hord) as Htime.
  pose proof (run_agrees es s fs Hfl Hs Hes) as Ha. rewrite Hrun in Ha. unfold agree in Ha.
  destruct (ns_run es _) as [[rs'|w|] m'] eqn:E; try done. destruct Ha as [HR _].
  assert (ns_wf (ns_of fs s)) as Hg by (split; [apply Hc|done]).
  unfold es in E, Htime. apply ns_run_app_inv in E as (rs1 & rest & s1 & -> & Hl1 & E1 & E).
  apply (ns_run_in_time_app _ _ _ _ _ E1) in Htime. cbn [ns_run_in_time] in Htime.
  apply ns_run_cons_inv in E as (x & rest' & s2 & -> & Em & E).
  rewrite Em in Htime. apply andb_true_iff in Htime as [_ Htime].
  apply ns_run_app_inv in E as (rs2 & fin & s3 & -> & Hl2 & E2 & E).
  apply ns_run_cons_inv in E as (l & fin1 & s4 & -> & El & E).
  apply ns_run_cons_inv in E as (g & fin2 & s5 & -> & Eg & E). injection E as <- <-.
  assert (ns_run_in_time es2 s2 = true) as Ht2 by (by eapply ns_run_in_time_prefix).
  assert (∃ d, r = mkdirs_resp d ∧ val (dir_parent_id d) = mk_parent_id m ∧
    dir_name d = mk_name m ∧ shows d s3) as (d & -> & Hp & Hn & Hshows).
  { destruct (ns_run_shows _ _ _ _ root_dir E1 Hg) as [Hg1 _].
    cbn [ns_event ns_serve] in Em. apply bind_Ret_inv in Em as (y & s2' & Em & Ey).
    injection Ey as <- <-. apply bind_Ret_inv in Em as (z & s2'' & Em & Ez). injection Ez as <- <-.
    pose proof (ns_mkdirs_inv _ _ _ _ _ Em Hg1) as Hd.
    destruct (Forall2_lookup_l _ _ _ _ _ HR Hr) as (z' & Hz & Hag).
    rewrite lookup_app_r, <- Hl1, Nat.sub_diag in Hz by lia. injection Hz as <-.
    destruct z as [resp|code].
    - cbn in Hag. subst resp. destruct Hd as (d & -> & Hp & Hn & _ & Hfs & Hgen & Hg2).
      exists d. split; [done|]. split; [done|]. split; [done|].
      destruct (ns_run_shows _ _ _ _ d E2 Hg2) as [_ Hshow]. apply Hshow; [done|by rewrite Hp, Hn|].
      split; rewrite ?Hfs; unfold fs_insert; cbn [fs_dents fs_inodes]; [by rewrite lookup_insert_eq..|lia].
    - destruct Hd as [_ Hd], Hag as (msg & ->). by rewrite <- Hcode in Hd. }
  exists d. split; [done|]. split; [done|]. split; [done|].
  cbn [ns_event ns_serve] in El, Eg. injection El as <- <-. injection Eg as <- _.
  rewrite <- Hp, <- Hn in HR. cbn [mkdirs_resp sr_id] in HR.
  rewrite (shows_lookup d s3 Hshows), (shows_get_inode d s3 Hshows) in HR.
  apply (Forall2_drop _ _ _ (length es1 + S (length es2))) in HR. revert HR.
  rewrite <- Hl1, <- Hl2, drop_app_ge by lia.
  replace (length rs1 + S (length rs2) - length rs1)%nat with (S (length rs2)) by lia.
  cbn [drop]. rewrite drop_app_length. intros HR.
  apply Forall2_cons_inv_r in HR as ([a|] & l1 & Ha & HR & ->); [|done].
  apply Forall2_cons_inv_r in HR as ([b|] & l2 & Hb & HR & ->); [|done].
  apply Forall2_nil_inv_r in HR as ->. destruct a, b; try done. cbn in Ha, Hb. by subst.
Qed.
End visible.

(** ** At concrete inputs *)

Section demo.
#[local] Existing Instances MemDB MemDBSpec MemDBLaws demo_fmt demo_build demo_be demo_fb
  demo_be_laws demo_fb_laws default_flags.

(** A directory "b", another one "c", and a look at "b". *)
Definition demo_before : list srv_event := [EvTick 1742256000005000000; EvTick 0].
Definition demo_between : list srv_event :=
  [EvTick 1742256000009000000; EvRequest 60 (ReqMkdirs (demo_mkdirs "c")); EvTick 0].
Definition demo_b : Dir := mkdirs_dir root_dir {| val := 1051989126 |} 50 (demo_mkdirs "b").
Definition demo_life : list srv_event :=
  demo_before ++ EvRequest 50 (ReqMkdirs (demo_mkdirs "b")) :: demo_between ++
    [EvRequest 70 (ReqLookup {| lk_parent_id := mk_parent_id (demo_mkdirs "b");
                                lk_name := mk_name (demo_mkdirs "b") |});
     EvRequest 80 (ReqGetInode {| gi_path := None; gi_id := Some (sr_id (mkdirs_resp demo_b)) |})].

Lemma created_directory_found_witness :
  ∃ rs s' d, run_events (T := RocksDBTxn) demo_life (srv_start demo_ctx) = (Ret rs, s') ∧
    drop 6 rs = [Some (RespLookup (lookup_reply d)); Some (RespGetInode (get_inode_reply d))].
Proof.
  destruct (run_events (T := RocksDBTxn) demo_life (srv_start demo_ctx)) as [[rs|w|] s'] eqn:E.
  - destruct (created_directory_found (K := RocksDBKVStore) (T := RocksDBTxn) demo_before
      demo_between 50 70 80 (demo_mkdirs "b") (mkdirs_resp demo_b) rs (srv_start demo_ctx) s' demo_fs)
      as (d & _ & _ & _ & Hd).
    + exact demo_flags_ok.
    + exact demo_ctx_ok.
    + exact I.
    + split; [by split; intros; [|exact I]|]. split_and!; reflexivity || done.
    + repeat constructor; vm_compute; done.
    + vm_compute. reflexivity.
    + apply Forall_cons. split; [intros Hf; exact Hf|].
      apply Forall_cons. split; [intros [_ Hn]; vm_compute in Hn; discriminate Hn|].
      apply Forall_cons. split; [intros Hf; exact Hf|]. apply Forall_nil_2.
    + exact E.
    + apply (f_equal fst) in E. vm_compute in E. injection E as <-. reflexivity.
    + reflexivity.
    + exists rs, s', d. by split.
  - exfalso. apply (f_equal fst) in E. vm_compute in E. discriminate E.
  - exfalso. apply (f_equal fst) in E. vm_compute in E. discriminate E.
Defined.
End demo.
