(* ===== verification/Restart.v ===== *)
(** Restarts of the namenode: src/namenode/service/client_namenode_service_main.cc runs
    [NameNodeCtx] on the database it finds, and src/namenode/namenode_ctx.cc begins the
    IDs at zero each time.

    A restart keeps what was committed: the database is reopened with the contents it
    had.  What becomes of the namespace depends on where the generator stands when the
    first directory is created. *)

From Stdlib Require Import ZArith Lia Ascii String.
From stdpp Require Import prelude strings gmap relations.
From S2P Require Import Prelude Common Types IdGen KVStoreBase RocksDB Conflict Serde Tables Proto.
From S2P Require Import Service System.

#[local] Open Scope Z_scope.

Section restart.
Context {K T : Type} `{KVStoreBase K T, KVStoreSpec K, TxnSpec T, DirTableBase T,
  DEntViewBase T, FSRep, Fmt, Build, Flags, !KVStoreLaws K T, !DirTableLaws T,
  !DEntViewLaws T}.

(** [main] again, on the same database. *)
Definition restarts (c c' : NameNodeCtx K) : Prop :=
  ∃ k', kv_ok k' ∧ kv_contents k' = kv_contents (kv_store_ c) ∧ NameNodeCtx_Start k' = Ret c'.

(** The process that runs, and what its IDs must reach before it makes a directory: the
    root's ID at first, the last ID drawn by an earlier process after a restart. *)
Record Life := {
  lf_srv : Srv K;
  lf_floor : Z;
}.

Inductive life_step : Life → Life → Prop :=
| life_serve floor s s' :
    srv_step_in_order (T := T) floor s s' →
    life_step {| lf_srv := s; lf_floor := floor |} {| lf_srv := s'; lf_floor := floor |}
| life_restart floor s c' :
    restarts (srv_ctx s) c' →
    life_step {| lf_srv := s; lf_floor := floor |}
      {| lf_srv := srv_start c'; lf_floor := Z.max floor (id_ (srv_gen s)) |}.

Lemma restarts_ctx_ok c c' fs : ctx_ok c fs → restarts c c' → ctx_ok c' fs.
Proof.
  intros (_ & Hrep & _) (k' & Hk & Hkv & ->%Start_eval).
  split; [exact Hk|]. split; [by rewrite <- Hkv in Hrep | exact start_gen_wf].
Qed.

Definition life_inv (l : Life) : Prop := 1 ≤ lf_floor l ∧ srv_inv (lf_floor l) (lf_srv l).

Lemma life_step_inv l l' : flags_ok → life_step l l' → life_inv l → life_inv l'.
Proof.
  intros Hfl Hstep [Hfloor Hinv]. destruct Hstep as [floor s s' Hstep|floor s c' Hre];
    unfold life_inv in *; cbn [lf_srv lf_floor] in *; (split; [lia|]).
  - by eapply srv_inv_step.
  - destruct Hinv as (_ & fs & Hc & Htree). split; [by destruct Hre as (k & _ & _ & ->%Start_eval)|].
    exists fs. split; [by eapply restarts_ctx_ok|]. eapply tree_inv_mono; [|exact Htree]. lia.
Qed.

(** C9: across any number of restarts, at any
    moment of the manager's thread, the namespace stays a tree and the next ID is one
    that no inode has, provided no run of the process makes a directory before its IDs
    have reached the root's, at first, and those of the earlier runs, later on, and no
    store of [Update] is late. *)
Theorem namespace_is_tree_across_restarts (k : K) (c : NameNodeCtx K) (l : Life)
    (Hfl : flags_ok) (Hk : kv_ok k) (Hempty : fs_rep (kv_contents k) fs_empty)
    (Hstart : NameNodeCtx_Start k = Ret c)
    (Hreach : rtc life_step {| lf_srv := srv_start c; lf_floor := val kRootInodeID |} l) :
  ∃ fs, fs_rep (kv_contents (kv_store_ (srv_ctx (lf_srv l)))) fs ∧
    is_tree fs (Z.max (lf_floor l) (id_ (srv_gen (lf_srv l)))) ∧
    (lf_floor l ≤ id_ (srv_gen (lf_srv l)) → fs_inodes fs !! (id_ (srv_gen (lf_srv l)) + 1) = None).
Proof.
  assert (life_inv l) as (_ & _ & fs & (_ & Hrep & _) & Htree).
  { assert (life_inv {| lf_srv := srv_start c; lf_floor := val kRootInodeID |}) as Hinit
      by (split; [done|by eapply srv_inv_start]).
    clear Hstart. induction Hreach as [|l0 l1 l2 Hstep _ IH]; [done|]. by eapply IH, life_step_inv. }
  exists fs. split; [done|]. split; [by apply tree_inv_is_tree|]. intros Hle.
  destruct (fs_inodes fs !! _) as [i|] eqn:Ei; [|done].
  destruct (tree_inode _ _ Htree _ _ Ei) as (d & _ & _ & Hd & _). lia.
Qed.

(** C10: a directory created after a restart and before the first
    tick gets the ID 1 again.  When the commit succeeds, the row of the directory that
    had this ID is overwritten while its entry stays: two entries then name one inode,
    and the inode is found under one of them only. *)
Theorem restart_reuses_ids (now_ns : Z) (req : MkdirsRequest) (c c' : NameNodeCtx K) (fs : FS)
    (old : Dir) (mk : InodeID → Z → Dir)
    (Hfl : flags_ok) (Hc : ctx_ok c fs) (Hre : restarts c c') (Hh : kv_healthy (kv_store_ c'))
    (Hid : val (dir_id old) = 1)
    (Hold : fs_dents fs !! (val (dir_parent_id old), dir_name old) = Some (inl old))
    (Hpid : is_u64 (mk_parent_id req)) (Hname : mk_name req ≠ ""%string) (Hnow : is_i64 now_ns)
    (Hspec : mkdirs_spec fs req = ROk mk)
    (Hkey : (mk_parent_id req, mk_name req) ≠ (val (dir_parent_id old), dir_name old)) :
  let d := mk {| val := 1 |} now_ns in
  ∃ c'' oc, with_handler (MkdirsOp_Run now_ns req) c' = (after_commit oc (mkdirs_resp d), c'') ∧
    commits (T := T) (kv_store_ c') (kv_store_ c'') oc ∧
    (oc = Ret (Val tt) →
     ∃ fs', fs_rep (kv_contents (kv_store_ c'')) fs' ∧
       fs_dents fs' !! (val (dir_parent_id old), dir_name old) = Some (inl old) ∧
       fs_dents fs' !! (mk_parent_id req, mk_name req) = Some (inl d) ∧
       dir_id old = dir_id d ∧ fs_inodes fs' !! 1 = Some (inl d)).
Proof.
  intros d. pose proof (restarts_ctx_ok _ _ _ Hc Hre) as Hc'.
  destruct Hre as (k' & _ & _ & Hs). pose proof (Start_eval _ _ Hs) as Ec'.
  assert (d = mk {| val := 1 |} now_ns ∧ dir_parent_id d = {| val := mk_parent_id req |} ∧
          dir_name d = mk_name req ∧ dir_id d = {| val := 1 |}) as (Ed & Ep & En & Ei).
  { unfold mkdirs_spec in Hspec. destruct (fs_dir fs _) as [p|]; [|done].
    destruct (granted _ _ _); [|done]. by injection Hspec as <-. }
  destruct (with_handler_Mkdirs now_ns req c' fs Hfl Hc' Hpid Hname Hnow) as (o & c'' & -> & Hcase).
  destruct Hcase as [(_ & _ & _ & [(e & He & _)|[Hn _]])|[(mk' & w & _ & Hw & _)|
    (mk' & id & oc & Hmk & HN & -> & Hcm & Hns)]]; [congruence | done | by rewrite Ec' in Hw |].
  rewrite Hspec in Hmk. injection Hmk as <-. rewrite Ec' in HN. cbn [inode_id_generator_] in HN.
  assert (id = {| val := 1 |}) as -> by (vm_compute in HN; by injection HN as <-).
  exists c'', oc. split; [done|]. split; [exact Hcm|]. intros ->.
  destruct Hns as [(_ & Hrep & _)|[_ ?]]; [|done].
  exists (fs_insert d fs). split; [exact Hrep|]. unfold fs_insert. cbn [fs_dents fs_inodes].
  rewrite Ep, En, Ei. cbn [val]. split_and!.
  - by rewrite lookup_insert_ne.
  - by rewrite lookup_insert_eq.
  - destruct (dir_id old). cbn in Hid. by subst.
  - by rewrite lookup_insert_eq.
Qed.
End restart.

(** ** Witnesses *)

Section demo.
#[local] Existing Instances MemDB MemDBSpec MemDBLaws demo_fmt demo_build demo_be demo_fb
  demo_be_laws demo_fb_laws default_flags.

(** The namenode of [demo_served], restarted: a look at the root before the clock is read
    a second later. *)
Definition demo_restarted : NameNodeCtx RocksDBKVStore :=
  {| kv_store_ := set_version 1 (kv_store_ demo_served); inode_id_generator_ := demo_gen 0 |}.
Definition demo_reread : Srv RocksDBKVStore :=
  srv_start {| kv_store_ := kv_store_ demo_restarted; inode_id_generator_ := demo_gen 1051990125 |}.
Definition demo_rereading : Srv RocksDBKVStore :=
  {| srv_ctx := demo_restarted; srv_loaded := Some (1051990125, 0) |}.

Lemma demo_gen_reload :
  manager_turn 1742256001005000000 None (demo_gen 0) = (Ret (Some (1051990125, 0)), demo_gen 0).
Proof. vm_compute. reflexivity. Qed.
Lemma demo_gen_restore :
  manager_turn 0 (Some (1051990125, 0)) (demo_gen 0) = (Ret None, demo_gen 1051990125).
Proof. vm_compute. reflexivity. Qed.

Lemma demo_restarts : restarts demo_served demo_restarted.
Proof.
  exists (kv_store_ demo_restarted). split; [|split].
  - vm_compute. reflexivity.
  - reflexivity.
  - unfold NameNodeCtx_Start. by rewrite demo_gen_start.
Qed.

Lemma namespace_is_tree_across_restarts_witness :
  ∃ fs, fs_rep (kv_contents (kv_store_ (srv_ctx demo_reread))) fs ∧ is_tree fs 1051990125 ∧
    fs_inodes fs !! 1051990126 = None.
Proof.
  destruct (namespace_is_tree_across_restarts (K := RocksDBKVStore) (T := RocksDBTxn) demo_store
    demo_start {| lf_srv := demo_reread; lf_floor := 1051989126 |} demo_flags_ok demo_store_ok
    kv_rep_empty demo_start_eval) as (fs & Hrep & Htree & Hnext).
  - trans {| lf_srv := srv_start demo_served; lf_floor := 1 |}.
    + apply (rtc_congruence (λ s, {| lf_srv := s; lf_floor := 1 |})
        (R := srv_step_in_order (T := RocksDBTxn) 1)); [|exact demo_reach].
      intros s s' Hs. by apply life_serve.
    + eapply rtc_l; [apply (life_restart (T := RocksDBTxn) _ _ demo_restarted), demo_restarts|].
      change (Z.max 1 (id_ (srv_gen (srv_start demo_served)))) with 1051989126.
      eapply rtc_l; [apply life_serve; eexists; split; [|apply (srv_tick 1742256001005000000 _ demo_rereading)]|].
      * reflexivity.
      * unfold tick, srv_gen. cbn [srv_start srv_loaded srv_ctx demo_restarted inode_id_generator_].
        by rewrite demo_gen_reload.
      * apply rtc_once, life_serve. eexists. split; [|apply (srv_tick 0)].
        -- vm_compute. reflexivity.
        -- unfold tick, srv_gen. cbn [demo_rereading srv_loaded srv_ctx demo_restarted inode_id_generator_].
           by rewrite demo_gen_restore.
  - exists fs. split; [exact Hrep|]. split; [exact Htree|]. apply Hnext. discriminate.
Defined.

(** A namenode that created "a" before its first tick. *)
Definition demo_first : Dir := mkdirs_dir root_dir {| val := 1 |} 50 (demo_mkdirs "a").
Definition demo_early_fs : FS := fs_insert demo_first fs_empty.
Definition demo_early : NameNodeCtx RocksDBKVStore :=
  {| kv_store_ := set_db (dir_rows_update None (Some demo_first) ∅) demo_store;
     inode_id_generator_ := demo_gen 1 |}.
Definition demo_early_restarted : NameNodeCtx RocksDBKVStore :=
  {| kv_store_ := kv_store_ demo_early; inode_id_generator_ := demo_gen 0 |}.
Definition demo_root_mkdirs : MkdirsRequest :=
  {| mk_parent_id := 1; mk_name := "b"; mk_mode := 511; mk_uid := 0; mk_gid := 0 |}.

Lemma demo_early_ok : ctx_ok demo_early demo_early_fs.
Proof.
  split; [reflexivity|]. split.
  - apply (kv_rep_update None (Some demo_first) ∅ fs_empty kv_rep_empty); [done|].
    intros d [= <-]. by vm_compute.
  - unfold idgen_wf, id_base. cbn. lia.
Qed.

Lemma restart_reuses_ids_witness :
  ∃ c'' oc, with_handler (T := RocksDBTxn) (MkdirsOp_Run 60 demo_root_mkdirs) demo_early_restarted
      = (after_commit oc (mkdirs_resp (mkdirs_dir (dir_seen demo_first) {| val := 1 |} 60
                                         demo_root_mkdirs)), c'') ∧
    (oc = Ret (Val tt) → ∃ fs', fs_rep (kv_contents (kv_store_ c'')) fs' ∧
       fs_dents fs' !! (1, "a"%string) = Some (inl demo_first)).
Proof.
  destruct (restart_reuses_ids (K := RocksDBKVStore) (T := RocksDBTxn) 60 demo_root_mkdirs demo_early
    demo_early_restarted demo_early_fs demo_first
    (λ id now, mkdirs_dir (dir_seen demo_first) id now demo_root_mkdirs)
    demo_flags_ok demo_early_ok) as (c'' & oc & E & _ & Hfs).
  - exists (kv_store_ demo_early). split; [reflexivity|]. split; [reflexivity|].
    unfold NameNodeCtx_Start. by rewrite demo_gen_start.
  - intros s _. exact I.
  - reflexivity.
  - reflexivity.
  - by vm_compute.
  - done.
  - by vm_compute.
  - reflexivity.
  - discriminate.
  - exists c'', oc. split; [exact E|]. intros Hoc. destruct (Hfs Hoc) as (fs' & Hrep & Ha & _).
    exists fs'. split; [exact Hrep | exact Ha].
Defined.
End demo.
