(* ===== verification/Fuse.v ===== *)
(** The FUSE client: src/client/fuse/fuse_options.h, fuse_ops_proxy.cc ([Init]) and
    operation/.

    An operation is built in a FUSE callback, sends its request, and is resumed by
    [Finish] with the response.  [Client] is what the operations share: the
    [CacheDirEntries] they allocate, by address, and the replies sent so far.
    libfuse is a parameter: [fuse_add_direntry] returns the size an entry needs and,
    when the buffer has room for it, the bytes it wrote.  The [fuse_reply_*] calls
    return a number that is only logged. *)

From Stdlib Require Import ZArith Lia Ascii String QArith.
From stdpp Require Import prelude strings gmap.
From S2P Require Import Prelude Common Types IdGen KVStoreBase RocksDB Conflict Serde Tables Proto.
From S2P Require Import Service.

#[local] Open Scope Z_scope.

(** ** <errno.h> *)

Definition ENOENT : Z := 2.
Definition EIO : Z := 5.
Definition EACCES : Z := 13.
Definition EEXIST : Z := 17.
Definition ENOTDIR : Z := 20.

(** ** libfuse *)

Class LibFuse := {
  (* buffer size, name, st_ino, st_mode, offset *)
  fuse_add_direntry : Z → string → Z → Z → Z → Z * string;
  (* whether the [fuse_file_info] a callback is given is still there after the callback
     has returned, until the request is answered; libfuse's documentation does not say so *)
  file_info_kept : bool;
}.
Class LibFuseSpec `{LibFuse} := {
  direntry : string → Z → Z → Z → string;    (* the encoded entry *)
}.
Class LibFuseLaws `{LibFuseSpec} : Prop := {
  fuse_add_direntry_law room name ino mode off :
    fuse_add_direntry room name ino mode off =
      let e := direntry name ino mode off in
      (Z.of_nat (String.length e),
       if Z.of_nat (String.length e) <=? room then e else ""%string);
  direntry_nonempty name ino mode off : direntry name ino mode off ≠ ""%string;
}.

(** The calling process, of [fuse_req_ctx]. *)
Record fuse_ctx := { ctx_uid : Z; ctx_gid : Z }.

(** ** Options, the stat structure and the replies *)

Record FuseOptions := {
  server_endpoint : string;
  remote_mountpoint : string;
  rpc_timeout_ms : Z;
  entry_generation : Z;
  attr_timeout_sec : Q;
  entry_timeout_sec : Q;
}.

(** [struct stat]; [None] is an indeterminate value, as a local that is never
    assigned has. *)
Record linux_stat := {
  lx_ino : Z;
  lx_mode : Z;
  lx_nlink : Z;
  lx_uid : Z;
  lx_gid : Z;
  lx_size : Z;
  lx_atime : Z;
  lx_mtime : Z;
  lx_ctime : Z;
  lx_blksize : Z;
  lx_blocks : Z;
  lx_dev : option Z;
  lx_rdev : option Z;
  lx_nsec : option (Z * Z * Z);     (* of the three times *)
}.

Record fuse_entry_param := {
  fe_ino : Z;
  fe_generation : Z;
  fe_attr : linux_stat;
  fe_attr_timeout : Q;
  fe_entry_timeout : Q;
}.

Inductive fuse_reply :=
| ReplyErr (errno : Z)
| ReplyAttr (st : linux_stat) (attr_timeout : Q)
| ReplyEntry (e : fuse_entry_param)
| ReplyOpen (fh : Z)
| ReplyBuf (buf : string).

(** ** fuse_read_dir_op.h *)

Record CacheDirEntries := {
  start_off : Z;
  end_off : Z;
  entries : list ProtoDEnt;
  has_more : bool;
}.

Record Client := {
  heap : gmap Z CacheDirEntries;
  sent : list fuse_reply;             (* latest first *)
}.

Section fuse.
Context `{LibFuse}.

Definition reply (r : fuse_reply) : M Client unit :=
  modify (λ c, {| heap := heap c; sent := r :: sent c |}).

(** ** FuseAsyncOpBase *)

Definition ToLinuxStat (stat : Stat) : linux_stat := {|
  lx_ino := st_id stat;
  lx_mode := u32 (st_mode stat);
  lx_nlink := u64 (st_nlink stat);
  lx_uid := u32 (st_uid stat);
  lx_gid := u32 (st_gid stat);
  lx_size := st_size stat;
  lx_atime := Z.quot (st_atime_in_ns stat) kSecToNs;
  lx_mtime := Z.quot (st_mtime_in_ns stat) kSecToNs;
  lx_ctime := Z.quot (st_ctime_in_ns stat) kSecToNs;
  lx_blksize := st_block_size stat;
  lx_blocks := st_block_num stat;
  lx_dev := None;
  lx_rdev := None;
  lx_nsec := None;
|}.

Definition ToFuseEntryParam (opts : FuseOptions) (id : Z) (stat : Stat) : fuse_entry_param := {|
  fe_ino := id;
  fe_generation := u64 (entry_generation opts);
  fe_attr := ToLinuxStat stat;
  fe_attr_timeout := attr_timeout_sec opts;
  fe_entry_timeout := entry_timeout_sec opts;
|}.

(** [Finish]: [status_ok] is the RPC's own status.  The result tells whether the
    operation was deleted. *)
Definition Finish {Resp} (error_code : Resp → Z) (ToErrno : Z → option Z)
    (OnSuccess : Resp → M Client unit) (status_ok : bool) (resp : Resp) : M Client bool :=
  if negb status_ok then ret false
  else if negb (error_code resp =? 0) then
    do! reply (ReplyErr (match ToErrno (error_code resp) with Some e => e | None => EIO end)) in
    ret false
  else
    do! OnSuccess resp in
    ret true.

(** [case StatusCode::c]. *)
Definition is_code (code : Z) (c : StatusCode) : bool := code =? StatusCode_to_int c.

(** An absent sub-message reads as its default. *)
Definition resp_stat (resp : StatResponse) : Stat :=
  match sr_stat resp with Some st => st | None => Stat_default end.

(** ** FuseGetAttrOp *)

Definition FuseGetAttrOp_req (id : Z) : GetInodeRequest := {| gi_path := None; gi_id := Some id |}.
Definition FuseGetAttrOp_ToErrno (code : Z) : option Z :=
  if is_code code kNotFoundError then Some ENOENT else None.
Definition FuseGetAttrOp_OnSuccess (opts : FuseOptions) (resp : StatResponse) : M Client unit :=
  do! Check (sr_error_code resp =? 0) "(resp_.error_code()) == (0)" in
  reply (ReplyAttr (ToLinuxStat (resp_stat resp)) (attr_timeout_sec opts)).

(** ** FuseLookupOp *)

Definition FuseLookupOp_req (parent_id : Z) (name : string) : LookupRequest :=
  {| lk_parent_id := parent_id; lk_name := name |}.
Definition FuseLookupOp_ToErrno (code : Z) : option Z :=
  if is_code code kNotFoundError then Some ENOENT else None.
(** The response's [int64] ID becomes the parameter's [uint64_t]. *)
Definition FuseLookupOp_OnSuccess (opts : FuseOptions) (resp : StatResponse) : M Client unit :=
  do! Check (sr_error_code resp =? 0) "(resp_.error_code()) == (0)" in
  reply (ReplyEntry (ToFuseEntryParam opts (u64 (sr_id resp)) (resp_stat resp))).

(** ** FuseMkdirOp *)

Definition FuseMkdirOp_req (ctx : fuse_ctx) (parent_id : Z) (name : string) (mode : Z) :
    MkdirsRequest :=
  {| mk_parent_id := parent_id; mk_name := name; mk_mode := Z.lor mode S_IFDIR;
     mk_uid := ctx_uid ctx; mk_gid := ctx_gid ctx |}.
Definition FuseMkdirOp_ToErrno (code : Z) : option Z :=
  if is_code code kPermissionError then Some EACCES
  else if is_code code kAlreadyExistsError then Some EEXIST
  else if is_code code kParentNotFoundError then Some ENOENT
  else if is_code code kParentNotDirError then Some ENOTDIR
  else None.
Definition FuseMkdirOp_OnSuccess (opts : FuseOptions) (resp : StatResponse) : M Client unit :=
  do! Check (sr_error_code resp =? 0) "(resp_.error_code()) == (0)" in
  reply (ReplyEntry (ToFuseEntryParam opts (sr_id resp) (resp_stat resp))).

(** ** FuseOpenDirOp *)

Definition FuseOpenDirOp_req (ctx : fuse_ctx) (id : Z) : ListDirRequest :=
  {| ld_id := id; ld_start_after := ""; ld_limit := 0; ld_uid := ctx_uid ctx; ld_gid := ctx_gid ctx |}.
Definition FuseOpenDirOp_ToErrno (code : Z) : option Z :=
  if is_code code kPermissionError then Some EACCES
  else if is_code code kNotFoundError then Some ENOENT
  else if is_code code kNotDirError then Some ENOTDIR
  else None.

Definition ProtoDEnt_default : ProtoDEnt := {| de_id := 0; de_name := ""; de_type := 0 |}.
Definition or_default (d : option ProtoDEnt) : ProtoDEnt :=
  match d with Some d => d | None => ProtoDEnt_default end.

(** A write or a read through [file_info_], the pointer its callback was given. *)
Definition use_file_info : M Client unit := if file_info_kept then ret tt else undef.

(** [p] is the address [make_unique] returned.  The handle is written through
    [file_info_], and the reply made from what it points to. *)
Definition FuseOpenDirOp_OnSuccess (p : Z) (resp : ListDirResponse) : M Client unit :=
  do! modify (λ c, {|
    heap := <[p := {| start_off := 0; end_off := 0;
                      entries := or_default (lr_self_dent resp) :: or_default (lr_parent_dent resp)
                                 :: lr_ents resp;
                      has_more := lr_has_more resp |}]> (heap c);
    sent := sent c |}) in
  do! use_file_info in
  reply (ReplyOpen p).

(** ** FuseReadDirOp *)

Definition set_end_off (off : Z) (c : CacheDirEntries) : CacheDirEntries :=
  {| start_off := start_off c; end_off := off; entries := entries c; has_more := has_more c |}.

(** The C string [c_str()] points to ends at the first NUL. *)
Fixpoint c_str (s : string) : string :=
  match s with
  | EmptyString => EmptyString
  | String c s => if Ascii.eqb c Ascii.zero then EmptyString else String c (c_str s)
  end.

(** The loop of [PopulateDirEntriesBuffer]: [room] is [buf_.size()], [out] what was
    written; [None] is running out of fuel.  [at] throws when out of range. *)
Fixpoint Populate_loop (fuel : nat) (c : CacheDirEntries) (room : Z) (out : string) :
    option (outcome (CacheDirEntries * Z * string)) :=
  if u64 (end_off c - start_off c) <? Z.of_nat (length (entries c)) then
    match fuel with
    | O => None
    | S fuel =>
        match entries c !! Z.to_nat (u64 (end_off c - start_off c)) with
        | None => Some (Throw "vector::_M_range_check"%string)
        | Some entry =>
            let '(bytes_written, bytes) :=
              fuse_add_direntry room (c_str (de_name entry)) (de_id entry) (de_type entry) (end_off c + 1) in
            if bytes_written >? room then Some (Ret (c, room, out))
            else Populate_loop fuel (set_end_off (end_off c + 1) c) (room - bytes_written)
                   (out +:+ bytes)%string
        end
    end
  else Some (Ret (c, room, out)).

Definition Populate_done (c : CacheDirEntries) : CacheDirEntries :=
  if u64 (end_off c - start_off c) =? Z.of_nat (length (entries c)) then
    {| start_off := end_off c; end_off := end_off c; entries := []; has_more := has_more c |}
  else c.

(** With a fresh buffer of [size] bytes: the cache after the call and the bytes of
    the buffer that were used. *)
Definition PopulateDirEntriesBuffer (size : Z) (c : CacheDirEntries) :
    option (outcome (CacheDirEntries * string)) :=
  match Populate_loop (length (entries c)) c size "" with
  | None => None
  | Some (Ret (c, _, out)) => Some (Ret (Populate_done c, out))
  | Some (Throw w) => Some (Throw w)
  | Some Undef => Some Undef
  end.

Definition read_cache (fh : Z) : M Client CacheDirEntries := λ c,
  match heap c !! fh with Some e => (Ret e, c) | None => (Undef, c) end.
Definition write_cache (fh : Z) (e : CacheDirEntries) : M Client unit :=
  modify (λ c, {| heap := <[fh := e]> (heap c); sent := sent c |}).

(** Populate and reply. *)
Definition reply_page (fh size : Z) (c : CacheDirEntries) : M Client unit :=
  match PopulateDirEntriesBuffer size c with
  | None => undef
  | Some o =>
      let! r := of_outcome o in
      let '(c, out) := r in
      do! write_cache fh c in
      reply (ReplyBuf out)
  end.

(** The constructor sets the user only; the other fields keep their defaults. *)
Definition FuseReadDirOp_req (ctx : fuse_ctx) : ListDirRequest :=
  {| ld_id := 0; ld_start_after := ""; ld_limit := 0; ld_uid := ctx_uid ctx; ld_gid := ctx_gid ctx |}.

(** The constructor's checks, then [Start]: a reply from the cache, or the request
    to send. *)
Definition FuseReadDirOp_Start (ctx : fuse_ctx) (fh size off : Z) :
    M Client (option ListDirRequest) :=
  do! Check (negb (fh =? 0))
        "reinterpret_cast<CacheDirEntries*>(file_info->fh) != nullptr" in
  let! c := read_cache fh in
  do! Check (off =? end_off c) "(off) == (cache_dir_entries_->end_off)" in
  if negb (bool_decide (entries c = [])) || negb (has_more c) then
    do! reply_page fh size c in
    ret None
  else
    ret (Some (FuseReadDirOp_req ctx)).

Definition FuseReadDirOp_ToErrno (code : Z) : option Z := None.

Definition FuseReadDirOp_OnSuccess (fh size : Z) (resp : ListDirResponse) : M Client unit :=
  do! Check (lr_error_code resp =? 0) "(resp_.error_code()) == (0)" in
  let! c := read_cache fh in
  do! Check (end_off c =? start_off c)
        "(cache_dir_entries_->end_off) == (cache_dir_entries_->start_off)" in
  do! Check (bool_decide (entries c = [])) "cache_dir_entries_->entries.empty()" in
  reply_page fh size {| start_off := start_off c; end_off := end_off c;
                        entries := lr_ents resp; has_more := lr_has_more resp |}.

(** ** The classes of the operations *)

(** What a class derived from [FuseAsyncOpBase] gives to it: the RPC it prepares, the
    request its constructor fills in, [ToErrno] and [OnSuccess]. *)
Record FuseAsyncOp (Req Resp : Type) := {
  ao_call : Req → Request;
  ao_req : Req;
  ao_ToErrno : Z → option Z;
  ao_OnSuccess : Resp → M Client unit;
}.
#[global] Arguments ao_call {Req Resp} _.
#[global] Arguments ao_req {Req Resp} _.
#[global] Arguments ao_ToErrno {Req Resp} _.
#[global] Arguments ao_OnSuccess {Req Resp} _.

Definition FuseGetAttrOp_call : GetInodeRequest → Request := ReqGetInode.
Definition FuseLookupOp_call : LookupRequest → Request := ReqLookup.
Definition FuseMkdirOp_call : MkdirsRequest → Request := ReqMkdirs.
Definition FuseOpenDirOp_call : ListDirRequest → Request := ReqListDir.
Definition FuseReadDirOp_call : ListDirRequest → Request := ReqListDir.

Definition FuseGetAttrOp (opts : FuseOptions) (id : Z) : FuseAsyncOp GetInodeRequest StatResponse :=
  {| ao_call := FuseGetAttrOp_call; ao_req := FuseGetAttrOp_req id;
     ao_ToErrno := FuseGetAttrOp_ToErrno; ao_OnSuccess := FuseGetAttrOp_OnSuccess opts |}.
Definition FuseLookupOp (opts : FuseOptions) (parent_id : Z) (name : string) :
    FuseAsyncOp LookupRequest StatResponse :=
  {| ao_call := FuseLookupOp_call; ao_req := FuseLookupOp_req parent_id name;
     ao_ToErrno := FuseLookupOp_ToErrno; ao_OnSuccess := FuseLookupOp_OnSuccess opts |}.
Definition FuseMkdirOp (opts : FuseOptions) (ctx : fuse_ctx) (parent_id : Z) (name : string) (mode : Z) :
    FuseAsyncOp MkdirsRequest StatResponse :=
  {| ao_call := FuseMkdirOp_call; ao_req := FuseMkdirOp_req ctx parent_id name mode;
     ao_ToErrno := FuseMkdirOp_ToErrno; ao_OnSuccess := FuseMkdirOp_OnSuccess opts |}.
(** [p] is the address [OnSuccess] allocates at. *)
Definition FuseOpenDirOp (p : Z) (ctx : fuse_ctx) (id : Z) : FuseAsyncOp ListDirRequest ListDirResponse :=
  {| ao_call := FuseOpenDirOp_call; ao_req := FuseOpenDirOp_req ctx id;
     ao_ToErrno := FuseOpenDirOp_ToErrno; ao_OnSuccess := FuseOpenDirOp_OnSuccess p |}.
Definition FuseReadDirOp (ctx : fuse_ctx) (fh size : Z) : FuseAsyncOp ListDirRequest ListDirResponse :=
  {| ao_call := FuseReadDirOp_call; ao_req := FuseReadDirOp_req ctx;
     ao_ToErrno := FuseReadDirOp_ToErrno; ao_OnSuccess := FuseReadDirOp_OnSuccess fh size |}.

(** ** FuseRelDirOp *)

Definition FuseRelDirOp_Start (fh : Z) : M Client unit :=
  do! Check (negb (fh =? 0))
        "reinterpret_cast<CacheDirEntries*>(file_info->fh) != nullptr" in
  do! read_cache fh in
  do! modify (λ c, {| heap := delete fh (heap c); sent := sent c |}) in
  reply (ReplyErr 0).

(** ** FuseOpsProxy::Init *)

(** The request for the mountpoint's inode carries its path only. *)
Definition Init_req (opts : FuseOptions) : GetInodeRequest :=
  {| gi_path := Some (remote_mountpoint opts); gi_id := None |}.
Definition Init_mountpoint (resp : StatResponse) : Z := u64 (sr_id resp).

End fuse.

(** ** Reading a directory, as a stream *)

Section stream.
Context `{LibFuseSpec}.

(** The entry whose position in the stream is [off]: it is stamped with the next one. *)
Definition dirent (off : Z) (e : ProtoDEnt) : string :=
  direntry (c_str (de_name e)) (de_id e) (de_type e) (off + 1).
(** The entries of a stream from position [off] on, encoded. *)
Fixpoint stream (off : Z) (es : list ProtoDEnt) : string :=
  match es with
  | [] => ""
  | e :: es => dirent off e +:+ stream (off + 1) es
  end%string.
(** How many of them fit a buffer of [room] bytes. *)
Fixpoint fitting (off room : Z) (es : list ProtoDEnt) : nat :=
  match es with
  | [] => O
  | e :: es =>
      let n := Z.of_nat (String.length (dirent off e)) in
      if n <=? room then S (fitting (off + 1) (room - n) es) else O
  end.

(** The entries the cache has still to give. *)
Definition pending (c : CacheDirEntries) : list ProtoDEnt :=
  drop (Z.to_nat (end_off c - start_off c)) (entries c).
Definition cache_ok (c : CacheDirEntries) : Prop :=
  0 ≤ start_off c ∧ start_off c ≤ end_off c ≤ start_off c + Z.of_nat (length (entries c)) ∧
  end_off c < 2 ^ 62 ∧ Z.of_nat (length (entries c)) < 2 ^ 62.

Lemma stream_app off es es' :
  stream off (es ++ es') = (stream off es +:+ stream (off + Z.of_nat (length es)) es')%string.
Proof.
  revert off. induction es as [|e es IH]; intros off; cbn [app stream length].
  { rewrite Z.add_0_r. done. }
  rewrite IH, string_app_assoc. do 3 f_equal. lia.
Qed.

Lemma fitting_le off room es : (fitting off room es ≤ length es)%nat.
Proof.
  revert off room. induction es as [|e es IH]; intros off room; cbn [fitting length]; [lia|].
  destruct (_ <=? _); [|lia]. pose proof (IH (off + 1) (room - Z.of_nat (String.length (dirent off e)))).
  lia.
Qed.

(** What fits is within the room. *)
Lemma fitting_room off room es :
  0 ≤ room →
  Z.of_nat (String.length (stream off (take (fitting off room es) es))) ≤ room.
Proof.
  revert off room. induction es as [|e es IH]; intros off room Hr; cbn [fitting]; [simpl; lia|].
  destruct (Z.leb_spec (Z.of_nat (String.length (dirent off e))) room); [|simpl; lia].
  cbn [take stream]. rewrite str_app_length.
  pose proof (IH (off + 1) (room - Z.of_nat (String.length (dirent off e)))). lia.
Qed.

(** One step of the cache. *)
Lemma pending_cons c e l :
  cache_ok c → pending c = e :: l →
  let c' := set_end_off (end_off c + 1) c in
  entries c !! Z.to_nat (end_off c - start_off c) = Some e ∧
  end_off c - start_off c < Z.of_nat (length (entries c)) ∧
  (end_off c + 1 < 2 ^ 62 → cache_ok c') ∧ pending c' = l.
Proof.
  intros (Hs & Hse & He & Hlen) Hp. unfold pending in *.
  assert (entries c !! Z.to_nat (end_off c - start_off c) = Some e) as Hl.
  { rewrite <- (Nat.add_0_r (Z.to_nat _)), <- lookup_drop, Hp. done. }
  pose proof (lookup_lt_Some _ _ _ Hl). cbn [set_end_off end_off start_off entries].
  split_and!; [done|lia| |].
  - intros. unfold cache_ok. cbn [set_end_off end_off start_off entries]. lia.
  - replace (Z.to_nat (end_off c + 1 - start_off c)) with (Z.to_nat (end_off c - start_off c) + 1)%nat by lia.
    by rewrite <- drop_drop, Hp.
Qed.

Lemma pending_nil c :
  cache_ok c → pending c = [] ↔ end_off c - start_off c = Z.of_nat (length (entries c)).
Proof.
  intros (Hs & Hse & He & Hlen). unfold pending. split.
  - intros Hd. apply (f_equal length) in Hd. rewrite length_drop in Hd. simpl in Hd. lia.
  - intros Hd. apply drop_ge. lia.
Qed.

(** The loop writes the entries that fit, and stops. *)
Lemma Populate_loop_spec `{!LibFuseLaws} c room out fuel :
  cache_ok c → end_off c + Z.of_nat (length (pending c)) < 2 ^ 62 →
  (length (pending c) ≤ fuel)%nat →
  let n := fitting (end_off c) room (pending c) in
  let written := stream (end_off c) (take n (pending c)) in
  Populate_loop fuel c room out =
    Some (Ret (set_end_off (end_off c + Z.of_nat n) c,
               room - Z.of_nat (String.length written), (out +:+ written)%string)).
Proof.
  remember (pending c) as l eqn:El. symmetry in El.
  revert c room out fuel El. induction l as [|e l IH]; intros c room out fuel El Hok Hoff Hfuel;
    pose proof Hok as (Hs & Hse & He & Hlen).
  - apply pending_nil in El; [|done]. cbn [fitting take stream String.length].
    rewrite string_app_nil_r, Z.sub_0_r, Z.add_0_r.
    assert (set_end_off (end_off c) c = c) as -> by by destruct c.
    destruct fuel; cbn [Populate_loop]; rewrite u64_small by (unfold is_u64; lia);
      destruct (Z.ltb_spec (end_off c - start_off c) (Z.of_nat (length (entries c)))); (lia || done).
  - destruct (pending_cons c e l Hok El) as (Hl & Hlt & Hok' & El').
    cbn [length] in Hfuel, Hoff. destruct fuel as [|fuel]; [lia|].
    cbn [Populate_loop fitting]. rewrite u64_small by (unfold is_u64; lia).
    destruct (Z.ltb_spec (end_off c - start_off c) (Z.of_nat (length (entries c)))); [|lia].
    rewrite Hl, fuse_add_direntry_law. cbn zeta beta iota. fold (dirent (end_off c) e).
    destruct (Z.leb_spec (Z.of_nat (String.length (dirent (end_off c) e))) room).
    + destruct (Z.gtb_spec (Z.of_nat (String.length (dirent (end_off c) e))) room); [lia|].
      rewrite (IH (set_end_off (end_off c + 1) c)); [|done|apply Hok'; lia| |lia];
        cbn [set_end_off end_off start_off entries has_more take stream]; [|lia].
      rewrite str_app_length, string_app_assoc, Nat2Z.inj_add, Z.sub_add_distr.
      unfold set_end_off. cbn [start_off end_off entries has_more].
      by rewrite <- Z.add_assoc, (Z.add_1_l (Z.of_nat _)), <- Nat2Z.inj_succ.
    + destruct (Z.gtb_spec (Z.of_nat (String.length (dirent (end_off c) e))) room); [|lia].
      cbn [take stream String.length]. rewrite string_app_nil_r, Z.sub_0_r, Z.add_0_r.
      by destruct c.
Qed.

(** The whole call. *)
Lemma PopulateDirEntriesBuffer_spec `{!LibFuseLaws} size c :
  cache_ok c → end_off c + Z.of_nat (length (pending c)) < 2 ^ 62 →
  let n := fitting (end_off c) size (pending c) in
  ∃ c', PopulateDirEntriesBuffer size c
        = Some (Ret (c', stream (end_off c) (take n (pending c)))) ∧
    cache_ok c' ∧ end_off c' = end_off c + Z.of_nat n ∧ pending c' = drop n (pending c) ∧
    has_more c' = has_more c ∧ (entries c' = [] ↔ pending c' = []) ∧
    (entries c' = [] → start_off c' = end_off c').
Proof.
  intros Hok Hoff n. unfold PopulateDirEntriesBuffer.
  rewrite Populate_loop_spec; [|done..|unfold pending; rewrite length_drop; lia]. fold n.
  pose proof (fitting_le (end_off c) size (pending c)) as Hn. fold n in Hn.
  assert (Hlen : Z.of_nat (length (pending c)) =
    start_off c + Z.of_nat (length (entries c)) - end_off c).
  { destruct Hok as (?&?&?&?). unfold pending. rewrite length_drop. lia. }
  set (c1 := set_end_off (end_off c + Z.of_nat n) c).
  assert (cache_ok c1) as Hok1.
  { destruct Hok as (?&?&?&?). unfold c1, cache_ok, set_end_off. cbn [end_off start_off entries]. lia. }
  assert (pending c1 = drop n (pending c)) as Hp1.
  { destruct Hok as (?&?&?&?). unfold c1, pending, set_end_off. cbn [end_off start_off entries].
    rewrite drop_drop. f_equal. lia. }
  exists (Populate_done c1). split; [done|]. unfold Populate_done.
  pose proof (pending_nil c1 Hok1) as Hnil. pose proof Hok1 as (?&?&?&?).
  rewrite u64_small by (unfold is_u64; lia).
  destruct (Z.eqb_spec (end_off c1 - start_off c1) (Z.of_nat (length (entries c1)))) as [Eall|Eall].
  - split_and!; [|done| |done| |done].
    + unfold cache_ok. cbn [end_off start_off entries length]. lia.
    + rewrite <- Hp1, (proj2 Hnil Eall). unfold pending. cbn [entries]. apply drop_nil.
    + unfold pending. cbn [entries]. by rewrite drop_nil.
  - split_and!; [done|done|done|done| |].
    + rewrite Hnil. split; [intros En; rewrite En in *; cbn [length] in *; lia | done].
    + intros En. rewrite En in *. cbn [length] in *. lia.
Qed.

(** Successive reads of an open directory: the kernel asks for the offset it was
    given with the last entry. *)
Fixpoint run_reads (ctx : fuse_ctx) (fh : Z) (sizes : list Z) : M Client unit :=
  match sizes with
  | [] => ret tt
  | size :: sizes =>
      let! c := read_cache fh in
      do! FuseReadDirOp_Start ctx fh size (end_off c) in
      run_reads ctx fh sizes
  end.

(** A read answered from the cache. *)
Lemma FuseReadDirOp_Start_local `{!LibFuseLaws} ctx fh size c (cl : Client) :
  fh ≠ 0 → heap cl !! fh = Some c → cache_ok c →
  end_off c + Z.of_nat (length (pending c)) < 2 ^ 62 →
  entries c ≠ [] ∨ has_more c = false →
  let n := fitting (end_off c) size (pending c) in
  ∃ c', FuseReadDirOp_Start ctx fh size (end_off c) cl =
    (Ret None, {| heap := <[fh := c']> (heap cl);
                  sent := ReplyBuf (stream (end_off c) (take n (pending c))) :: sent cl |}) ∧
    cache_ok c' ∧ end_off c' = end_off c + Z.of_nat n ∧ pending c' = drop n (pending c) ∧
    has_more c' = has_more c ∧ (entries c' = [] ↔ pending c' = []).
Proof.
  intros Hfh Hc Hok Hoff Hlocal n.
  destruct (PopulateDirEntriesBuffer_spec size c Hok Hoff) as (c' & E & Hok' & He & Hp & Hm & Hnil & _).
  fold n in E, He, Hp. exists c'. split; [|done].
  unfold FuseReadDirOp_Start. apply Z.eqb_neq in Hfh. rewrite Hfh.
  erewrite bind_Ret by reflexivity. erewrite bind_Ret by (unfold read_cache; by rewrite Hc).
  rewrite Z.eqb_refl. erewrite bind_Ret by reflexivity.
  assert (negb (bool_decide (entries c = [])) || negb (has_more c) = true) as ->.
  { destruct Hlocal as [Hne|Hm0]; [|rewrite Hm0; apply orb_true_r].
    by rewrite bool_decide_eq_false_2. }
  unfold reply_page. rewrite E. done.
Qed.

Lemma run_reads_local `{!LibFuseLaws} ctx fh sizes c (cl : Client) :
  fh ≠ 0 → heap cl !! fh = Some c → cache_ok c → has_more c = false →
  end_off c + Z.of_nat (length (pending c)) < 2 ^ 62 →
  Forall (λ size, 0 ≤ size) sizes →
  (∀ size off e, size ∈ sizes → e ∈ pending c → Z.of_nat (String.length (dirent off e)) ≤ size) →
  (length (pending c) ≤ length sizes)%nat →
  ∃ outs cl', run_reads ctx fh sizes cl = (Ret tt, cl') ∧
    sent cl' = rev (ReplyBuf <$> outs) ++ sent cl ∧
    Forall2 (λ out size, Z.of_nat (String.length out) ≤ size) outs sizes ∧
    foldr String.append ""%string outs = stream (end_off c) (pending c) ∧
    ∃ c', heap cl' !! fh = Some c' ∧ pending c' = [] ∧
          end_off c' = end_off c + Z.of_nat (length (pending c)).
Proof.
  intros Hfh. revert c cl. induction sizes as [|size sizes IH]; intros c cl Hc Hok Hm Hoff Hpos Hfit Hlen.
  - destruct (pending c) as [|e l] eqn:Ep; [|cbn in Hlen; lia].
    exists [], cl. split_and!; try done. exists c. rewrite Ep. split_and!; try done. simpl. lia.
  - apply Forall_cons in Hpos as [Hp0 Hpos].
    destruct (FuseReadDirOp_Start_local ctx fh size c cl Hfh Hc Hok Hoff (or_intror Hm))
      as (c1 & E & Hok1 & He1 & Hpend & Hm1 & _).
    set (n := fitting (end_off c) size (pending c)) in *.
    assert (n ≤ length (pending c))%nat as Hn by apply fitting_le.
    destruct (IH c1 {| heap := <[fh := c1]> (heap cl);
      sent := ReplyBuf (stream (end_off c) (take n (pending c))) :: sent cl |})
      as (outs & cl' & Er & Hs & Hf & Hcat & c' & Hc' & Hp' & He').
    { apply lookup_insert_eq. } { done. } { congruence. }
    { rewrite Hpend, length_drop. lia. } { done. }
    { intros sz off e Hsz He. apply Hfit; [by right|]. rewrite Hpend in He.
      by eapply subseteq_drop. }
    { rewrite Hpend, length_drop. cbn [length] in Hlen.
      destruct (pending c) as [|e l] eqn:Ep; [simpl; lia|].
      assert (1 ≤ n)%nat; [|cbn [length] in *; lia]. unfold n. cbn [fitting].
      pose proof (Hfit size (end_off c) e (list_elem_of_here _ _) (list_elem_of_here _ _)).
      destruct (Z.leb_spec (Z.of_nat (String.length (dirent (end_off c) e))) size); lia. }
    exists (stream (end_off c) (take n (pending c)) :: outs), cl'. split_and!.
    + cbn [run_reads]. erewrite bind_Ret by (unfold read_cache; by rewrite Hc).
      erewrite bind_Ret by exact E. exact Er.
    + rewrite Hs. cbn [sent fmap list_fmap rev]. by rewrite <- app_assoc.
    + constructor; [|done]. by apply fitting_room.
    + cbn [foldr]. rewrite Hcat, He1, Hpend.
      rewrite <- (take_drop n (pending c)) at 3. rewrite stream_app.
      by rewrite length_take, Nat.min_l by lia.
    + exists c'. split_and!; [done|done|]. rewrite He', He1, Hpend, length_drop. lia.
Qed.
End stream.

(** ** Client and namenode together *)

Section world.
Context {K T : Type} `{KVStoreBase K T, DirTableBase T, DEntViewBase T, Fmt, Build, Flags, LibFuse}.

Record World := { w_client : Client; w_server : NameNodeCtx K }.

Definition on_client {A} (m : M Client A) : M World A :=
  zoom w_client (λ c w, {| w_client := c; w_server := w_server w |}) m.

(** A unary call and the operation's [Finish]: a handler that threw gives a status
    that is not OK. *)
Definition call {Resp} `{ErrorResp Resp} (handler : M (NameNodeCtx K) Resp)
    (finish : bool → Resp → M Client bool) : M World bool := λ w,
  let '(o, server) := handler (w_server w) in
  let w := {| w_client := w_client w; w_server := server |} in
  match o with
  | Ret resp => on_client (finish true resp) w
  | _ => on_client (finish false resp_default) w
  end.

Definition fuse_getattr (opts : FuseOptions) (id : Z) : M World bool :=
  call (with_handler (GetInodeOp_Run (FuseGetAttrOp_req id)))
    (Finish sr_error_code FuseGetAttrOp_ToErrno (FuseGetAttrOp_OnSuccess opts)).
Definition fuse_lookup (opts : FuseOptions) (parent : Z) (name : string) : M World bool :=
  call (with_handler (LookupOp_Run (FuseLookupOp_req parent name)))
    (Finish sr_error_code FuseLookupOp_ToErrno (FuseLookupOp_OnSuccess opts)).
Definition fuse_mkdir (opts : FuseOptions) (ctx : fuse_ctx) (now_ns parent : Z) (name : string)
    (mode : Z) : M World bool :=
  call (with_handler (MkdirsOp_Run now_ns (FuseMkdirOp_req ctx parent name mode)))
    (Finish sr_error_code FuseMkdirOp_ToErrno (FuseMkdirOp_OnSuccess opts)).
Definition fuse_opendir (ctx : fuse_ctx) (p id : Z) : M World bool :=
  call (with_handler (ListDirOp_Run (FuseOpenDirOp_req ctx id)))
    (Finish lr_error_code FuseOpenDirOp_ToErrno (FuseOpenDirOp_OnSuccess p)).
Definition fuse_readdir (ctx : fuse_ctx) (fh size off : Z) : M World bool :=
  let! req := on_client (FuseReadDirOp_Start ctx fh size off) in
  match req with
  | None => ret true
  | Some req =>
      call (with_handler (ListDirOp_Run req))
        (Finish lr_error_code FuseReadDirOp_ToErrno (FuseReadDirOp_OnSuccess fh size))
  end.
Definition fuse_releasedir (fh : Z) : M World unit := on_client (FuseRelDirOp_Start fh).

End world.
Arguments World K : clear implicits.

(** ** Lemmas *)

Section world_lemmas.
Context {K T : Type} `{KVStoreBase K T, KVStoreSpec K, TxnSpec T, DirTableBase T,
  DEntViewBase T, FSRep, Fmt, Build, Flags, LibFuse, !KVStoreLaws K T, !DirTableLaws T,
  !DEntViewLaws T}.

(** The client's replies after a call whose handler answered [resp]. *)
Lemma call_Ret {Resp} `{ErrorResp Resp} (handler : M (NameNodeCtx K) Resp) finish (w : World K)
    resp server :
  handler (w_server w) = (Ret resp, server) →
  call handler finish w =
    let '(o, c) := finish true resp (w_client w) in (o, {| w_client := c; w_server := server |}).
Proof. intros E. unfold call. rewrite E. done. Qed.

(** An error response becomes one error reply. *)
Lemma Finish_error {Resp} (error_code : Resp → Z) ToErrno OnSuccess resp (cl : Client) :
  error_code resp ≠ 0 →
  Finish error_code ToErrno OnSuccess true resp cl =
    (Ret false, {| heap := heap cl;
       sent := ReplyErr (match ToErrno (error_code resp) with Some e => e | None => EIO end)
               :: sent cl |}).
Proof. intros Hc. unfold Finish. cbn [negb]. by rewrite (proj2 (Z.eqb_neq _ _) Hc). Qed.

Lemma error_reply_code (resp : StatResponse) c :
  error_reply resp c → sr_error_code resp = StatusCode_to_int c.
Proof. by intros (msg & ->). Qed.
Lemma list_error_reply_code (resp : ListDirResponse) c :
  error_reply resp c → lr_error_code resp = StatusCode_to_int c.
Proof. by intros (msg & ->). Qed.

Lemma StatusCode_to_int_ne0 c : StatusCode_to_int c ≠ 0.
Proof. pose proof (StatusCode_to_int_pos c). lia. Qed.

(** A read handler on a healthy store answers the specification. *)
Lemma healthy_answer {A} `{ErrorResp A} (run : M (Handler K T) A) (c : NameNodeCtx K) fs spec :
  flags_ok → ctx_ok c fs → kv_healthy (kv_store_ c) →
  (∀ c' (t : T), txn_wf t → fs_rep (txn_snapshot t) fs → answers run c' t spec) →
  ∃ resp c', with_handler run c = (Ret resp, c') ∧ ctx_ok c' fs ∧
    match spec with ROk r => resp = r | RErr e => error_reply resp e end.
Proof.
  intros Hfl Hc Hh Hrun.
  destruct (with_handler_answers run c fs spec Hfl Hc Hrun) as (o & c' & E & Hr & Hc' & _).
  destruct Hr as [(resp & -> & Hr)|[? _]]; [|done]. eauto.
Qed.
End world_lemmas.

(** ** Properties *)

Section stream_property.
Context `{LibFuseLaws}.

(** What a successful [opendir] leaves. *)
Definition opened_client (p : Z) (resp : ListDirResponse) (cl : Client) : Client := {|
  heap := <[p := {| start_off := 0; end_off := 0;
                    entries := or_default (lr_self_dent resp) :: or_default (lr_parent_dent resp)
                               :: lr_ents resp;
                    has_more := lr_has_more resp |}]> (heap cl);
  sent := ReplyOpen p :: sent cl |}.

Lemma FuseOpenDirOp_OnSuccess_eval p resp cl :
  file_info_kept = true → FuseOpenDirOp_OnSuccess p resp cl = (Ret tt, opened_client p resp cl).
Proof. unfold FuseOpenDirOp_OnSuccess, use_file_info. by intros ->. Qed.

(** After [opendir] got its response with no more pages,
    reads with buffers that can each hold any one entry, as many as there are
    entries, deliver the whole directory: ".", "..", and the response's entries, in
    order, each exactly once and stamped with its successor's position; no reply
    exceeds its buffer, and the cache ends empty. *)
Theorem readdir_streams_entries (ctx : fuse_ctx) (p : Z) (resp : ListDirResponse)
    (sizes : list Z) (cl : Client) (es : list ProtoDEnt)
    (Hkept : file_info_kept = true) (Hp : p ≠ 0) (Hmore : lr_has_more resp = false)
    (Hes : es = or_default (lr_self_dent resp) :: or_default (lr_parent_dent resp) :: lr_ents resp)
    (Hlen : Z.of_nat (length es) < 2 ^ 62)
    (Hpos : Forall (λ size, 0 ≤ size) sizes)
    (Hfit : ∀ size off e, size ∈ sizes → e ∈ es →
              Z.of_nat (String.length (dirent off e)) ≤ size)
    (Hreads : (length es ≤ length sizes)%nat) :
  ∃ cl1 outs cl2,
    FuseOpenDirOp_OnSuccess p resp cl = (Ret tt, cl1) ∧ sent cl1 = ReplyOpen p :: sent cl ∧
    run_reads ctx p sizes cl1 = (Ret tt, cl2) ∧
    sent cl2 = rev (ReplyBuf <$> outs) ++ sent cl1 ∧
    Forall2 (λ out size, Z.of_nat (String.length out) ≤ size) outs sizes ∧
    foldr String.append ""%string outs = stream 0 es ∧
    ∃ c, heap cl2 !! p = Some c ∧ pending c = [] ∧ end_off c = Z.of_nat (length es).
Proof.
  set (c := {| start_off := 0; end_off := 0; entries := es; has_more := lr_has_more resp |}).
  set (cl1 := {| heap := <[p := c]> (heap cl); sent := ReplyOpen p :: sent cl |}).
  assert (pending c = es) as Hpend by reflexivity.
  destruct (run_reads_local ctx p sizes c cl1 Hp) as (outs & cl2 & Er & Hs & Hf & Hcat & Hc2);
    rewrite ?Hpend; try done.
  { apply lookup_insert_eq. }
  { unfold cache_ok, c. cbn [start_off end_off entries]. lia. }
  exists cl1, outs, cl2. split.
  { rewrite FuseOpenDirOp_OnSuccess_eval by done. unfold opened_client. by rewrite <- Hes. }
  split_and!; done.
Qed.
End stream_property.

Section world_properties.
Context {K T : Type} `{KVStoreBase K T, KVStoreSpec K, TxnSpec T, DirTableBase T,
  DEntViewBase T, FSRep, Fmt, Build, Flags, LibFuse, !KVStoreLaws K T, !DirTableLaws T,
  !DEntViewLaws T}.

(** C32: through the client, a [mkdir] is answered [ENOENT] when the
    parent is missing and [EACCES] when the caller may not write in it, the namespace
    unchanged; otherwise with the entry of the new directory, under the ID drawn for
    it, whatever status the commit returned, or, when no ID was left or the commit
    threw, with nothing at all. *)
Theorem fuse_mkdir_replies (opts : FuseOptions) (ctx : fuse_ctx) (now_ns parent : Z)
    (name : string) (mode : Z) (w : World K) (fs : FS)
    (Hfl : flags_ok) (Hc : ctx_ok (w_server w) fs) (Hh : kv_healthy (kv_store_ (w_server w)))
    (Hid : is_u64 parent) (Hname : name ≠ ""%string) (Hnow : is_i64 now_ns) :
  ∃ b w', fuse_mkdir (T := T) opts ctx now_ns parent name mode w = (Ret b, w') ∧
    match fs_dir fs {| val := parent |} with
    | None => sent (w_client w') = ReplyErr ENOENT :: sent (w_client w) ∧ ctx_ok (w_server w') fs
    | Some p =>
        if granted (dir_acl p) {| user_uid := ctx_uid ctx; user_gid := ctx_gid ctx |} S_IWOTH then
          (∃ id oc, (Next (inode_id_generator_ (w_server w))).1 = Ret id ∧
             commits (T := T) (kv_store_ (w_server w)) (kv_store_ (w_server w')) oc ∧
             let d := mkdirs_dir p id now_ns (FuseMkdirOp_req ctx parent name mode) in
             sent (w_client w') = match oc with
               | Ret _ => [ReplyEntry (ToFuseEntryParam opts (val id) (Dir_Stat d))]
               | _ => []
               end ++ sent (w_client w) ∧
             (ctx_ok (w_server w') (fs_insert d fs) ∨
              ctx_ok (w_server w') fs ∧ oc ≠ Ret (Val tt))) ∨
          (∃ x, (Next (inode_id_generator_ (w_server w))).1 = Throw x ∧
             sent (w_client w') = sent (w_client w))
        else sent (w_client w') = ReplyErr EACCES :: sent (w_client w) ∧ ctx_ok (w_server w') fs
    end.
Proof.
  set (req := FuseMkdirOp_req ctx parent name mode).
  destruct (with_handler_Mkdirs now_ns req (w_server w) fs Hfl Hc Hid Hname Hnow)
    as (o & c' & E & Hcase). unfold fuse_mkdir, call. fold req. rewrite E.
  unfold mkdirs_spec in Hcase. cbn [mk_parent_id mk_uid mk_gid req FuseMkdirOp_req] in Hcase.
  destruct Hcase as [(Hc' & _ & _ & [(e & He & ->)|[Hn _]])|[(mk & e & Hmk & Hx & ->)|
    (mk & id & oc & Hmk & HN & -> & Hcm & Hc')]]; [|done|..].
  - destruct (fs_dir fs {| val := parent |}) as [p|]; [destruct (granted _ _ _); [done|]|];
      injection He as <-; do 2 eexists; by split_and!.
  - destruct (fs_dir fs {| val := parent |}) as [p|]; [|done].
    destruct (granted _ _ _); [|done]. do 2 eexists. split; [reflexivity|]. right. by exists e.
  - destruct (fs_dir fs {| val := parent |}) as [p|]; [|done].
    destruct (granted _ _ _); [|done]. injection Hmk as <-. rewrite HN.
    destruct oc as [x|e|]; do 2 eexists; (split; [reflexivity|]); left; exists id.
    + by exists (Ret x).
    + by exists (Throw e).
    + by exists Undef.
Qed.

(** C33: a [lookup] through the client is answered [ENOENT] for a name
    that is not there; for a directory, with its ID and a bare directory mode: the
    permission bits, the owner, the group and the times all read as zero, whatever
    the directory was created with; for a hard link, with a bare regular mode. *)
Theorem fuse_lookup_replies (opts : FuseOptions) (parent : Z) (name : string) (w : World K) (fs : FS)
    (Hfl : flags_ok) (Hc : ctx_ok (w_server w) fs) (Hh : kv_healthy (kv_store_ (w_server w)))
    (Hid : is_u64 parent)
    (Hids : ∀ e, fs_dents fs !! (parent, name) = Some e →
              is_u64 (match e with inl d => val (dir_id d) | inr h => val (hl_id h) end)) :
  ∃ b w', fuse_lookup (T := T) opts parent name w = (Ret b, w') ∧
    match fs_dents fs !! (parent, name) with
    | None => sent (w_client w') = ReplyErr ENOENT :: sent (w_client w)
    | Some e =>
        ∃ entry, sent (w_client w') = ReplyEntry entry :: sent (w_client w) ∧
          fe_ino entry = match e with inl d => val (dir_id d) | inr h => val (hl_id h) end ∧
          lx_mode (fe_attr entry) = match e with inl _ => S_IFDIR | inr _ => S_IFREG end ∧
          lx_uid (fe_attr entry) = 0 ∧ lx_gid (fe_attr entry) = 0 ∧
          lx_atime (fe_attr entry) = 0 ∧ lx_mtime (fe_attr entry) = 0 ∧
          lx_ctime (fe_attr entry) = 0
    end.
Proof.
  set (req := FuseLookupOp_req parent name).
  destruct (healthy_answer (LookupOp_Run req) (w_server w) fs (lookup_spec fs req) Hfl Hc Hh)
    as (resp & c' & E & _ & Hr); [intros; by apply LookupOp_answers|].
  unfold fuse_lookup. fold req. rewrite (call_Ret _ _ _ _ _ E).
  unfold lookup_spec, fs_dent in Hr. cbn [lk_parent_id lk_name req FuseLookupOp_req val] in Hr.
  destruct (fs_dents fs !! (parent, name)) as [[d|h]|] eqn:Ed; cbn [fmap option_fmap option_map dent_seen] in Hr.
  - subst resp. do 2 eexists. split; [reflexivity|]. eexists. split; [reflexivity|].
    split; [|by split_and!]. cbn. apply u64_i64. exact (Hids _ eq_refl).
  - subst resp. do 2 eexists. split; [reflexivity|]. eexists. split; [reflexivity|].
    split; [|by split_and!]. cbn. apply u64_i64. exact (Hids _ eq_refl).
  - apply error_reply_code in Hr. rewrite Finish_error by (rewrite Hr; done).
    rewrite Hr. do 2 eexists. by split.
Qed.

(** For an inode that is not a directory, [getattr] is answered
    [ENOENT], but [opendir] [EIO]: the client does not translate the code
    [kParentNotFoundError] the namenode reports it with. *)
Theorem missing_directory_errno (opts : FuseOptions) (ctx : fuse_ctx) (p id : Z) (w : World K)
    (fs : FS)
    (Hfl : flags_ok) (Hc : ctx_ok (w_server w) fs) (Hh : kv_healthy (kv_store_ (w_server w)))
    (Hid : is_u64 id) (Hnone : fs_dir fs {| val := id |} = None) :
  (∃ b w', fuse_getattr (T := T) opts id w = (Ret b, w') ∧
           sent (w_client w') = ReplyErr ENOENT :: sent (w_client w)) ∧
  (∃ b w', fuse_opendir (T := T) ctx p id w = (Ret b, w') ∧
           sent (w_client w') = ReplyErr EIO :: sent (w_client w)).
Proof.
  split.
  - destruct (healthy_answer (GetInodeOp_Run (FuseGetAttrOp_req id)) (w_server w) fs
      (get_inode_spec fs (FuseGetAttrOp_req id)) Hfl Hc Hh) as (resp & c' & E & _ & Hr);
      [intros; by apply GetInodeOp_answers|].
    unfold fuse_getattr. rewrite (call_Ret _ _ _ _ _ E). unfold get_inode_spec in Hr.
    cbn [GetInodeRequest_id gi_id FuseGetAttrOp_req] in Hr. rewrite Hnone in Hr.
    apply error_reply_code in Hr. rewrite Finish_error by (rewrite Hr; done).
    rewrite Hr. do 2 eexists. by split.
  - destruct (healthy_answer (ListDirOp_Run (FuseOpenDirOp_req ctx id)) (w_server w) fs
      (list_dir_spec fs (FuseOpenDirOp_req ctx id)) Hfl Hc Hh) as (resp & c' & E & _ & Hr);
      [intros; by apply ListDirOp_answers|].
    unfold fuse_opendir. rewrite (call_Ret _ _ _ _ _ E). unfold list_dir_spec in Hr.
    cbn [ld_id FuseOpenDirOp_req] in Hr. rewrite Hnone in Hr.
    apply list_error_reply_code in Hr. rewrite Finish_error by (rewrite Hr; done).
    rewrite Hr. do 2 eexists. by split.
Qed.

(** Once the cached page is consumed and the namenode said
    there is more, the next read asks the namenode for inode 0, with no position:
    unless a directory has that ID, the read is answered [EIO] and the rest of the
    directory is never delivered. *)
Theorem readdir_next_page_fails (ctx : fuse_ctx) (fh size : Z) (c : CacheDirEntries) (w : World K)
    (fs : FS)
    (Hfl : flags_ok) (Hc : ctx_ok (w_server w) fs) (Hh : kv_healthy (kv_store_ (w_server w)))
    (Hfh : fh ≠ 0) (Hcache : heap (w_client w) !! fh = Some c) (Hempty : entries c = [])
    (Hmore : has_more c = true) (Hzero : fs_dir fs {| val := 0 |} = None) :
  ∃ b w', fuse_readdir (T := T) ctx fh size (end_off c) w = (Ret b, w') ∧
    sent (w_client w') = ReplyErr EIO :: sent (w_client w) ∧
    heap (w_client w') = heap (w_client w).
Proof.
  set (req := {| ld_id := 0; ld_start_after := ""; ld_limit := 0; ld_uid := ctx_uid ctx;
                 ld_gid := ctx_gid ctx |}).
  assert (on_client (FuseReadDirOp_Start ctx fh size (end_off c)) w = (Ret (Some req), w)) as Es.
  { unfold on_client, zoom, FuseReadDirOp_Start. apply Z.eqb_neq in Hfh. rewrite Hfh.
    erewrite bind_Ret by reflexivity. erewrite bind_Ret by (unfold read_cache; by rewrite Hcache).
    rewrite Z.eqb_refl. erewrite bind_Ret by reflexivity. rewrite Hempty, Hmore. by destruct w. }
  unfold fuse_readdir. erewrite bind_Ret by exact Es. cbn match.
  destruct (healthy_answer (ListDirOp_Run req) (w_server w) fs (list_dir_spec fs req) Hfl Hc Hh)
    as (resp & c' & E & _ & Hr); [intros; apply ListDirOp_answers; by vm_compute|].
  rewrite (call_Ret _ _ _ _ _ E). unfold list_dir_spec in Hr. cbn [ld_id req] in Hr.
  rewrite Hzero in Hr. apply list_error_reply_code in Hr.
  rewrite Finish_error by (rewrite Hr; done). do 2 eexists. by split_and!.
Qed.
End world_properties.

(** ** Witnesses *)

Section demo.
#[local] Existing Instances MemDB MemDBSpec MemDBLaws demo_fmt demo_build demo_be demo_fb
  demo_be_laws demo_fb_laws default_flags.

Definition demo_direntry (name : string) (ino mode off : Z) : string := (name +:+ ";")%string.
Definition demo_fuse : LibFuse := {|
  fuse_add_direntry room name ino mode off :=
    let e := demo_direntry name ino mode off in
    (Z.of_nat (String.length e), if Z.of_nat (String.length e) <=? room then e else ""%string);
  file_info_kept := true;
|}.
Lemma demo_kept : @file_info_kept demo_fuse = true.
Proof. reflexivity. Qed.
Definition demo_fuse_spec : @LibFuseSpec demo_fuse := {| direntry := demo_direntry |}.
Lemma demo_fuse_laws : @LibFuseLaws demo_fuse demo_fuse_spec.
Proof. split; [done|]. by intros [|]. Qed.
#[local] Existing Instances demo_fuse demo_fuse_spec demo_fuse_laws.

Definition demo_opts : FuseOptions :=
  {| server_endpoint := "localhost:50051"; remote_mountpoint := "/"; rpc_timeout_ms := 1000;
     entry_generation := 0; attr_timeout_sec := 0%Q; entry_timeout_sec := 0%Q |}.
Definition demo_client : Client := {| heap := ∅; sent := [] |}.
Definition demo_world : World RocksDBKVStore := {| w_client := demo_client; w_server := demo_ctx |}.
Definition demo_page : ListDirResponse :=
  {| lr_error_code := 0; lr_error_msg := "";
     lr_self_dent := Some {| de_id := 1; de_name := "."; de_type := S_IFDIR |};
     lr_parent_dent := Some {| de_id := 1; de_name := ".."; de_type := S_IFDIR |};
     lr_ents := [{| de_id := 5; de_name := "a"; de_type := S_IFDIR |}]; lr_has_more := false |}.

(** Three reads with room for one entry each. *)
Lemma readdir_streams_entries_witness :
  ∃ cl1 outs cl2, FuseOpenDirOp_OnSuccess 8 demo_page demo_client = (Ret tt, cl1) ∧
    run_reads {| ctx_uid := 0; ctx_gid := 0 |} 8 [3; 3; 3] cl1 = (Ret tt, cl2) ∧
    foldr String.append ""%string outs = ".;..;a;"%string.
Proof.
  destruct (readdir_streams_entries {| ctx_uid := 0; ctx_gid := 0 |} 8 demo_page [3; 3; 3]
    demo_client _ demo_kept ltac:(done) eq_refl eq_refl) as (cl1 & outs & cl2 & E1 & _ & E2 & _ & _ & Hcat & _).
  - cbn. lia.
  - repeat constructor; lia.
  - intros size off e Hs He. assert (size = 3) as -> by (repeat (apply elem_of_cons in Hs as [->|Hs]; [done|]); by apply not_elem_of_nil in Hs).
    cbn in He. repeat (apply elem_of_cons in He as [->|He]; [vm_compute; discriminate|]).
    by apply not_elem_of_nil in He.
  - cbn. lia.
  - exists cl1, outs, cl2. split; [exact E1|]. split; [exact E2 | exact Hcat].
Defined.

Lemma fuse_mkdir_replies_witness :
  ∃ b w', fuse_mkdir (T := RocksDBTxn) demo_opts {| ctx_uid := 7; ctx_gid := 8 |} 50 77 "b" 511 demo_world
          = (Ret b, w') ∧ sent (w_client w') = [ReplyErr ENOENT].
Proof.
  destruct (fuse_mkdir_replies (K := RocksDBKVStore) (T := RocksDBTxn) demo_opts
    {| ctx_uid := 7; ctx_gid := 8 |} 50 77 "b" 511 demo_world demo_fs demo_flags_ok demo_ctx_ok
    demo_healthy) as (b & w' & E & Hs & _); [vm_compute; done | done | vm_compute; done |].
  exists b, w'. split; [exact E | exact Hs].
Defined.

Lemma fuse_lookup_replies_witness :
  ∃ b w' entry, fuse_lookup (T := RocksDBTxn) demo_opts 1 "a" demo_world = (Ret b, w') ∧
    sent (w_client w') = [ReplyEntry entry] ∧ lx_mode (fe_attr entry) = S_IFDIR.
Proof.
  destruct (fuse_lookup_replies (K := RocksDBKVStore) (T := RocksDBTxn) demo_opts 1 "a" demo_world
    demo_fs demo_flags_ok demo_ctx_ok demo_healthy) as (b & w' & E & entry & Hs & _ & Hm & _).
  - vm_compute. done.
  - intros e [= <-]. vm_compute. done.
  - exists b, w', entry. split; [exact E|]. split; [exact Hs | exact Hm].
Defined.

Lemma missing_directory_errno_witness :
  ∃ b w', fuse_opendir (T := RocksDBTxn) {| ctx_uid := 7; ctx_gid := 8 |} 8 77 demo_world = (Ret b, w') ∧
          sent (w_client w') = [ReplyErr EIO].
Proof.
  destruct (missing_directory_errno (K := RocksDBKVStore) (T := RocksDBTxn) demo_opts
    {| ctx_uid := 7; ctx_gid := 8 |} 8 77 demo_world demo_fs demo_flags_ok demo_ctx_ok demo_healthy)
    as (_ & b & w' & E & Hs); [vm_compute; done | reflexivity |].
  exists b, w'. split; [exact E | exact Hs].
Defined.

(** Root reads the empty directory "a": the page says there is more, and the second
    read fails. *)
Definition demo_opened : World RocksDBKVStore :=
  {| w_client := {| heap := {[ 8 := {| start_off := 2; end_off := 2; entries := []; has_more := true |} ]};
                    sent := [] |};
     w_server := demo_ctx |}.
Lemma readdir_next_page_fails_witness :
  ∃ b w', fuse_readdir (T := RocksDBTxn) {| ctx_uid := 0; ctx_gid := 0 |} 8 4096 2 demo_opened = (Ret b, w') ∧
          sent (w_client w') = [ReplyErr EIO].
Proof.
  destruct (readdir_next_page_fails (K := RocksDBKVStore) (T := RocksDBTxn)
    {| ctx_uid := 0; ctx_gid := 0 |} 8 4096
    {| start_off := 2; end_off := 2; entries := []; has_more := true |} demo_opened demo_fs
    demo_flags_ok demo_ctx_ok demo_healthy) as (b & w' & E & Hs & _);
    [done | reflexivity | reflexivity | reflexivity | reflexivity |].
  exists b, w'. split; [exact E | exact Hs].
Defined.

(** The same from the start: open, read, read. *)
Example empty_directory_read_fails :
  let ctx := {| ctx_uid := 0; ctx_gid := 0 |} in
  sent (w_client ((do! fuse_opendir (T := RocksDBTxn) ctx 8 5 in
                   do! fuse_readdir (T := RocksDBTxn) ctx 8 4096 0 in
                   fuse_readdir (T := RocksDBTxn) ctx 8 4096 2) demo_world).2)
  = [ReplyErr EIO; ReplyBuf ".;..;"; ReplyOpen 8].
Proof. vm_compute. reflexivity. Qed.
End demo.
