(* ===== verification/Listing.v ===== *)
(** Listing a directory through the client and the namenode: [fuse_opendir], then the
    reads of src/client/fuse/operation/fuse_read_dir_op.cc until the kernel has seen
    everything, over the namespace of the namenode. *)

From Stdlib Require Import ZArith Lia Ascii String.
From stdpp Require Import prelude strings gmap.
From S2P Require Import Prelude Common Types Mutation KVStoreBase RocksDB Conflict Serde Tables.
From S2P Require Import IdGen IdGenMgr Proto Service System Namespace Fuse.

#[local] Open Scope Z_scope.

Section defs.
Context {K T : Type} `{KVStoreBase K T, DirTableBase T, DEntViewBase T, Fmt, Build, Flags, LibFuse}.

(** Successive reads of an open directory, each from the offset reached. *)
Fixpoint world_reads (ctx : fuse_ctx) (fh : Z) (sizes : list Z) : M (World K) unit :=
  match sizes with
  | [] => ret tt
  | size :: sizes =>
      let! c := on_client (read_cache fh) in
      do! fuse_readdir (T := T) ctx fh size (end_off c) in
      world_reads ctx fh sizes
  end.

(** What a listing of [id] shows: the two dots and the first entries by name. *)
Definition listing (fs : FS) (id : Z) (d : Dir) : list ProtoDEnt :=
  {| de_id := id; de_name := "."; de_type := S_IFDIR |}
  :: or_default (dotdot_spec fs {| val := id |} d)
  :: (ListDir_ent <$> fs_list fs {| val := id |} "" (Z.to_nat FLAGS_list_dir_default_limit)).
End defs.

Section listing.
Context {K T : Type} `{KVStoreBase K T, KVStoreSpec K, TxnSpec T, DirTableBase T,
  DEntViewBase T, FSRep, Fmt, Build, Flags, LibFuseSpec, !LibFuseLaws,
  !KVStoreLaws K T, !DirTableLaws T, !DEntViewLaws T}.

(** A step of the client alone. *)
Lemma on_client_eq {A} (m : M Client A) (w : World K) o cl :
  m (w_client w) = (o, cl) →
  on_client m w = (o, {| w_client := cl; w_server := w_server w |}).
Proof. intros E. unfold on_client, zoom. by rewrite E. Qed.

(** A read answered from the cache does not reach the namenode. *)
Lemma fuse_readdir_local ctx fh size off (w : World K) cl :
  FuseReadDirOp_Start ctx fh size off (w_client w) = (Ret None, cl) →
  fuse_readdir (T := T) ctx fh size off w
  = (Ret true, {| w_client := cl; w_server := w_server w |}).
Proof. intros E. unfold fuse_readdir. by erewrite bind_Ret by by apply on_client_eq. Qed.

Lemma world_reads_local ctx fh sizes c (w : World K) cl :
  fh ≠ 0 → heap (w_client w) !! fh = Some c → cache_ok c → has_more c = false →
  end_off c + Z.of_nat (length (pending c)) < 2 ^ 62 →
  run_reads ctx fh sizes (w_client w) = (Ret tt, cl) →
  world_reads ctx fh sizes w = (Ret tt, {| w_client := cl; w_server := w_server w |}).
Proof.
  intros Hfh. revert c w. induction sizes as [|size sizes IH]; intros c w Hc Hok Hm Hoff Hrun.
  { injection Hrun as <-. by destruct w. }
  destruct (FuseReadDirOp_Start_local ctx fh size c (w_client w) Hfh Hc Hok Hoff (or_intror Hm))
    as (c1 & E & Hok1 & He1 & Hpend & Hm1 & _). set (n := fitting _ _ _) in *.
  pose proof (fitting_le (end_off c) size (pending c)) as Hn. fold n in Hn.
  cbn [run_reads world_reads] in *.
  erewrite bind_Ret in Hrun by (unfold read_cache; by rewrite Hc).
  erewrite bind_Ret in Hrun by exact E.
  erewrite bind_Ret by (apply on_client_eq; unfold read_cache; by rewrite Hc).
  erewrite bind_Ret by by apply fuse_readdir_local.
  eapply (IH c1 {| w_server := w_server w |}); cbn [w_client]; [apply lookup_insert_eq|done|congruence|rewrite Hpend, length_drop; lia|exact Hrun].
Qed.

(** What [opendir] leaves in the client. *)
Lemma fuse_opendir_granted ctx p id (w : World K) fs d :
  file_info_kept = true → flags_ok → ctx_ok (w_server w) fs → kv_healthy (kv_store_ (w_server w)) →
  is_u64 id → fs_dir fs {| val := id |} = Some d →
  granted (dir_acl d) {| user_uid := ctx_uid ctx; user_gid := ctx_gid ctx |} S_IRUSR = true →
  ∃ w1 resp, fuse_opendir (T := T) ctx p id w = (Ret true, w1) ∧ ctx_ok (w_server w1) fs ∧
    w_client w1 = opened_client p resp (w_client w) ∧
    or_default (lr_self_dent resp) :: or_default (lr_parent_dent resp) :: lr_ents resp
      = listing fs id d ∧
    lr_has_more resp = bool_decide (length (listing fs id d) = 2%nat).
Proof.
  intros Hkept Hfl Hc Hh Hid Hd Hg.
  destruct (healthy_answer (ListDirOp_Run (FuseOpenDirOp_req ctx id)) (w_server w) fs
    (list_dir_spec fs (FuseOpenDirOp_req ctx id)) Hfl Hc Hh) as (resp & c' & E & Hc' & Hr);
    [intros; by apply ListDirOp_answers|].
  unfold fuse_opendir. rewrite (call_Ret _ _ _ _ _ E). unfold list_dir_spec in Hr.
  cbn [ld_id ld_uid ld_gid FuseOpenDirOp_req] in Hr. rewrite Hd, Hg in Hr. subst resp.
  do 2 eexists. split.
  { unfold Finish. cbn [lr_error_code negb Z.eqb].
    erewrite bind_Ret by by apply FuseOpenDirOp_OnSuccess_eval. reflexivity. }
  split; [exact Hc'|]. split; [reflexivity|].
  split; [reflexivity|]. cbn [lr_has_more ld_limit FuseOpenDirOp_req]. unfold listing.
  change (u64 0) with 0. cbn [length]. rewrite length_fmap.
  change (ListDir_limit (FuseOpenDirOp_req ctx id)) with (Z.to_nat FLAGS_list_dir_default_limit).
  destruct (fs_list _ _ _ _) as [|x l]; [done|]. cbn [length].
  rewrite bool_decide_eq_false_2 by lia. apply Z.eqb_neq. lia.
Qed.

(** A buffer with room for all the entries takes them all. *)
Lemma fitting_all off room es :
  Z.of_nat (String.length (stream off es)) ≤ room → fitting off room es = length es.
Proof.
  revert off room. induction es as [|e es IH]; intros off room; cbn [stream fitting length]; [done|].
  rewrite str_app_length. intros Hr.
  destruct (Z.leb_spec (Z.of_nat (String.length (dirent off e))) room); [|lia].
  by rewrite IH by lia.
Qed.

(** A page with room to spare has every entry of the directory. *)
Lemma fs_list_complete (fs : FS) (parent : InodeID) (name : string) (e : Dir + HardLink) limit :
  fs_dents fs !! (val parent, name) = Some e → str_ltb name xFF = true →
  (length (fs_list fs parent "" limit) < limit)%nat → dent_seen e ∈ fs_list fs parent "" limit.
Proof.
  unfold fs_list, range_values. rewrite length_fmap, length_take, length_fmap. intros He Hff Hlen.
  apply list_elem_of_fmap_2. rewrite take_ge by (rewrite length_fmap; lia).
  apply list_elem_of_fmap. exists (name, e). split; [done|].
  apply list_elem_of_filter. rewrite elem_of_cf_entries. split; [|done]. split; [|exact Hff].
  cbn [fst]. by destruct name.
Qed.

(** ** Properties *)



(** Once a read has delivered an entry, going back to the
    start of the directory ([rewinddir]) makes the callback throw, as every read
    whose offset is not the one the cache has reached. *)
Theorem rewinddir_throws (ctx : fuse_ctx) (p id size size' : Z) (w : World K) (fs : FS) (d : Dir)
    (Hkept : file_info_kept = true) (Hfl : flags_ok) (Hc : ctx_ok (w_server w) fs)
    (Hh : kv_healthy (kv_store_ (w_server w)))
    (Hp : p ≠ 0) (Hid : is_u64 id) (Hd : fs_dir fs {| val := id |} = Some d)
    (Hg : granted (dir_acl d) {| user_uid := ctx_uid ctx; user_gid := ctx_gid ctx |} S_IRUSR = true)
    (Hlen : Z.of_nat (length (listing fs id d)) < 2 ^ 62)
    (Hsize : Z.of_nat (String.length (dirent 0 {| de_id := id; de_name := "."; de_type := S_IFDIR |}))
             ≤ size) :
  ∃ w1 w2,
    fuse_opendir (T := T) ctx p id w = (Ret true, w1) ∧
    fuse_readdir (T := T) ctx p size 0 w1 = (Ret true, w2) ∧
    fuse_readdir (T := T) ctx p size' 0 w2
    = (Throw "Check failed: (off) == (cache_dir_entries_->end_off)."%string, w2).
Proof.
  destruct (fuse_opendir_granted ctx p id w fs d Hkept Hfl Hc Hh Hid Hd Hg)
    as (w1 & resp & E1 & Hc1 & Eo & Hes & _).
  unfold opened_client in Eo. rewrite Hes in Eo. rename Eo into Hcl.
  set (c := {| start_off := 0; end_off := 0; entries := listing fs id d;
               has_more := lr_has_more resp |}) in Hcl.
  destruct (FuseReadDirOp_Start_local ctx p size c (w_client w1))
    as (c1 & E & _ & He1 & _); try done.
  { rewrite Hcl. apply lookup_insert_eq. }
  { by left. }
  change (end_off c) with 0 in *. change (pending c) with (listing fs id d) in *.
  assert (1 ≤ fitting 0 size (listing fs id d))%nat as Hn.
  { unfold listing. cbn [fitting]. destruct (Z.leb_spec (Z.of_nat (String.length
      (dirent 0 {| de_id := id; de_name := "."; de_type := S_IFDIR |}))) size); lia. }
  do 2 eexists. split; [exact E1|]. split; [by apply fuse_readdir_local|].
  unfold fuse_readdir, bind at 1. unfold on_client, zoom, FuseReadDirOp_Start. cbn [w_client w_server].
  apply Z.eqb_neq in Hp. rewrite Hp. erewrite bind_Ret by reflexivity.
  erewrite bind_Ret by (unfold read_cache; cbn [heap]; by rewrite lookup_insert_eq).
  unfold bind, Check. by destruct (Z.eqb_spec 0 (end_off c1)); [lia|].
Qed.

End listing.

(** ** Witnesses *)

Section demo.
#[local] Existing Instances MemDB MemDBSpec MemDBLaws demo_fmt demo_build demo_be demo_fb
  demo_be_laws demo_fb_laws default_flags demo_fuse demo_fuse_spec demo_fuse_laws.

Definition demo_root : fuse_ctx := {| ctx_uid := 0; ctx_gid := 0 |}.



(** The kernel goes back to the first entry of the root. *)
Lemma rewinddir_throws_witness :
  ∃ w1 w2, fuse_opendir (T := RocksDBTxn) demo_root 8 1 demo_world = (Ret true, w1) ∧
    fuse_readdir (T := RocksDBTxn) demo_root 8 4096 0 w1 = (Ret true, w2) ∧
    fuse_readdir (T := RocksDBTxn) demo_root 8 4096 0 w2
    = (Throw "Check failed: (off) == (cache_dir_entries_->end_off)."%string, w2).
Proof.
  apply (rewinddir_throws (K := RocksDBKVStore) (T := RocksDBTxn) demo_root 8 1 4096 4096 demo_world
    demo_fs root_dir demo_kept demo_flags_ok demo_ctx_ok demo_healthy);
    [done|vm_compute; done|reflexivity|reflexivity|vm_compute; reflexivity|vm_compute; discriminate].
Defined.

(** Root makes "b" in the root and lists it. *)
Definition demo_b : Dir := mkdirs_dir root_dir {| val := 101 |} 50 (FuseMkdirOp_req demo_root 1 "b" 511).

End demo.
