(* ===== verification/Proxy.v ===== *)
(** The FUSE client as a whole: src/client/fuse/fuse_ops_proxy.h and .cc, the callbacks
    of fuse_lowlevel_ops.cc and [FuseAsyncOpBase::Start].

    Two threads share the proxy.  The session's thread runs the callbacks: each makes an
    operation, which either replies at once or starts an RPC whose tag is the operation
    itself.  gRPC puts the tag of a finished RPC into the completion queue.  The
    completion thread takes tags out and runs [Finish].  [Proxy] is what they share, with
    the replies made so far under the request they answer; [px_step] interleaves the
    threads and gRPC.  An exception on either thread ends the process, so that no step
    follows it. *)

From Stdlib Require Import ZArith Lia Ascii String.
From stdpp Require Import prelude strings gmap sets relations.
From S2P Require Import Prelude Common Types IdGen KVStoreBase RocksDB Conflict Serde Tables Proto.
From S2P Require Import Service Fuse.

#[local] Open Scope Z_scope.

(** ** Operations *)

Inductive FuseOp :=
| OpLookup (parent : Z) (name : string)
| OpGetAttr (id : Z)
| OpMkdir (ctx : fuse_ctx) (parent : Z) (name : string) (mode : Z)
| OpOpenDir (ctx : fuse_ctx) (id : Z)
| OpReadDir (ctx : fuse_ctx) (fh size off : Z)
| OpRelDir (fh : Z).

Record Proxy := {
  px_client : Client;                     (* the open directories, the replies *)
  px_ops : gmap Z (Z * FuseOp);           (* allocated operations and their requests *)
  px_calls : gset Z;                      (* those whose RPC is under way *)
  px_queue : list (Z * option Response);  (* the completion queue; [None] is a failed RPC *)
  px_requests : gset Z;                   (* the requests libfuse has made *)
  px_replies : list (Z * fuse_reply);     (* the replies, latest first *)
  px_thread : bool;                       (* namenode_completion_thread_ runs *)
  px_shutdown : bool;                     (* namenode_cq_ is shut down *)
  px_mountpoint : option Z;               (* mountpoint_inode_id_ *)
}.

Definition set_client (c : Client) (rs : list (Z * fuse_reply)) (s : Proxy) : Proxy :=
  {| px_client := c; px_ops := px_ops s; px_calls := px_calls s; px_queue := px_queue s;
     px_requests := px_requests s; px_replies := rs; px_thread := px_thread s;
     px_shutdown := px_shutdown s; px_mountpoint := px_mountpoint s |}.
Definition set_ops (ops : gmap Z (Z * FuseOp)) (calls : gset Z) (q : list (Z * option Response))
    (s : Proxy) : Proxy :=
  {| px_client := px_client s; px_ops := ops; px_calls := calls; px_queue := q;
     px_requests := px_requests s; px_replies := px_replies s; px_thread := px_thread s;
     px_shutdown := px_shutdown s; px_mountpoint := px_mountpoint s |}.
Definition set_life (reqs : gset Z) (thread shutdown : bool) (mp : option Z) (s : Proxy) : Proxy :=
  {| px_client := px_client s; px_ops := px_ops s; px_calls := px_calls s; px_queue := px_queue s;
     px_requests := reqs; px_replies := px_replies s; px_thread := thread;
     px_shutdown := shutdown; px_mountpoint := mp |}.

(** *** The responses an RPC can have *)

Definition as_lookup (r : Response) : option StatResponse :=
  match r with RespLookup r => Some r | _ => None end.
Definition as_get_inode (r : Response) : option StatResponse :=
  match r with RespGetInode r => Some r | _ => None end.
Definition as_mkdirs (r : Response) : option StatResponse :=
  match r with RespMkdirs r => Some r | _ => None end.
Definition as_list_dir (r : Response) : option ListDirResponse :=
  match r with RespListDir r => Some r | _ => None end.

(** The stub's types: an RPC that did not fail has a response of its own kind. *)
Definition resp_fits (op : FuseOp) (res : option Response) : Prop :=
  match res with
  | None => True
  | Some r =>
      match op with
      | OpLookup _ _ => is_Some (as_lookup r)
      | OpGetAttr _ => is_Some (as_get_inode r)
      | OpMkdir _ _ _ _ => is_Some (as_mkdirs r)
      | OpOpenDir _ _ | OpReadDir _ _ _ _ => is_Some (as_list_dir r)
      | OpRelDir _ => False
      end
  end.

Definition resp_error (r : Response) : Z :=
  match r with
  | RespPingPong _ => 0
  | RespGetInode r | RespLookup r | RespMkdirs r => sr_error_code r
  | RespListDir r => lr_error_code r
  end.
Definition op_ToErrno (op : FuseOp) : Z → option Z :=
  match op with
  | OpLookup _ _ => FuseLookupOp_ToErrno
  | OpGetAttr _ => FuseGetAttrOp_ToErrno
  | OpMkdir _ _ _ _ => FuseMkdirOp_ToErrno
  | OpOpenDir _ _ => FuseOpenDirOp_ToErrno
  | OpReadDir _ _ _ _ => FuseReadDirOp_ToErrno
  | OpRelDir _ => λ _, None
  end.

Section proxy.
Context `{LibFuse} (opts : FuseOptions).

(** The reply a response stands for: on an error code the errno it is translated to,
    otherwise what the operation gives the kernel. *)
Definition success_reply (op : FuseOp) (x : Response) (r : fuse_reply) : Prop :=
  match op, x with
  | OpLookup _ _, RespLookup q =>
      r = ReplyEntry (ToFuseEntryParam opts (u64 (sr_id q)) (resp_stat q))
  | OpGetAttr _, RespGetInode q =>
      r = ReplyAttr (ToLinuxStat (resp_stat q)) (attr_timeout_sec opts)
  | OpMkdir _ _ _ _, RespMkdirs q => r = ReplyEntry (ToFuseEntryParam opts (sr_id q) (resp_stat q))
  | OpOpenDir _ _, RespListDir _ => ∃ p, r = ReplyOpen p
  | OpReadDir _ _ _ _, RespListDir _ => ∃ buf, r = ReplyBuf buf
  | _, _ => False
  end.
Definition reply_for (op : FuseOp) (x : Response) (r : fuse_reply) : Prop :=
  if resp_error x =? 0 then success_reply op x r
  else r = ReplyErr (default EIO (op_ToErrno op (resp_error x))).

(** A computation of the client's that answers the request [req]. *)
Definition on_request {A} (req : Z) (m : M Client A) : M Proxy A := λ s,
  let '(o, c) := m (px_client s) in
  let new := take (length (sent c) - length (sent (px_client s))) (sent c) in
  (o, set_client c (((λ r, (req, r)) <$> new) ++ px_replies s) s).

(** ** FuseAsyncOpBase *)

(** [Start]: the RPC is under way, its tag the operation at [a]. *)
Definition FuseAsyncOpBase_Start (a req : Z) (op : FuseOp) : M Proxy unit :=
  modify (λ s, set_ops (<[a := (req, op)]> (px_ops s)) ({[a]} ∪ px_calls s) (px_queue s) s).

Definition finish_with {Req Resp} `{ErrorResp Resp} (error_code : Resp → Z)
    (op : FuseAsyncOp Req Resp) (get : Response → option Resp) (res : option Response) :
    M Client bool :=
  match res with
  | None => Finish error_code (ao_ToErrno op) (ao_OnSuccess op) false resp_default
  | Some r =>
      match get r with
      | Some r => Finish error_code (ao_ToErrno op) (ao_OnSuccess op) true r
      | None => undef
      end
  end.

(** [Finish] of each operation; [p] is the address of the [CacheDirEntries] an
    [opendir] allocates.  [FuseRelDirOp] has none. *)
Definition op_finish (p : Z) (op : FuseOp) (res : option Response) : M Client bool :=
  match op with
  | OpLookup parent name => finish_with sr_error_code (FuseLookupOp opts parent name) as_lookup res
  | OpGetAttr id => finish_with sr_error_code (FuseGetAttrOp opts id) as_get_inode res
  | OpMkdir ctx parent name mode =>
      finish_with sr_error_code (FuseMkdirOp opts ctx parent name mode) as_mkdirs res
  | OpOpenDir ctx id => finish_with lr_error_code (FuseOpenDirOp p ctx id) as_list_dir res
  | OpReadDir ctx fh size _ =>
      finish_with lr_error_code (FuseReadDirOp ctx fh size) as_list_dir res
  | OpRelDir _ => undef
  end.

(** ** FuseOpsProxy *)

(** [CreateOp]: [new] at the address [a], and [Start]. *)
Definition CreateOp (req a : Z) (op : FuseOp) : M Proxy unit :=
  match op with
  | OpReadDir ctx fh size off =>
      let! rpc := on_request req (FuseReadDirOp_Start ctx fh size off) in
      match rpc with
      | None => ret tt
      | Some _ => FuseAsyncOpBase_Start a req op
      end
  | OpRelDir fh => on_request req (FuseRelDirOp_Start fh)
  | _ => FuseAsyncOpBase_Start a req op
  end.

(** [Init]: the completion thread, and the mountpoint's inode, whose RPC is
    synchronous. *)
Definition Init (res : option StatResponse) : M Proxy unit :=
  do! modify (λ s, set_life (px_requests s) true (px_shutdown s) (px_mountpoint s) s) in
  do! Check (match res with Some _ => true | None => false end) "status.ok()" in
  modify (λ s, set_life (px_requests s) (px_thread s) (px_shutdown s)
                 (Init_mountpoint <$> res) s).

(** One turn of the loop of [AsyncCompleteRpc]; it gives whether there was a tag. *)
Definition AsyncCompleteRpc_turn (p : Z) (ok : bool) : M Proxy bool := λ s,
  match px_queue s with
  | [] => (Ret false, s)
  | (a, res) :: q =>
      match px_ops s !! a with
      | None => (Undef, s)              (* the tag dangles *)
      | Some (req, op) =>
          (let! deleted := on_request req (op_finish p op res) in
           do! modify (λ s, set_ops (if deleted : bool then delete a (px_ops s) else px_ops s)
                              (px_calls s) (px_queue s) s) in
           do! Check ok "ok" in
           ret true) (set_ops (px_ops s) (px_calls s) q s)
      end
  end.

(** [Destroy]: the queue is shut down, and the thread joined: [Next] returns false
    once no RPC is under way and no tag is left. *)
Definition Destroy_Shutdown (s : Proxy) : Proxy :=
  set_life (px_requests s) (px_thread s) true (px_mountpoint s) s.
Definition Destroy_join (s : Proxy) : option Proxy :=
  if decide (px_shutdown s = true ∧ px_calls s = ∅ ∧ px_queue s = []) then
    Some (set_life (px_requests s) false (px_shutdown s) None s)
  else None.

(** ** Interleavings *)

(** A proxy before [Init]. *)
Definition px_new : Proxy :=
  {| px_client := {| heap := ∅; sent := [] |}; px_ops := ∅; px_calls := ∅; px_queue := [];
     px_requests := ∅; px_replies := []; px_thread := false; px_shutdown := false;
     px_mountpoint := None |}.

(** The result of the RPC with the tag [a] comes into the queue. *)
Definition complete_rpc (a : Z) (res : option Response) (s : Proxy) : Proxy :=
  set_ops (px_ops s) (px_calls s ∖ {[a]}) (px_queue s ++ [(a, res)]) s.

(** What a step shows to libfuse and to the namenode. *)
Inductive px_label :=
| Asks (req : Z) (op : FuseOp)
| Completes (a : Z) (res : option Response)
| Internal.

(** libfuse makes each request once; [new] returns an address not in use. *)
Inductive px_does : px_label → Proxy → Proxy → Prop :=
| px_callback req a op s s' :
    px_shutdown s = false → req ∉ px_requests s → px_ops s !! a = None →
    CreateOp req a op s = (Ret tt, s') →
    px_does (Asks req op) s (set_life ({[req]} ∪ px_requests s') (px_thread s') (px_shutdown s')
                               (px_mountpoint s') s')
| px_complete a req op res s :
    a ∈ px_calls s → px_ops s !! a = Some (req, op) → resp_fits op res →
    px_does (Completes a res) s (complete_rpc a res s)
| px_finish p s s' :
    px_thread s = true → heap (px_client s) !! p = None → p ≠ 0 →
    AsyncCompleteRpc_turn p true s = (Ret true, s') →
    px_does Internal s s'
| px_destroy s :
    px_shutdown s = false → px_does Internal s (Destroy_Shutdown s)
| px_join s s' :
    px_thread s = true → Destroy_join s = Some s' → px_does Internal s s'.
Definition px_step (s s' : Proxy) : Prop := ∃ l, px_does l s s'.

(** An operation whose RPC, or whose [Finish], is still to come. *)
Definition pending (s : Proxy) (a : Z) : Prop := a ∈ px_calls s ∨ a ∈ (px_queue s).*1.

(** [readdir] and [releasedir] use the cached pages, and [opendir] the [fuse_file_info] of
    its callback; the others touch the reply only. *)
Definition plain_op `{LibFuse} (op : FuseOp) : Prop :=
  match op with
  | OpReadDir _ _ _ _ | OpRelDir _ => False
  | OpOpenDir _ _ => file_info_kept = true
  | _ => True
  end.

(** What they are answered with at once. *)
Definition local_reply (op : FuseOp) (r : fuse_reply) : Prop :=
  match op with
  | OpReadDir _ _ _ _ => ∃ buf, r = ReplyBuf buf
  | OpRelDir _ => r = ReplyErr 0
  | _ => False
  end.

(** ** Lemmas *)

(** What a computation adds to the replies. *)
Lemma on_request_one {A} req (m : M Client A) s o c r :
  m (px_client s) = (o, c) → sent c = r :: sent (px_client s) →
  on_request req m s = (o, set_client c ((req, r) :: px_replies s) s).
Proof.
  intros E Es. unfold on_request. rewrite E, Es. cbn [length].
  replace (S (length (sent (px_client s))) - length (sent (px_client s)))%nat with 1%nat by lia. done.
Qed.

Lemma on_request_none {A} req (m : M Client A) s o c :
  m (px_client s) = (o, c) → sent c = sent (px_client s) →
  on_request req m s = (o, set_client c (px_replies s) s).
Proof. intros E Es. unfold on_request. by rewrite E, Es, Nat.sub_diag. Qed.

(** A computation that ends in one reply, of which [Q] holds. *)
Definition one_reply {A} (Q : fuse_reply → Prop) (m : M Client A) : Prop :=
  ∀ c a c', m c = (Ret a, c') → ∃ r, sent c' = r :: sent c ∧ Q r.

Lemma one_reply_reply r : one_reply (eq r) (reply r).
Proof. intros c [] c' [= <-]. by exists r. Qed.

Lemma one_reply_bind_Check {A} Q b w (m : M Client A) :
  one_reply Q m → one_reply Q (bind (Check b w) (λ _, m)).
Proof. intros Hm c a c' E. apply bind_Ret_inv in E as ([] & c1 & E1 & E2).
  unfold Check in E1. destruct b; [|done]. injection E1 as <-. by eapply Hm. Qed.

Lemma one_reply_read {A} Q fh (k : CacheDirEntries → M Client A) :
  (∀ e, one_reply Q (k e)) → one_reply Q (bind (read_cache fh) k).
Proof.
  intros Hk c a c' E. apply bind_Ret_inv in E as (e & c1 & E1 & E2).
  unfold read_cache in E1. destruct (heap c !! fh); [|done]. injection E1 as <- <-. by eapply Hk.
Qed.

Lemma reply_page_one fh size e : one_reply (λ r, ∃ buf, r = ReplyBuf buf) (reply_page fh size e).
Proof.
  intros c [] c' E. unfold reply_page in E.
  destruct (PopulateDirEntriesBuffer size e) as [[[e' out]|w|]|]; try done.
  injection E as <-. eexists. split; [reflexivity|]. by eexists.
Qed.

Lemma FuseReadDirOp_Start_effect ctx fh size off c rpc c' :
  FuseReadDirOp_Start ctx fh size off c = (Ret rpc, c') →
  match rpc with
  | None => ∃ r, sent c' = r :: sent c ∧ ∃ buf, r = ReplyBuf buf
  | Some _ => c' = c
  end.
Proof.
  unfold FuseReadDirOp_Start. intros E.
  apply bind_Ret_inv in E as ([] & c1 & E1 & E). unfold Check in E1.
  destruct (negb (fh =? 0)); [|done]. injection E1 as <-.
  apply bind_Ret_inv in E as (e & c1 & E1 & E). unfold read_cache in E1.
  destruct (heap c !! fh); [|done]. injection E1 as <- <-.
  apply bind_Ret_inv in E as ([] & c1 & E1 & E). unfold Check in E1.
  destruct (off =? _); [|done]. injection E1 as <-.
  destruct (_ || _).
  - apply bind_Ret_inv in E as ([] & c1 & E1 & E). injection E as <- <-.
    by apply (reply_page_one _ _ _ _ _ _ E1).
  - by injection E as <- <-.
Qed.

Lemma FuseRelDirOp_Start_one fh : one_reply (eq (ReplyErr 0)) (FuseRelDirOp_Start fh).
Proof.
  apply one_reply_bind_Check. intros c [] c' E.
  apply bind_Ret_inv in E as (e & c1 & E1 & E). unfold read_cache in E1.
  destruct (heap c !! fh); [|done]. injection E1 as <- <-. injection E as <-.
  by exists (ReplyErr 0).
Qed.

(** A callback replies at once, or leaves an operation with an RPC under way. *)
Lemma CreateOp_effect req a op s s' :
  CreateOp req a op s = (Ret tt, s') →
  (∃ r c, local_reply op r ∧ s' = set_client c ((req, r) :: px_replies s) s) ∨
  s' = set_ops (<[a := (req, op)]> (px_ops s)) ({[a]} ∪ px_calls s) (px_queue s) s.
Proof.
  destruct op as [parent name|id|ctx parent name mode|ctx id|ctx fh size off|fh]; cbn [CreateOp].
  1-4: intros [= <-]; by right.
  - intros E. unfold bind in E.
    destruct (FuseReadDirOp_Start ctx fh size off (px_client s)) as [[rpc|w|] c] eqn:Er.
    2,3: unfold on_request in E; rewrite Er in E; discriminate E.
    pose proof (FuseReadDirOp_Start_effect _ _ _ _ _ _ _ Er) as Heff. destruct rpc as [m|].
    + subst c. rewrite (on_request_none _ _ _ _ _ Er eq_refl) in E. injection E as <-. right. by destruct s.
    + destruct Heff as (r & Hr & Hbuf). rewrite (on_request_one _ _ _ _ _ _ Er Hr) in E.
      injection E as <-. left. by exists r, c.
  - intros E. destruct (FuseRelDirOp_Start fh (px_client s)) as [[[]|w|] c] eqn:Er.
    2,3: unfold on_request in E; rewrite Er in E; discriminate E.
    destruct (FuseRelDirOp_Start_one fh _ _ _ Er) as (r & Hr & <-).
    rewrite (on_request_one _ _ _ _ _ _ Er Hr) in E. injection E as <-. left. by exists (ReplyErr 0), c.
Qed.

Lemma finish_with_effect {Req Resp} `{ErrorResp Resp} (error_code : Resp → Z)
    (op : FuseAsyncOp Req Resp) get res (Q : Response → fuse_reply → Prop) c (b : bool) c' :
  (∀ x r, get x = Some r → error_code r = resp_error x ∧ one_reply (Q x) (ao_OnSuccess op r)) →
  finish_with error_code op get res c = (Ret b, c') →
  match res with
  | None => b = false ∧ c' = c
  | Some x => b = (resp_error x =? 0) ∧ ∃ r, sent c' = r :: sent c ∧
      if resp_error x =? 0 then Q x r else r = ReplyErr (default EIO (ao_ToErrno op (resp_error x)))
  end.
Proof.
  intros Hget E. unfold finish_with in E. destruct res as [x|]; [|by injection E as <- <-].
  destruct (get x) as [q|] eqn:Ex; [|done]. destruct (Hget _ _ Ex) as [<- Hone].
  unfold Finish in E. cbn [negb] in E. destruct (error_code q =? 0) eqn:E0; cbn [negb] in E.
  - apply bind_Ret_inv in E as ([] & c1 & E1 & E). injection E as <- <-. split; [done|]. by eapply Hone.
  - injection E as <- <-. split; [done|]. eexists. split; [reflexivity|]. by destruct (ao_ToErrno _ _).
Qed.

Lemma op_finish_effect p op res c (b : bool) c' :
  op_finish p op res c = (Ret b, c') →
  match res with
  | None => b = false ∧ c' = c
  | Some x => b = (resp_error x =? 0) ∧ ∃ r, sent c' = r :: sent c ∧ reply_for op x r
  end.
Proof.
  unfold reply_for. destruct op; cbn [op_finish op_ToErrno]; [..|done];
    intros Ef; refine (finish_with_effect _ _ _ _ (success_reply _) _ _ _ _ Ef); clear Ef; intros [] q [= <-];
    (split; [done|]); cbn [success_reply ao_OnSuccess].
  1-3: apply one_reply_bind_Check; intros c0 a c1 E1;
    destruct (one_reply_reply _ _ _ _ E1) as (rep & Hr & <-); by eexists.
  - intros c0 [] c1 E. cbn [FuseOpenDirOp ao_OnSuccess] in E. unfold FuseOpenDirOp_OnSuccess, use_file_info in E.
    destruct file_info_kept; [|discriminate E]. injection E as <-. eexists. split; [reflexivity|]. by eexists.
  - apply one_reply_bind_Check, one_reply_read. intros e.
    by apply one_reply_bind_Check, one_reply_bind_Check, reply_page_one.
Qed.

(** A turn of the completion thread: one reply and, on success, the operation is
    deleted; nothing at all when the RPC failed. *)
Lemma turn_effect p s s' :
  AsyncCompleteRpc_turn p true s = (Ret true, s') →
  ∃ a res q req op, px_queue s = (a, res) :: q ∧ px_ops s !! a = Some (req, op) ∧
    match res with
    | None => s' = set_ops (px_ops s) (px_calls s) q s
    | Some x => ∃ r c,
        s' = set_ops (if resp_error x =? 0 then delete a (px_ops s) else px_ops s) (px_calls s) q
               (set_client c ((req, r) :: px_replies s) s) ∧ reply_for op x r
    end.
Proof.
  unfold AsyncCompleteRpc_turn. destruct (px_queue s) as [|[a res] q] eqn:Eq; [done|].
  destruct (px_ops s !! a) as [[req op]|] eqn:Eo; [|done]. intros E.
  exists a, res, q, req, op. split; [done|]. split; [done|].
  set (s0 := set_ops (px_ops s) (px_calls s) q s) in *. unfold bind at 1 in E.
  change (px_client s) with (px_client s0).
  destruct (op_finish p op res (px_client s0)) as [[b|w|] c] eqn:Ef.
  2,3: unfold on_request in E; rewrite Ef in E; discriminate E.
  pose proof (op_finish_effect _ _ _ _ _ _ Ef) as Heff. destruct res as [resp|].
  - destruct Heff as (-> & r & Hr & Hans). rewrite (on_request_one _ _ _ _ _ _ Ef Hr) in E.
    injection E as <-. by exists r, c.
  - destruct Heff as [-> ->]. rewrite (on_request_none _ _ _ _ _ Ef eq_refl) in E.
    injection E as <-. by destruct s.
Qed.

(** ** The invariant *)

Record px_inv (s : Proxy) : Prop := {
  inv_calls a : a ∈ px_calls s → is_Some (px_ops s !! a) ∧ a ∉ (px_queue s).*1;
  inv_queue : NoDup (px_queue s).*1;
  inv_tag a res : (a, res) ∈ px_queue s →
    ∃ req op, px_ops s !! a = Some (req, op) ∧ resp_fits op res;
  inv_request a req op : px_ops s !! a = Some (req, op) → req ∈ px_requests s;
  inv_inj a b req op op' :
    px_ops s !! a = Some (req, op) → px_ops s !! b = Some (req, op') → a = b;
  inv_pending a req op : pending s a → px_ops s !! a = Some (req, op) →
    req ∉ (px_replies s).*1;
  inv_once : NoDup (px_replies s).*1;
  inv_replies req : req ∈ (px_replies s).*1 → req ∈ px_requests s;
  inv_accounted req : req ∈ px_requests s →
    req ∈ (px_replies s).*1 ∨ ∃ a op, px_ops s !! a = Some (req, op);
}.

Lemma px_inv_new : px_inv px_new.
Proof. split; cbn; try set_solver; try (intros; by simplify_map_eq); constructor. Qed.

Lemma px_inv_callback req a op s s' :
  req ∉ px_requests s → px_ops s !! a = None → CreateOp req a op s = (Ret tt, s') → px_inv s →
  px_inv (set_life ({[req]} ∪ px_requests s') (px_thread s') (px_shutdown s') (px_mountpoint s') s').
Proof.
  intros Hreq Ha E Hinv. destruct Hinv as [Hc Hqn Hq Hr Hi Hp Ho Hs Hacc].
  assert (req ∉ (px_replies s).*1) as Hnew by (intros ?%Hs; done).
  assert (∀ b op', px_ops s !! b = Some (req, op') → False) as Hfresh by (intros b op' ?%Hr; done).
  assert (∀ res, (a, res) ∉ px_queue s) as Haq.
  { intros res Hin. destruct (Hq _ _ Hin) as (? & ? & E' & _). congruence. }
  assert (a ∉ px_calls s) as Hac by (intros Hin; destruct (Hc _ Hin) as [[? ?] _]; congruence).
  destruct (CreateOp_effect _ _ _ _ _ E) as [(r & c & _ & ->) | ->]; split; unfold pending in *;
    cbn in *.
  - done.
  - done.
  - done.
  - intros b rq op' Hb. apply Hr in Hb. set_solver.
  - done.
  - intros b rq op' Hpend Hb. rewrite not_elem_of_cons. split; [|by eapply Hp].
    intros ->. by eapply Hfresh.
  - by constructor.
  - set_solver.
  - intros rq. rewrite elem_of_union, elem_of_singleton, elem_of_cons. naive_solver.
  - intros b. rewrite elem_of_union, elem_of_singleton. intros [->|Hb].
    + rewrite lookup_insert_eq. split; [done|]. rewrite list_elem_of_fmap. by intros ([? ?] & -> & ?%Haq).
    + destruct (Hc b Hb) as [Hsome Hnq]. split; [|done]. rewrite lookup_insert_ne; [done|]. by intros ->.
  - done.
  - intros b res Hb. destruct (Hq b res Hb) as (rq & op' & Hb' & Hfit). exists rq, op'.
    split; [|done]. rewrite lookup_insert_ne; [done|]. intros ->. by eapply Haq.
  - intros b rq op'. rewrite lookup_insert_Some. intros [(-> & [= -> ->])|(_ & Hb)]; [set_solver|].
    apply Hr in Hb. set_solver.
  - intros b b' rq op1 op2. rewrite !lookup_insert_Some.
    intros [(-> & [= <- <-])|(_ & Hb)] [(-> & [= E1])|(_ & Hb')]; try done.
    + by apply Hfresh in Hb'.
    + subst. by apply Hfresh in Hb.
    + by eapply Hi.
  - intros b rq op' Hpend. rewrite lookup_insert_Some. intros [(-> & [= <- <-])|(Hne & Hb)]; [done|].
    eapply Hp; [|done]. destruct Hpend as [Hpend|?]; [left; set_solver | by right].
  - done.
  - intros rq ?%Hs. set_solver.
  - intros rq. rewrite elem_of_union, elem_of_singleton. intros [->|Hrq].
    + right. exists a, op. by rewrite lookup_insert_eq.
    + destruct (Hacc rq Hrq) as [?|(b & op' & Hb)]; [by left|]. right. exists b, op'.
      rewrite lookup_insert_ne; [done|]. intros ->. congruence.
Qed.

Lemma px_inv_complete a req op res s :
  a ∈ px_calls s → px_ops s !! a = Some (req, op) → resp_fits op res → px_inv s →
  px_inv (complete_rpc a res s).
Proof.
  intros Ha Hop Hfit [Hc Hqn Hq Hr Hi Hp Ho Hs Hacc]. split; unfold pending in *; cbn in *; try done.
  - intros b [Hb Hne]%elem_of_difference. destruct (Hc b Hb) as [? ?]. split; [done|].
    rewrite fmap_app, elem_of_app. set_solver.
  - rewrite fmap_app. apply NoDup_app. split; [done|]. split.
    + intros b Hb Hb'. apply list_elem_of_singleton in Hb' as ->. by apply (Hc a Ha).
    + apply NoDup_singleton.
  - intros b r. rewrite elem_of_app, list_elem_of_singleton. intros [Hb|[= -> ->]]; eauto.
  - intros b rq op' Hpend Hb. eapply Hp; [|done]. rewrite fmap_app, elem_of_app in Hpend.
    destruct Hpend as [Hb'|[Hb'|Hb']]; [left; set_solver | by right |].
    apply list_elem_of_singleton in Hb' as ->. by left.
Qed.

Lemma px_inv_turn p s s' : AsyncCompleteRpc_turn p true s = (Ret true, s') → px_inv s → px_inv s'.
Proof.
  intros E [Hc Hqn Hq Hr Hi Hp Ho Hs Hacc].
  destruct (turn_effect _ _ _ E) as (a & res & q & req & op & Eq & Hop & Heff).
  rewrite Eq in Hc, Hqn, Hq. cbn in Hqn. apply NoDup_cons in Hqn as [Haq Hqn].
  assert (a ∉ px_calls s) as Hac by (intros Hin; apply Hc in Hin as [_ Hin]; set_solver).
  assert (pending s a) as Hpa by (right; rewrite Eq; cbn; set_solver).
  assert (∀ b, b ∈ px_calls s ∨ b ∈ q.*1 → pending s b ∧ b ≠ a) as Hpend.
  { intros b Hb. split; [|intros ->; tauto]. unfold pending. rewrite Eq. cbn. set_solver. }
  destruct res as [x|]; [destruct Heff as (r & c & -> & _)|subst s'].
  - set (ops' := if resp_error x =? 0 then delete a (px_ops s) else px_ops s).
    assert (∀ b x, ops' !! b = Some x → px_ops s !! b = Some x) as Hsub.
    { intros b y. unfold ops'. destruct (_ =? _); [|done]. by rewrite lookup_delete_Some; intros []. }
    assert (∀ b, b ≠ a → ops' !! b = px_ops s !! b) as Hother.
    { intros b Hne. unfold ops'. destruct (_ =? _); [|done]. by rewrite lookup_delete_ne. }
    split; unfold pending; cbn [px_calls px_ops px_queue px_replies px_requests set_ops set_client].
    + intros b Hb. destruct (Hc b Hb) as [? ?]. rewrite Hother by (by apply Hpend; left).
      split; [done|]. set_solver.
    + done.
    + intros b res' Hb. destruct (Hq b res') as (rq & op' & ? & ?); [set_solver|]. exists rq, op'.
      rewrite Hother; [done|]. apply Hpend. right. by apply (list_elem_of_fmap_2 fst _ (b, res')).
    + intros b rq op' ?%Hsub. by eapply Hr.
    + intros b b' rq op1 op2 ?%Hsub ?%Hsub. by eapply Hi.
    + intros b rq op' Hb Hb'%Hsub. destruct (Hpend b Hb) as [Hb1 Hne]. cbn.
      rewrite not_elem_of_cons. split; [|by eapply Hp]. intros ->. by eapply Hne, Hi.
    + cbn. constructor; [|done]. by eapply Hp.
    + cbn. intros rq [->|?]%elem_of_cons; [by eapply Hr | by apply Hs].
    + intros rq Hrq. destruct (Hacc rq Hrq) as [?|(b & op' & Hb)]; [left; set_solver|].
      destruct (decide (b = a)) as [->|Hne].
      * left. rewrite Hop in Hb. injection Hb as <- <-. cbn. set_solver.
      * right. exists b, op'. by rewrite Hother.
  - split; unfold pending; cbn [px_calls px_ops px_queue px_replies px_requests set_ops]; try done.
    + intros b Hb. destruct (Hc b Hb) as [? ?]. split; [done|]. set_solver.
    + intros b res' Hb. apply Hq. set_solver.
    + intros b rq op' Hb Hb'. eapply Hp; [|done]. by apply Hpend.
Qed.

Lemma px_inv_step s s' : px_step s s' → px_inv s → px_inv s'.
Proof.
  intros [l Hstep] Hinv. destruct Hstep as [req a op s s' _ Hreq Ha E|a req op res s Ha Hop Hfit
    |p s s' _ _ _ E|s _|s s' _ E].
  - by eapply px_inv_callback.
  - by eapply px_inv_complete.
  - by eapply px_inv_turn.
  - by destruct Hinv.
  - unfold Destroy_join in E. case_decide; [|done]. injection E as <-. by destruct Hinv.
Qed.

(** A proxy that [Init] has set up, and what it becomes. *)
Definition px_reachable (s : Proxy) : Prop :=
  ∃ resp s0, Init (Some resp) px_new = (Ret tt, s0) ∧ rtc px_step s0 s.

Lemma px_inv_steps s s' : rtc px_step s s' → px_inv s → px_inv s'.
Proof. induction 1 as [|s s1 s2 Hs _ IH]; [done|]. intros Hinv. by eapply IH, px_inv_step. Qed.

Lemma px_inv_reachable s : px_reachable s → px_inv s.
Proof.
  intros (resp & s0 & E & Hs). eapply px_inv_steps; [exact Hs|].
  unfold Init, bind, modify, Check in E. injection E as <-.
  pose proof px_inv_new as Hinv. by destruct Hinv.
Qed.

(** *** Operations nobody will finish *)

(** An operation that is not pending stays as it is, for ever: nothing refers to it. *)
Definition abandoned (s : Proxy) (a req : Z) (op : FuseOp) : Prop :=
  px_ops s !! a = Some (req, op) ∧ ¬ pending s a.

Lemma abandoned_step s s' a req op :
  px_step s s' → px_inv s → abandoned s a req op →
  abandoned s' a req op ∧ (req ∉ (px_replies s).*1 → req ∉ (px_replies s').*1).
Proof.
  intros [l Hstep] Hinv [Hop Hnp]. unfold abandoned, pending in *.
  assert (req ∈ px_requests s) as Hreq by (by eapply inv_request).
  destruct Hstep as [rq b op' s s' _ Hrq Hb E|b rq op' res s Hb Hop' Hfit|p s s' _ _ _ E|s _|s s' _ E].
  - assert (a ≠ b) as Hne by congruence.
    destruct (CreateOp_effect _ _ _ _ _ E) as [(r & c & _ & ->) | ->]; cbn.
    + split; [done|]. rewrite not_elem_of_cons. intros ?. split; [congruence|done].
    + rewrite lookup_insert_ne by done. split; [|done]. split; [done|]. set_solver.
  - cbn. split; [|done]. split; [done|]. rewrite fmap_app. set_solver.
  - destruct (turn_effect _ _ _ E) as (b & res & q & rq & op' & Eq & Hb & Heff).
    rewrite Eq in Hnp. cbn in Hnp.
    assert (a ≠ b) as Hne by set_solver.
    assert (req ≠ rq) as Hne' by (intros ->; by eapply Hne, (inv_inj s)).
    destruct res as [x|]; [destruct Heff as (r & c & -> & _)|subst s']; cbn.
    + split.
      * split; [destruct (_ =? _); [by rewrite lookup_delete_ne|done]|]. set_solver.
      * by rewrite not_elem_of_cons.
    + split; [|done]. split; [done|]. set_solver.
  - done.
  - unfold Destroy_join in E. case_decide; [|done]. by injection E as <-.
Qed.

Lemma abandoned_forever s s' a req op :
  rtc px_step s s' → px_inv s → abandoned s a req op →
  abandoned s' a req op ∧ (req ∉ (px_replies s).*1 → req ∉ (px_replies s').*1).
Proof.
  induction 1 as [|s s1 s2 Hs _ IH]; [done|]. intros Hinv Hab.
  destruct (abandoned_step _ _ _ _ _ Hs Hinv Hab) as [Hab1 Hr1].
  destruct (IH (px_inv_step _ _ Hs Hinv) Hab1) as [Hab2 Hr2]. auto.
Qed.

(** *** Progress *)

Lemma finish_with_returns {Req Resp} `{ErrorResp Resp} (error_code : Resp → Z)
    (op : FuseAsyncOp Req Resp) get res c :
  (∀ x, res = Some x → is_Some (get x)) →
  (∀ r c, error_code r = 0 → ∃ c', ao_OnSuccess op r c = (Ret tt, c')) →
  ∃ b c', finish_with error_code op get res c = (Ret b, c').
Proof.
  intros Hget Hok. unfold finish_with. destruct res as [x|]; [|by exists false, c].
  destruct (Hget x eq_refl) as [r ->]. unfold Finish. cbn [negb].
  destruct (Z.eqb_spec (error_code r) 0) as [E0|E0]; cbn [negb].
  - destruct (Hok r c E0) as [c' E]. exists true, c'. by erewrite bind_Ret by exact E.
  - eexists _, _. reflexivity.
Qed.

Lemma op_finish_returns p op res c :
  plain_op op → resp_fits op res → ∃ b c', op_finish p op res c = (Ret b, c').
Proof.
  intros Hop Hfit.
  destruct op; try done; cbn [op_finish]; apply finish_with_returns;
    try (intros x ->; exact Hfit); intros r c0 E0;
    [.. | eexists; cbn; unfold FuseOpenDirOp_OnSuccess, use_file_info; cbn in Hop; by rewrite Hop].
  all: eexists; cbn [ao_OnSuccess FuseLookupOp FuseGetAttrOp FuseMkdirOp];
    unfold FuseLookupOp_OnSuccess, FuseGetAttrOp_OnSuccess, FuseMkdirOp_OnSuccess;
    rewrite E0; reflexivity.
Qed.

(** The tags in the queue, and the answers under way, belong to such operations. *)
Definition plain_work (s : Proxy) : Prop :=
  ∀ a req op, pending s a → px_ops s !! a = Some (req, op) → plain_op op.

Lemma turn_returns s a res q :
  px_inv s → plain_work s → px_queue s = (a, res) :: q →
  ∃ p s', heap (px_client s) !! p = None ∧ p ≠ 0 ∧ AsyncCompleteRpc_turn p true s = (Ret true, s').
Proof.
  intros Hinv Hplain Eq.
  destruct (inv_tag s Hinv a res) as (req & op & Hop & Hfit); [rewrite Eq; set_solver|].
  assert (plain_op op) as Hpl by (apply (Hplain a req op); [right; rewrite Eq; set_solver | exact Hop]).
  set (p := fresh ({[0]} ∪ dom (heap (px_client s)) : gset Z)).
  pose proof (is_fresh ({[0]} ∪ dom (heap (px_client s)) : gset Z)) as Hp. fold p in Hp.
  exists p. unfold AsyncCompleteRpc_turn. rewrite Eq, Hop.
  destruct (op_finish_returns p op res (px_client s) Hpl Hfit) as (b & c & Ef).
  unfold bind at 1, on_request. cbn [px_client set_ops]. rewrite Ef. eexists.
  split; [apply not_elem_of_dom; set_solver|]. split; [set_solver|]. reflexivity.
Qed.

(** The thread empties the queue. *)
Lemma queue_drains s :
  px_inv s → plain_work s → px_thread s = true →
  ∃ s', rtc (px_does Internal) s s' ∧ px_queue s' = [] ∧ px_calls s' = px_calls s ∧
    px_thread s' = true ∧ px_shutdown s' = px_shutdown s ∧ px_requests s' = px_requests s ∧
    (∀ req, req ∈ (px_replies s).*1 → req ∈ (px_replies s').*1) ∧
    (∀ a x req op, (a, Some x) ∈ px_queue s → px_ops s !! a = Some (req, op) →
       req ∈ (px_replies s').*1).
Proof.
  remember (px_queue s) as q eqn:Eq. symmetry in Eq. revert s Eq.
  induction q as [|[a res] q IH]; intros s Eq Hinv Hplain Hthread.
  - exists s. repeat split; try done. set_solver.
  - destruct (turn_returns s a res q Hinv Hplain Eq) as (p & s1 & Hp & Hp0 & E).
    assert (px_does Internal s s1) as Hstep by (by eapply px_finish).
    assert (px_inv s1) as Hinv1 by (by eapply px_inv_step; [eexists|]).
    destruct (turn_effect _ _ _ E) as (a' & res' & q' & req & op & Eq' & Hop & Heff).
    rewrite Eq in Eq'. injection Eq' as <- <- <-.
    pose proof (inv_queue s Hinv) as Hnd. rewrite Eq in Hnd. apply NoDup_cons in Hnd as [Haq _].
    assert (px_queue s1 = q ∧ px_calls s1 = px_calls s ∧ px_thread s1 = px_thread s ∧
            px_shutdown s1 = px_shutdown s ∧ px_requests s1 = px_requests s ∧
            (∀ b x, px_ops s1 !! b = Some x → px_ops s !! b = Some x) ∧
            (∀ b, b ≠ a → px_ops s1 !! b = px_ops s !! b) ∧
            (∀ rq, rq ∈ (px_replies s).*1 → rq ∈ (px_replies s1).*1) ∧
            (∀ x, res = Some x → req ∈ (px_replies s1).*1))
      as (Eq1 & Ec1 & Et1 & Es1 & Er1 & Hsub & Hother & Hrep & Hnew).
    { destruct res as [x|]; [destruct Heff as (r & c & -> & _)|subst s1]; cbn.
      - do 5 (split; [done|]). split; [|split; [|split]].
        + intros b y. destruct (_ =? _); [|done]. by rewrite lookup_delete_Some; intros [].
        + intros b Hne. destruct (_ =? _); [|done]. by rewrite lookup_delete_ne.
        + intros rq Hrq. apply elem_of_cons. by right.
        + intros y _. apply elem_of_cons. by left.
      - repeat split; done. }
    assert (plain_work s1) as Hplain1.
    { intros b rq op' Hb Hb'. apply (Hplain b rq op'); [|by apply Hsub].
      unfold pending in *. rewrite Eq, Ec1, Eq1 in *. set_solver. }
    destruct (IH s1 Eq1 Hinv1 Hplain1) as (s' & Hs & Hq & Hc & Ht & Hsh & Hrq & Hrep' & Hall);
      [congruence|].
    exists s'. split; [by eapply rtc_l|]. repeat split; try done; try congruence; [by auto|].
    intros b x rq op'. rewrite elem_of_cons. intros [[= -> <-]|Hb] Hb'.
    + rewrite Hop in Hb'. injection Hb' as -> ->. by eapply Hrep', Hnew.
    + eapply Hall; [exact Hb|]. rewrite Hother; [exact Hb'|]. intros ->. apply Haq.
      by apply (list_elem_of_fmap_2 fst _ (a, Some x)).
Qed.

(** gRPC completes the RPCs under way, each with its result. *)
Lemma calls_complete (results : Z → option Response) s :
  px_inv s →
  (∀ a req op, a ∈ px_calls s → px_ops s !! a = Some (req, op) → resp_fits op (results a)) →
  ∃ q, rtc px_step s (set_ops (px_ops s) ∅ (px_queue s ++ q) s) ∧
    ∀ x, x ∈ q ↔ x.1 ∈ px_calls s ∧ x.2 = results x.1.
Proof.
  remember (size (px_calls s)) as n eqn:En. revert s En.
  induction n as [|n IH]; intros s En Hinv Hfit.
  - symmetry in En. apply size_empty_inv in En. apply leibniz_equiv in En. exists [].
    split; [|rewrite En; set_solver]. rewrite app_nil_r, <- En. by destruct s.
  - destruct (set_choose_or_empty (px_calls s)) as [[a Ha]|E]; [|by rewrite E, size_empty in En].
    destruct (inv_calls s Hinv a Ha) as [[[req op] Hop] _].
    set (s1 := complete_rpc a (results a) s).
    assert (px_step s s1) as Hstep by (eexists; eapply px_complete; eauto).
    destruct (IH s1) as (q & Hs & Hq).
    + cbn. rewrite size_difference by set_solver. rewrite size_singleton. lia.
    + by eapply px_inv_step.
    + intros b rq op' [Hb _]%elem_of_difference. by apply Hfit.
    + exists ((a, results a) :: q). cbn in Hs, Hq. split.
      * eapply rtc_l; [exact Hstep|]. rewrite <- app_assoc in Hs. exact Hs.
      * intros [b res]. rewrite elem_of_cons, Hq, elem_of_difference, elem_of_singleton. cbn.
        destruct (decide (b = a)) as [->|Hne]; naive_solver.
Qed.

(** ** Theorems *)

(** C26: a request of libfuse's is answered at most once,
    whatever the order in which the callbacks, gRPC and the completion thread run: only
    requests that were made are answered; an operation whose RPC is under way or whose
    tag is queued still exists, serves one request of its own and has not answered it;
    and a request not yet answered has its operation. *)
Theorem every_request_answered_at_most_once s :
  px_reachable s →
  NoDup (px_replies s).*1 ∧
  (∀ req, req ∈ (px_replies s).*1 → req ∈ px_requests s) ∧
  (∀ a, pending s a → ∃ req op, px_ops s !! a = Some (req, op) ∧ req ∉ (px_replies s).*1 ∧
     ∀ b op', px_ops s !! b = Some (req, op') → b = a) ∧
  (∀ req, req ∈ px_requests s → req ∉ (px_replies s).*1 → ∃ a op, px_ops s !! a = Some (req, op)).
Proof.
  intros Hs%px_inv_reachable. split; [by apply inv_once|]. split; [by apply inv_replies|]. split.
  - intros a Ha. assert (∃ req op, px_ops s !! a = Some (req, op)) as (req & op & Hop).
    { destruct Ha as [Ha|Ha].
      - destruct (inv_calls s Hs a Ha) as [[[req op] Hop] _]. eauto.
      - apply list_elem_of_fmap in Ha as ([b res] & -> & Hb).
        destruct (inv_tag s Hs b res Hb) as (req & op & Hop & _). eauto. }
    exists req, op. split; [done|]. split; [by eapply inv_pending|]. intros b op' Hb. by eapply inv_inj.
  - intros req Hreq Hno. by destruct (inv_accounted s Hs req Hreq).
Qed.

(** C27: a turn of the completion thread with a response answers the
    operation's request, on success with what its kind of operation gives the kernel,
    otherwise with the errno its error code stands for.  On success the operation is
    deleted; after an error it stays allocated for ever.  When the RPC failed there is
    no answer, then or ever, and the operation stays allocated too. *)
Theorem completion_replies_or_leaks s p s' :
  px_reachable s → px_thread s = true → heap (px_client s) !! p = None → p ≠ 0 →
  AsyncCompleteRpc_turn p true s = (Ret true, s') →
  ∃ a res q req op, px_queue s = (a, res) :: q ∧ px_ops s !! a = Some (req, op) ∧
    match res with
    | Some x => ∃ r, px_replies s' = (req, r) :: px_replies s ∧ reply_for op x r ∧
        if resp_error x =? 0 then px_ops s' = delete a (px_ops s)
        else ∀ s'', rtc px_step s' s'' → abandoned s'' a req op
    | None => px_replies s' = px_replies s ∧
        ∀ s'', rtc px_step s' s'' → abandoned s'' a req op ∧ req ∉ (px_replies s'').*1
    end.
Proof.
  intros Hs%px_inv_reachable Ht Hp Hp0 E.
  assert (px_inv s') as Hs' by (by eapply px_inv_step; [eexists; eapply px_finish|]).
  destruct (turn_effect _ _ _ E) as (a & res & q & req & op & Eq & Hop & Heff).
  exists a, res, q, req, op. split; [done|]. split; [done|].
  assert (a ∉ px_calls s ∧ a ∉ q.*1) as [Hac Haq].
  { pose proof (inv_queue s Hs) as Hnd. rewrite Eq in Hnd. apply NoDup_cons in Hnd as [Haq _].
    split; [|done]. intros Ha. apply (inv_calls s Hs) in Ha as [_ Ha]. rewrite Eq in Ha. set_solver. }
  destruct res as [x|].
  - destruct Heff as (r & c & -> & Hans). exists r. split; [done|]. split; [done|].
    destruct (resp_error x =? 0) eqn:E0; [done|]. intros s'' Hs''.
    eapply abandoned_forever; [exact Hs'' | exact Hs' |]. split; [done|]. unfold pending. cbn. tauto.
  - subst s'. split; [done|]. intros s'' Hs''.
    destruct (abandoned_forever _ s'' a req op Hs'' Hs') as [Hab Hr].
    + split; [done|]. unfold pending. cbn. tauto.
    + split; [done|]. apply Hr. cbn. eapply inv_pending; [exact Hs | | exact Hop].
      right. rewrite Eq. cbn. set_solver.
Qed.

End proxy.

(** ** At concrete inputs *)

Section demo.
#[local] Existing Instance demo_fuse.

Definition demo_mountpoint : StatResponse :=
  {| sr_error_code := 0; sr_error_msg := ""; sr_id := 1; sr_stat := None |}.
Definition demo_not_found : StatResponse :=
  {| sr_error_code := StatusCode_to_int kNotFoundError; sr_error_msg := ""; sr_id := 0; sr_stat := None |}.

Definition after_callback (req a : Z) (op : FuseOp) (s : Proxy) : Proxy :=
  let s' := (CreateOp req a op s).2 in
  set_life ({[req]} ∪ px_requests s') (px_thread s') (px_shutdown s') (px_mountpoint s') s'.
Definition after_turn (p : Z) (s : Proxy) : Proxy := (AsyncCompleteRpc_turn demo_opts p true s).2.

(** A lookup (request 1) and a getattr (request 2); the lookup's answer is an error, the
    getattr's RPC fails. *)
Definition demo_px0 : Proxy := (Init (Some demo_mountpoint) px_new).2.
Definition demo_px2 : Proxy :=
  after_callback 2 101 (OpGetAttr 7) (after_callback 1 100 (OpLookup 1 "x") demo_px0).
Definition demo_px3 : Proxy := complete_rpc 100 (Some (RespLookup demo_not_found)) demo_px2.
Definition demo_px4 : Proxy := after_turn 8 demo_px3.
Definition demo_px5 : Proxy := complete_rpc 101 None demo_px4.


Lemma demo_px2_reach : px_reachable demo_opts demo_px2.
Proof.
  exists demo_mountpoint, demo_px0. split; [reflexivity|].
  eapply rtc_l; [|eapply rtc_l; [|apply rtc_refl]].
  - eexists. apply (px_callback demo_opts 1 100 (OpLookup 1 "x")); [done | decide_closed | done | reflexivity].
  - eexists. apply (px_callback demo_opts 2 101 (OpGetAttr 7)); [done | decide_closed | done | reflexivity].
Qed.

Lemma demo_px4_reach : px_reachable demo_opts demo_px4.
Proof.
  destruct demo_px2_reach as (resp & s0 & E & Hs). exists resp, s0. split; [exact E|].
  etrans; [exact Hs|]. eapply rtc_l; [|eapply rtc_l; [|apply rtc_refl]].
  - eexists. apply (px_complete demo_opts 100 1 (OpLookup 1 "x") (Some (RespLookup demo_not_found)));
      [decide_closed | done | by eexists].
  - eexists. apply (px_finish demo_opts 8); done.
Qed.

Lemma demo_px5_reach : px_reachable demo_opts demo_px5.
Proof.
  destruct demo_px4_reach as (resp & s0 & E & Hs). exists resp, s0. split; [exact E|].
  eapply rtc_r; [exact Hs|].
  eexists. apply (px_complete demo_opts 101 2 (OpGetAttr 7)); [decide_closed | done | done].
Qed.

Lemma every_request_answered_at_most_once_witness :
  NoDup (px_replies demo_px4).*1 ∧ (px_replies demo_px4).*1 = [1] ∧
  ∃ a op, px_ops demo_px4 !! a = Some (2, op).
Proof.
  destruct (every_request_answered_at_most_once demo_opts demo_px4 demo_px4_reach) as (Hnd & _ & _ & Hreq).
  split; [exact Hnd|]. split; [vm_compute; reflexivity|]. apply Hreq; decide_closed.
Defined.

Lemma completion_replies_or_leaks_witness :
  px_replies (after_turn 9 demo_px5) = px_replies demo_px5 ∧
  ∀ s'', rtc (px_step demo_opts) (after_turn 9 demo_px5) s'' → 2 ∉ (px_replies s'').*1.
Proof.
  destruct (completion_replies_or_leaks demo_opts demo_px5 9 (after_turn 9 demo_px5) demo_px5_reach)
    as (a & res & q & req & op & Eq & Hop & Hres); [done | done | done | reflexivity |].
  assert (px_queue demo_px5 = [(101, None)]) as Eq' by (vm_compute; reflexivity).
  assert (px_ops demo_px5 !! 101 = Some (2, OpGetAttr 7)) as Hop' by (vm_compute; reflexivity).
  rewrite Eq' in Eq. injection Eq as <- <- <-. rewrite Hop' in Hop. injection Hop as <- <-.
  destruct Hres as [Hrep Hlater]. split; [exact Hrep|]. intros s'' Hs. by apply Hlater.
Defined.

End demo.
