(* ===== verification/Handles.v ===== *)
(** The handles of open directories: the [CacheDirEntries] that
    src/client/fuse/operation/fuse_open_dir_op.cc allocates, fuse_read_dir_op.cc reads
    through [file_info->fh] and fuse_rel_dir_op.cc deletes.  [Kernel] puts what the
    kernel believes to be open beside the proxy; [k_step] is a step of the proxy under
    the kernel's promise to use open handles only, and to release a handle when no read
    of it is under way.  The memory of a handle is then live exactly as long as the
    kernel has the handle.  A handle is handed out through the [fuse_file_info] of the
    callback that opened the directory; [stale_file_info] says when that is gone. *)

From Stdlib Require Import ZArith Lia Ascii String.
From stdpp Require Import prelude strings gmap sets relations.
From S2P Require Import Prelude Common Types IdGen KVStoreBase RocksDB Conflict Serde Tables Proto.
From S2P Require Import Service Fuse Proxy.

#[local] Open Scope Z_scope.

(** ** Computations that do not touch freed memory *)

(** [Q] holds after [m] returns; [m] may throw, and never dereferences a pointer that
    does not point to anything. *)
Definition safe {S A} (m : M S A) (s : S) (Q : A → S → Prop) : Prop :=
  match m s with
  | (Ret a, s') => Q a s'
  | (Throw _, _) => True
  | (Undef, _) => False
  end.

Lemma safe_ret {S A} (a : A) (s : S) (Q : A → S → Prop) : Q a s → safe (ret a) s Q.
Proof. done. Qed.

Lemma safe_bind {S A B} (m : M S A) (k : A → M S B) s (Q : B → S → Prop) :
  safe m s (λ a s', safe (k a) s' Q) → safe (bind m k) s Q.
Proof. unfold safe, bind. by destruct (m s) as [[a|w|] s']. Qed.

Lemma safe_Check {S} b w (s : S) (Q : unit → S → Prop) :
  (b = true → Q tt s) → safe (Check b w) s Q.
Proof. unfold safe, Check. destruct b; simpl; auto. Qed.

Lemma safe_weaken {S A} (m : M S A) s (Q Q' : A → S → Prop) :
  safe m s Q → (∀ a s', Q a s' → Q' a s') → safe m s Q'.
Proof. unfold safe. destruct (m s) as [[a|w|] s']; auto. Qed.

Lemma safe_not_Undef {S A} (m : M S A) s Q : safe m s Q → (m s).1 ≠ Undef.
Proof. unfold safe. by destruct (m s) as [[a|w|] s']. Qed.

(** ** The memory of the handles *)

(** The position is within the cached page. *)
Definition cache_wf (c : CacheDirEntries) : Prop :=
  start_off c ≤ end_off c ≤ start_off c + Z.of_nat (length (entries c)) ∧
  Z.of_nat (length (entries c)) < 2 ^ 63.
Definition heap_wf (h : gmap Z CacheDirEntries) : Prop := map_Forall (λ _, cache_wf) h.

(** The handles some replies open. *)
Definition opened (rs : list fuse_reply) : gset Z :=
  list_to_set (omap (λ r, match r with ReplyOpen p => Some p | _ => None end) rs).

(** What a computation of the client does to the handles: it opens those it replies. *)
Definition extends (cl cl' : Client) : Prop :=
  heap_wf (heap cl') ∧
  ∃ new, sent cl' = new ++ sent cl ∧ dom (heap cl') = opened new ∪ dom (heap cl).

Section handles.
Context `{LibFuse}.

Lemma Populate_loop_returns c room out fuel :
  cache_wf c → start_off c + Z.of_nat (length (entries c)) - end_off c ≤ Z.of_nat fuel →
  ∃ c' room' out', Populate_loop fuel c room out = Some (Ret (c', room', out')) ∧
    cache_wf c' ∧ start_off c' = start_off c ∧ entries c' = entries c ∧ has_more c' = has_more c.
Proof.
  revert c room out. induction fuel as [|fuel IH]; intros c room out Hc Hfuel; cbn [Populate_loop];
    pose proof Hc as [Hse Hlen]; rewrite u64_small by (unfold is_u64; lia).
  - destruct (Z.ltb_spec (end_off c - start_off c) (Z.of_nat (length (entries c)))); [lia|].
    by do 3 eexists.
  - destruct (Z.ltb_spec (end_off c - start_off c) (Z.of_nat (length (entries c)))); [|by do 3 eexists].
    destruct (lookup_lt_is_Some_2 (entries c) (Z.to_nat (end_off c - start_off c))) as [e ->]; [lia|].
    destruct (fuse_add_direntry _ _ _ _ _) as [n b]. destruct (n >? room); [by do 3 eexists|].
    apply (IH (set_end_off (end_off c + 1) c)); unfold cache_wf; cbn; lia.
Qed.

Lemma Populate_returns size c :
  cache_wf c → ∃ c' out, PopulateDirEntriesBuffer size c = Some (Ret (c', out)) ∧ cache_wf c'.
Proof.
  intros Hc. unfold PopulateDirEntriesBuffer.
  destruct (Populate_loop_returns c size "" (length (entries c)) Hc) as (c' & r & out & -> & Hc' & _).
  { destruct Hc. lia. }
  do 2 eexists. split; [done|]. unfold Populate_done. case_match; [|done].
  unfold cache_wf. cbn. lia.
Qed.

Lemma extends_refl cl : heap_wf (heap cl) → extends cl cl.
Proof. intros Hh. split; [done|]. exists []. split; [done|]. unfold opened. set_solver. Qed.

Lemma safe_read_cache fh (cl : Client) Q :
  fh ∈ dom (heap cl) → (∀ c, heap cl !! fh = Some c → Q c cl) → safe (read_cache fh) cl Q.
Proof. intros [c Hc]%elem_of_dom HQ. unfold safe, read_cache. rewrite Hc. auto. Qed.

(** A page is written back to the handle it came from. *)
Lemma reply_page_safe fh size c (cl : Client) :
  heap_wf (heap cl) → fh ∈ dom (heap cl) → cache_wf c →
  safe (reply_page fh size c) cl (λ _, extends cl).
Proof.
  intros Hh Hfh Hc. destruct (Populate_returns size c Hc) as (c' & out & E & Hc').
  unfold reply_page. rewrite E. cbn. split; [by apply map_Forall_insert_2|].
  exists [ReplyBuf out]. split; [done|]. cbn [heap]. rewrite dom_insert_L. unfold opened. cbn. set_solver.
Qed.

Lemma FuseReadDirOp_Start_safe ctx fh size off (cl : Client) :
  heap_wf (heap cl) → fh ∈ dom (heap cl) →
  safe (FuseReadDirOp_Start ctx fh size off) cl (λ _, extends cl).
Proof.
  intros Hh Hfh. unfold FuseReadDirOp_Start. apply safe_bind, safe_Check. intros _.
  apply safe_bind, safe_read_cache; [done|]. intros c Hc.
  apply safe_bind, safe_Check. intros _. destruct (_ || _).
  - apply safe_bind. apply (safe_weaken _ _ (λ _, extends cl)); [|done].
    apply reply_page_safe; [done..|]. by eapply Hh.
  - by apply safe_ret, extends_refl.
Qed.

Lemma FuseRelDirOp_Start_safe fh (cl : Client) :
  heap_wf (heap cl) → fh ∈ dom (heap cl) →
  safe (FuseRelDirOp_Start fh) cl (λ _ cl', heap_wf (heap cl') ∧
    sent cl' = ReplyErr 0 :: sent cl ∧ dom (heap cl') = dom (heap cl) ∖ {[fh]}).
Proof.
  intros Hh Hfh. unfold FuseRelDirOp_Start. apply safe_bind, safe_Check. intros _.
  apply safe_bind, safe_read_cache; [done|]. intros c Hc. cbn.
  split; [by apply map_Forall_delete|]. split; [done|]. by rewrite dom_delete_L.
Qed.

(** *** [Finish] *)

Definition resp_sized (res : option Response) : Prop :=
  match res with
  | Some (RespListDir r) => Z.of_nat (length (lr_ents r)) < 2 ^ 62
  | _ => True
  end.

Lemma extends_reply cl r :
  heap_wf (heap cl) → opened [r] = ∅ →
  extends cl {| heap := heap cl; sent := r :: sent cl |}.
Proof. intros Hh Hr. split; [done|]. exists [r]. split; [done|]. cbn [heap]. rewrite Hr. set_solver. Qed.

Lemma finish_with_safe {Req Resp} `{ErrorResp Resp} (error_code : Resp → Z)
    (op : FuseAsyncOp Req Resp) get res (cl : Client) :
  heap_wf (heap cl) → (∀ x, res = Some x → is_Some (get x)) →
  (∀ x r, res = Some x → get x = Some r → safe (ao_OnSuccess op r) cl (λ _, extends cl)) →
  safe (finish_with error_code op get res) cl (λ _, extends cl).
Proof.
  intros Hh Hget Hok. unfold finish_with. destruct res as [x|].
  - destruct (Hget x eq_refl) as [r Er]. rewrite Er. unfold Finish. cbn [negb].
    destruct (negb _).
    + by apply extends_reply.
    + apply safe_bind. apply (safe_weaken _ _ (λ _, extends cl)); [by eapply Hok|done].
  - by apply extends_refl.
Qed.

Lemma FuseOpenDirOp_OnSuccess_safe p r (cl : Client) :
  file_info_kept = true → heap_wf (heap cl) → Z.of_nat (length (lr_ents r)) < 2 ^ 62 →
  safe (FuseOpenDirOp_OnSuccess p r) cl (λ _, extends cl).
Proof.
  intros Hkept Hh Hr. unfold safe. rewrite FuseOpenDirOp_OnSuccess_eval by done. split; cbn.
  - apply map_Forall_insert_2; [|done]. unfold cache_wf. cbn. lia.
  - exists [ReplyOpen p]. split; [done|]. rewrite dom_insert_L. unfold opened. cbn. set_solver.
Qed.

Lemma FuseReadDirOp_OnSuccess_safe fh size r (cl : Client) :
  heap_wf (heap cl) → fh ∈ dom (heap cl) → Z.of_nat (length (lr_ents r)) < 2 ^ 62 →
  safe (FuseReadDirOp_OnSuccess fh size r) cl (λ _, extends cl).
Proof.
  intros Hh Hfh Hr. unfold FuseReadDirOp_OnSuccess. apply safe_bind, safe_Check. intros _.
  apply safe_bind, safe_read_cache; [done|]. intros c Hc.
  apply safe_bind, safe_Check. intros He%Z.eqb_eq. apply safe_bind, safe_Check. intros _.
  apply reply_page_safe; [done..|]. unfold cache_wf. cbn. lia.
Qed.

(** The operation would write its handle through a [fuse_file_info] that is gone. *)
Definition stale_open (op : FuseOp) (res : option Response) : Prop :=
  file_info_kept = false ∧
  ∃ ctx id r, op = OpOpenDir ctx id ∧ res = Some (RespListDir r) ∧ lr_error_code r = 0.

Lemma op_finish_stale opts p op res (cl : Client) :
  stale_open op res → (op_finish opts p op res cl).1 = Undef.
Proof.
  intros (Hk & ctx & id & r & -> & -> & Hr). cbn. unfold Finish. rewrite Hr. cbn.
  unfold bind at 1, FuseOpenDirOp_OnSuccess, use_file_info. by rewrite Hk.
Qed.

Lemma op_finish_safe opts p op res (cl : Client) :
  heap_wf (heap cl) → resp_fits op res → resp_sized res →
  match op with
  | OpReadDir _ fh _ _ => fh ∈ dom (heap cl)
  | OpRelDir _ => False
  | _ => True
  end →
  stale_open op res ∨ safe (op_finish opts p op res) cl (λ _, extends cl).
Proof.
  intros Hh Hfit Hsz Hop. destruct op as [| | |ctx id| |]; [right..| |right|done]; cbn [op_finish].
  4: destruct file_info_kept eqn:Hk; [right; cbn [op_finish]|].
  all: try ((apply finish_with_safe; [done| |]);
    try (intros x ->; exact Hfit); intros [q|q|q|q|q] q' -> [= ->]).
  1-3: apply safe_bind, safe_Check; intros _; by apply extends_reply.
  - by apply FuseOpenDirOp_OnSuccess_safe.
  - destruct res as [[r|r|r|r|r]|]; try (by destruct Hfit).
    + destruct (decide (lr_error_code r = 0)) as [Hr|Hr].
      * left. split; [done|]. by exists ctx, id, r.
      * right. unfold safe. cbn. unfold Finish. apply Z.eqb_neq in Hr. rewrite Hr. cbn. by apply extends_reply.
    + right. by apply extends_refl.
  - by apply FuseReadDirOp_OnSuccess_safe.
Qed.

(** ** The kernel beside the proxy *)

Context (opts : FuseOptions).

(** What the kernel holds open. *)
Record Kernel := { k_proxy : Proxy; k_open : gset Z }.

(** A read of [fh] is under way. *)
Definition busy (s : Proxy) (fh : Z) : Prop :=
  ∃ a req ctx size off, Proxy.pending s a ∧ px_ops s !! a = Some (req, OpReadDir ctx fh size off).

(** The kernel reads and releases what is open, and releases nothing that is being
    read; a message fits in memory. *)
Definition kernel_ok (k : Kernel) (l : px_label) : Prop :=
  match l with
  | Asks _ (OpReadDir _ fh _ _) => fh ∈ k_open k
  | Asks _ (OpRelDir fh) => fh ∈ k_open k ∧ ¬ busy (k_proxy k) fh
  | Completes _ res => resp_sized res
  | _ => True
  end.
Definition closed (l : px_label) : gset Z :=
  match l with Asks _ (OpRelDir fh) => {[fh]} | _ => ∅ end.

(** A handle is open from the reply that carries it to the call that releases it. *)
Inductive k_step : Kernel → Kernel → Prop :=
| k_does l k s' new :
    px_does opts l (k_proxy k) s' → kernel_ok k l →
    px_replies s' = new ++ px_replies (k_proxy k) →
    k_step k {| k_proxy := s'; k_open := (opened new.*2 ∪ k_open k) ∖ closed l |}.

Definition op_handle (h : gset Z) (op : FuseOp) : Prop :=
  match op with OpReadDir _ fh _ _ | OpRelDir fh => fh ∈ h | _ => True end.

(** *** What a step of the proxy does to the handles *)

Lemma on_request_safe {A} req (m : M Client A) s :
  safe m (px_client s) (λ _, extends (px_client s)) →
  safe (on_request req m) s (λ _ s', ∃ c new,
    heap_wf (heap c) ∧ dom (heap c) = opened new.*2 ∪ dom (heap (px_client s)) ∧
    s' = set_client c (new ++ px_replies s) s).
Proof.
  unfold safe, on_request. destruct (m (px_client s)) as [[a|w|] c]; [|done..].
  intros (Hh & new & Hs & Hd). exists c, ((λ r, (req, r)) <$> new). split; [done|]. split.
  - by rewrite <- list_fmap_compose, list_fmap_id.
  - by rewrite Hs, length_app, Nat.add_sub, take_app_length.
Qed.

Lemma CreateOp_safe req a op s :
  heap_wf (heap (px_client s)) → op_handle (dom (heap (px_client s))) op →
  safe (CreateOp req a op) s (λ _ s', heap_wf (heap (px_client s')) ∧
    ∃ new, px_replies s' = new ++ px_replies s ∧
      dom (heap (px_client s')) = (opened new.*2 ∪ dom (heap (px_client s))) ∖ closed (Asks req op) ∧
      px_queue s' = px_queue s ∧
      (px_ops s' = px_ops s ∧ px_calls s' = px_calls s ∨
       (∀ fh, op ≠ OpRelDir fh) ∧ px_ops s' = <[a := (req, op)]> (px_ops s) ∧
       px_calls s' = {[a]} ∪ px_calls s)).
Proof.
  intros Hh Hop. unfold CreateOp.
  destruct op as [parent name|id|ctx parent name mode|ctx id|ctx fh size off|fh]; cbn in Hop.
  1-4: cbn; split; [done|]; exists []; split; [done|];
    split; [unfold opened; set_solver|]; split; [done|]; right; done.
  - apply safe_bind. eapply safe_weaken.
    { by apply on_request_safe, FuseReadDirOp_Start_safe. }
    intros [r|] s' (c & new & Hc & Hd & ->); cbn; (split; [done|]); exists new;
      (split; [done|]); (split; [rewrite Hd; set_solver|]); (split; [done|]); [by right|by left].
  - pose proof (FuseRelDirOp_Start_safe fh (px_client s) Hh Hop) as Hrel. unfold safe in *.
    unfold on_request. destruct (FuseRelDirOp_Start fh (px_client s)) as [[[]|w|] c]; [|done..].
    destruct Hrel as (Hc & Hs & Hd). rewrite Hs. cbn [length].
    replace (S (length (sent (px_client s))) - length (sent (px_client s)))%nat with 1%nat by lia.
    cbn. split; [done|]. exists [(req, ReplyErr 0)]. split; [done|]. split; [|by split; [|left]].
    rewrite Hd. unfold opened. cbn. set_solver.
Qed.

(** A turn that would write a handle through a [fuse_file_info] that is gone. *)
Definition stale_file_info (s : Proxy) : Prop :=
  ∃ a res q req op, px_queue s = (a, res) :: q ∧ px_ops s !! a = Some (req, op) ∧ stale_open op res.

Lemma turn_stale p ok s : stale_file_info s → (AsyncCompleteRpc_turn opts p ok s).1 = Undef.
Proof.
  intros (a & res & q & req & op & Eq & Ea & Hst). unfold AsyncCompleteRpc_turn. rewrite Eq, Ea.
  unfold bind at 1, on_request. cbn [px_client set_ops].
  pose proof (op_finish_stale opts p op res (px_client s) Hst) as E.
  destruct (op_finish _ _ _ _ _) as [o c]. cbn in E. by subst o.
Qed.

Lemma turn_safe p ok s a res q req op :
  heap_wf (heap (px_client s)) → px_queue s = (a, res) :: q → px_ops s !! a = Some (req, op) →
  resp_fits op res → resp_sized res →
  op_handle (dom (heap (px_client s))) op → (∀ fh, op ≠ OpRelDir fh) →
  stale_open op res ∨ safe (AsyncCompleteRpc_turn opts p ok) s (λ _ s', heap_wf (heap (px_client s')) ∧
    ∃ new, px_replies s' = new ++ px_replies s ∧
      dom (heap (px_client s')) = opened new.*2 ∪ dom (heap (px_client s)) ∧
      px_queue s' = q ∧ px_calls s' = px_calls s ∧
      ∀ b x, px_ops s' !! b = Some x → px_ops s !! b = Some x).
Proof.
  intros Hh Eq Ea Hfit Hsz Hop Hnr.
  destruct (op_finish_safe opts p op res (px_client s)) as [Hst|Hs]; [done..| |by left|right].
  { destruct op; try done. by destruct (Hnr fh). }
  unfold safe at 1, AsyncCompleteRpc_turn. rewrite Eq, Ea.
  apply (on_request_safe req _ (set_ops (px_ops s) (px_calls s) q s)) in Hs.
  revert Hs. unfold safe, bind at 1.
  destruct (on_request req (op_finish opts p op res) _) as [[b|w|] s1]; [|done..].
  intros (c & new & Hc & Hd & ->). unfold bind, modify, Check.
  destruct ok; [|done]. cbn. split; [done|]. exists new. split_and!; try done.
  intros b' x. destruct b; [|done]. by rewrite lookup_delete_Some; intros [].
Qed.

(** *** The invariant *)

Record k_inv (k : Kernel) : Prop := {
  ki_px : px_inv (k_proxy k);
  ki_dom : dom (heap (px_client (k_proxy k))) = k_open k;
  ki_heap : heap_wf (heap (px_client (k_proxy k)));
  ki_rel a req fh : px_ops (k_proxy k) !! a ≠ Some (req, OpRelDir fh);
  ki_busy fh : busy (k_proxy k) fh → fh ∈ k_open k;
  ki_sized a res : (a, res) ∈ px_queue (k_proxy k) → resp_sized res;
}.

Lemma no_new_replies (new rs : list (Z * fuse_reply)) : rs = new ++ rs → new = [].
Proof. intros E. apply (f_equal length) in E. rewrite length_app in E. destruct new; cbn in E; [done|lia]. Qed.

(** A step that replies nothing leaves the open handles as they are. *)
Lemma k_open_quiet (h : gset Z) : (opened [] ∪ h) ∖ ∅ = h.
Proof. unfold opened. set_solver. Qed.

(** A step that leaves the handles alone and adds no operation and no result. *)
Lemma k_inv_quiet s s' open :
  k_inv {| k_proxy := s; k_open := open |} → px_inv s' → px_client s' = px_client s →
  px_ops s' = px_ops s → (∀ a, Proxy.pending s' a → Proxy.pending s a) →
  (∀ a res, (a, res) ∈ px_queue s' → resp_sized res) →
  k_inv {| k_proxy := s'; k_open := open |}.
Proof.
  intros [_ Hd Hh Hrel Hbusy _] Hpx Ec Eo Hpend Hsz. split; cbn in *; rewrite ?Ec; try done.
  - by rewrite Eo.
  - intros fh (a & rq & ctx & size & off & Ha%Hpend & Hop). rewrite Eo in Hop. apply Hbusy.
    by exists a, rq, ctx, size, off.
Qed.

Lemma k_inv_step k k' : k_step k k' → k_inv k → k_inv k'.
Proof.
  intros Hstep Hinv. destruct Hstep as [l k s' new Hdoes Hok Hnew].
  pose proof (px_inv_step opts _ _ (ex_intro _ l Hdoes) (ki_px _ Hinv)) as Hpx.
  pose proof Hinv as [Hpx0 Hd Hh Hrel Hbusy Hsz].
  destruct k as [s open]; cbn [k_proxy k_open] in *. subst open.
  destruct Hdoes as [req a op s s' _ _ Ha E|a req op res s Ha Hop Hfit|p s s' _ _ _ E|s _|s s' _ E].
  - pose proof (CreateOp_safe req a op s Hh) as Hsafe. unfold safe in Hsafe. rewrite E in Hsafe.
    destruct Hsafe as (Hh' & new' & Hr & Hd' & Hq & Hops); [by destruct op; cbn in *; try apply Hok|].
    cbn in Hnew. rewrite Hr in Hnew. apply app_inv_tail in Hnew as ->.
    split; cbn; try done.
    + intros b rq fh. destruct Hops as [[-> _]|(Hno & -> & _)]; [by apply Hrel|].
      intros [(_ & [= -> ->])|(_ & Hb)]%lookup_insert_Some; [by destruct (Hno fh)|by apply Hrel in Hb].
    + intros fh (b & rq & ctx & size & off & Hpend & Hb). unfold Proxy.pending in Hpend. cbn in *.
      rewrite Hq in Hpend. destruct Hops as [[Eo Ec]|(_ & Eo & Ec)]; rewrite Eo in Hb; rewrite Ec in Hpend.
      * assert (busy s fh) as Hf by (exists b; eauto 10). apply elem_of_difference.
        split; [by apply elem_of_union_r, Hbusy|]. destruct op; cbn; set_solver.
      * apply lookup_insert_Some in Hb as [(<- & [= <- ->])|(Hne & Hb)].
        { cbn in Hok |- *. set_solver. }
        assert (busy s fh) as Hf by (exists b; do 4 eexists; split; [|done]; unfold Proxy.pending; set_solver).
        apply elem_of_difference. split; [by apply elem_of_union_r, Hbusy|].
        destruct op; cbn; set_solver.
    + intros b res Hb. rewrite Hq in Hb. by eapply Hsz.
  - apply no_new_replies in Hnew as ->. cbn [closed]. rewrite k_open_quiet.
    eapply k_inv_quiet; [exact Hinv|done..| |].
    + intros b. unfold Proxy.pending. cbn. rewrite fmap_app. set_solver.
    + intros b res'. cbn. rewrite elem_of_app, list_elem_of_singleton.
      intros [Hb|[= -> ->]]; [by eapply Hsz|exact Hok].
  - destruct (px_queue s) as [|[a res] q] eqn:Eq; [unfold AsyncCompleteRpc_turn in E; by rewrite Eq in E|].
    destruct (inv_tag _ Hpx0 a res) as (req & op & Ea & Hfit); [rewrite Eq; set_solver|].
    assert (Proxy.pending s a) as Hpa by (right; rewrite Eq; cbn; set_solver).
    assert (op_handle (dom (heap (px_client s))) op) as Hop.
    { destruct op; cbn; try done; [|by destruct (Hrel a req fh)].
      apply Hbusy. by exists a, req, ctx, size, off. }
    pose proof (turn_safe p true s a res q req op Hh Eq Ea Hfit) as Hsafe.
    destruct Hsafe as [Hst|Hsafe]; [apply (Hsz a); set_solver|done|intros fh ->; by eapply Hrel| |].
    { exfalso. assert ((AsyncCompleteRpc_turn opts p true s).1 = Undef) as Hu
        by (apply turn_stale; by exists a, res, q, req, op). by rewrite E in Hu. }
    unfold safe in Hsafe. rewrite E in Hsafe. destruct Hsafe as (Hh' & new' & Hr & Hd' & Hq & Hc & Hsub).
    rewrite Hr in Hnew. apply app_inv_tail in Hnew as ->. cbn [closed].
    rewrite difference_empty_L, <- Hd'. split; cbn; try done.
    + intros b rq fh Hb%Hsub. by eapply Hrel.
    + intros fh (b & rq & ctx & size & off & Hpend & Hb%Hsub). rewrite Hd'.
      apply elem_of_union_r, Hbusy. exists b, rq, ctx, size, off. split; [|done].
      unfold Proxy.pending in *. rewrite Hq, Hc in Hpend. rewrite Eq. cbn. set_solver.
    + intros b res' Hb. rewrite Hq in Hb. apply (Hsz b). set_solver.
  - apply no_new_replies in Hnew as ->. cbn [closed]. rewrite k_open_quiet.
    by eapply k_inv_quiet; [exact Hinv|..].
  - unfold Destroy_join in E. case_decide; [|done]. injection E as <-.
    apply no_new_replies in Hnew as ->. cbn [closed]. rewrite k_open_quiet.
    by eapply k_inv_quiet; [exact Hinv|..].
Qed.

Lemma k_inv_handles k :
  k_inv k →
  (∀ req a op, kernel_ok k (Asks req op) → (CreateOp req a op (k_proxy k)).1 ≠ Undef) ∧
  (∀ p ok, (AsyncCompleteRpc_turn opts p ok (k_proxy k)).1 = Undef ↔ stale_file_info (k_proxy k)).
Proof.
  intros [Hpx Hd Hh Hrel Hbusy Hsz]. split.
  - intros req a op Hok. eapply safe_not_Undef, CreateOp_safe; [done|]. rewrite Hd.
    by destruct op; cbn in *; try apply Hok.
  - intros p ok. split; [|apply turn_stale]. intros Hu.
    destruct (px_queue (k_proxy k)) as [|[a res] q] eqn:Eq.
    { unfold AsyncCompleteRpc_turn in Hu. by rewrite Eq in Hu. }
    assert ((a, res) ∈ px_queue (k_proxy k)) as Hin by (rewrite Eq; set_solver).
    destruct (inv_tag _ Hpx a res Hin) as (req & op & Ea & Hfit).
    destruct (turn_safe p ok (k_proxy k) a res q req op) as [Hst|Hsafe]; try done.
    + apply (Hsz a). set_solver.
    + rewrite Hd. destruct op; cbn; try done; [|by destruct (Hrel a req fh)].
      apply Hbusy. exists a. do 4 eexists. split; [|done]. right. rewrite Eq. cbn. set_solver.
    + intros fh ->. by eapply Hrel.
    + by exists a, res, q, req, op.
    + by apply safe_not_Undef in Hsafe.
Qed.

Definition k_reachable (k : Kernel) : Prop :=
  ∃ resp s0, Init (Some resp) px_new = (Ret tt, s0) ∧
    rtc k_step {| k_proxy := s0; k_open := ∅ |} k.

Lemma k_inv_reachable k : k_reachable k → k_inv k.
Proof.
  intros (resp & s0 & E & Hs).
  assert (k_inv {| k_proxy := s0; k_open := ∅ |}) as Hinv.
  { assert (px_inv s0) as Hpx by (eapply (px_inv_reachable opts); exists resp, s0; split; [done|apply rtc_refl]).
    unfold Init, bind, modify, Check in E. injection E as <-.
    split; try done; cbn; try set_solver.
    intros fh (a & req & ctx & size & off & _ & Ha). done. }
  clear E. induction Hs as [|k1 k2 k3 H1 _ IH]; [done|]. by eapply IH, k_inv_step.
Qed.

(** ** Properties *)

(** C25: while the kernel keeps its promises, over any interleaving
    of callbacks, RPCs and completions, the directory caches that are allocated are
    exactly those of the handles the kernel holds open, so that none is leaked; no
    callback the kernel may make dereferences freed memory; and a turn of the completion
    thread does so exactly when it answers an [opendir] with success and libfuse has not
    kept the [fuse_file_info] of the callback, which is over by then. *)
Theorem open_handles_live (k : Kernel) (Hk : k_reachable k) :
  dom (heap (px_client (k_proxy k))) = k_open k ∧
  (∀ req a op, kernel_ok k (Asks req op) → (CreateOp req a op (k_proxy k)).1 ≠ Undef) ∧
  (∀ p ok, (AsyncCompleteRpc_turn opts p ok (k_proxy k)).1 = Undef ↔ stale_file_info (k_proxy k)).
Proof. pose proof (k_inv_reachable k Hk) as Hinv. split; [apply Hinv|]. by apply k_inv_handles. Qed.
End handles.

(** ** Witness: a directory is opened, read and released *)

Section demo.
#[local] Existing Instances demo_fuse demo_fuse_spec demo_fuse_laws.

Definition demo_ko0 : Kernel := {| k_proxy := demo_px0; k_open := ∅ |}.
Definition demo_ko1 : Proxy := after_callback 1 100 (OpOpenDir {| ctx_uid := 0; ctx_gid := 0 |} 1) demo_px0.
Definition demo_ko2 : Proxy := complete_rpc 100 (Some (RespListDir demo_page)) demo_ko1.
Definition demo_ko3 : Proxy := after_turn 8 demo_ko2.

Lemma demo_ko3_reach : k_reachable demo_opts {| k_proxy := demo_ko3; k_open := {[8]} |}.
Proof.
  exists demo_mountpoint, demo_px0. split; [reflexivity|].
  eapply rtc_l.
  { eapply (k_does demo_opts (Asks 1 (OpOpenDir {| ctx_uid := 0; ctx_gid := 0 |} 1)) demo_ko0 demo_ko1 []);
      [|done|reflexivity].
    apply (px_callback demo_opts 1 100); [done | decide_closed | done | reflexivity]. }
  eapply rtc_l.
  { eapply (k_does demo_opts (Completes 100 (Some (RespListDir demo_page))) _ demo_ko2 []);
      [|cbn; lia|reflexivity].
    eapply (px_complete demo_opts 100); [decide_closed | reflexivity | by eexists]. }
  eapply rtc_l.
  { eapply (k_does demo_opts Internal _ demo_ko3 [(1, ReplyOpen 8)]); [|done|reflexivity].
    apply (px_finish demo_opts 8); done. }
  apply rtc_refl.
Qed.

Lemma open_handles_live_witness :
  dom (heap (px_client demo_ko3)) = {[8]} ∧
  (CreateOp 2 101 (OpRelDir 8) demo_ko3).1 ≠ Undef.
Proof.
  destruct (open_handles_live demo_opts _ demo_ko3_reach) as (Hd & Hc & _).
  split; [exact Hd|]. apply Hc. cbn. split; [set_solver|].
  intros (a & req & ctx & size & off & _ & Ha). cbn [k_proxy] in Ha.
  assert (px_ops demo_ko3 = ∅) as E by decide_closed. by rewrite E, lookup_empty in Ha.
Defined.
End demo.
