(* ===== verification/EndToEnd.v ===== *)
(** The client in front of the namenode: the threads of Proxy.v, gRPC between them, and
    the namenode of Service.v behind.

    An RPC under way is served by the namenode at some moment, and its response comes
    into the completion queue; or it fails, whether the namenode served it or not.  The
    manager's thread of the namenode takes its turns in between, a load or a store of
    [Update] each.  The state keeps, besides the two programs, what each request of
    libfuse's asked for. *)

From Stdlib Require Import ZArith Lia Ascii String.
From stdpp Require Import prelude strings gmap sets relations.
From S2P Require Import Prelude Common Types IdGen KVStoreBase RocksDB Conflict Serde Tables Proto.
From S2P Require Import Service System Namespace Visibility Restart Fuse Proxy.

#[local] Open Scope Z_scope.

(** ** The two programs *)

(** What the kernel passes: inode numbers of 64 bits and no empty name. *)
Definition op_ok (op : FuseOp) : Prop :=
  match op with
  | OpLookup parent _ => is_u64 parent
  | OpGetAttr id => is_u64 id
  | OpMkdir _ parent name _ => is_u64 parent ∧ name ≠ ""%string
  | OpOpenDir _ id => is_u64 id
  | OpReadDir _ _ _ _ | OpRelDir _ => True
  end.

(** [PrepareAsyncRpcCall]: the RPC of an operation and its request. *)
Definition PrepareAsyncRpcCall (op : FuseOp) : option Request :=
  match op with
  | OpLookup parent name => Some (FuseLookupOp_call (FuseLookupOp_req parent name))
  | OpGetAttr id => Some (FuseGetAttrOp_call (FuseGetAttrOp_req id))
  | OpMkdir ctx parent name mode => Some (FuseMkdirOp_call (FuseMkdirOp_req ctx parent name mode))
  | OpOpenDir ctx id => Some (FuseOpenDirOp_call (FuseOpenDirOp_req ctx id))
  | OpReadDir ctx _ _ _ => Some (FuseReadDirOp_call (FuseReadDirOp_req ctx))
  | OpRelDir _ => None
  end.

Section whole.
Context {K T : Type} `{KVStoreBase K T, DirTableBase T, DEntViewBase T, Fmt, Build, Flags, LibFuse}
  (opts : FuseOptions).

Record Whole := {
  wh_proxy : Proxy;
  wh_srv : Srv K;
  wh_asked : gmap Z FuseOp;
}.

Inductive whole_step : Whole → Whole → Prop :=
| wh_asks req op p p' s asked :
    op_ok op → px_does opts (Asks req op) p p' →
    whole_step {| wh_proxy := p; wh_srv := s; wh_asked := asked |}
               {| wh_proxy := p'; wh_srv := s; wh_asked := <[req := op]> asked |}
| wh_client p p' s asked :
    px_does opts Internal p p' →
    whole_step {| wh_proxy := p; wh_srv := s; wh_asked := asked |}
               {| wh_proxy := p'; wh_srv := s; wh_asked := asked |}
| wh_served now_ns a req op r resp res p c c' l asked :
    a ∈ px_calls p → px_ops p !! a = Some (req, op) → PrepareAsyncRpcCall op = Some r →
    is_i64 now_ns → serve (T := T) now_ns r c = (Ret resp, c') → res = Some resp ∨ res = None →
    whole_step {| wh_proxy := p; wh_srv := {| srv_ctx := c; srv_loaded := l |}; wh_asked := asked |}
               {| wh_proxy := complete_rpc a res p;
                  wh_srv := {| srv_ctx := c'; srv_loaded := l |}; wh_asked := asked |}
| wh_failed a p s asked :
    a ∈ px_calls p →
    whole_step {| wh_proxy := p; wh_srv := s; wh_asked := asked |}
               {| wh_proxy := complete_rpc a None p; wh_srv := s; wh_asked := asked |}
| wh_tick now_ns p s s' asked :
    tick now_ns s = (Ret tt, s') →
    whole_step {| wh_proxy := p; wh_srv := s; wh_asked := asked |}
               {| wh_proxy := p; wh_srv := s'; wh_asked := asked |}.

(** The step makes the store of an [Update] that IDs drawn since its load have passed. *)
Definition stores_late (w w' : Whole) : Prop :=
  late (srv_loaded (wh_srv w)) (srv_gen (wh_srv w)) = true ∧ srv_loaded (wh_srv w') = None.
Definition whole_step_in_time (w w' : Whole) : Prop := whole_step w w' ∧ ¬ stores_late w w'.
End whole.
Arguments Whole : clear implicits.

(** ** What replies say of the namespace *)

(** The directory [ino] is there, made as [name] in [parent]. *)
Definition dir_there (fs : FS) (parent : Z) (name : string) (ino : Z) : Prop :=
  ∃ d, fs_inodes fs !! ino = Some (inl d) ∧ val (dir_id d) = ino ∧
       val (dir_parent_id d) = parent ∧ dir_name d = name.

(** The entry an operation is about. *)
Definition op_names (op : FuseOp) : option (Z * string) :=
  match op with
  | OpMkdir _ parent name _ | OpLookup parent name => Some (parent, name)
  | _ => None
  end.

Definition resp_true (fs : FS) (op : FuseOp) (x : Response) : Prop :=
  match op, x with
  | OpMkdir _ parent name _, RespMkdirs r => sr_error_code r = 0 → dir_there fs parent name (sr_id r)
  | OpLookup parent name, RespLookup r => sr_error_code r = 0 → dir_there fs parent name (u64 (sr_id r))
  | _, _ => True
  end.
Definition reply_true (fs : FS) (op : FuseOp) (r : fuse_reply) : Prop :=
  match op, r with
  | (OpMkdir _ parent name _ | OpLookup parent name), ReplyEntry e => dir_there fs parent name (fe_ino e)
  | _, _ => True
  end.

(** ** Lemmas on the abstract machine *)

Section ns.
Context `{Flags}.

Record ns_ok (s : Ns) : Prop := {
  ok_gen : ns_wf s;
  ok_inode id i : fs_inodes (ns_fs s) !! id = Some i → 0 < id ≤ id_ (ns_gen s);
  ok_dent k e : fs_dents (ns_fs s) !! k = Some e →
    ∃ d, e = inl d ∧ k = (val (dir_parent_id d), dir_name d) ∧
         fs_inodes (ns_fs s) !! val (dir_id d) = Some (inl d);
}.

Lemma dir_there_grows fs fs' parent name ino :
  fs_inodes fs ⊆ fs_inodes fs' → dir_there fs parent name ino → dir_there fs' parent name ino.
Proof. intros Hsub (d & Hd & Hrest). exists d. split; [|done]. by eapply lookup_weaken. Qed.

Lemma resp_true_grows fs fs' op x :
  fs_inodes fs ⊆ fs_inodes fs' → resp_true fs op x → resp_true fs' op x.
Proof. intros Hsub. destruct op, x; cbn; eauto using dir_there_grows. Qed.

Lemma reply_true_grows fs fs' op r :
  fs_inodes fs ⊆ fs_inodes fs' → reply_true fs op r → reply_true fs' op r.
Proof. intros Hsub. destruct op, r; cbn; eauto using dir_there_grows. Qed.

(** A directory with an ID not drawn before. *)
Lemma ns_ok_insert s d s' :
  ns_ok s → val (dir_id d) = id_ (ns_gen s) + 1 → id_ (ns_gen s') = val (dir_id d) → ns_wf s' →
  ns_fs s' = fs_insert d (ns_fs s) →
  ns_ok s' ∧ fs_inodes (ns_fs s) ⊆ fs_inodes (ns_fs s').
Proof.
  intros [Hg Hi Hd] Hid Hgid Hg' Hfs.
  assert (fs_inodes (ns_fs s) !! val (dir_id d) = None) as Hnew.
  { destruct (fs_inodes (ns_fs s) !! val (dir_id d)) eqn:E; [|done]. apply Hi in E. lia. }
  rewrite Hfs. split; [|by apply insert_subseteq].
  pose proof (idgen_wf_nonneg _ (proj1 Hg)). split; rewrite ?Hfs; unfold fs_insert; cbn [ns_gen ns_fs fs_inodes fs_dents].
  - done.
  - intros id i [(<- & _)|(_ & Hii)]%lookup_insert_Some; [lia|]. apply Hi in Hii. lia.
  - intros k e [(<- & <-)|(_ & Hke)]%lookup_insert_Some.
    + exists d. by rewrite lookup_insert_eq.
    + destruct (Hd k e Hke) as (d' & -> & -> & Hd'). exists d'. split; [done|]. split; [done|].
      rewrite lookup_insert_ne; [done|]. intros E. by rewrite E, Hd' in Hnew.
Qed.

(** What the machine says of a directory is so. *)
Definition ns_true (fs : FS) (req : Request) (r : NsReply) : Prop :=
  match req, r with
  | ReqMkdirs m, NsMkdirs (ROk resp) => dir_there fs (mk_parent_id m) (mk_name m) (sr_id resp)
  | ReqLookup l, NsLookup (ROk resp) => dir_there fs (lk_parent_id l) (lk_name l) (u64 (sr_id resp))
  | _, _ => True
  end.

Lemma ns_serve_ok now_ns req s r s' :
  ns_serve now_ns req s = (Ret r, s') → ns_ok s →
  ns_ok s' ∧ fs_inodes (ns_fs s) ⊆ fs_inodes (ns_fs s') ∧ ns_true (ns_fs s') req r.
Proof.
  intros E Hs. destruct req as [p|q|l|q|m]; cbn [ns_serve] in E.
  1,2,4: by injection E as <- <-.
  - injection E as <- <-. split; [done|]. split; [done|]. cbn [ns_true]. unfold lookup_spec, fs_dent.
    destruct (fs_dents (ns_fs s) !! _) as [e|] eqn:Ed; [|done].
    destruct (ok_dent s Hs _ _ Ed) as (d & -> & Hk & Hd). cbn in Hk. injection Hk as Hp Hn.
    cbn. exists d. pose proof (ok_inode s Hs _ _ Hd). destruct (ok_gen s Hs) as [(?&?&?) _].
    rewrite u64_i64; [by split_and!|]. unfold is_u64, id_base in *. lia.
  - apply bind_Ret_inv in E as (y & s1 & E & Ey). injection Ey as <- <-.
    pose proof (ns_mkdirs_inv _ _ _ _ _ E (ok_gen s Hs)) as Hm.
    destruct y as [resp|c]; [|by destruct Hm as [-> _]].
    destruct Hm as (d & -> & Hp & Hn & Hid & Hfs & Hgen & Hg').
    destruct (ns_ok_insert s d s1 Hs Hid Hgen Hg' Hfs) as [Hok Hsub].
    split; [done|]. split; [done|].
    exists d. rewrite Hfs. unfold fs_insert. cbn [fs_inodes mkdirs_resp sr_id].
    by rewrite lookup_insert_eq.
Qed.

Lemma ns_tick_ok now_ns s s' :
  ns_tick now_ns s = (Ret tt, s') → late (ns_loaded s) (ns_gen s) = false → ns_ok s →
  ns_ok s' ∧ ns_fs s' = ns_fs s.
Proof.
  intros E Hlate [Hg Hi Hd]. destruct (ns_tick_inv _ _ _ E Hg) as (Hfs & Hg' & Hle).
  specialize (Hle Hlate). split; [|done]. split; rewrite ?Hfs; try done. intros id i Hii.
  apply Hi in Hii. lia.
Qed.
End ns.

(** ** The two programs together *)

Section refinement.
Context {K T : Type} `{KVStoreBase K T, KVStoreSpec K, TxnSpec T, DirTableBase T,
  DEntViewBase T, FSRep, Fmt, Build, Flags, LibFuse, !KVStoreLaws K T, !DirTableLaws T,
  !DEntViewLaws T} (opts : FuseOptions).

Lemma op_req_ok op r : op_ok op → PrepareAsyncRpcCall op = Some r → req_ok r.
Proof. destruct op; intros Hop [= <-]; try exact Hop. cbn. unfold is_u64. lia. Qed.

(** A served request has a response of its operation's kind. *)
Lemma serve_fits now_ns op r c resp c' :
  PrepareAsyncRpcCall op = Some r → serve (T := T) now_ns r c = (Ret resp, c') → resp_fits op (Some resp).
Proof.
  intros Hr E. destruct op; cbn in Hr; [injection Hr as <-..|done]; cbn [serve] in E;
    apply bind_Ret_inv in E as (p & c1 & _ & E); injection E as <- _; by eexists.
Qed.

(** The namenode's side of a served request. *)
Lemma served_true now_ns op r n c l fs resp c' :
  let s := {| srv_ctx := c; srv_loaded := l |} in
  let s' := {| srv_ctx := c'; srv_loaded := l |} in
  flags_ok → srv_ready (S n) fs s → op_ok op → is_i64 now_ns → ns_ok (ns_of fs s) →
  PrepareAsyncRpcCall op = Some r → serve (T := T) now_ns r c = (Ret resp, c') →
  ∃ fs', srv_ready n fs' s' ∧ fs_inodes fs ⊆ fs_inodes fs' ∧ ns_ok (ns_of fs' s') ∧
    resp_true fs' op resp.
Proof.
  intros s s' Hfl Hs Hop Hnow Hns Hr E.
  destruct (served_agrees now_ns r n c l fs resp c' Hfl Hs (op_req_ok _ _ Hop Hr) Hnow E)
    as (y & fs' & En & HR & Hs').
  destruct (ns_serve_ok _ _ _ _ _ En Hns) as (Hns' & Hsub & Ht). cbn [ns_of ns_fs] in Hsub, Ht.
  exists fs'. do 3 (split; [done|]).
  destruct op; cbn in Hr; [injection Hr as <-..|done]; destruct resp as [p|p|p|p|p], y as [q|q|q|q|q];
    try done; cbn in HR |- *; intros Hcode; destruct q as [q|code]; cbn in HR; try (by subst).
  all: apply error_reply_code in HR; rewrite Hcode in HR; by destruct code.
Qed.

Lemma reply_for_true fs op x r : reply_for opts op x r → resp_true fs op x → reply_true fs op r.
Proof.
  unfold reply_for. destruct (resp_error x =? 0) eqn:E0; [|intros ->; by destruct op].
  apply Z.eqb_eq in E0. intros Hr Ht.
  destruct op, x; cbn in *; try done; try (subst; by apply Ht); by destruct Hr as [? ->].
Qed.

(** *** The invariant, with [n] transactions to come *)

Record wh_facts (p : Proxy) (fs : FS) (asked : gmap Z FuseOp) : Prop := {
  fact_proxy : px_inv p;
  fact_op a req op : px_ops p !! a = Some (req, op) → asked !! req = Some op ∧ op_ok op;
  fact_asked req op : asked !! req = Some op → req ∈ px_requests p;
  fact_queue a x req op : (a, Some x) ∈ px_queue p → px_ops p !! a = Some (req, op) → resp_true fs op x;
  fact_replies req r op : (req, r) ∈ px_replies p → asked !! req = Some op → reply_true fs op r;
}.

Definition wh_inv (n : nat) (w : Whole K) : Prop :=
  ∃ fs, srv_ready n fs (wh_srv w) ∧ ns_ok (ns_of fs (wh_srv w)) ∧
    wh_facts (wh_proxy w) fs (wh_asked w).

(** *** What holds in whatever order the stores of [Update] come *)

Definition wh_base (n : nat) (w : Whole K) : Prop :=
  (∃ fs, srv_ready n fs (wh_srv w)) ∧ px_inv (wh_proxy w) ∧
  ∀ a req op, px_ops (wh_proxy w) !! a = Some (req, op) → op_ok op.

Lemma srv_ready_less n fs s : srv_ready (S n) fs s → srv_ready n fs s.
Proof. intros (Hc & Hl & Hq). split_and!; [done..|]. apply (kv_quiet_law (T := T) n _ Hq). Qed.

(** The client runs operations of the kernel's only. *)
Lemma px_ops_does l p p' a req op :
  px_does opts l p p' → px_ops p' !! a = Some (req, op) →
  px_ops p !! a = Some (req, op) ∨ l = Asks req op.
Proof.
  intros Hdoes Hop. inversion Hdoes as [? ? ? ? ? _ _ _ E|? ? ? ? ? _ _|q ? ? _ _ _ E| |? ? _ E]; subst.
  - destruct (CreateOp_effect _ _ _ _ _ E) as [(r & c & _ & ->)| ->]; cbn in Hop; [by left|].
    apply lookup_insert_Some in Hop as [(_ & [= <- <-])|[_ Hop]]; [by right|by left].
  - by left.
  - left. destruct (turn_effect _ _ _ _ E) as (b & res & l & rq & o & _ & _ & Heff).
    destruct res as [x|]; [destruct Heff as (rep & c & -> & _)|by subst p']. cbn in Hop.
    destruct (_ =? _); [|done]. by apply lookup_delete_Some in Hop as [].
  - by left.
  - left. unfold Destroy_join in E. case_decide; [|done]. by injection E as <-.
Qed.

Lemma wh_base_step n w w' : flags_ok → whole_step (T := T) opts w w' → wh_base (S n) w → wh_base n w'.
Proof.
  intros Hfl Hstep ([fs Hs] & Hp & Hops). pose proof (srv_ready_less n fs _ Hs) as Hs1.
  destruct Hstep as [req op p p' s asked Hok Hdoes|p p' s asked Hdoes
    |now_ns a req op r resp res p c c' l asked Ha Hop Hr Hnow E Hres|a p s asked Ha|now_ns p s s' asked E];
    unfold wh_base; cbn [wh_srv wh_proxy wh_asked] in *.
  - split; [by exists fs|]. split; [by eapply px_inv_step; [eexists|]|]. intros b rq o Hb.
    destruct (px_ops_does _ _ _ _ _ _ Hdoes Hb) as [?|[= -> ->]]; [by eapply Hops|done].
  - split; [by exists fs|]. split; [by eapply px_inv_step; [eexists|]|]. intros b rq o Hb.
    destruct (px_ops_does _ _ _ _ _ _ Hdoes Hb) as [?|[=]]. by eapply Hops.
  - split; [|split; [|exact Hops]].
    + destruct (served_agrees now_ns r n c l fs resp c' Hfl Hs (op_req_ok _ _ (Hops _ _ _ Hop) Hr) Hnow E)
        as (y & fs' & _ & _ & Hs'). by exists fs'.
    + eapply px_inv_complete; [exact Ha|exact Hop| |exact Hp].
      destruct Hres as [-> | ->]; [by eapply serve_fits|done].
  - split; [by exists fs|]. split; [|exact Hops].
    destruct (inv_calls p Hp a Ha) as [[[req op] Hop] _]. by eapply px_inv_complete.
  - split; [|by split]. exists fs. by eapply ticked_agrees.
Qed.

Lemma wh_base_steps n m w w' :
  flags_ok → nsteps (whole_step (T := T) opts) n w w' → wh_base (n + m) w → wh_base m w'.
Proof.
  intros Hfl. induction 1 as [|n w0 w1 w2 Hs _ IH]; [done|]. intros Hinv. by eapply IH, wh_base_step.
Qed.

(** *** What the client shows, when no store is late *)

Lemma wh_facts_grow p fs fs' asked :
  fs_inodes fs ⊆ fs_inodes fs' → wh_facts p fs asked → wh_facts p fs' asked.
Proof.
  intros Hsub [Hp Hop Has Hq Hr]. split; try done.
  - intros. eapply resp_true_grows; eauto.
  - intros. eapply reply_true_grows; eauto.
Qed.

Lemma wh_facts_ask req op p p' fs asked :
  op_ok op → px_does opts (Asks req op) p p' → wh_facts p fs asked → wh_facts p' fs (<[req := op]> asked).
Proof.
  intros Hok Hdoes [Hp Hop Has Hq Hr].
  assert (px_inv p') as Hp' by (by eapply px_inv_step; [eexists|]).
  inversion Hdoes as [? a ? ? s' _ Hnew Ha E| | | |]; subst.
  assert (asked !! req = None) as Hn.
  { destruct (asked !! req) eqn:Ea; [|done]. by apply Has in Ea. }
  assert (∀ rq o, asked !! rq = Some o → <[req := op]> asked !! rq = Some o) as Hkeep.
  { intros rq o Ho. rewrite lookup_insert_ne; [done|]. congruence. }
  assert (∀ r, (req, r) ∉ px_replies p) as Hno.
  { intros r Hin. apply (list_elem_of_fmap_2 fst) in Hin. by apply (inv_replies p Hp) in Hin. }
  destruct (CreateOp_effect _ _ _ _ _ E) as [(r & c & Hlocal & ->)| ->]; split; try exact Hp'; cbn.
  - intros b rq o Hb. destruct (Hop b rq o Hb) as [? ?]. by split; [apply Hkeep|].
  - intros rq o [(-> & _)|(_ & Ho)]%lookup_insert_Some; [set_solver|]. apply Has in Ho. set_solver.
  - done.
  - intros rq rp o Hin Ho. apply elem_of_cons in Hin as [[= -> ->]|Hin].
    + rewrite lookup_insert_eq in Ho. injection Ho as <-. by destruct op.
    + eapply Hr; [exact Hin|]. rewrite lookup_insert_ne in Ho; [done|]. intros ->. by eapply Hno.
  - intros b rq o [(<- & [= <- <-])|(_ & Hb)]%lookup_insert_Some.
    + by rewrite lookup_insert_eq.
    + destruct (Hop b rq o Hb) as [? ?]. by split; [apply Hkeep|].
  - intros rq o [(-> & _)|(_ & Ho)]%lookup_insert_Some; [set_solver|]. apply Has in Ho. set_solver.
  - intros b x rq o Hin [(<- & _)|(_ & Hb)]%lookup_insert_Some.
    + destruct (inv_tag p Hp _ _ Hin) as (? & ? & Hb & _). congruence.
    + by eapply Hq.
  - intros rq rp o Hin Ho. eapply Hr; [exact Hin|].
    rewrite lookup_insert_ne in Ho; [done|]. intros ->. by eapply Hno.
Qed.

Lemma wh_facts_internal p p' fs asked :
  px_does opts Internal p p' → wh_facts p fs asked → wh_facts p' fs asked.
Proof.
  intros Hdoes [Hp Hop Has Hq Hr].
  assert (px_inv p') as Hp' by (by eapply px_inv_step; [eexists|]).
  inversion Hdoes as [| |q ? ? _ _ _ E| |? ? _ E]; subst.
  - destruct (turn_effect _ _ _ _ E) as (a & res & l & req & op & Eq & Ha & Heff).
    assert (∀ b x, (b, x) ∈ l → (b, x) ∈ px_queue p) as Hl by (intros; rewrite Eq; set_solver).
    destruct res as [x|]; [destruct Heff as (rep & c & -> & Hrep)|subst p']; split; try exact Hp'; cbn.
    + intros b rq o Hb. apply (Hop b). destruct (_ =? _); [|done]. by apply lookup_delete_Some in Hb as [].
    + done.
    + intros b y rq o Hin Hb. apply (Hq b y rq o); [by apply Hl|].
      destruct (_ =? _); [|done]. by apply lookup_delete_Some in Hb as [].
    + intros rq r o [[= -> ->]|Hin]%elem_of_cons Ho; [|by eapply Hr].
      destruct (Hop _ _ _ Ha) as [Ho' _]. rewrite Ho' in Ho. injection Ho as <-.
      eapply reply_for_true; [exact Hrep|]. apply (Hq a x req op); [rewrite Eq; set_solver | exact Ha].
    + done.
    + done.
    + intros b y rq o Hin Hb. apply (Hq b y rq o); [by apply Hl | exact Hb].
    + done.
  - by split.
  - unfold Destroy_join in E. case_decide; [|done]. injection E as <-. by split.
Qed.

Lemma wh_facts_complete a req op res p fs asked :
  a ∈ px_calls p → px_ops p !! a = Some (req, op) → resp_fits op res →
  (∀ x, res = Some x → resp_true fs op x) → wh_facts p fs asked → wh_facts (complete_rpc a res p) fs asked.
Proof.
  intros Ha Hop Hfit Htrue [Hp Hops Has Hq Hr]. split; try done.
  - by eapply px_inv_complete.
  - cbn. intros b x rq o [Hin|[= -> <-]%list_elem_of_singleton]%elem_of_app Hb; [by eapply Hq|].
    rewrite Hop in Hb. injection Hb as <- <-. by apply Htrue.
Qed.

Lemma wh_inv_step n w w' :
  flags_ok → whole_step_in_time (T := T) opts w w' → wh_inv (S n) w → wh_inv n w'.
Proof.
  intros Hfl [Hstep Hlate] (fs & Hs & Hns & Hw). pose proof (srv_ready_less n fs _ Hs) as Hs1.
  unfold stores_late in Hlate.
  destruct Hstep as [req op p p' s asked Hok Hdoes|p p' s asked Hdoes
    |now_ns a req op r resp res p c c' l asked Ha Hop Hr Hnow E Hres|a p s asked Ha|now_ns p s s' asked E];
    cbn [wh_srv wh_proxy wh_asked] in *.
  - exists fs. split_and!; try done. by eapply wh_facts_ask.
  - exists fs. split_and!; try done. by eapply wh_facts_internal.
  - destruct (fact_op _ _ _ Hw _ _ _ Hop) as [_ Hok].
    destruct (served_true now_ns op r n c l fs resp c') as (fs' & Hs' & Hsub & Hns' & Ht); try done.
    exists fs'. split_and!; try done. cbn [wh_proxy wh_asked].
    eapply wh_facts_complete; [exact Ha | exact Hop | | | by eapply wh_facts_grow].
    + destruct Hres as [-> | ->]; [by eapply serve_fits | done].
    + intros x ->. destruct Hres as [[= ->]|]; done.
  - destruct (inv_calls p (fact_proxy _ _ _ Hw) a Ha) as [[[req op] Hop] _].
    exists fs. split_and!; try done. by eapply wh_facts_complete.
  - destruct (ticked_agrees now_ns n s fs s' Hs E) as [En Hs'].
    assert (late (srv_loaded s) (srv_gen s) = false) as Hl.
    { apply not_true_is_false. intros Hl. apply Hlate. split; [done|]. by eapply tick_stores. }
    destruct (ns_tick_ok _ _ _ En Hl Hns) as [Hns' _]. exists fs. by split_and!.
Qed.

Lemma wh_inv_steps n m w w' :
  flags_ok → nsteps (whole_step_in_time (T := T) opts) n w w' → wh_inv (n + m) w → wh_inv m w'.
Proof.
  intros Hfl. induction 1 as [|n w0 w1 w2 Hs _ IH]; [done|]. intros Hinv. by eapply IH, wh_inv_step.
Qed.

Lemma wh_inv_start n (k : K) c mount p :
  kv_ok k → fs_rep (kv_contents k) fs_empty → kv_quiet n k → NameNodeCtx_Start k = Ret c →
  Init (Some mount) px_new = (Ret tt, p) →
  wh_inv n {| wh_proxy := p; wh_srv := srv_start c; wh_asked := ∅ |}.
Proof.
  intros Hk Hempty Hq ->%Start_eval Hinit. exists fs_empty.
  split; [split_and!; try done; exact start_gen_wf|]. split.
  - split; cbn [ns_of ns_gen ns_fs ns_loaded]; [split; [exact start_gen_wf|done] | |]; intros; by simplify_map_eq.
  - unfold Init, bind, modify, Check in Hinit. injection Hinit as <-.
    split; cbn; try set_solver; try (intros; by simplify_map_eq).
    pose proof px_inv_new as Hinv. by destruct Hinv.
Qed.

Lemma wh_inv_base n w : wh_inv n w → wh_base n w.
Proof.
  intros (fs & Hs & _ & Hw). split; [by exists fs|]. split; [exact (fact_proxy _ _ _ Hw)|].
  intros a req op Ha. exact (proj2 (fact_op _ _ _ Hw a req op Ha)).
Qed.

(** C8: from the start of both programs on an empty database,
    over any interleaving of the kernel's requests, the threads of the client, gRPC and
    the two threads of the namenode in which the store works and no store of [Update] is
    late, an entry in a reply to a [mkdir] or [lookup] is in the namespace, with the
    parent and the name that were asked for, at the time of the reply and ever after. *)
Theorem every_entry_shown_exists (n : nat) (k : K) (c : NameNodeCtx K) (mount : StatResponse)
    (p : Proxy) (w : Whole K) (req : Z) (op : FuseOp) (parent : Z) (name : string)
    (entry : fuse_entry_param)
    (Hfl : flags_ok) (Hk : kv_ok k) (Hempty : fs_rep (kv_contents k) fs_empty)
    (Hq : kv_quiet n k) (Hstart : NameNodeCtx_Start k = Ret c)
    (Hinit : Init (Some mount) px_new = (Ret tt, p))
    (Hrun : nsteps (whole_step_in_time (T := T) opts) n
              {| wh_proxy := p; wh_srv := srv_start c; wh_asked := ∅ |} w)
    (Hasked : wh_asked w !! req = Some op) (Hop : op_names op = Some (parent, name))
    (Hreply : (req, ReplyEntry entry) ∈ px_replies (wh_proxy w)) :
  ∃ fs, fs_rep (kv_contents (kv_store_ (srv_ctx (wh_srv w)))) fs ∧ dir_there fs parent name (fe_ino entry).
Proof.
  pose proof (wh_inv_start n k c mount p Hk Hempty Hq Hstart Hinit) as Hinv.
  rewrite <- (Nat.add_0_r n) in Hinv.
  destruct (wh_inv_steps n 0 _ w Hfl Hrun Hinv) as (fs & (Hc & _) & _ & Hw).
  exists fs. split; [apply Hc|]. pose proof (fact_replies _ _ _ Hw _ _ _ Hreply Hasked) as Ht.
  destruct op; try discriminate Hop; injection Hop as <- <-; exact Ht.
Qed.
End refinement.

(** ** At concrete inputs *)

Section demo.
#[local] Existing Instances MemDB MemDBSpec MemDBLaws demo_fmt demo_build demo_be demo_fb
  demo_be_laws demo_fb_laws default_flags demo_fuse.

(** A load, a request of root's for a directory "b", the store, the namenode, the reply. *)
Definition demo_mkdir_b : FuseOp := OpMkdir {| ctx_uid := 0; ctx_gid := 0 |} 1 "b" 511.
Definition demo_w0 : Whole RocksDBKVStore :=
  {| wh_proxy := demo_px0; wh_srv := srv_start demo_start; wh_asked := ∅ |}.
Definition demo_p2 : Proxy := after_callback 1 100 demo_mkdir_b demo_px0.
Definition demo_answer : outcome Response * NameNodeCtx RocksDBKVStore :=
  serve (T := RocksDBTxn) 50 (ReqMkdirs (FuseMkdirOp_req {| ctx_uid := 0; ctx_gid := 0 |} 1 "b" 511))
    demo_ticked.
Definition demo_resp : Response :=
  RespMkdirs (mkdirs_resp (mkdirs_dir root_dir {| val := 1051989126 |} 50
    (FuseMkdirOp_req {| ctx_uid := 0; ctx_gid := 0 |} 1 "b" 511))).
Definition demo_asked1 : gmap Z FuseOp := {[ 1 := demo_mkdir_b ]}.
Definition demo_w1 : Whole RocksDBKVStore :=
  {| wh_proxy := demo_px0; wh_srv := demo_loading; wh_asked := ∅ |}.
Definition demo_w2 : Whole RocksDBKVStore :=
  {| wh_proxy := demo_p2; wh_srv := demo_loading; wh_asked := demo_asked1 |}.
Definition demo_w3 : Whole RocksDBKVStore :=
  {| wh_proxy := demo_p2; wh_srv := srv_start demo_ticked; wh_asked := demo_asked1 |}.
Definition demo_w4 : Whole RocksDBKVStore :=
  {| wh_proxy := complete_rpc 100 (Some demo_resp) demo_p2; wh_srv := srv_start demo_answer.2;
     wh_asked := demo_asked1 |}.
Definition demo_w5 : Whole RocksDBKVStore :=
  {| wh_proxy := after_turn 8 (complete_rpc 100 (Some demo_resp) demo_p2);
     wh_srv := srv_start demo_answer.2; wh_asked := demo_asked1 |}.

Lemma demo_step1 : whole_step (T := RocksDBTxn) demo_opts demo_w0 demo_w1.
Proof. apply (wh_tick demo_opts 1742256000005000000), demo_load. Qed.
Lemma demo_step2 : whole_step (T := RocksDBTxn) demo_opts demo_w1 demo_w2.
Proof.
  apply (wh_asks demo_opts 1 demo_mkdir_b demo_px0 demo_p2); [by vm_compute|].
  apply (px_callback demo_opts 1 100 demo_mkdir_b); [done | | done | reflexivity].
  decide_closed.
Qed.
Lemma demo_step3 : whole_step (T := RocksDBTxn) demo_opts demo_w2 demo_w3.
Proof. apply (wh_tick demo_opts 0), demo_stored. Qed.
Lemma demo_step4 : whole_step (T := RocksDBTxn) demo_opts demo_w3 demo_w4.
Proof.
  eapply (wh_served demo_opts 50 100 1 demo_mkdir_b _ demo_resp (Some demo_resp) demo_p2 demo_ticked
    demo_answer.2).
  - decide_closed.
  - reflexivity.
  - reflexivity.
  - vm_compute. done.
  - change (serve 50 _ demo_ticked) with demo_answer. by rewrite (surjective_pairing demo_answer) at 1.
  - by left.
Qed.
Lemma demo_step5 : whole_step (T := RocksDBTxn) demo_opts demo_w4 demo_w5.
Proof. apply wh_client. by apply (px_finish demo_opts 8). Qed.

(** Only a store can be late. *)
Lemma in_time_unless (w w' : Whole RocksDBKVStore) :
  late (srv_loaded (wh_srv w)) (srv_gen (wh_srv w)) = false →
  whole_step (T := RocksDBTxn) demo_opts w w' → whole_step_in_time (T := RocksDBTxn) demo_opts w w'.
Proof. intros Hl Hs. split; [done|]. intros [Hl' _]. congruence. Qed.

Lemma demo_run : nsteps (whole_step_in_time (T := RocksDBTxn) demo_opts) 5 demo_w0 demo_w5.
Proof.
  eapply nsteps_l; [apply in_time_unless, demo_step1; reflexivity|].
  eapply nsteps_l; [apply in_time_unless, demo_step2; reflexivity|].
  eapply nsteps_l; [apply in_time_unless, demo_step3; reflexivity|].
  eapply nsteps_l; [apply in_time_unless, demo_step4; reflexivity|].
  eapply nsteps_l; [apply in_time_unless, demo_step5; reflexivity|]. apply nsteps_O.
Qed.

Lemma every_entry_shown_exists_witness :
  ∃ fs, fs_rep (kv_contents (kv_store_ (srv_ctx (wh_srv demo_w5)))) fs ∧ dir_there fs 1 "b" 1051989126.
Proof.
  assert (∃ st, px_replies (wh_proxy demo_w5) = [(1, ReplyEntry st)] ∧ fe_ino st = 1051989126)
    as (entry & Hr & Hino) by (eexists; split; vm_compute; reflexivity).
  destruct (every_entry_shown_exists (K := RocksDBKVStore) (T := RocksDBTxn) demo_opts 5 demo_store
    demo_start demo_mountpoint demo_px0 demo_w5 1 demo_mkdir_b 1 "b" entry) as (fs & Hrep & Hd).
  - exact demo_flags_ok.
  - exact demo_store_ok.
  - exact kv_rep_empty.
  - split; [by split; intros; [|exact I]|]. split_and!; reflexivity || done.
  - exact demo_start_eval.
  - reflexivity.
  - exact demo_run.
  - reflexivity.
  - reflexivity.
  - rewrite Hr. apply elem_of_cons. by left.
  - exists fs. split; [exact Hrep|]. rewrite <- Hino. exact Hd.
Defined.
End demo.
