(* ===== verification/Progress.v ===== *)
(** What the client and the namenode can still do: from any state they reach, the RPCs
    under way can be served and every request that waits for one answered, as long as
    the store works and the generator has IDs left.  No state of the threads, of the
    completion queue or of the namenode keeps a request from its reply for good. *)

From Stdlib Require Import ZArith Lia Ascii String.
From stdpp Require Import prelude strings gmap sets relations.
From S2P Require Import Prelude Common Types IdGen IdGenMgr KVStoreBase RocksDB Conflict Serde Tables.
From S2P Require Import Proto Service System Namespace Visibility Restart Fuse Proxy EndToEnd.

#[local] Open Scope Z_scope.

(** The request waits for an RPC, or for the completion thread to look at the response. *)
Definition waits (p : Proxy) (req : Z) : Prop :=
  ∃ a op, px_ops p !! a = Some (req, op) ∧ (a ∈ px_calls p ∨ ∃ x, (a, Some x) ∈ px_queue p).

Section ns.
Context `{Flags}.

(** The machine answers, and a request takes one ID at most. *)
Lemma ns_serve_returns now_ns r s :
  idgen_wf (ns_gen s) → 0 < ids_left (ns_gen s) →
  ∃ y s', ns_serve now_ns r s = (Ret y, s') ∧ ids_left (ns_gen s) - 1 ≤ ids_left (ns_gen s').
Proof.
  intros Hg Hleft. destruct r as [p|q|q|q|q]; cbn [ns_serve].
  1-4: eexists _, s; split; [reflexivity|lia].
  unfold ns_mkdirs, bind. destruct (mkdirs_spec _ _) as [mk|e]; [|eexists _, s; split; [reflexivity|lia]].
  rewrite Next_in_range by (done || (unfold ids_left in Hleft; lia)).
  eexists _, _. split; [reflexivity|]. cbn [ns_gen]. unfold ids_left, id_base, set_id_. cbn. lia.
Qed.
End ns.

Section progress.
Context {K T : Type} `{KVStoreBase K T, KVStoreSpec K, TxnSpec T, DirTableBase T,
  DEntViewBase T, FSRep, Fmt, Build, Flags, LibFuse, !KVStoreLaws K T, !DirTableLaws T,
  !DEntViewLaws T} (opts : FuseOptions).

(** So does the namenode. *)
Lemma serve_returns now_ns op r n c l fs :
  flags_ok → srv_ready (S n) fs {| srv_ctx := c; srv_loaded := l |} → op_ok op → is_i64 now_ns →
  PrepareAsyncRpcCall op = Some r → 0 < ids_left (inode_id_generator_ c) →
  ∃ resp c', serve (T := T) now_ns r c = (Ret resp, c') ∧
    ids_left (inode_id_generator_ c) - 1 ≤ ids_left (inode_id_generator_ c').
Proof.
  intros Hfl Hs Hop Hnow Hr Hleft.
  pose proof (serve_agrees now_ns r n _ fs Hfl Hs (op_req_ok _ _ Hop Hr) Hnow) as Ha.
  destruct (ns_serve_returns now_ns r (ns_of fs {| srv_ctx := c; srv_loaded := l |}))
    as (y & m & E & Hle); [apply Hs | done |].
  rewrite E in Ha. unfold agree, zoom in Ha. cbn [srv_ctx] in Ha.
  destruct (serve now_ns r c) as [[resp|w|] c']; try done.
  destruct Ha as (_ & Em & _). exists resp, c'. split; [done|]. by rewrite Em in Hle.
Qed.

Lemma plain_op_calls op : plain_op op → ∃ r, PrepareAsyncRpcCall op = Some r.
Proof. destruct op; intros Hop; try done; by eexists. Qed.

(** The namenode serves the RPCs under way. *)
Lemma calls_served n w :
  flags_ok → size (px_calls (wh_proxy w)) = n → wh_base n w →
  Z.of_nat n ≤ ids_left (srv_gen (wh_srv w)) →
  (∀ a req op, a ∈ px_calls (wh_proxy w) → px_ops (wh_proxy w) !! a = Some (req, op) → plain_op op) →
  ∃ s' q, let p' := set_ops (px_ops (wh_proxy w)) ∅ (px_queue (wh_proxy w) ++ q) (wh_proxy w) in
    rtc (whole_step (T := T) opts) w {| wh_proxy := p'; wh_srv := s'; wh_asked := wh_asked w |} ∧
    px_inv p' ∧ (∀ a res, (a, res) ∈ q → a ∈ px_calls (wh_proxy w)) ∧
    ∀ a, a ∈ px_calls (wh_proxy w) → ∃ x, (a, Some x) ∈ q.
Proof.
  intros Hfl. revert w. induction n as [|n IH]; intros [p [c l] asked] Hn Hbase Hleft Hplain;
    unfold srv_gen in Hleft; cbn [wh_proxy wh_srv wh_asked srv_ctx] in *.
  - apply size_empty_inv, leibniz_equiv in Hn. eexists _, []. cbn zeta.
    assert (set_ops (px_ops p) ∅ (px_queue p ++ []) p = p) as ->.
    { rewrite app_nil_r, <- Hn. by destruct p. }
    destruct Hbase as (_ & Hp & _). split; [done|]. split; [exact Hp|].
    rewrite Hn. split; [by intros ? ? ?%elem_of_nil|]. set_solver.
  - destruct (set_choose_or_empty (px_calls p)) as [[a Ha]|E]; [|by rewrite E, size_empty in Hn].
    pose proof Hbase as ([fs Hs] & Hpx & Hops). cbn [wh_proxy wh_srv] in *.
    destruct (inv_calls p Hpx a Ha) as [[[req op] Hop] _].
    destruct (plain_op_calls op (Hplain a req op Ha Hop)) as [r Hr].
    destruct (serve_returns 0 op r n c l fs Hfl Hs) as (resp & c1 & Hserve & Hle); try done.
    { by eapply Hops. }
    { lia. }
    set (w1 := {| wh_proxy := complete_rpc a (Some resp) p;
                  wh_srv := {| srv_ctx := c1; srv_loaded := l |}; wh_asked := asked |}).
    assert (whole_step (T := T) opts
      {| wh_proxy := p; wh_srv := {| srv_ctx := c; srv_loaded := l |}; wh_asked := asked |} w1) as Hstep.
    { eapply (wh_served opts 0 a req op r resp); try done. by left. }
    destruct (IH w1) as (s' & q & Hrun & Hp & Hq1 & Hq2);
      cbn [w1 wh_proxy wh_srv wh_asked].
    + cbn. rewrite size_difference by set_solver. rewrite size_singleton. lia.
    + by eapply wh_base_step.
    + unfold srv_gen. cbn [srv_ctx]. lia.
    + cbn. intros b rq o Hb. apply Hplain. set_solver.
    + exists s', ((a, Some resp) :: q).
      cbn [complete_rpc set_ops px_calls px_ops px_queue w1 wh_proxy wh_asked] in *.
      rewrite <- app_assoc in Hrun, Hp. split; [by eapply rtc_l|]. split; [exact Hp|]. split.
      * intros b res [[= -> _]|Hb]%elem_of_cons; [done|]. apply Hq1 in Hb. set_solver.
      * intros b Hb. destruct (decide (b = a)) as [->|Hne].
        -- exists resp. apply elem_of_cons. by left.
        -- destruct (Hq2 b) as [x Hx]; [set_solver|]. exists x. apply elem_of_cons. by right.
Qed.

(** C29: from any state both programs reach from a
    start on an empty database, whenever the manager's thread loaded and stored the IDs,
    if no [readdir] waits for an RPC, nor an [opendir] whose [file_info] is gone, the
    completion thread runs, and the store and the generator suffice for the RPCs under
    way, the programs can go on to a state where no RPC is under way, the completion
    queue is empty, and each request whose RPC was under way, or whose response was
    queued, has its reply: no interleaving before that point locks a request out. *)
Theorem pending_requests_can_be_answered (n : nat) (k : K) (c : NameNodeCtx K) (mount : StatResponse)
    (p : Proxy) (w : Whole K)
    (Hfl : flags_ok) (Hk : kv_ok k) (Hempty : fs_rep (kv_contents k) fs_empty)
    (Hq : kv_quiet (n + size (px_calls (wh_proxy w))) k) (Hstart : NameNodeCtx_Start k = Ret c)
    (Hinit : Init (Some mount) px_new = (Ret tt, p))
    (Hrun : nsteps (whole_step (T := T) opts) n
              {| wh_proxy := p; wh_srv := srv_start c; wh_asked := ∅ |} w)
    (Hthread : px_thread (wh_proxy w) = true) (Hplain : plain_work (wh_proxy w))
    (Hleft : Z.of_nat (size (px_calls (wh_proxy w))) ≤ ids_left (srv_gen (wh_srv w))) :
  ∃ w', rtc (whole_step (T := T) opts) w w' ∧
    px_calls (wh_proxy w') = ∅ ∧ px_queue (wh_proxy w') = [] ∧
    ∀ req, waits (wh_proxy w) req → req ∈ (px_replies (wh_proxy w')).*1.
Proof.
  pose proof (wh_inv_base _ _ (wh_inv_start _ k c mount p Hk Hempty Hq Hstart Hinit)) as Hbase.
  apply (wh_base_steps opts n _ _ w Hfl Hrun) in Hbase.
  destruct (calls_served _ w Hfl eq_refl Hbase Hleft) as (s' & q & Hs & Hp & Hq1 & Hq2).
  { intros a req op Ha. apply Hplain. by left. }
  set (p1 := set_ops _ _ _ _) in *.
  destruct (queue_drains opts p1 Hp) as (p2 & Hs2 & Hq' & Hc' & _ & _ & _ & _ & Hall); [|done|].
  { intros a req op Ha. apply Hplain. destruct Ha as [Ha|Ha]; [set_solver|].
    unfold p1 in Ha. cbn in Ha. rewrite fmap_app, elem_of_app in Ha. destruct Ha as [Ha|Ha]; [by right|].
    apply list_elem_of_fmap in Ha as ([b res] & -> & Hb). left. by eapply Hq1. }
  exists {| wh_proxy := p2; wh_srv := s'; wh_asked := wh_asked w |}. split; [|split; [done|split; [done|]]].
  - etrans; [exact Hs|]. clear -Hs2. induction Hs2 as [|x y z Hxy _ IH]; [done|].
    eapply rtc_l; [|exact IH]. by apply wh_client.
  - cbn. intros req (a & op & Hop & Hwait).
    assert (∃ x, (a, Some x) ∈ px_queue p1) as [x Hx].
    { destruct Hwait as [Ha|[x Hx]].
      - destruct (Hq2 a Ha) as [x Hx]. exists x. apply elem_of_app. by right.
      - exists x. apply elem_of_app. by left. }
    by eapply Hall.
Qed.
End progress.

(** ** At a concrete input *)

Section demo.
#[local] Existing Instances MemDB MemDBSpec MemDBLaws demo_fmt demo_build demo_be demo_fb
  demo_be_laws demo_fb_laws default_flags demo_fuse.

Lemma demo_one_call : size (px_calls (wh_proxy demo_w3)) = 1%nat.
Proof. vm_compute. reflexivity. Qed.

Lemma demo_calls_quiet : kv_quiet (KVStoreSpec := RocksDBKVStore_KVStoreSpec) (3 + 1) demo_store.
Proof. split; [by split; intros; [|exact I]|]. split_and!; reflexivity || done. Qed.

(** The [mkdir] of root waits for its RPC: it can be served and answered. *)
Lemma pending_requests_can_be_answered_witness :
  ∃ w', rtc (whole_step (T := RocksDBTxn) demo_opts) demo_w3 w' ∧
    px_queue (wh_proxy w') = [] ∧ 1 ∈ (px_replies (wh_proxy w')).*1.
Proof.
  destruct (pending_requests_can_be_answered (K := RocksDBKVStore) (T := RocksDBTxn) demo_opts 3
    demo_store demo_start demo_mountpoint demo_px0 demo_w3) as (w' & Hs & _ & Hq & Hall).
  - exact demo_flags_ok.
  - exact demo_store_ok.
  - exact kv_rep_empty.
  - rewrite demo_one_call. exact demo_calls_quiet.
  - exact demo_start_eval.
  - reflexivity.
  - eapply nsteps_l; [exact demo_step1|]. eapply nsteps_l; [exact demo_step2|].
    eapply nsteps_l; [exact demo_step3|]. apply nsteps_O.
  - reflexivity.
  - intros a req op _ Hop. cbn in Hop. rewrite lookup_insert_Some, lookup_empty in Hop.
    by destruct Hop as [(<- & [= <- <-])|(_ & [=])].
  - rewrite demo_one_call. vm_compute. done.
  - exists w'. split; [exact Hs|]. split; [exact Hq|].
    apply Hall. exists 100, demo_mkdir_b. split; [reflexivity|]. left. decide_closed.
Defined.
End demo.
