(* ===== verification/Atomic.v ===== *)
(** The file system as one atomic object, the specification of the client and the
    namenode together.

    A request of the kernel's is invoked, takes effect on the namespace at one instant
    between its invocation and its response, and is answered with what the namespace
    said at that instant.  [readdir] may be answered from a page fetched before, and
    [releasedir] asks the namespace nothing.  Nothing is left of the client's threads,
    its operations and queues, of gRPC, rows, transactions and stores.  The IDs of new
    directories are what the namenode's generator has: its [Update] is a load and a
    store, between which requests may take effect, and it may take IDs back.  [in_time]
    leaves the stores out that do. *)

From Stdlib Require Import ZArith Lia Ascii String.
From stdpp Require Import prelude strings gmap sets.
From S2P Require Import Prelude Traces Common Types IdGen KVStoreBase RocksDB Conflict Serde.
From S2P Require Import Tables Proto Service System Namespace Visibility Restart Fuse Proxy EndToEnd.

#[local] Open Scope Z_scope.

(** Which stores of [Update] there are: all, or those that take no ID back. *)
Inductive order := any_time | in_time.

(** What the kernel sees. *)
Inductive fuse_event :=
| Inv (req : Z) (op : FuseOp)
| Res (req : Z) (r : fuse_reply).

(** What the namespace said: a response, or a status code. *)
Definition reply_result {A} (f : A → Response) (r : Service.reply A) : Response + StatusCode :=
  match r with ROk a => inl (f a) | RErr c => inr c end.
Definition ns_result (y : NsReply) : Response + StatusCode :=
  match y with
  | NsPong p => inl (RespPingPong p)
  | NsGetInode r => reply_result RespGetInode r
  | NsLookup r => reply_result RespLookup r
  | NsListDir r => reply_result RespListDir r
  | NsMkdirs r => reply_result RespMkdirs r
  end.

Record Atomic := {
  at_ns : Ns;                                (* the namespace and the IDs *)
  at_requests : gset Z;                      (* the requests invoked *)
  at_open : gmap Z FuseOp;                   (* invoked, without effect so far *)
  at_done : gmap Z (FuseOp * NsReply);       (* with their effect, not answered *)
}.

Definition at_init (s : Ns) : Atomic :=
  {| at_ns := s; at_requests := ∅; at_open := ∅; at_done := ∅ |}.

Section atomic.
Context `{LibFuse, Flags} (opts : FuseOptions).

(** The reply that what the namespace said stands for. *)
Definition answer (op : FuseOp) (y : NsReply) (r : fuse_reply) : Prop :=
  match ns_result y with
  | inl x => success_reply opts op x r
  | inr c => r = ReplyErr (default EIO (op_ToErrno op (StatusCode_to_int c)))
  end.

Inductive at_step (ord : order) : Atomic → list fuse_event → Atomic → Prop :=
| at_invoke req op s rs o d :
    req ∉ rs →
    at_step ord {| at_ns := s; at_requests := rs; at_open := o; at_done := d |} [Inv req op]
      {| at_ns := s; at_requests := {[req]} ∪ rs; at_open := <[req := op]> o; at_done := d |}
| at_perform req op r now_ns y s s' rs o d :
    o !! req = Some op → PrepareAsyncRpcCall op = Some r → ns_serve now_ns r s = (Ret y, s') →
    at_step ord {| at_ns := s; at_requests := rs; at_open := o; at_done := d |} []
      {| at_ns := s'; at_requests := rs; at_open := delete req o; at_done := <[req := (op, y)]> d |}
| at_respond req op y r s rs o d :
    d !! req = Some (op, y) → answer op y r →
    at_step ord {| at_ns := s; at_requests := rs; at_open := o; at_done := d |} [Res req r]
      {| at_ns := s; at_requests := rs; at_open := o; at_done := delete req d |}
| at_local req op r s rs o d :
    o !! req = Some op → local_reply op r →
    at_step ord {| at_ns := s; at_requests := rs; at_open := o; at_done := d |} [Res req r]
      {| at_ns := s; at_requests := rs; at_open := delete req o; at_done := d |}
| at_tick now_ns s s' rs o d :
    (ord = in_time → late (ns_loaded s) (ns_gen s) = false) → ns_tick now_ns s = (Ret tt, s') →
    at_step ord {| at_ns := s; at_requests := rs; at_open := o; at_done := d |} []
      {| at_ns := s'; at_requests := rs; at_open := o; at_done := d |}.

(** ** Histories *)

Definition event_req (e : fuse_event) : Z := match e with Inv req _ | Res req _ => req end.

(** The request has been invoked and is not answered. *)
Definition live (s : Atomic) (req : Z) (op : FuseOp) : Prop :=
  at_open s !! req = Some op ∨ ∃ y, at_done s !! req = Some (op, y).

(** What a history says of the state after it. *)
Record at_ok (h : list fuse_event) (s : Atomic) : Prop := {
  ok_wf : ns_wf (at_ns s);
  ok_seen e : e ∈ h → event_req e ∈ at_requests s;
  ok_live req op : live s req op → Inv req op ∈ h ∧ ∀ r, Res req r ∉ h;
  ok_inv_once req op op' : Inv req op ∈ h → Inv req op' ∈ h → op = op';
  ok_disjoint req op x : at_open s !! req = Some op → at_done s !! req = Some x → False;
}.

Lemma at_ok_init s : ns_wf s → at_ok [] (at_init s).
Proof.
  intros Hg. split; [done|..]; cbn; try (intros; set_solver).
  intros req op [Ho|[y Hd]]; cbn in *; by simplify_map_eq.
Qed.

Lemma ns_serve_wf now_ns r s y s' :
  ns_serve now_ns r s = (Ret y, s') → ns_wf s → ns_wf s'.
Proof.
  intros E Hg.
  destruct (ns_event_shows (EvRequest now_ns r) s (Some y) s' root_dir) as [Hg' _]; [|done..].
  cbn [ns_event]. by rewrite (bind_Ret _ _ _ _ _ E).
Qed.

(** A step that answers the request [req] with [x], from those with an effect or not. *)
Lemma at_ok_answered h s req op x o d :
  at_ok h s → live s req op → (∀ q p, o !! q = Some p → at_open s !! q = Some p ∧ q ≠ req) →
  (∀ q p, d !! q = Some p → at_done s !! q = Some p ∧ q ≠ req) →
  at_ok (h ++ [Res req x])
    {| at_ns := at_ns s; at_requests := at_requests s; at_open := o; at_done := d |}.
Proof.
  intros [Hg Hseen Hlive Honce Hdisj] Hl Ho Hd.
  assert (req ∈ at_requests s) as Hreq by (by destruct (Hlive _ _ Hl) as [Hi%Hseen _]).
  split; unfold live; cbn [at_ns at_requests at_open at_done].
  - done.
  - intros e [He%Hseen|He%list_elem_of_singleton]%elem_of_app; [done|]. by subst e.
  - intros q p Hq. assert (live s q p ∧ q ≠ req) as [Hq' Hne].
    { destruct Hq as [Hq|[y Hq]]; [apply Ho in Hq as [Hq ?] | apply Hd in Hq as [Hq ?]]; split; try done.
      - by left.
      - right. by exists y. }
    destruct (Hlive q p Hq') as [Hi Hn]. split; [apply elem_of_app; by left|].
    intros r [Hr|[= -> _]%list_elem_of_singleton]%elem_of_app; [by eapply Hn|done].
  - intros q p p' Hi Hi'. apply elem_of_app in Hi as [Hi|[=]%list_elem_of_singleton].
    apply elem_of_app in Hi' as [Hi'|[=]%list_elem_of_singleton]. by eapply Honce.
  - intros q p y [Hq _]%Ho [Hq' _]%Hd. by eapply Hdisj.
Qed.

(** A step without events; requests may take effect. *)
Lemma at_ok_silent h s ns o d :
  at_ok h s → ns_wf ns →
  (∀ q p, o !! q = Some p → at_open s !! q = Some p ∧ d !! q = at_done s !! q) →
  (∀ q p y, d !! q = Some (p, y) → live s q p) →
  at_ok (h ++ []) {| at_ns := ns; at_requests := at_requests s; at_open := o; at_done := d |}.
Proof.
  intros [_ Hseen Hlive Honce Hdisj] Hg Ho Hd. rewrite app_nil_r.
  split; unfold live; cbn [at_ns at_requests at_open at_done]; try done.
  - intros q p [[Hq _]%Ho|[y Hq%Hd]]; [|by apply Hlive]. apply Hlive. by left.
  - intros q p y [Hq E]%Ho Hq'. rewrite E in Hq'. by eapply Hdisj.
Qed.

Lemma at_ok_invoked h s req op :
  at_ok h s → req ∉ at_requests s →
  at_ok (h ++ [Inv req op]) {| at_ns := at_ns s; at_requests := {[req]} ∪ at_requests s;
    at_open := <[req := op]> (at_open s); at_done := at_done s |}.
Proof.
  intros [Hg Hseen Hlive Honce Hdisj] Hnew.
  assert (∀ e, e ∈ h → event_req e ≠ req) as Hfresh by (intros e He%Hseen <-; done).
  assert (∀ p, ¬ live s req p) as Hdead by (intros p [Hi _]%Hlive; by apply Hfresh in Hi).
  split; unfold live; cbn [at_ns at_requests at_open at_done].
  - done.
  - intros e [He%Hseen|He%list_elem_of_singleton]%elem_of_app; subst; cbn; set_solver.
  - intros q p Hq.
    assert ((q = req ∧ p = op) ∨ live s q p ∧ q ≠ req) as [[-> ->]|[Hl Hne]].
    { destruct Hq as [[[<- <-]|[? Hq]]%lookup_insert_Some|[y Hq]]; [by left| |]; right.
      - split; [by left|done].
      - split; [right; by exists y|]. intros ->. eapply Hdead. right. by exists y. }
    + split; [apply elem_of_app; right; by apply list_elem_of_singleton|].
      by intros r [Hr%Hfresh|[=]%list_elem_of_singleton]%elem_of_app.
    + destruct (Hlive q p Hl) as [Hi Hn]. split; [apply elem_of_app; by left|].
      intros r [Hr|[=]%list_elem_of_singleton]%elem_of_app. by eapply Hn.
  - intros q p p'. rewrite !elem_of_app, !list_elem_of_singleton.
    intros [Hi|Hi] [Hi'|Hi'].
    + by eapply Honce.
    + injection Hi' as -> ->. by apply Hfresh in Hi.
    + injection Hi as -> ->. by apply Hfresh in Hi'.
    + congruence.
  - intros q p y [[<- <-]|[_ Hq]]%lookup_insert_Some Hq'; [|by eapply Hdisj].
    destruct y as [p' y]. eapply Hdead. right. by exists y.
Qed.

Lemma at_ok_step ord h s e s' : at_step ord s e s' → at_ok h s → at_ok (h ++ e) s'.
Proof.
  intros Hstep Hok. pose proof (ok_wf _ _ Hok) as Hg. pose proof (ok_disjoint _ _ Hok) as Hdisj.
  destruct Hstep as [req op s rs o d Hnew|req op r now_ns y s s' rs o d Ho Hr E
    |req op y r s rs o d Hd Ha|req op r s rs o d Ho Hl|now_ns s s' rs o d Hl E];
    cbn [at_ns at_requests at_open at_done] in *.
  - by apply (at_ok_invoked _ _ req op Hok).
  - refine (at_ok_silent _ _ _ _ _ Hok _ _ _); cbn [at_open at_done].
    + by eapply ns_serve_wf.
    + intros q p [Hne Hq]%lookup_delete_Some. split; [done|]. by rewrite lookup_insert_ne.
    + intros q p z [[<- [= <- <-]]|[_ Hq]]%lookup_insert_Some; [by left|]. right. by exists z.
  - refine (at_ok_answered _ _ req op r _ _ Hok _ _ _); cbn [at_open at_done].
    + right. by exists y.
    + intros q p Hq. split; [done|]. intros ->. by eapply Hdisj.
    + intros q p [Hne Hq]%lookup_delete_Some. by split.
  - refine (at_ok_answered _ _ req op r _ _ Hok _ _ _); cbn [at_open at_done].
    + by left.
    + intros q p [Hne Hq]%lookup_delete_Some. by split.
    + intros q p Hq. split; [done|]. intros ->. by eapply Hdisj.
  - refine (at_ok_silent _ _ _ _ _ Hok _ _ _); cbn [at_open at_done]; [|done|].
    + by apply (ns_tick_inv _ _ _ E Hg).
    + intros q p z Hq. right. by exists z.
Qed.

(** ** A directory made, and looked at afterwards *)

(** [req] is the only [mkdir] of this name. *)
Definition sole_mkdir (h : list fuse_event) (parent : Z) (name : string) (req : Z) : Prop :=
  ∀ q ctx mode, Inv q (OpMkdir ctx parent name mode) ∈ h → q = req.

(** The entry a [mkdir] is answered with. *)
Definition mkdir_entry (d : Dir) : fuse_entry_param :=
  ToFuseEntryParam opts (val (dir_id d)) (Dir_Stat d).

(** The request [req] has made a directory, which the entry [e] stands for. *)
Definition has_made (h : list fuse_event) (s : Atomic) (req : Z) (e : fuse_entry_param) : Prop :=
  (∃ op resp, at_done s !! req = Some (op, NsMkdirs (ROk resp)) ∧
     e = ToFuseEntryParam opts (sr_id resp) (resp_stat resp)) ∨
  Res req (ReplyEntry e) ∈ h.

(** It can be seen in the namespace. *)
Definition shown (d : Dir) (parent : Z) (name : string) (s : Ns) : Prop :=
  shows d s ∧ val (dir_parent_id d) = parent ∧ dir_name d = name ∧ 0 < val (dir_id d).

Lemma shown_served now_ns r s y s' d parent name :
  ns_serve now_ns r s = (Ret y, s') → ns_wf s →
  ¬ makes parent name (EvRequest now_ns r) → shown d parent name s → shown d parent name s'.
Proof.
  intros E Hg Hne (Hs & <- & <- & Hpos). split_and!; try done.
  destruct (ns_event_shows (EvRequest now_ns r) s (Some y) s' d) as [_ Hs']; [|done|by apply Hs'].
  cbn [ns_event]. by rewrite (bind_Ret _ _ _ _ _ E).
Qed.

Lemma shown_ticked now_ns s s' d parent name :
  ns_tick now_ns s = (Ret tt, s') → late (ns_loaded s) (ns_gen s) = false → ns_wf s →
  shown d parent name s → shown d parent name s'.
Proof.
  intros E Hl Hg (Hs & <- & <- & Hpos). split_and!; try done.
  destruct (ns_event_shows (EvTick now_ns) s None s' d) as [_ Hs'];
    [|done|apply Hs'; [by apply negb_true_iff|by intros []|done]].
  cbn [ns_event]. by rewrite (bind_Ret _ _ _ _ _ E).
Qed.

(** A request that makes a directory of this name is a [mkdir] of this name. *)
Lemma call_makes op r now_ns parent name :
  PrepareAsyncRpcCall op = Some r → makes parent name (EvRequest now_ns r) →
  ∃ ctx mode, op = OpMkdir ctx parent name mode.
Proof. destruct op; intros [= <-]; try done. intros [<- <-]. by eexists _, _. Qed.

Lemma mkdir_made now_ns ctx parent name mode s resp s' :
  ns_serve now_ns (FuseMkdirOp_call (FuseMkdirOp_req ctx parent name mode)) s
    = (Ret (NsMkdirs (ROk resp)), s') → ns_wf s →
  ∃ d, shown d parent name s' ∧ resp = mkdirs_resp d.
Proof.
  intros E Hg. cbn [ns_serve FuseMkdirOp_call] in E.
  apply bind_Ret_inv in E as (y & s1 & E & Ey). injection Ey as -> <-.
  destruct (ns_mkdirs_inv _ _ _ _ _ E Hg) as (d & -> & Hp & Hn & Hid & Hfs & Hgen & Hg').
  pose proof (idgen_wf_nonneg _ (proj1 Hg)). exists d. split; [|done].
  split; [|split; [exact Hp|split; [exact Hn|lia]]].
  split; rewrite ?Hfs; unfold fs_insert; cbn [fs_dents fs_inodes]; [by rewrite lookup_insert_eq..|lia].
Qed.

Lemma answer_mkdir ctx parent name mode y e :
  answer (OpMkdir ctx parent name mode) y (ReplyEntry e) →
  ∃ resp, y = NsMkdirs (ROk resp) ∧ e = ToFuseEntryParam opts (sr_id resp) (resp_stat resp).
Proof.
  unfold answer. destruct y as [p|[p|c]|[p|c]|[p|c]|[p|c]]; cbn; try done.
  intros [= ->]. by exists p.
Qed.

Section made.
Context (req : Z) (ctx : fuse_ctx) (parent : Z) (name : string) (mode : Z).
Let op_made : FuseOp := OpMkdir ctx parent name mode.

Definition made_ok (h : list fuse_event) (s : Atomic) : Prop :=
  at_ok h s ∧ (sole_mkdir h parent name req → Inv req op_made ∈ h → ∀ e, has_made h s req e →
    ∃ d, shown d parent name (at_ns s) ∧ e = mkdir_entry d).

Lemma made_ok_step h s ev s' : at_step in_time s ev s' → made_ok h s → made_ok (h ++ ev) s'.
Proof.
  intros Hstep [Hok Hmade]. split; [by eapply at_ok_step|]. intros Hsole Hinv e He.
  assert (sole_mkdir h parent name req) as Hsole0.
  { intros q c m Hq. apply (Hsole q c m), elem_of_app. by left. }
  assert (Inv req op_made ∈ h → has_made h s req e → ∃ d, shown d parent name (at_ns s) ∧ e = mkdir_entry d)
    as Hold by auto. clear Hmade.
  pose proof (ok_wf _ _ Hok) as Hg. unfold has_made in *.
  destruct Hstep as [q op ns rs o d Hnew|q op r now_ns y ns ns' rs o d Ho Hr E
    |q op y r ns rs o d Hd Ha|q op r ns rs o d Ho Hl|now_ns ns ns' rs o d Hl E];
    cbn [at_ns at_requests at_open at_done] in *.
  - apply elem_of_app in Hinv as [Hinv|[= -> <-]%list_elem_of_singleton].
    + apply Hold; [done|]. destruct He as [He|He]; [by left|right]. set_solver.
    + exfalso. apply Hnew. destruct He as [(op & resp & He & _)|He].
      * destruct (ok_live _ _ Hok q op) as [Hi _]; [right; by eexists|]. by apply (ok_seen _ _ Hok) in Hi.
      * apply elem_of_app in He as [He|[=]%list_elem_of_singleton]. by apply (ok_seen _ _ Hok) in He.
  - rewrite app_nil_r in *. destruct (ok_live _ _ Hok q op) as [Hq Hnq]; [by left|].
    destruct (decide (q = req)) as [->|Hne].
    + assert (op = op_made) as -> by (by eapply ok_inv_once). injection Hr as <-.
      destruct He as [(op & resp & He & ->)|He]; [|by apply Hnq in He].
      rewrite lookup_insert_eq in He. injection He as _ ->.
      destruct (mkdir_made _ _ _ _ _ _ _ _ E Hg) as (dir & Hs & ->). by exists dir.
    + destruct Hold as (dir & Hs & ->); [done|by rewrite lookup_insert_ne in He by done|].
      exists dir. split; [|done]. eapply shown_served; [exact E|done| |exact Hs].
      intros (c & m & ->)%(call_makes _ _ _ _ _ Hr). by apply Hsole0 in Hq.
  - apply elem_of_app in Hinv as [Hinv|[=]%list_elem_of_singleton].
    apply Hold; [done|]. destruct He as [(op' & resp & [_ He]%lookup_delete_Some & ->)|He].
    + left. by eexists _, _.
    + apply elem_of_app in He as [He|[= -> <-]%list_elem_of_singleton]; [by right|]. left.
      destruct (ok_live _ _ Hok q op) as [Hq _]; [right; by eexists|].
      assert (op = op_made) as -> by (by eapply ok_inv_once).
      apply answer_mkdir in Ha as (resp & -> & ->). by eexists _, _.
  - apply elem_of_app in Hinv as [Hinv|[=]%list_elem_of_singleton].
    apply Hold; [done|]. destruct He as [He|He]; [by left|right].
    apply elem_of_app in He as [He|[= -> <-]%list_elem_of_singleton]; [done|].
    destruct (ok_live _ _ Hok q op) as [Hq _]; [by left|].
    assert (op = op_made) as -> by (by eapply ok_inv_once). done.
  - rewrite app_nil_r in *. destruct Hold as (dir & Hs & ->); [done..|].
    exists dir. split; [|done]. eapply shown_ticked; eauto.
Qed.
End made.

(** What the namespace says when it is asked for the directory. *)
Inductive looks (d : Dir) : FuseOp → Response → Prop :=
| looks_lookup :
    looks d (OpLookup (val (dir_parent_id d)) (dir_name d)) (RespLookup (lookup_reply d))
| looks_getattr :
    looks d (OpGetAttr (val (dir_id d))) (RespGetInode (get_inode_reply d)).

Lemma looks_served d op x r now_ns s y s' :
  looks d op x → PrepareAsyncRpcCall op = Some r → ns_serve now_ns r s = (Ret y, s') →
  shows d s → ns_result y = inl x.
Proof.
  intros [] [= <-] E Hs; cbn in E; injection E as <- <-; unfold FuseLookupOp_req, FuseGetAttrOp_req.
  - by rewrite shows_lookup.
  - by rewrite shows_get_inode.
Qed.

Section looked.
Context (req : Z) (d : Dir) (parent : Z) (name : string) (q : Z) (op : FuseOp) (x : Response).
Hypothesis Hlooks : looks d op x.

(** After [req] has been answered, [q] is answered with what there is to see. *)
Definition looked_ok (h : list fuse_event) (s : Atomic) : Prop :=
  at_ok h s ∧ (sole_mkdir h parent name req →
    (∃ r, Res req r ∈ h) ∧ shown d parent name (at_ns s) ∧
    (∀ y, at_done s !! q = Some (op, y) → ns_result y = inl x) ∧
    (Inv q op ∈ h → ∀ r, Res q r ∈ h → success_reply opts op x r)).

Lemma looked_ok_step h s ev s' : at_step in_time s ev s' → looked_ok h s → looked_ok (h ++ ev) s'.
Proof.
  intros Hstep [Hok Hlook]. split; [by eapply at_ok_step|]. intros Hsole.
  assert (sole_mkdir h parent name req) as Hsole0.
  { intros q' c m Hq. apply (Hsole q' c m), elem_of_app. by left. }
  destruct (Hlook Hsole0) as ((r0 & Hr0) & Hs & Hdone & Hans). clear Hlook.
  pose proof (ok_wf _ _ Hok) as Hg.
  split; [exists r0; apply elem_of_app; by left|].
  destruct Hstep as [q' op' ns rs o dn Hnew|q' op' r now_ns y ns ns' rs o dn Ho Hr E
    |q' op' y r ns rs o dn Hd Ha|q' op' r ns rs o dn Ho Hl|now_ns ns ns' rs o dn Hl E];
    cbn [at_ns at_requests at_open at_done] in *.
  - split; [done|]. split; [done|]. intros Hi r [Hr|[=]%list_elem_of_singleton]%elem_of_app.
    apply elem_of_app in Hi as [Hi|[= -> <-]%list_elem_of_singleton]; [by eapply Hans|].
    by apply (ok_seen _ _ Hok) in Hr.
  - rewrite app_nil_r. destruct (ok_live _ _ Hok q' op') as [Hq Hnq]; [by left|]. split; [|split; [|done]].
    + eapply shown_served; [exact E|done| |exact Hs].
      intros (c & m & ->)%(call_makes _ _ _ _ _ Hr). apply Hsole0 in Hq as ->. by eapply Hnq.
    + intros z [[-> [= -> ->]]|[_ Hz]]%lookup_insert_Some; [|by apply Hdone].
      by eapply looks_served, Hs.
  - split; [done|]. split; [intros z [_ Hz]%lookup_delete_Some; by apply Hdone|].
    intros Hi z Hz. apply elem_of_app in Hi as [Hi|[=]%list_elem_of_singleton].
    apply elem_of_app in Hz as [Hz|[= <- ->]%list_elem_of_singleton]; [by apply Hans|].
    destruct (ok_live _ _ Hok q op') as [Hq _]; [right; by eexists|].
    assert (op' = op) as -> by (by eapply ok_inv_once). apply Hdone in Hd.
    unfold answer in Ha. by rewrite Hd in Ha.
  - split; [done|]. split; [done|]. intros Hi z Hz.
    apply elem_of_app in Hi as [Hi|[=]%list_elem_of_singleton].
    apply elem_of_app in Hz as [Hz|[= <- ->]%list_elem_of_singleton]; [by apply Hans|].
    destruct (ok_live _ _ Hok q op') as [Hq _]; [by left|].
    assert (op' = op) as -> by (by eapply ok_inv_once). by destruct Hlooks.
  - rewrite app_nil_r. split; [eapply shown_ticked; eauto|]. by split.
Qed.
End looked.

(** A request is invoked once. *)
Lemma invoked_new ord n s h s' q op :
  runs (at_step ord) n s h s' → Inv q op ∈ h → q ∉ at_requests s.
Proof.
  induction 1 as [s|n s e s1 h s2 Hs _ IH]; [by intros ?%elem_of_nil|].
  intros [Hi|Hi%IH]%elem_of_app; destruct Hs; cbn in *;
    try (by apply elem_of_nil in Hi); try apply list_elem_of_singleton in Hi; set_solver.
Qed.

(** A [mkdir] answered, and a look at the directory asked for afterwards. *)
Lemma atomic_read_after_mkdir ns h1 s1 h2 s2 n1 n2 req ctx parent name mode e q op r :
  ns_wf ns →
  runs (at_step in_time) n1 (at_init ns) h1 s1 → runs (at_step in_time) n2 s1 h2 s2 →
  sole_mkdir (h1 ++ h2) parent name req →
  Inv req (OpMkdir ctx parent name mode) ∈ h1 → Res req (ReplyEntry e) ∈ h1 →
  Inv q op ∈ h2 → Res q r ∈ h1 ++ h2 →
  ∃ d, e = mkdir_entry d ∧ is_u64 (val (dir_id d)) ∧ val (dir_parent_id d) = parent ∧ dir_name d = name ∧
    ∀ x, looks d op x → success_reply opts op x r.
Proof.
  intros Hg Hr1 Hr2 Hsole Hmk Hres Hask Hans.
  assert (sole_mkdir h1 parent name req) as Hsole1.
  { intros q' c m Hq. apply (Hsole q' c m), elem_of_app. by left. }
  destruct (runs_invariant _ _ (made_ok_step req ctx parent name mode) _ _ _ _ Hr1 [])
    as [Hok Hmade].
  { split; [by apply at_ok_init|]. intros _ Hi. by apply elem_of_nil in Hi. }
  cbn [app] in *. destruct (Hmade Hsole1 Hmk e) as (d & Hs & ->); [by right|].
  exists d. split; [done|]. destruct Hs as (Hs & Hp & Hn & Hpos). split.
  { pose proof (shows_id _ _ Hs). destruct (ok_wf _ _ Hok) as [(? & ? & ?) _]. unfold is_u64, id_base in *. lia. }
  split; [done|]. split; [done|]. intros x Hlooks.
  assert (q ∉ at_requests s1) as Hfresh by (by eapply invoked_new).
  destruct (runs_invariant _ _ (looked_ok_step req d parent name q op x Hlooks) _ _ _ _ Hr2 h1)
    as [_ Hlook].
  - split; [done|]. intros _. split; [by eexists|]. split; [by split_and!|]. split.
    + intros y Hy. destruct (ok_live _ _ Hok q op) as [Hi _]; [right; by eexists|].
      by apply (ok_seen _ _ Hok) in Hi.
    + intros Hi. by apply (ok_seen _ _ Hok) in Hi.
  - destruct (Hlook Hsole) as (_ & _ & _ & Hr). apply Hr; [|done]. apply elem_of_app. by right.
Qed.
End atomic.
