(* ===== verification/Linearize.v ===== *)
(** The client and the namenode together are the atomic object of Atomic.v: whatever the
    kernel sees of them over any interleaving, in whatever order, it could have seen of
    one file system that serves each request at one instant ([system_linearizable]).
    What the object guarantees of histories then holds of the two programs
    ([read_after_mkdir]). *)

From Stdlib Require Import ZArith Lia Ascii String.
From stdpp Require Import prelude strings gmap sets relations.
From S2P Require Import Prelude Traces Common Types IdGen KVStoreBase RocksDB Conflict Serde.
From S2P Require Import Tables Proto Service System Namespace Visibility Restart Fuse Proxy EndToEnd.
From S2P Require Import Atomic.

#[local] Open Scope Z_scope.

(** ** What a step of the two programs shows the kernel *)

Definition invoked (asked asked' : gmap Z FuseOp) : list fuse_event :=
  (λ x, Inv x.1 x.2) <$> map_to_list (asked' ∖ asked).
Definition answered (rs rs' : list (Z * fuse_reply)) : list fuse_event :=
  (λ x, Res x.1 x.2) <$> reverse (take (length rs' - length rs) rs').

Definition whole_events {K} (w w' : Whole K) : list fuse_event :=
  invoked (wh_asked w) (wh_asked w') ++
  answered (px_replies (wh_proxy w)) (px_replies (wh_proxy w')).

Section linearize.
Context {K T : Type} `{KVStoreBase K T, KVStoreSpec K, TxnSpec T, DirTableBase T,
  DEntViewBase T, FSRep, Fmt, Build, Flags, LibFuse, !KVStoreLaws K T, !DirTableLaws T,
  !DEntViewLaws T} (opts : FuseOptions).

Definition whole_does (ord : order) (w : Whole K) (h : list fuse_event) (w' : Whole K) : Prop :=
  whole_step (T := T) opts w w' ∧ h = whole_events w w' ∧ (ord = in_time → ¬ stores_late w w').

(** ** Events of each kind of step *)

Lemma invoked_none asked : invoked asked asked = [].
Proof. unfold invoked. by rewrite map_difference_diag, map_to_list_empty. Qed.

Lemma invoked_one (asked : gmap Z FuseOp) req op :
  asked !! req = None → invoked asked (<[req := op]> asked) = [Inv req op].
Proof.
  intros Hn. unfold invoked.
  replace (<[req := op]> asked ∖ asked) with ({[req := op]} : gmap Z FuseOp).
  - by rewrite map_to_list_singleton.
  - apply map_eq. intros q. rewrite lookup_difference.
    destruct (decide (q = req)) as [->|Hne].
    + by rewrite Hn, lookup_insert_eq, lookup_singleton_eq.
    + rewrite lookup_insert_ne, lookup_singleton_ne by done. by destruct (asked !! q).
Qed.

Lemma answered_none rs : answered rs rs = [].
Proof. unfold answered. by rewrite Nat.sub_diag. Qed.

Lemma answered_one rs req r : answered rs ((req, r) :: rs) = [Res req r].
Proof.
  unfold answered. cbn [length]. by replace (S (length rs) - length rs)%nat with 1%nat by lia.
Qed.

(** ** The simulation *)

(** What came back for a request, and what the namespace said. *)
Definition matches (x : Response) (y : NsReply) : Prop :=
  resp_agrees x y ∧ match ns_result y with inl x' => resp_error x' = 0 | inr _ => True end.

Lemma ns_serve_code now_ns r s y s' :
  ns_serve now_ns r s = (Ret y, s') →
  match ns_result y with inl x => resp_error x = 0 | inr _ => True end.
Proof.
  intros E. destruct r as [p|q|q|q|q]; cbn in E.
  1-4: injection E as <- <-; cbn [ns_result].
  - done.
  - unfold get_inode_spec. by destruct (fs_dir _ _).
  - unfold lookup_spec. by destruct (fs_dent _ _ _) as [[]|].
  - unfold list_dir_spec. destruct (fs_dir _ _); [|done]. by destruct (granted _ _ _).
  - apply bind_Ret_inv in E as (x & s1 & E & Ey). injection Ey as <- <-.
    unfold ns_mkdirs in E. destruct (mkdirs_spec _ _); [|by injection E as <- <-].
    destruct (Next _) as [[id|w|] g]; try done. by injection E as <- <-.
Qed.

Lemma reply_matches op x y r : matches x y → reply_for opts op x r → answer opts op y r.
Proof.
  unfold reply_for, answer. intros [Ha Hcode].
  destruct x as [p|p|p|p|p], y as [q|[q|c]|[q|c]|[q|c]|[q|c]]; try done; cbn in Ha, Hcode |- *.
  1,3,5,7: subst; by rewrite Hcode.
  all: (apply error_reply_code in Ha || apply list_error_reply_code in Ha); rewrite Ha;
    by destruct (Z.eqb_spec (StatusCode_to_int c) 0) as [E%StatusCode_to_int_ne0|].
Qed.

(** The two programs with [n] steps to come, and the object. *)
Record proxy_sim (p : Proxy) (asked : gmap Z FuseOp) (s : Atomic) : Prop := {
  sim_proxy : px_inv p;
  sim_requests : at_requests s = px_requests p;
  sim_asked req : is_Some (asked !! req) → req ∈ px_requests p;
  sim_op a req op : px_ops p !! a = Some (req, op) → op_ok op;
  sim_open a req op : a ∈ px_calls p → px_ops p !! a = Some (req, op) → at_open s !! req = Some op;
  sim_done a x req op : (a, Some x) ∈ px_queue p → px_ops p !! a = Some (req, op) →
    ∃ y, at_done s !! req = Some (op, y) ∧ matches x y;
}.

Definition whole_sim (n : nat) (w : Whole K) (s : Atomic) : Prop :=
  srv_ready n (ns_fs (at_ns s)) (wh_srv w) ∧ at_ns s = ns_of (ns_fs (at_ns s)) (wh_srv w) ∧
  proxy_sim (wh_proxy w) (wh_asked w) s.

(** A callback: the request is invoked, and answered if no RPC is needed. *)
Lemma sim_ask ord req op p p' asked s :
  op_ok op → px_does opts (Asks req op) p p' → proxy_sim p asked s →
  invoked asked (<[req := op]> asked) = [Inv req op] ∧
  ∃ m s', runs (at_step opts ord) m s (Inv req op :: answered (px_replies p) (px_replies p')) s' ∧
    at_ns s' = at_ns s ∧ proxy_sim p' (<[req := op]> asked) s'.
Proof.
  intros Hok Hdoes [Hp Hreq Hask Hop Hopen Hdone].
  assert (px_inv p') as Hp' by (by eapply px_inv_step; [eexists|]).
  inversion Hdoes as [? a ? ? p1 _ Hnew Ha E| | | |]; subst.
  assert (asked !! req = None) as Hn.
  { destruct (asked !! req) eqn:Ea; [|done]. exfalso. apply Hnew, Hask. by eexists. }
  split; [by apply invoked_one|].
  assert (∀ b rq o, px_ops p !! b = Some (rq, o) → rq ≠ req) as Hother.
  { intros b rq o Hb ->. by apply (inv_request p Hp) in Hb. }
  assert (∀ rq, is_Some (<[req:=op]> asked !! rq) → rq ∈ {[req]} ∪ px_requests p) as Hask'.
  { intros rq [o [[-> _]|[_ Ho]]%lookup_insert_Some]; [set_solver|].
    apply elem_of_union. right. apply Hask. by eexists. }
  destruct s as [ns rs o d]. cbn [at_ns at_requests at_open at_done] in *. subst rs.
  pose proof (at_invoke opts ord req op ns (px_requests p) o d Hnew) as Hinvoke.
  destruct (CreateOp_effect _ _ _ _ _ E) as [(r & c & Hlocal & ->)| ->].
  - cbn [set_client set_life px_replies]. rewrite answered_one.
    exists 2%nat. eexists. split; [|split].
    + apply (runs_cons _ 1 _ [Inv req op] _ [Res req r] _ Hinvoke).
      apply runs_one, (at_local opts ord req op); [apply lookup_insert_eq | exact Hlocal].
    + done.
    + split; try exact Hp'; try done; cbn.
      * intros b rq o' Hb Ho. rewrite lookup_delete_ne, lookup_insert_ne by (symmetry; by eapply Hother).
        by eapply Hopen.
  - cbn [set_ops set_life px_replies]. rewrite answered_none.
    exists 1%nat. eexists. split; [by apply runs_one|]. split; [done|].
    split; try exact Hp'; try done; cbn.
    + intros b rq o' [[-> [= <- <-]]|[_ Hb]]%lookup_insert_Some; [done|by eapply Hop].
    + intros b rq o' Hb [[-> [= <- <-]]|[Hne Ho]]%lookup_insert_Some; [by rewrite lookup_insert_eq|].
      rewrite lookup_insert_ne by (symmetry; by eapply Hother). eapply Hopen; [|exact Ho]. set_solver.
    + intros b x rq o' Hb [[-> [= <- <-]]|[Hne Ho]]%lookup_insert_Some; [|by eapply Hdone].
      destruct (inv_tag p Hp _ _ Hb) as (? & ? & Hx & _). congruence.
Qed.

(** The client on its own: a turn of the completion thread answers. *)
Lemma sim_client ord p p' asked s :
  px_does opts Internal p p' → proxy_sim p asked s →
  ∃ m s', runs (at_step opts ord) m s (answered (px_replies p) (px_replies p')) s' ∧
    at_ns s' = at_ns s ∧ proxy_sim p' asked s'.
Proof.
  intros Hdoes [Hp Hreq Hask Hop Hopen Hdone].
  assert (px_inv p') as Hp' by (by eapply px_inv_step; [eexists|]).
  inversion Hdoes as [| |pa ? ? _ _ _ E| |? ? _ E]; subst.
  - destruct (turn_effect _ _ _ _ E) as (a & res & l & req & op & Eq & Ha & Heff).
    assert (∀ b x, (b, x) ∈ l → (b, x) ∈ px_queue p) as Hl by (intros; rewrite Eq; set_solver).
    destruct res as [x|]; [destruct Heff as (rep & c & -> & Hrep)|subst p'].
    + destruct (Hdone a x req op) as (y & Hy & Hm); [rewrite Eq; set_solver | exact Ha |].
      cbn [set_ops set_client px_replies]. rewrite answered_one.
      destruct s as [ns rs o d]. cbn [at_ns at_requests at_open at_done] in *.
      exists 1%nat. eexists. split; [|split].
      * apply runs_one, (at_respond opts ord req op y); [exact Hy | by eapply reply_matches].
      * done.
      * set (ops' := if resp_error x =? 0 then delete a (px_ops p) else px_ops p) in *.
        assert (∀ b v, ops' !! b = Some v → px_ops p !! b = Some v) as Hsub.
        { intros b v. unfold ops'. destruct (_ =? _); [|done]. by rewrite lookup_delete_Some; intros []. }
        split; try exact Hp'; try done; cbn.
        -- intros b rq o' Hb%Hsub. by eapply Hop.
        -- intros b rq o' Hb Ho%Hsub. by eapply Hopen.
        -- intros b z rq o' Hb Ho%Hsub.
           destruct (Hdone b z rq o' (Hl _ _ Hb) Ho) as (y' & Hy' & Hm'). exists y'. split; [|done].
           rewrite lookup_delete_ne; [done|]. intros ->.
           assert (a = b) as <- by (by eapply (inv_inj p)).
           pose proof (inv_queue p Hp) as Hnd. rewrite Eq in Hnd. apply NoDup_cons in Hnd as [Hna _].
           apply Hna. by apply (list_elem_of_fmap_2 fst _ (a, Some z)).
    + cbn [set_ops px_replies]. rewrite answered_none.
      exists 0%nat, s. split; [constructor|]. split; [done|].
      split; try exact Hp'; try done; cbn. intros b x rq o' Hb. apply Hdone. by apply Hl.
  - cbn [Destroy_Shutdown set_life px_replies]. rewrite answered_none. exists 0%nat, s. split; [constructor|]. by split.
  - unfold Destroy_join in E. case_decide; [|done]. injection E as <-.
    cbn [set_life px_replies]. rewrite answered_none. exists 0%nat, s. split; [constructor|]. by split.
Qed.

(** An RPC that failed, served or not. *)
Lemma sim_failed a p asked s :
  a ∈ px_calls p → proxy_sim p asked s → proxy_sim (complete_rpc a None p) asked s.
Proof.
  intros Ha [Hp Hreq Hask Hop Hopen Hdone].
  destruct (inv_calls p Hp a Ha) as [[[req op] Ho] _].
  split; try done; cbn.
  - by eapply px_inv_complete.
  - intros b rq o' Hb. apply Hopen. set_solver.
  - intros b x rq o' [Hb|[=]%list_elem_of_singleton]%elem_of_app. by apply Hdone.
Qed.

(** An RPC that the namenode serves takes effect. *)
Lemma sim_served ord now_ns a req op r x y res p asked s s' :
  a ∈ px_calls p → px_ops p !! a = Some (req, op) → PrepareAsyncRpcCall op = Some r →
  ns_serve now_ns r (at_ns s) = (Ret y, s') → resp_agrees x y → resp_fits op (Some x) →
  res = Some x ∨ res = None → proxy_sim p asked s →
  ∃ a', runs (at_step opts ord) 1 s [] a' ∧ at_ns a' = s' ∧ proxy_sim (complete_rpc a res p) asked a'.
Proof.
  intros Ha Ho Hr E Hagree Hfit Hres [Hp Hreq Hask Hop Hopen Hdone].
  destruct s as [ns rs o d]. cbn [at_ns at_requests at_open at_done] in *.
  pose proof (Hopen a req op Ha Ho) as Hor.
  assert (∀ b rq o', px_ops p !! b = Some (rq, o') → b ≠ a → rq ≠ req) as Hother.
  { intros b rq o' Hb Hne ->. by eapply Hne, (inv_inj p). }
  assert (∀ b z, (b, z) ∈ px_queue p → b ≠ a) as Hq.
  { intros b z Hb ->. apply (proj2 (inv_calls p Hp a Ha)). by apply (list_elem_of_fmap_2 fst _ (a, z)). }
  eexists. split; [by apply runs_one, (at_perform opts ord req op r now_ns y)|]. split; [done|].
  split; try done; cbn [complete_rpc set_ops px_calls px_ops px_queue px_requests at_open at_done].
  - eapply px_inv_complete; try done. by destruct Hres as [-> | ->].
  - intros b rq o' [Hb Hne%not_elem_of_singleton]%elem_of_difference Hb'.
    rewrite lookup_delete_ne by (symmetry; by eapply Hother). by eapply Hopen.
  - intros b z rq o' [Hb|[= -> Hz]%list_elem_of_singleton]%elem_of_app Hb'.
    + destruct (Hdone _ _ _ _ Hb Hb') as (y' & Hy' & Hm). exists y'. split; [|done].
      rewrite lookup_insert_ne; [done|]. symmetry. eapply Hother; [exact Hb'|by eapply Hq].
    + rewrite Ho in Hb'. injection Hb' as <- <-. exists y. rewrite lookup_insert_eq. split; [done|].
      destruct Hres as [-> | ->]; [injection Hz as ->|done]. split; [done|]. by eapply ns_serve_code.
Qed.

Lemma whole_simulates ord :
  flags_ok → simulates (whole_does ord) (at_step opts ord) whole_sim.
Proof.
  intros Hfl n w h w' s (Hstep & -> & Hord) (Hs & Hns & Hsim). unfold stores_late in Hord.
  pose proof (srv_ready_less n _ _ Hs) as Hs1.
  destruct Hstep as [req op p p' v asked Hok Hdoes|p p' v asked Hdoes
    |now_ns a req op r resp res p c c' l asked Ha Hop Hr Hnow E Hres|a p v asked Ha|now_ns p v v' asked E];
    unfold whole_events, whole_sim; cbn [wh_srv wh_proxy wh_asked] in *.
  - destruct (sim_ask ord req op p p' asked s Hok Hdoes Hsim) as (-> & m & s' & Hr & Hn & Hsim').
    exists m, s'. split; [exact Hr|]. rewrite Hn. by split_and!.
  - rewrite invoked_none. destruct (sim_client ord p p' asked s Hdoes Hsim) as (m & s' & Hr & Hn & Hsim').
    exists m, s'. split; [exact Hr|]. rewrite Hn. by split_and!.
  - rewrite invoked_none. cbn [complete_rpc set_ops px_replies]. rewrite answered_none.
    destruct (served_agrees now_ns r n c l _ resp c' Hfl Hs (op_req_ok _ _ (sim_op _ _ _ Hsim _ _ _ Hop) Hr)
      Hnow E) as (y & fs' & En & Hy & Hs'). rewrite <- Hns in En.
    destruct (sim_served ord now_ns a req op r resp y res p asked s _ Ha Hop Hr En Hy) as (s' & Hr' & Hn & Hsim');
      try done.
    { by eapply serve_fits. }
    exists 1%nat, s'. split; [exact Hr'|]. rewrite Hn. by split_and!.
  - rewrite invoked_none. cbn [complete_rpc set_ops px_replies]. rewrite answered_none.
    exists 0%nat, s. split; [constructor|]. split_and!; try done. by apply sim_failed.
  - rewrite invoked_none, answered_none.
    destruct (ticked_agrees now_ns n v _ v' Hs E) as [En Hs']. rewrite <- Hns in En.
    destruct s as [ns rs o d]. cbn [at_ns] in *.
    exists 1%nat. eexists. split; [apply runs_one; eapply at_tick; [|exact En]|].
    + intros Hin. apply not_true_is_false. rewrite Hns. cbn [ns_of ns_loaded ns_gen]. intros Hl.
      apply (Hord Hin). split; [exact Hl|]. by eapply tick_stores.
    + split_and!; try done. by destruct Hsim.
Qed.

(** ** Theorems *)

Lemma whole_sim_start n (k : K) c fs mount p :
  kv_ok k → fs_rep (kv_contents k) fs → kv_quiet n k → NameNodeCtx_Start k = Ret c →
  Init (Some mount) px_new = (Ret tt, p) →
  whole_sim n {| wh_proxy := p; wh_srv := srv_start c; wh_asked := ∅ |}
    (at_init (ns_of fs (srv_start c))).
Proof.
  intros Hk Hrep Hq Hstart Hinit. pose proof (Start_eval k c Hstart) as ->.
  split; [split; [split; [|split; [|exact start_gen_wf]]; done|by split]|]. split; [done|].
  unfold Init, bind, modify, Check in Hinit. injection Hinit as <-.
  split; cbn; try set_solver; try (intros; by simplify_map_eq).
  pose proof px_inv_new as Hinv. by destruct Hinv.
Qed.

(** C5: from the start of both programs on a database that
    represents [fs], whatever the kernel sees over any interleaving of its requests, the
    threads of the client, gRPC and the two threads of the namenode in which the store
    works -- the requests it makes and the replies it gets, in their order -- is also a
    history of the atomic object started on [fs], which serves each request at one
    instant between its invocation and its response, with the IDs its generator then
    has; the manager's thread may load and store those at any time on both sides.  In
    the end the database represents the namespace of the object, and the generators are
    the same. *)
Theorem system_linearizable (n : nat) (k : K) (c : NameNodeCtx K) (fs : FS)
    (mount : StatResponse) (p : Proxy) (h : list fuse_event) (w : Whole K)
    (Hfl : flags_ok) (Hk : kv_ok k) (Hrep : fs_rep (kv_contents k) fs) (Hq : kv_quiet n k)
    (Hstart : NameNodeCtx_Start k = Ret c) (Hinit : Init (Some mount) px_new = (Ret tt, p))
    (Hrun : runs (whole_does any_time) n
              {| wh_proxy := p; wh_srv := srv_start c; wh_asked := ∅ |} h w) :
  ∃ m s, runs (at_step opts any_time) m (at_init (ns_of fs (srv_start c))) h s ∧
    fs_rep (kv_contents (kv_store_ (srv_ctx (wh_srv w)))) (ns_fs (at_ns s)) ∧
    srv_gen (wh_srv w) = ns_gen (at_ns s) ∧ srv_loaded (wh_srv w) = ns_loaded (at_ns s).
Proof.
  destruct (runs_simulated _ _ whole_sim n 0 _ h w _ (whole_simulates any_time Hfl) Hrun
    ltac:(rewrite Nat.add_0_r; by apply (whole_sim_start _ k c fs mount p)))
    as (m & s & Hr & (Hc & _) & Hns & _).
  exists m, s. split; [exact Hr|]. split; [apply Hc|]. by rewrite Hns.
Qed.

(** C7: once a [mkdir] has been answered with an entry, and if no
    other [mkdir] of that name is ever requested, a [lookup] of the name requested later
    is answered with the same inode, never with an error, and a [getattr] of the inode
    with its number and its modification time, whatever else the kernel asks for in the
    meantime or at the same time, and however the threads and gRPC interleave, as long
    as the store works and no store of [Update] comes after [Next] has passed its
    timestamp. *)
Theorem read_after_mkdir (n1 n2 : nat) (k : K) (c : NameNodeCtx K) (fs : FS)
    (mount : StatResponse) (p : Proxy) (h1 h2 : list fuse_event) (w1 w2 : Whole K)
    (req : Z) (ctx : fuse_ctx) (parent : Z) (name : string) (mode : Z) (e : fuse_entry_param)
    (q : Z) (op : FuseOp) (r : fuse_reply)
    (Hfl : flags_ok) (Hk : kv_ok k) (Hrep : fs_rep (kv_contents k) fs) (Hq : kv_quiet (n1 + n2) k)
    (Hstart : NameNodeCtx_Start k = Ret c) (Hinit : Init (Some mount) px_new = (Ret tt, p))
    (Hrun1 : runs (whole_does in_time) n1
               {| wh_proxy := p; wh_srv := srv_start c; wh_asked := ∅ |} h1 w1)
    (Hrun2 : runs (whole_does in_time) n2 w1 h2 w2)
    (Hsole : sole_mkdir (h1 ++ h2) parent name req)
    (Hmkdir : Inv req (OpMkdir ctx parent name mode) ∈ h1) (Hmade : Res req (ReplyEntry e) ∈ h1)
    (Hasked : Inv q op ∈ h2) (Hreply : Res q r ∈ h1 ++ h2) :
  (op = OpLookup parent name → ∃ e', r = ReplyEntry e' ∧ fe_ino e' = fe_ino e) ∧
  (op = OpGetAttr (fe_ino e) → ∃ st timeout, r = ReplyAttr st timeout ∧ lx_ino st = fe_ino e ∧
     lx_mtime st = lx_mtime (fe_attr e)).
Proof.
  destruct (runs_simulated _ _ whole_sim n1 n2 _ h1 w1 _ (whole_simulates in_time Hfl) Hrun1
    (whole_sim_start _ k c fs mount p Hk Hrep Hq Hstart Hinit)) as (m1 & s1 & Hr1 & Hsim).
  destruct (runs_simulated _ _ whole_sim n2 0 _ h2 w2 s1 (whole_simulates in_time Hfl) Hrun2
    ltac:(by rewrite Nat.add_0_r)) as (m2 & s2 & Hr2 & _).
  destruct (atomic_read_after_mkdir opts (ns_of fs (srv_start c)) h1 s1 h2 s2
    m1 m2 req ctx parent name mode e q op r) as (d & -> & Hid & <- & <- & Hlook); try done.
  { rewrite (Start_eval k c Hstart). split; [exact start_gen_wf|done]. }
  split; intros ->.
  - pose proof (Hlook _ (looks_lookup d)) as Hr. cbn in Hr. subst r. eexists. split; [done|].
    cbn. by apply u64_i64.
  - pose proof (Hlook _ (looks_getattr d)) as Hr. cbn in Hr. subst r. by eexists _, _.
Qed.
End linearize.

(** ** At concrete inputs *)

Section demo.
#[local] Existing Instances MemDB MemDBSpec MemDBLaws demo_fmt demo_build demo_be demo_fb
  demo_be_laws demo_fb_laws default_flags demo_fuse.

(** Root has made "b", as in EndToEnd.v; now it looks "b" up. *)
Definition demo_lookup_b : FuseOp := OpLookup 1 "b".
Definition demo_p6 : Proxy := after_callback 2 101 demo_lookup_b (wh_proxy demo_w5).
Definition demo_asked6 : gmap Z FuseOp := <[2 := demo_lookup_b]> {[ 1 := demo_mkdir_b ]}.
Definition demo_answer6 : outcome Response * NameNodeCtx RocksDBKVStore :=
  serve (T := RocksDBTxn) 51 (ReqLookup (FuseLookupOp_req 1 "b")) demo_answer.2.
Definition demo_resp6 : Response :=
  RespLookup (lookup_reply (mkdirs_dir root_dir {| val := 1051989126 |} 50
    (FuseMkdirOp_req {| ctx_uid := 0; ctx_gid := 0 |} 1 "b" 511))).
Definition demo_w6 : Whole RocksDBKVStore :=
  {| wh_proxy := demo_p6; wh_srv := srv_start demo_answer.2; wh_asked := demo_asked6 |}.
Definition demo_w7 : Whole RocksDBKVStore :=
  {| wh_proxy := complete_rpc 101 (Some demo_resp6) demo_p6; wh_srv := srv_start demo_answer6.2;
     wh_asked := demo_asked6 |}.
Definition demo_w8 : Whole RocksDBKVStore :=
  {| wh_proxy := after_turn 9 (complete_rpc 101 (Some demo_resp6) demo_p6); wh_srv := srv_start demo_answer6.2;
     wh_asked := demo_asked6 |}.

Definition demo_entry_mkdir : fuse_entry_param :=
  mkdir_entry demo_opts (mkdirs_dir root_dir {| val := 1051989126 |} 50
    (FuseMkdirOp_req {| ctx_uid := 0; ctx_gid := 0 |} 1 "b" 511)).
Definition demo_entry_lookup : fuse_entry_param :=
  ToFuseEntryParam demo_opts 1051989126
    (resp_stat (lookup_reply (mkdirs_dir root_dir {| val := 1051989126 |} 50
       (FuseMkdirOp_req {| ctx_uid := 0; ctx_gid := 0 |} 1 "b" 511)))).
Definition demo_h1 : list fuse_event := [Inv 1 demo_mkdir_b; Res 1 (ReplyEntry demo_entry_mkdir)].
Definition demo_h2 : list fuse_event := [Inv 2 demo_lookup_b; Res 2 (ReplyEntry demo_entry_lookup)].

(** A step of the two programs, in a run, with no late store. *)
Lemma runs_does ord n w e w1 h w2 :
  late (srv_loaded (wh_srv w)) (srv_gen (wh_srv w)) = false →
  whole_step (T := RocksDBTxn) demo_opts w w1 → whole_events w w1 = e →
  runs (whole_does (T := RocksDBTxn) demo_opts ord) n w1 h w2 →
  runs (whole_does (T := RocksDBTxn) demo_opts ord) (1 + n) w (e ++ h) w2.
Proof.
  intros Hl Hs <- Hr. eapply runs_cons; [|exact Hr]. split; [done|]. split; [done|].
  intros _ [Hl' _]. congruence.
Qed.

Lemma demo_runs1 ord : runs (whole_does (T := RocksDBTxn) demo_opts ord) 5 demo_w0 demo_h1 demo_w5.
Proof.
  change demo_h1 with ([] ++ [Inv 1 demo_mkdir_b] ++ [] ++ [] ++ [Res 1 (ReplyEntry demo_entry_mkdir)] ++ []).
  apply (runs_does ord 4 _ _ demo_w1); [reflexivity | exact demo_step1 | vm_compute; reflexivity |].
  apply (runs_does ord 3 _ _ demo_w2); [reflexivity | exact demo_step2 | vm_compute; reflexivity |].
  apply (runs_does ord 2 _ _ demo_w3); [reflexivity | exact demo_step3 | vm_compute; reflexivity |].
  apply (runs_does ord 1 _ _ demo_w4); [reflexivity | exact demo_step4 | vm_compute; reflexivity |].
  apply (runs_does ord 0 _ _ demo_w5); [reflexivity | exact demo_step5 | vm_compute; reflexivity |].
  constructor.
Qed.

Lemma demo_runs2 : runs (whole_does (T := RocksDBTxn) demo_opts in_time) 3 demo_w5 demo_h2 demo_w8.
Proof.
  change demo_h2 with ([Inv 2 demo_lookup_b] ++ [] ++ [Res 2 (ReplyEntry demo_entry_lookup)] ++ []).
  apply (runs_does in_time 2 _ _ demo_w6); [reflexivity | | vm_compute; reflexivity |].
  { apply (wh_asks demo_opts 2 demo_lookup_b _ demo_p6); [by vm_compute|].
    apply (px_callback demo_opts 2 101 demo_lookup_b); [done | decide_closed | done | reflexivity]. }
  apply (runs_does in_time 1 _ _ demo_w7); [reflexivity | | vm_compute; reflexivity |].
  { eapply (wh_served demo_opts 51 101 2 demo_lookup_b _ demo_resp6 (Some demo_resp6) demo_p6
      demo_answer.2 demo_answer6.2); [decide_closed | done | done | vm_compute; done | | by left].
    change (serve 51 _ demo_answer.2) with demo_answer6.
    by rewrite (surjective_pairing demo_answer6) at 1. }
  apply (runs_does in_time 0 _ _ demo_w8); [reflexivity | | vm_compute; reflexivity | constructor].
  apply wh_client. by apply (px_finish demo_opts 9).
Qed.

Lemma demo_quiet_start :
  kv_quiet (KVStoreSpec := RocksDBKVStore_KVStoreSpec) 5 demo_store ∧
  kv_quiet (KVStoreSpec := RocksDBKVStore_KVStoreSpec) (5 + 3) demo_store.
Proof. split; (split; [by split; intros; [|exact I]|]); split_and!; reflexivity || done. Qed.

Lemma system_linearizable_witness :
  ∃ m s, runs (at_step demo_opts any_time) m (at_init (ns_of fs_empty (srv_start demo_start))) demo_h1 s ∧
    fs_rep (kv_contents (kv_store_ (srv_ctx (wh_srv demo_w5)))) (ns_fs (at_ns s)).
Proof.
  destruct (system_linearizable (K := RocksDBKVStore) (T := RocksDBTxn) demo_opts 5 demo_store
    demo_start fs_empty demo_mountpoint demo_px0 demo_h1 demo_w5 demo_flags_ok demo_store_ok
    kv_rep_empty (proj1 demo_quiet_start) demo_start_eval eq_refl (demo_runs1 any_time)) as (m & s & Hr & Hrep & _).
  exists m, s. by split.
Defined.

Lemma read_after_mkdir_witness :
  ∃ e', ReplyEntry demo_entry_lookup = ReplyEntry e' ∧ fe_ino e' = fe_ino demo_entry_mkdir.
Proof.
  destruct (read_after_mkdir (K := RocksDBKVStore) (T := RocksDBTxn) demo_opts 5 3 demo_store
    demo_start fs_empty demo_mountpoint demo_px0 demo_h1 demo_h2 demo_w5 demo_w8 1
    {| ctx_uid := 0; ctx_gid := 0 |} 1 "b" 511 demo_entry_mkdir 2 demo_lookup_b
    (ReplyEntry demo_entry_lookup) demo_flags_ok demo_store_ok
    kv_rep_empty (proj2 demo_quiet_start) demo_start_eval eq_refl (demo_runs1 in_time) demo_runs2) as [Hl _].
  - intros q c m Hin. cbn in Hin. apply elem_of_cons in Hin as [[= -> _ _]|Hin]; [done|].
    by repeat apply elem_of_cons in Hin as [[=]|Hin]; apply elem_of_nil in Hin.
  - apply elem_of_cons. by left.
  - apply elem_of_cons. right. apply elem_of_cons. by left.
  - apply elem_of_cons. by left.
  - apply elem_of_app. right. apply elem_of_cons. right. apply elem_of_cons. by left.
  - by apply Hl.
Defined.
End demo.
