(* ===== verification/Main.v ===== *)
(** The two programs: [main] of src/client/fuse/fuse_main.cc and of
    src/namenode/service/client_namenode_service_main.cc.

    The client's [main] acquires its resources one after the other and registers the
    release of each with [DEFER] (src/common/defer.h), whose cleanup runs when its scope
    is left.  Nothing catches the exception a failed check throws.  Whether the stack is
    unwound before [std::terminate] is then implementation-defined
    (section except.terminate of the C++ standard): [unwinds] says which. *)

From Stdlib Require Import ZArith QArith Lia Ascii String.
From stdpp Require Import prelude strings gmap.
From S2P Require Import Prelude Common Types IdGen IdGenMgr KVStoreBase RocksDB Conflict Serde Tables Proto.
From S2P Require Import Service System Namespace Fuse.

#[local] Open Scope Z_scope.

(** ** The client *)

(** What libfuse and gRPC answer. *)
Record Outside := {
  parse_cmdline : Z;          (* fuse_parse_cmdline *)
  singlethread : bool;
  foreground : bool;
  mountpoint : bool;          (* a mountpoint was given *)
  create_channel : bool;      (* the pointers that are not null *)
  new_stub : bool;
  session_new : bool;
  set_signal_handlers : Z;
  session_mount : Z;
  daemonize : Z;
  session_loop : Z;           (* zero, an error, or the signal that ended the loop *)
}.

Inductive effect :=
| ArgsInit | CmdlineParsed | MountpointOwned | ProxyCreated | SessionCreated | SignalHandlersSet | Mounted
| StayedInForeground | LoopEnded
| ArgsFreed | MountpointFreed | SessionDestroyed | SignalHandlersRemoved | Unmounted.

#[global] Instance effect_eq_dec : EqDecision effect.
Proof. solve_decision. Defined.

Section main.
Context (unwinds : bool).

(** The effects so far, the first one first. *)
Definition does (e : effect) : M (list effect) unit := modify (λ t, t ++ [e]).

Definition DEFER {A} (cleanup : effect) (rest : M (list effect) A) : M (list effect) A := λ t,
  match rest t with
  | (Ret a, t) => (Ret a, t ++ [cleanup])
  | (Throw w, t) => (Throw w, if unwinds then t ++ [cleanup] else t)
  | (Undef, t) => (Undef, t)
  end.

Definition main_options : FuseOptions :=
  {| server_endpoint := "localhost:50051"; remote_mountpoint := "/"; rpc_timeout_ms := 1000;
     entry_generation := 0; attr_timeout_sec := 0%Q; entry_timeout_sec := 0%Q |}.

Definition FuseOpsProxy_make (o : Outside) : M (list effect) unit :=
  do! Check (create_channel o)
        "grpc::CreateChannel( fuse_options_.server_endpoint, grpc::InsecureChannelCredentials()) != nullptr" in
  do! Check (new_stub o) "ClientNamenodeService::NewStub(namenode_channel_) != nullptr" in
  does ProxyCreated.

Definition fuse_main (o : Outside) : M (list effect) Z :=
  do! does ArgsInit in
  DEFER ArgsFreed (
    do! Check (parse_cmdline o =? 0) "(fuse_parse_cmdline(&args, &opts)) == (0)" in
    do! does CmdlineParsed in
    do! Check (singlethread o && foreground o) "opts.singlethread && opts.foreground" in
    do! Check (mountpoint o) "opts.mountpoint != nullptr" in
    do! does MountpointOwned in
    DEFER MountpointFreed (
      do! FuseOpsProxy_make o in
      do! Check (session_new o)
            "fuse_session_new(&args, &rocketfs::gFuseLowlevelOps, sizeof(rocketfs::gFuseLowlevelOps), nullptr) != nullptr" in
      do! does SessionCreated in
      DEFER SessionDestroyed (
        do! Check (set_signal_handlers o =? 0) "(fuse_set_signal_handlers(session)) == (0)" in
        do! does SignalHandlersSet in
        DEFER SignalHandlersRemoved (
          do! Check (session_mount o =? 0) "(fuse_session_mount(session, opts.mountpoint)) == (0)" in
          do! does Mounted in
          DEFER Unmounted (
            do! Check (daemonize o =? 0) "(fuse_daemonize(true)) == (0)" in
            do! does StayedInForeground in
            do! does LoopEnded in
            do! Check (session_loop o =? 0) "(fuse_session_loop(session)) == (0)" in
            ret 0))))).
End main.

(** ** Specification: a stack of resources *)

(** What undoes an effect.  The mountpoint's string has an owner only once the flags and
    the string itself were checked, and the proxy is destroyed after [main]. *)
Definition undo (e : effect) : option effect :=
  match e with
  | ArgsInit => Some ArgsFreed
  | MountpointOwned => Some MountpointFreed
  | SessionCreated => Some SessionDestroyed
  | SignalHandlersSet => Some SignalHandlersRemoved
  | Mounted => Some Unmounted
  | _ => None
  end.

(** Every step was a success. *)
Definition all_well (o : Outside) : bool :=
  (parse_cmdline o =? 0) && singlethread o && foreground o && mountpoint o &&
  create_channel o && new_stub o && session_new o && (set_signal_handlers o =? 0) &&
  (session_mount o =? 0) && (daemonize o =? 0) && (session_loop o =? 0).

Definition steps_up : list effect :=
  [ArgsInit; CmdlineParsed; MountpointOwned; ProxyCreated; SessionCreated; SignalHandlersSet; Mounted;
   StayedInForeground; LoopEnded].

(** ** The namenode *)

Section service.
Context {K T : Type} `{KVStoreBase K T, DirTableBase T, DEntViewBase T, Fmt, Build, Flags}.

Inductive exit_state :=
| Exited (code : Z)
| Threw (what : string)
| UndefinedBehaviour
| Runs.                         (* it waits for its manager's thread *)

(** The manager's thread ends the [Update] it is in. *)
Definition finish_update (s : Srv K) : outcome unit * IDGen :=
  match srv_loaded s with
  | Some (ts, raw_id) => UpdateLoaded ts raw_id (srv_gen s)
  | None => (Ret tt, srv_gen s)
  end.

(** [main] with a gRPC context that serves requests, between steps of the manager's
    thread, and then runs out of work ([es]); [readings] are those of the clock in the
    passes of that thread after that. *)
Definition service_main (fuel : nat) (es : list srv_event) (readings : nat → list Z) (k : K) :
    exit_state :=
  match NameNodeCtx_Start k with
  | Throw w => Threw w
  | Undef => UndefinedBehaviour
  | Ret c =>
      match run_events (T := T) es (srv_start c) with
      | (Throw w, _) => Threw w
      | (Undef, _) => UndefinedBehaviour
      | (Ret _, s) =>
          match finish_update s with
          | (Throw w, _) => Threw w
          | (Undef, _) => UndefinedBehaviour
          | (Ret _, g) =>
              match (Stop fuel readings 0 {| thread_ := true; id_generators_ := [g] |}).1 with
              | Stopped => Exited 0
              | StopThrew w => Threw w
              | Joining => Runs
              | Terminated => Threw "std::terminate"
              end
          end
      end
  end.
End service.

(** ** Theorems *)

(** The client's [main] acquires its resources in one order and
    stops at the first step that fails, with an exception; it returns only when all
    went well, 0 then.  Its resources are released in the reverse order, those that
    were acquired and no others, when it returns or the implementation unwinds the
    stack; without unwinding a failed check releases nothing: a client whose loop ends
    with a signal leaves its file system mounted. *)
Theorem client_releases_in_reverse (unwinds : bool) (o : Outside) :
  ∃ r up, up `prefix_of` steps_up ∧
    fuse_main unwinds o [] =
      (r, up ++ (if unwinds || all_well o then reverse (omap undo up) else [])) ∧
    (if all_well o then r = Ret 0 ∧ up = steps_up else ∃ w, r = Throw ("Check failed: " +:+ w)%string) ∧
    (session_loop o ≠ 0 → unwinds = false → Unmounted ∉ (fuse_main unwinds o []).2).
Proof.
  assert (∃ r n, fuse_main unwinds o [] =
    (r, take n steps_up ++ (if unwinds || all_well o then reverse (omap undo (take n steps_up)) else [])) ∧
    if all_well o then r = Ret 0 ∧ n = 9%nat else ∃ w, r = Throw ("Check failed: " +:+ w)%string)
    as (r & n & E & Hr).
  { unfold fuse_main, FuseOpsProxy_make, all_well.
    destruct o as [p st fg mp ch stub ses sig mnt dm lp].
    cbn [parse_cmdline singlethread foreground mountpoint create_channel new_stub session_new
      set_signal_handlers session_mount daemonize session_loop].
    destruct (p =? 0); [|eexists _, 1%nat; split; [by destruct unwinds|by eexists]].
    destruct st; [|eexists _, 2%nat; split; [by destruct unwinds|by eexists]].
    destruct fg; [|eexists _, 2%nat; split; [by destruct unwinds|by eexists]].
    destruct mp; [|eexists _, 2%nat; split; [by destruct unwinds|by eexists]].
    destruct ch; [|eexists _, 3%nat; split; [by destruct unwinds|by eexists]].
    destruct stub; [|eexists _, 3%nat; split; [by destruct unwinds|by eexists]].
    destruct ses; [|eexists _, 4%nat; split; [by destruct unwinds|by eexists]].
    destruct (sig =? 0); [|eexists _, 5%nat; split; [by destruct unwinds|by eexists]].
    destruct (mnt =? 0); [|eexists _, 6%nat; split; [by destruct unwinds|by eexists]].
    destruct (dm =? 0); [|eexists _, 7%nat; split; [by destruct unwinds|by eexists]].
    destruct (lp =? 0); eexists _, 9%nat; (split; [by destruct unwinds|by eexists]). }
  exists r, (take n steps_up). split; [apply prefix_take|]. split; [exact E|]. split.
  - destruct (all_well o); [|done]. by destruct Hr as [-> ->].
  - intros Hl%Z.eqb_neq ->. rewrite E. cbn [snd].
    assert (all_well o = false) as -> by (unfold all_well; rewrite Hl; apply andb_false_r).
    rewrite app_nil_r. intros Hin%elem_of_take. destruct Hin as (i & Hi & _).
    apply list_elem_of_lookup_2 in Hi. revert Hi. unfold steps_up.
    rewrite !elem_of_cons, elem_of_nil. naive_solver.
Qed.

Section service_exit.
Context {K T : Type} `{KVStoreBase K T, DirTableBase T, DEntViewBase T, Fmt, Build, Flags}.

(** The namenode's [main] never returns, whatever it was asked
    and for however long its last thread is given. *)
Theorem service_main_never_exits (fuel : nat) (es : list srv_event) (readings : nat → list Z) (k : K) code :
  service_main (T := T) fuel es readings k ≠ Exited code.
Proof.
  unfold service_main. destruct (NameNodeCtx_Start k) as [c|w|]; try done.
  destruct (run_events es (srv_start c)) as [[rs|w|] s]; try done.
  destruct (finish_update s) as [[[]|w|] g]; try done.
  unfold Stop. cbn [thread_ negb].
  pose proof (ThreadLoop_not_Ret fuel readings 0 [g]) as Hl.
  cbn [id_generators_]. by destruct (ThreadLoop _ _ _ _) as [[[[]|w|]|] gens].
Qed.
End service_exit.
