(* ===== verification/Startup.v ===== *)
(** How the objects of the namenode are put together: the constructors of namenode_ctx.cc,
    common/id_gen.cc, table/kv/kv_dir_table.cc, table/kv/kv_dent_view.cc and
    service/operation, with the pointers they check, and the start of [main] in
    client_namenode_service_main.cc.

    A pointer is the [bool] that says it is not null; what it points to is the state of
    the computation.  Elsewhere in the development these pointers are taken to be there;
    [operation_guards_context] and [constructors_pass] say why they may. *)

From Stdlib Require Import ZArith Lia Ascii String.
From stdpp Require Import prelude strings gmap.
From S2P Require Import Prelude Common Types IdGen IdGenMgr KVStoreBase RocksDB Conflict Serde Tables.
From S2P Require Import Proto Service System Namespace Main.

#[local] Open Scope Z_scope.

Definition CheckNotNull {S} (ptr : bool) (str : string) : M S unit := Check ptr str.

(** ** Operations of the service *)

Section operations.
Context {K T : Type} `{KVStoreBase K T, DirTableBase T, DEntViewBase T, Fmt, Build, Flags}.

(** The constructor of [HandlerCtx] starts a transaction through [namenode_ctx] before
    its body comes to the check of that pointer. *)
Definition HandlerCtx_new (namenode_ctx : bool) : M (NameNodeCtx K) (Handler K T) :=
  do! (if namenode_ctx then ret tt else undef) in
  let! handler := HandlerCtx_make in
  do! CheckNotNull namenode_ctx "namenode_ctx_ != nullptr" in
  ret handler.

Definition OpBase_new (namenode_ctx : bool) : M (NameNodeCtx K) (Handler K T) :=
  do! CheckNotNull namenode_ctx "namenode_ctx != nullptr" in
  HandlerCtx_new namenode_ctx.

Definition GetInodeOp_new (namenode_ctx : bool) : M (NameNodeCtx K) (Handler K T) :=
  do! CheckNotNull namenode_ctx "namenode_ctx != nullptr" in
  OpBase_new namenode_ctx.
Definition LookupOp_new (namenode_ctx : bool) : M (NameNodeCtx K) (Handler K T) :=
  do! CheckNotNull namenode_ctx "namenode_ctx != nullptr" in
  OpBase_new namenode_ctx.
Definition ListDirOp_new (namenode_ctx : bool) : M (NameNodeCtx K) (Handler K T) :=
  do! CheckNotNull namenode_ctx "namenode_ctx != nullptr" in
  OpBase_new namenode_ctx.
(** [MkdirsOp] is not derived from [OpBase]. *)
Definition MkdirsOp_new (namenode_ctx : bool) : M (NameNodeCtx K) (Handler K T) :=
  do! CheckNotNull namenode_ctx "namenode_ctx != nullptr" in
  HandlerCtx_new namenode_ctx.
(** [PingPongOp] keeps the pointer and checks nothing. *)
Definition PingPongOp_new (namenode_ctx : bool) : M (NameNodeCtx K) bool := ret namenode_ctx.

(** An operation made by [new], and its [Run]. *)
Definition new_and_Run {A} (new : M (NameNodeCtx K) (Handler K T)) (run : M (Handler K T) A) :
    M (NameNodeCtx K) A := λ c,
  match new c with
  | (Ret h, c) => let '(o, h) := run h in (o, namenode_ctx_ h)
  | (Throw w, c) => (Throw w, c)
  | (Undef, c) => (Undef, c)
  end.

(** The handler [RegisterRpcHandler] registers for each RPC. *)
Definition RegisterRpcHandler (namenode_ctx : bool) (now_ns : Z) (req : Request) :
    M (NameNodeCtx K) Response :=
  match req with
  | ReqPingPong r => let! _ := PingPongOp_new namenode_ctx in
                     let! p := PingPongOp_Run r in ret (RespPingPong p)
  | ReqGetInode r => let! p := new_and_Run (GetInodeOp_new namenode_ctx) (GetInodeOp_Run r) in
                     ret (RespGetInode p)
  | ReqLookup r => let! p := new_and_Run (LookupOp_new namenode_ctx) (LookupOp_Run r) in
                   ret (RespLookup p)
  | ReqListDir r => let! p := new_and_Run (ListDirOp_new namenode_ctx) (ListDirOp_Run r) in
                    ret (RespListDir p)
  | ReqMkdirs r => let! p := new_and_Run (MkdirsOp_new namenode_ctx) (MkdirsOp_Run now_ns r) in
                   ret (RespMkdirs p)
  end.
End operations.

(** ** Tables *)

Definition KVDirTable_new {S} (txn : bool) : M S unit := CheckNotNull txn "txn != nullptr".
Definition KVDEntView_new {S} (txn : bool) : M S unit := CheckNotNull txn "txn != nullptr".

(** ** The context of the process *)

Definition IDGenMgr_new {S} (time_util : bool) : M S IDGenMgr :=
  do! CheckNotNull time_util "time_util_ != nullptr" in
  ret {| thread_ := false; id_generators_ := [] |}.

Section start.
Context `{RocksDB, Fmt, Build, BigEndian, FlatBuffers, Flags}.

(** The members are initialised in the order the class declares them: the clock, the
    store, the manager. *)
Definition NameNodeCtx_new : outcome (RocksDBKVStore * IDGenMgr) :=
  match RocksDBKVStore_make with
  | Throw w => Throw w
  | Undef => Undef
  | Ret kv_store =>
      match IDGenMgr_new true tt with
      | (Ret mgr, _) => Ret (kv_store, mgr)
      | (Throw w, _) => Throw w
      | (Undef, _) => Undef
      end
  end.

(** [Stop] of the context is that of its manager. *)
Definition NameNodeCtx_Stop (fuel : nat) (readings : nat → list Z) (i : nat) (m : IDGenMgr) :
    stop_result * IDGenMgr := Stop fuel readings i m.

(** The address [main] listens on. *)
Definition listen_address (argv : list string) : string :=
  let port := match argv with _ :: port :: _ => port | _ => "50051"%string end in
  ("0.0.0.0:" +:+ port)%string.

(** [main] from its first line. *)
Definition service_process `{DirTableBase RocksDBTxn, DEntViewBase RocksDBTxn} (fuel : nat)
    (es : list srv_event) (readings : nat → list Z) : exit_state :=
  match NameNodeCtx_new with
  | Throw w => Threw w
  | Undef => UndefinedBehaviour
  | Ret (kv_store, _) => service_main (T := RocksDBTxn) fuel es readings kv_store
  end.
End start.

(** ** Theorems *)

Section guarded.
Context {K T : Type} `{KVStoreBase K T, DirTableBase T, DEntViewBase T, Fmt, Build, Flags}.

Lemma HandlerCtx_new_eval c : HandlerCtx_new true c = HandlerCtx_make c.
Proof.
  unfold HandlerCtx_new, CheckNotNull. rewrite (bind_Ret _ _ _ tt c eq_refl).
  unfold bind, Check. by destruct (HandlerCtx_make c) as [[h|w|] c'].
Qed.

Lemma new_and_Run_eval {A} new (run : M (Handler K T) A) c :
  new c = HandlerCtx_make c → new_and_Run new run c = with_handler run c.
Proof. intros E. unfold new_and_Run, with_handler. by rewrite E. Qed.

(** On the context of the process, constructing the operation of an RPC and running it
    is what [serve] does.  Without a context each operation but [PingPongOp], which
    needs none, is refused by the check of its constructor before anything else happens;
    the check in [HandlerCtx] itself would come too late. *)
Theorem operation_guards_context (now_ns : Z) (req : Request) (c : NameNodeCtx K) :
  RegisterRpcHandler true now_ns req c = serve now_ns req c ∧
  RegisterRpcHandler false now_ns req c =
    match req with
    | ReqPingPong _ => (Ret (RespPingPong {| pong := "" |}), c)
    | _ => (Throw "Check failed: namenode_ctx != nullptr.", c)
    end ∧
  HandlerCtx_new false c = (Undef, c).
Proof.
  split; [|split; [by destruct req|done]].
  destruct req as [r|r|r|r|r]; cbn [RegisterRpcHandler serve]; [done|..];
    unfold bind, GetInodeOp, LookupOp, ListDirOp, MkdirsOp;
    (rewrite new_and_Run_eval; [done|]); exact (HandlerCtx_new_eval c).
Qed.
End guarded.

Section started.
Context `{RocksDB, Fmt, Build, BigEndian, FlatBuffers, Flags}.

(** The only constructor that can fail when the process starts is that of the store, and
    those of the tables pass on the transaction a [HandlerCtx] has just made. *)
Theorem constructors_pass :
  NameNodeCtx_new =
    match RocksDBKVStore_make with
    | Ret kv_store => Ret (kv_store, {| thread_ := false; id_generators_ := [] |})
    | Throw w => Throw w
    | Undef => Undef
    end ∧
  ∀ S (s : S), KVDirTable_new true s = (Ret tt, s) ∧ KVDEntView_new true s = (Ret tt, s).
Proof. split; [unfold NameNodeCtx_new; by destruct RocksDBKVStore_make|done]. Qed.

(** The process never exits by returning from [main]. *)
Theorem service_process_never_exits `{DirTableBase RocksDBTxn, DEntViewBase RocksDBTxn} (fuel : nat)
    (es : list srv_event) (readings : nat → list Z) (code : Z) :
  service_process fuel es readings ≠ Exited code.
Proof.
  unfold service_process. destruct NameNodeCtx_new as [[k m]|w|]; try done.
  apply service_main_never_exits.
Qed.
End started.
